(** * ACP UI: protocol bridge, session store and traffic recorder

    A shallow embedding of the TypeScript sources
      - [src/lib/acp-bridge.ts]   (class [AcpClientBridge]),
      - [src/stores/session.ts]   (the pinia store [useSessionStore]),
      - [src/stores/traffic.ts]   (the pinia store [useTrafficStore]),
    together with the properties of the protocol bridge and of the session
    orchestrator that are stated about them.

    Conventions of the embedding.
      - JavaScript strings are [string]; [+=] on strings is [String.append].
      - JavaScript numbers that the code only uses as integers (request
        identifiers, line numbers, millisecond clocks) are [Z] or [N].
      - A JavaScript [Map] is a [gmap]; an array is a [list], mutated in place
        through stdpp's [alter]/insert at an index.
      - [crypto.randomUUID()] and [Date.now()] are inputs supplied by the
        environment to the operation that calls them.
      - An [async] function is a computation that suspends at each [await];
        what the awaited promise settles to is supplied by the environment. *)

From Stdlib Require Import ZArith NArith String Ascii List Lia Bool Sorted.
From stdpp Require Import base tactics option list gmap strings pretty.

Open Scope string_scope.
Open Scope list_scope.
Open Scope Z_scope.

(** ** JavaScript values and array helpers *)

(** Values typed [unknown] in the source (request parameters, results). *)
Inductive json : Type :=
| JNull
| JBool (b : bool)
| JNum (n : Z)
| JStr (s : string)
| JText (serialised : string).   (* an array or an object, kept as its JSON text *)

(** [Array.prototype.slice]: a negative index counts from the end of the
    array, and both indices are clamped to [0 .. length]. *)
Definition relative_index (len i : Z) : Z :=
  if i <? 0 then Z.max (len + i) 0 else Z.min i len.

Definition js_slice {A : Type} (l : list A) (start stop : Z) : list A :=
  let len := Z.of_nat (length l) in
  let k := relative_index len start in
  let final := relative_index len stop in
  take (Z.to_nat (final - k)) (drop (Z.to_nat k) l).

(** [l.slice(start)]: the end index defaults to the length. *)
Definition js_slice_from {A : Type} (l : list A) (start : Z) : list A :=
  js_slice l start (Z.of_nat (length l)).

(** ** The traffic recorder ([src/stores/traffic.ts]) *)

Module Traffic.

Inductive TrafficDirection := dir_in | dir_out.
Inductive TrafficType := request | response | notification.
Inductive TrafficFilter := f_all | f_requests | f_responses | f_notifications.

(** [number | string] request identifiers. *)
Inductive RequestId := NumId (n : Z) | StrId (s : string).

(** [Omit<TrafficEntry, 'id' | 'timestamp'>]: what a caller hands over. *)
Record EntryInput := {
  in_direction : TrafficDirection;
  in_type : TrafficType;
  in_method : string;
  in_requestId : option RequestId;
  in_payload : json;
  in_error : option bool
}.

Record TrafficEntry := {
  id : string;
  timestamp : Z;
  direction : TrafficDirection;
  type : TrafficType;
  method : string;
  requestId : option RequestId;
  payload : json;
  error : option bool
}.

Definition MAX_ENTRIES : nat := 500.

Record store := {
  entries : list TrafficEntry;
  isPaused : bool;
  filter : TrafficFilter;
  searchQuery : string
}.

Definition initial : store :=
  {| entries := []; isPaused := false; filter := f_all; searchQuery := "" |}.

Definition set_entries (l : list TrafficEntry) (st : store) : store :=
  {| entries := l; isPaused := isPaused st;
     filter := filter st; searchQuery := searchQuery st |}.

(** [{ ...entry, id: crypto.randomUUID(), timestamp: Date.now() }] *)
Definition newEntry (entry : EntryInput) (uuid : string) (now : Z) : TrafficEntry :=
  {| id := uuid; timestamp := now;
     direction := in_direction entry; type := in_type entry;
     method := in_method entry; requestId := in_requestId entry;
     payload := in_payload entry; error := in_error entry |}.

(** [addEntry]: [uuid] and [now] are what [crypto.randomUUID()] and
    [Date.now()] return during the call. *)
Definition addEntry (entry : EntryInput) (uuid : string) (now : Z) (st : store) : store :=
  if isPaused st then st
  else
    let pushed := entries st ++ [newEntry entry uuid now] in
    if (MAX_ENTRIES <? length pushed)%nat
    then set_entries (js_slice_from pushed (- Z.of_nat MAX_ENTRIES)) st
    else set_entries pushed st.

Definition clear (st : store) : store := set_entries [] st.

Definition togglePause (st : store) : store :=
  {| entries := entries st; isPaused := negb (isPaused st);
     filter := filter st; searchQuery := searchQuery st |}.

(** The calls a client of the store can make on the recorder. *)
Inductive op :=
| Add (entry : EntryInput) (uuid : string) (now : Z)
| Clear
| TogglePause.

Definition apply_op (st : store) (o : op) : store :=
  match o with
  | Add e uuid now => addEntry e uuid now st
  | Clear => clear st
  | TogglePause => togglePause st
  end.

Definition run (ops : list op) (st : store) : store := foldl apply_op st ops.

Definition add_all (adds : list (EntryInput * string * Z)) (st : store) : store :=
  foldl (fun s '(e, uuid, now) => addEntry e uuid now s) st adds.

Definition stamped (a : EntryInput * string * Z) : TrafficEntry :=
  let '(e, uuid, now) := a in newEntry e uuid now.

(** The most recent [n] elements of a list, oldest first. *)
Definition most_recent {A : Type} (n : nat) (l : list A) : list A :=
  drop (length l - n) l.

End Traffic.

(** ** JavaScript strings *)

Definition newline : ascii := ascii_of_nat 10.

(** [s.split(sep)] for a one-character separator: always at least one piece. *)
Fixpoint split_on (sep : ascii) (s : string) : list string :=
  match s with
  | EmptyString => [EmptyString]
  | String c rest =>
      if Ascii.eqb c sep then EmptyString :: split_on sep rest
      else match split_on sep rest with
           | [] => [String c EmptyString]
           | piece :: pieces => String c piece :: pieces
           end
  end.

(** [pieces.join(sep)] for a one-character separator. *)
Fixpoint join_with (sep : ascii) (pieces : list string) : string :=
  match pieces with
  | [] => EmptyString
  | [piece] => piece
  | piece :: more => String.append piece (String sep (join_with sep more))
  end.

(** The strings of this model are sequences of 8-bit characters, those of
    JavaScript sequences of UTF-16 code units. A string of the model stands
    for the JavaScript string with the same characters when all of them are
    ASCII: then a character is one code unit, so [length], [slice] and
    [includes] count the same positions, and [toLowerCase] changes the
    letters A to Z and nothing else. *)
Definition ascii_char (c : ascii) : bool := (nat_of_ascii c <? 128)%nat.

Fixpoint ascii_only (s : string) : bool :=
  match s with
  | EmptyString => true
  | String c rest => ascii_char c && ascii_only rest
  end.

(** [s.toLowerCase()] for a string of ASCII characters. *)
Definition lower_char (c : ascii) : ascii :=
  let n := nat_of_ascii c in
  if ((65 <=? n) && (n <=? 90))%nat then ascii_of_nat (n + 32) else c.

Fixpoint toLowerCase (s : string) : string :=
  match s with
  | EmptyString => EmptyString
  | String c rest => String (lower_char c) (toLowerCase rest)
  end.

(** [s.includes(pattern)] *)
Fixpoint includes (s pattern : string) : bool :=
  String.prefix pattern s ||
  match s with
  | EmptyString => false
  | String _ rest => includes rest pattern
  end.

(** Truthiness of an optional string ([if (x)]): absent and empty are falsy. *)
Definition truthy (o : option string) : option string :=
  match o with
  | Some EmptyString => None
  | _ => o
  end.

(** [x !== undefined] *)
Definition present {A : Type} (o : option A) : bool :=
  match o with
  | Some _ => true
  | None => false
  end.

(** Truthiness of an optional number: absent and [0] are falsy. *)
Definition truthy_num (o : option Z) : option Z :=
  match o with
  | Some 0 => None
  | _ => o
  end.

(** ** Types of the Agent Client Protocol SDK used by the sources *)

Module Acp.

(** [ContentBlock]: only [type === 'text'] is told apart by the sources. *)
Inductive ContentBlock :=
| TextContent (text : string)
| OtherContent (type : string).

Inductive ToolCallStatus := pending | in_progress | completed | failed.

Record AvailableCommand := {
  cmd_name : string;
  cmd_description : string;
  cmd_input_hint : option string
}.

(** [SessionNotification['update']], a union tagged by [sessionUpdate]. *)
Inductive SessionUpdate :=
| user_message_chunk (content : ContentBlock)
| agent_message_chunk (content : ContentBlock)
| agent_thought_chunk (content : ContentBlock)
| tool_call (toolCallId title : string) (kind : option string)
    (status : option ToolCallStatus) (locations : option (list string))
| tool_call_update (toolCallId : string) (status : option ToolCallStatus)
    (title : option string)
| current_mode_update (modeId : option string)
| available_commands_update (availableCommands : option (list AvailableCommand))
| other_update (sessionUpdate : string).

Record SessionNotification := {
  sn_sessionId : string;
  update : SessionUpdate
}.

Record AuthMethod := {
  am_id : string;
  am_name : string
}.

Record InitializeResponse := {
  loadSession : option bool;             (* agentCapabilities?.loadSession *)
  authMethods : option (list AuthMethod)
}.

Record SessionMode := {
  mode_id : string;
  mode_name : string;
  mode_description : option string
}.

Record SessionModeState := {
  modes_available : option (list SessionMode);
  modes_current : option string
}.

Record ModelInfo := {
  modelId : string;
  model_name : string;
  model_description : option string
}.

Record SessionModelState := {
  models_available : option (list ModelInfo);
  models_current : option string
}.

Record NewSessionResponse := {
  sessionId : string;
  modes : option SessionModeState;
  models : option SessionModelState
}.

Record ReadTextFileRequest := {
  read_path : string;
  line : option Z;
  limit : option Z
}.

Record WriteTextFileRequest := {
  write_path : string;
  write_content : string
}.

Record PermissionOption := {
  opt_kind : string;
  opt_name : string;
  optionId : string
}.

(** [params.toolCall] of a permission request: every field but the
    identifier may be missing. *)
Record ToolCallUpdate := {
  tcu_toolCallId : string;
  tcu_title : option string;
  tcu_kind : option string;
  tcu_status : option ToolCallStatus;
  tcu_locations : option (list string)
}.

Record RequestPermissionRequest := {
  rp_sessionId : string;
  rp_toolCall : ToolCallUpdate;
  rp_options : list PermissionOption
}.

Inductive RequestPermissionOutcome :=
| selected (optionId : string)
| cancelled.

End Acp.

(** ** Application types ([src/lib/types.ts]) *)

Module Types.

Record ToolCallInfo := {
  toolCallId : string;
  title : string;
  kind : string;
  status : Acp.ToolCallStatus;
  locations : option (list string)
}.

Record PermissionRequest := {
  pr_sessionId : string;
  pr_toolCall : ToolCallInfo;
  pr_options : list Acp.PermissionOption
}.

Inductive Role := user | assistant | system.

(** [ChatMessage]; the session store also sets a [thought] field on it. *)
Record ChatMessage := {
  id : string;
  role : Role;
  content : string;
  thought : option string;
  timestamp : Z;
  toolCalls : option (list ToolCallInfo)
}.

Record SavedSession := {
  ss_id : string;
  agentName : string;
  sessionId : string;
  ss_title : string;
  lastUpdated : Z;
  cwd : string;
  supportsLoadSession : option bool
}.

Record AgentInstance := {
  agent_id : string;
  agent_name : string
}.

End Types.

(** ** The protocol bridge ([src/lib/acp-bridge.ts]) *)

Module Bridge.
Import Acp.

(** A JSON-RPC identifier as it can come off the wire. The bridge's own
    requests are numbered from [0] by [nextRequestId++]. *)
Inductive rpc_id := IdNum (n : Z) | IdStr (s : string) | IdNull.

#[global] Instance rpc_id_eq_dec : EqDecision rpc_id.
Proof. solve_decision. Defined.

(** [parsed.error] of a response. *)
Record wire_error := {
  code : Z;
  message : option string
}.

(** [params] of an inbound frame, seen through the unchecked casts
    [params as ReadTextFileRequest] and the like. *)
Inductive params :=
| ReadParams (p : ReadTextFileRequest)
| WriteParams (p : WriteTextFileRequest)
| PermissionParams (p : RequestPermissionRequest)
| UpdateParams (p : SessionNotification)
| OtherParams (j : json).

(** The object [JSON.parse(message)] yields. [f_id] is [None] when the
    property [id] is absent, [f_method] when [method] is absent, [f_error]
    when [error] is absent or falsy. *)
Record frame := {
  f_id : option rpc_id;
  f_method : option string;
  f_params : params;
  f_result : json;
  f_error : option wire_error
}.

(** What an [await]ed handler does: return a value or throw; [Throws]
    carries [e instanceof Error ? e.message : String(e)]. *)
Inductive outcome (A : Type) :=
| Returns (a : A)
| Throws (e : string).
Arguments Returns {A} a.
Arguments Throws {A} e.

(** The [result] member of a response of the bridge. *)
Inductive result :=
| ReadResult (content : string)                 (* { content } *)
| WriteResult                                   (* {} *)
| PermissionResult (o : RequestPermissionOutcome).   (* { outcome } *)

(** A line handed to [sendToAgent], before [JSON.stringify]. *)
Inductive out_frame :=
| Request (id : Z) (method : string) (args : json)
| Notification (method : string) (args : json)
| Response (id : rpc_id) (r : result)
| ErrorResponse (id : rpc_id) (code : Z) (message : string).

(** A promise created by [sendRequest], named after the request. *)
Definition promise := Z.

(** A call of one of the two functions of a promise. *)
Inductive settlement :=
| resolve (value : json)
| reject (error : string).

Record invocation := {
  target : promise;
  how : settlement
}.

(** A call of [@tauri-apps/plugin-fs] that a [handleRequest] call awaits:
    what was asked of the plugin, and the request that will be answered
    when the promise of the call settles. *)
Inductive file_call :=
| reading (p : ReadTextFileRequest)
| writing (p : WriteTextFileRequest).

Record suspended := {
  answering : rpc_id;
  asked : file_call
}.

(** A callback registered by [setTimeout] that has not run yet. *)
Record timer := {
  due : N;
  timer_id : Z;
  timer_method : string
}.

(** The fields of an [AcpClientBridge]. [messageResolvers] and
    [messageRejecters] hold, per request identifier, the functions of the
    promise [sendRequest] returned; [permissionResolver] holds the
    continuation of the [handleRequest] call that awaits the decision,
    which is determined by the identifier it will answer. *)
Record bridge := {
  agentId : string;
  messageResolvers : gmap Z promise;
  messageRejecters : gmap Z promise;
  pendingMethods : gmap Z string;
  nextRequestId : Z;
  pendingPermissionRequest : option Types.PermissionRequest;
  permissionResolver : option rpc_id;
  onSessionUpdate : bool
}.

(** The bridge in its surroundings: the millisecond clock, the timers and
    the [sendToAgent] promises that are still open, the calls of the file
    plugin made so far, in order ([None] once the promise of the call has
    settled), and what has been observed so far: the frames sent, the calls
    of [resolve]/[reject], the notifications handed to [onSessionUpdate].
    Lists grow at the end. *)
Record world := {
  client : bridge;
  now : N;
  timers : list timer;
  sending : gset Z;
  file_calls : list (option suspended);
  outbox : list out_frame;
  invoked : list invocation;
  delivered : list SessionNotification
}.

Definition new_bridge (agent : string) : bridge :=
  {| agentId := agent; messageResolvers := ∅; messageRejecters := ∅;
     pendingMethods := ∅; nextRequestId := 0;
     pendingPermissionRequest := None; permissionResolver := None;
     onSessionUpdate := false |}.

Definition new_world (agent : string) : world :=
  {| client := new_bridge agent; now := 0%N; timers := []; sending := ∅;
     file_calls := []; outbox := []; invoked := []; delivered := [] |}.

(** *** Field updates *)

Definition with_calls (res rej : gmap Z promise) (meth : gmap Z string)
    (b : bridge) : bridge :=
  {| agentId := agentId b; messageResolvers := res; messageRejecters := rej;
     pendingMethods := meth; nextRequestId := nextRequestId b;
     pendingPermissionRequest := pendingPermissionRequest b;
     permissionResolver := permissionResolver b;
     onSessionUpdate := onSessionUpdate b |}.

Definition with_next (n : Z) (b : bridge) : bridge :=
  {| agentId := agentId b; messageResolvers := messageResolvers b;
     messageRejecters := messageRejecters b;
     pendingMethods := pendingMethods b; nextRequestId := n;
     pendingPermissionRequest := pendingPermissionRequest b;
     permissionResolver := permissionResolver b;
     onSessionUpdate := onSessionUpdate b |}.

Definition with_permission (req : option Types.PermissionRequest)
    (k : option rpc_id) (b : bridge) : bridge :=
  {| agentId := agentId b; messageResolvers := messageResolvers b;
     messageRejecters := messageRejecters b;
     pendingMethods := pendingMethods b; nextRequestId := nextRequestId b;
     pendingPermissionRequest := req; permissionResolver := k;
     onSessionUpdate := onSessionUpdate b |}.

Definition with_client (b : bridge) (w : world) : world :=
  {| client := b; now := now w; timers := timers w; sending := sending w;
     file_calls := file_calls w;
     outbox := outbox w; invoked := invoked w; delivered := delivered w |}.

Definition with_clock (t : N) (ts : list timer) (w : world) : world :=
  {| client := client w; now := t; timers := ts; sending := sending w;
     file_calls := file_calls w;
     outbox := outbox w; invoked := invoked w; delivered := delivered w |}.

Definition with_sending (s : gset Z) (w : world) : world :=
  {| client := client w; now := now w; timers := timers w; sending := s;
     file_calls := file_calls w;
     outbox := outbox w; invoked := invoked w; delivered := delivered w |}.

Definition with_file_calls (l : list (option suspended)) (w : world) : world :=
  {| client := client w; now := now w; timers := timers w;
     sending := sending w; file_calls := l;
     outbox := outbox w; invoked := invoked w; delivered := delivered w |}.

(** [sendToAgent(this.agentId, JSON.stringify(f))] *)
Definition send (f : out_frame) (w : world) : world :=
  {| client := client w; now := now w; timers := timers w;
     sending := sending w; file_calls := file_calls w;
     outbox := outbox w ++ [f];
     invoked := invoked w; delivered := delivered w |}.

(** Calling [resolve(v)] or [reject(e)] of promise [p]. *)
Definition invoke (p : promise) (s : settlement) (w : world) : world :=
  {| client := client w; now := now w; timers := timers w;
     sending := sending w; file_calls := file_calls w; outbox := outbox w;
     invoked := invoked w ++ [{| target := p; how := s |}];
     delivered := delivered w |}.

Definition deliver (n : SessionNotification) (w : world) : world :=
  {| client := client w; now := now w; timers := timers w;
     sending := sending w; file_calls := file_calls w;
     outbox := outbox w; invoked := invoked w;
     delivered := delivered w ++ [n] |}.

(** [await tauriReadTextFile(...)] and [await tauriWriteTextFile(...)] in
    the [handleRequest] call for request [id]: the plugin is called and the
    handler is suspended. *)
Definition suspend (id : rpc_id) (c : file_call) (w : world) : world :=
  with_file_calls (file_calls w ++ [Some {| answering := id; asked := c |}]) w.

(** The three [delete(id)] calls that drop a pending call. *)
Definition forget (id : Z) (w : world) : world :=
  let b := client w in
  with_client (with_calls (delete id (messageResolvers b))
                          (delete id (messageRejecters b))
                          (delete id (pendingMethods b)) b) w.

(** [map.get(parsed.id)]: the keys are numbers, so only a numeric
    identifier can be found. *)
Definition get {V : Type} (m : gmap Z V) (id : rpc_id) : option V :=
  match id with
  | IdNum n => m !! n
  | _ => None
  end.

Definition delete_id {V : Type} (id : rpc_id) (m : gmap Z V) : gmap Z V :=
  match id with
  | IdNum n => delete n m
  | _ => m
  end.

(** *** Outbound requests *)

Definition REQUEST_TIMEOUT : N := 60000.

Definition falsy (j : json) : bool :=
  match j with
  | JNull | JBool false | JNum 0 | JStr EmptyString => true
  | _ => false
  end.

(** [params || {}] *)
Definition or_empty_object (args : option json) : json :=
  match args with
  | Some j => if falsy j then JText "{}" else j
  | None => JText "{}"
  end.

(** [sendRequest(method, params)], up to the point where it returns its
    promise: the identifier is taken, the two functions of the new promise
    are stored, the frame is handed to [sendToAgent] and the timer is set. *)
Definition sendRequest (method : string) (args : option json) (w : world) : world :=
  let b := client w in
  let id := nextRequestId b in
  let b := with_next (id + 1) b in
  let b := with_calls (messageResolvers b) (messageRejecters b)
                      (<[id := method]> (pendingMethods b)) b in
  let b := with_calls (<[id := id]> (messageResolvers b))
                      (<[id := id]> (messageRejecters b))
                      (pendingMethods b) b in
  let w := with_client b w in
  let w := with_sending ({[ id ]} ∪ sending w)
             (send (Request id method (or_empty_object args)) w) in
  with_clock (now w)
    (timers w ++ [{| due := (now w + REQUEST_TIMEOUT)%N;
                     timer_id := id; timer_method := method |}]) w.

(** The [.catch] handler of the [sendToAgent] promise of request [id]. *)
Definition send_failed (id : Z) (e : string) (w : world) : world :=
  invoke id (reject e) (forget id w).

(** The [setTimeout] callback of request [id]. *)
Definition timeout (t : timer) (w : world) : world :=
  if decide (is_Some (messageResolvers (client w) !! timer_id t))
  then invoke (timer_id t)
         (reject (String.append "Request timeout: " (timer_method t)))
         (forget (timer_id t) w)
  else w.

(** [parsed.error.message || 'Unknown error'] *)
Definition error_message (e : wire_error) : string :=
  match truthy (message e) with
  | Some m => m
  | None => "Unknown error"
  end.

(** The response branch of [handleMessage]. *)
Definition handleResponse (id : rpc_id) (parsed : frame) (w : world) : world :=
  let b := client w in
  let b := with_calls (messageResolvers b) (messageRejecters b)
                      (delete_id id (pendingMethods b)) b in
  match get (messageResolvers b) id, get (messageRejecters b) id with
  | Some resolver, Some rejecter =>
      let b := with_calls (delete_id id (messageResolvers b))
                          (delete_id id (messageRejecters b))
                          (pendingMethods b) b in
      let w := with_client b w in
      match f_error parsed with
      | Some e => invoke rejecter (reject (error_message e)) w
      | None => invoke resolver (resolve (f_result parsed)) w
      end
  | _, _ => with_client b w
  end.

(** *** Inbound requests *)

(** [readTextFile]'s treatment of [line] and [limit], on the text of the
    file. *)
Definition select_lines (p : ReadTextFileRequest) (content : string) : string :=
  if present (line p) || present (limit p) then
    let lines := split_on newline content in
    let startLine := match truthy_num (line p) with
                     | Some l => l - 1
                     | None => 0
                     end in
    let endLine := match truthy_num (limit p) with
                   | Some k => startLine + k
                   | None => Z.of_nat (length lines)
                   end in
    join_with newline (js_slice lines startLine endLine)
  else content.

(** [requestPermission]'s copy of the request into the bridge. *)
Definition local_request (p : RequestPermissionRequest) : Types.PermissionRequest :=
  let tc := rp_toolCall p in
  {| Types.pr_sessionId := rp_sessionId p;
     Types.pr_toolCall :=
       {| Types.toolCallId := tcu_toolCallId tc;
          Types.title := default "" (tcu_title tc);
          Types.kind := default "other" (tcu_kind tc);
          Types.status := default pending (tcu_status tc);
          Types.locations := tcu_locations tc |};
     Types.pr_options :=
       map (fun opt => {| opt_kind := opt_kind opt; opt_name := opt_name opt;
                          optionId := optionId opt |}) (rp_options p) |}.

(** How far [handleRequest] gets in the turn in which the request arrives:
    it has an error, or it waits, for the file plugin or for the permission
    decision; [HasResult] is what it has when the wait is over. *)
Inductive handled :=
| HasResult (r : result)
| HasError (code : Z) (message : string)
| Waiting.

Definition TYPE_ERROR : string := "TypeError".

Section WithFileAccess.

(** [@tauri-apps/plugin-fs]: reading yields the text or throws; writing
    succeeds or throws. *)
Context (tauriReadTextFile : string -> outcome string)
        (tauriWriteTextFile : string -> string -> outcome unit).

Definition readTextFile (p : ReadTextFileRequest) : outcome string :=
  match tauriReadTextFile (read_path p) with
  | Returns content => Returns (select_lines p content)
  | Throws e => Throws e
  end.

Definition writeTextFile (p : WriteTextFileRequest) : outcome unit :=
  match tauriWriteTextFile (write_path p) (write_content p) with
  | Returns _ => Returns tt
  | Throws e => Throws e
  end.

(** What [handleRequest] has when the call of the plugin has settled:
    the result, or the error the [catch] makes of what was thrown. *)
Definition file_result (c : file_call) : handled :=
  match c with
  | reading p =>
      match readTextFile p with
      | Returns content => HasResult (ReadResult content)
      | Throws e => HasError (-32603) e
      end
  | writing p =>
      match writeTextFile p with
      | Returns _ => HasResult WriteResult
      | Throws e => HasError (-32603) e
      end
  end.

(** The [try { switch (method) ... } catch] of [handleRequest], as far as
    it gets in the turn in which the request arrives. The model follows
    the parameters of the shape the case casts them to; for any others the
    handler is taken to throw when it reads them, as it does when there are
    none. *)
Definition dispatch (id : rpc_id) (method : string) (args : params)
    (w : world) : handled * world :=
  if decide (method = "fs/read_text_file") then
    match args with
    | ReadParams p => (Waiting, suspend id (reading p) w)
    | _ => (HasError (-32603) TYPE_ERROR, w)
    end
  else if decide (method = "fs/write_text_file") then
    match args with
    | WriteParams p => (Waiting, suspend id (writing p) w)
    | _ => (HasError (-32603) TYPE_ERROR, w)
    end
  else if decide (method = "session/request_permission") then
    match args with
    | PermissionParams p =>
        (Waiting,
         with_client (with_permission (Some (local_request p)) (Some id)
                        (client w)) w)
    | _ => (HasError (-32603) TYPE_ERROR, w)
    end
  else (HasError (-32601) (String.append "Method not found: " method), w).

(** The tail of [handleRequest]: build the response and send it. *)
Definition answer (id : rpc_id) (h : handled) (w : world) : world :=
  match h with
  | HasResult r => send (Response id r) w
  | HasError c m => send (ErrorResponse id c m) w
  | Waiting => w
  end.

Definition handleRequest (id : rpc_id) (method : string) (args : params)
    (w : world) : world :=
  let '(h, w) := dispatch id method args w in
  answer id h w.

Definition handleNotification (method : string) (args : params)
    (w : world) : world :=
  if decide (method = "session/update") then
    if onSessionUpdate (client w) then
      match args with
      | UpdateParams n => deliver n w
      | _ => w
      end
    else w
  else w.

(** [handleMessage(message)]; [None] is a line [JSON.parse] rejects. *)
Definition handleMessage (line : option frame) (w : world) : world :=
  match line with
  | None => w
  | Some parsed =>
      let w := match f_id parsed, f_method parsed with
               | Some id, None => handleResponse id parsed w
               | _, _ => w
               end in
      let w := match f_id parsed, f_method parsed with
               | Some id, Some method =>
                   handleRequest id method (f_params parsed) w
               | _, _ => w
               end in
      match f_id parsed, truthy (f_method parsed) with
      | None, Some method => handleNotification method (f_params parsed) w
      | _, _ => w
      end
  end.

(** [resolvePermission] and [cancelPermission]: the stored continuation
    receives the outcome, and the [handleRequest] call it belongs to
    runs to its end. *)
Definition decide_permission (o : RequestPermissionOutcome) (w : world) : world :=
  match permissionResolver (client w) with
  | Some id =>
      let w := answer id (HasResult (PermissionResult o)) w in
      with_client (with_permission None None (client w)) w
  | None => w
  end.

Definition resolvePermission (optionId : string) (w : world) : world :=
  decide_permission (selected optionId) w.

(** The promise of the [k]-th call of the file plugin settles: the
    [handleRequest] call that awaits it runs to its end. *)
Definition file_done (k : nat) (w : world) : world :=
  match file_calls w !! k with
  | Some (Some c) =>
      answer (answering c) (file_result (asked c))
        (with_file_calls (<[k := None]> (file_calls w)) w)
  | _ => w
  end.

Definition cancelPermission (w : world) : world :=
  decide_permission cancelled w.

(** The response a file request gets when the call of the plugin has
    settled. *)
Definition file_response (rid : rpc_id) (c : file_call) : out_frame :=
  match c with
  | reading p =>
      match readTextFile p with
      | Returns content => Response rid (ReadResult content)
      | Throws e => ErrorResponse rid (-32603) e
      end
  | writing p =>
      match writeTextFile p with
      | Returns _ => Response rid WriteResult
      | Throws e => ErrorResponse rid (-32603) e
      end
  end.

(** *** The event loop *)

(** Time passes: every timer that has come due runs, in the order the
    timers were set (they all have the same delay), and is discarded. *)
Definition elapse (ms : N) (w : world) : world :=
  let t := (now w + ms)%N in
  let due_now := filter (fun tm => (due tm <= t)%N) (timers w) in
  let later := filter (fun tm => ¬ (due tm <= t)%N) (timers w) in
  foldl (fun w tm => timeout tm w) (with_clock t later w) due_now.

Inductive event :=
| Call (method : string) (args : option json)
| Message (line : option frame)
| SendDone (id : Z)
| SendFailed (id : Z) (e : string)
| Elapse (ms : N)
| ResolvePermission (optionId : string)
| CancelPermission
| FileDone (k : nat).

(** One turn of the event loop. The promise of a [sendToAgent] call or of
    a call of the file plugin settles at most once: a settlement for one
    that is not open cannot happen and changes nothing. *)
Definition step (w : world) (e : event) : world :=
  match e with
  | Call method args => sendRequest method args w
  | Message line => handleMessage line w
  | SendDone id =>
      if decide (id ∈ sending w) then with_sending (sending w ∖ {[ id ]}) w
      else w
  | SendFailed id err =>
      if decide (id ∈ sending w)
      then send_failed id err (with_sending (sending w ∖ {[ id ]}) w)
      else w
  | Elapse ms => elapse ms w
  | ResolvePermission optionId => resolvePermission optionId w
  | CancelPermission => cancelPermission w
  | FileDone k => file_done k w
  end.

Definition run (events : list event) (w : world) : world :=
  foldl step w events.

End WithFileAccess.

(** *** Observations *)

(** The calls of [resolve]/[reject] made on promise [p], oldest first. *)
Definition calls_on (p : promise) (w : world) : list settlement :=
  how <$> filter (fun i => target i = p) (invoked w).

(** The state of promise [p]: the first call settles it, later ones are
    ignored by the promise. *)
Definition settled (p : promise) (w : world) : option settlement :=
  head (calls_on p w).

Definition response_id (f : out_frame) : option rpc_id :=
  match f with
  | Response id _ | ErrorResponse id _ _ => Some id
  | _ => None
  end.

(** The responses sent for identifier [id], oldest first. *)
Definition responses_to (id : rpc_id) (out : list out_frame) : list out_frame :=
  filter (fun f => response_id f = Some id) out.

(** What the bridge holds and has done for one of its requests: the stored
    [resolve], the stored [reject], the calls made on the promise. *)
Definition view (id : Z) (w : world)
    : option promise * option promise * list settlement :=
  (messageResolvers (client w) !! id, messageRejecters (client w) !! id,
   calls_on id w).

(** The timers set for request [id] that have not run yet. *)
Definition timers_of (id : Z) (w : world) : list timer :=
  filter (fun t => timer_id t = id) (timers w).

(** What holds of every world the event loop reaches: a stored function
    belongs to the promise named after its key, and only identifiers that
    have been given out occur. *)
Definition well_formed (w : world) : Prop :=
  (forall k p, messageResolvers (client w) !! k = Some p ->
               p = k /\ k < nextRequestId (client w))
  /\ (forall k p, messageRejecters (client w) !! k = Some p ->
                  p = k /\ k < nextRequestId (client w))
  /\ Forall (fun t => timer_id t < nextRequestId (client w)) (timers w)
  /\ Forall (fun i => target i < nextRequestId (client w)) (invoked w)
  /\ (forall k, k ∈ sending w -> k < nextRequestId (client w)).

(** The time an event lets pass, and a list of events. *)
Definition duration (e : event) : N :=
  match e with
  | Elapse ms => ms
  | _ => 0%N
  end.

Definition elapsed (events : list event) : N :=
  foldr (fun e total => (duration e + total)%N) 0%N events.

(** Whether an event is a response frame for request [id]. *)
Definition answers (id : Z) (e : event) : bool :=
  match e with
  | Message (Some parsed) =>
      match f_id parsed, f_method parsed with
      | Some (IdNum n), None => bool_decide (n = id)
      | _, _ => false
      end
  | _ => false
  end.

(** Whether an event is the failure of the send of request [id]. *)
Definition fails_send (id : Z) (e : event) : bool :=
  match e with
  | SendFailed k _ => bool_decide (k = id)
  | _ => false
  end.

(** The send of no request of the list fails. *)
Definition no_send_failure (id : Z) (events : list event) : bool :=
  forallb (fun e => negb (fails_send id e)) events.

(** Nothing in the list answers request [id], and its send does not fail. *)
Definition unanswered (id : Z) (events : list event) : bool :=
  forallb (fun e => negb (answers id e) && negb (fails_send id e)) events.

(** A call is pending, with its timer set, or it is over: its entry is gone
    and one call has been made on its promise. *)
Definition pending_or_settled (id : Z) (method : string) (deadline : N)
    (w : world) : Prop :=
  ((now w < deadline)%N
   /\ view id w = (Some id, Some id, [])
   /\ timers_of id w =
      [{| due := deadline; timer_id := id; timer_method := method |}])
  \/ (exists s : settlement, view id w = (None, None, [s])).

(** Whether an event is an inbound request for a permission. *)
Definition asks_permission (e : event) : bool :=
  match e with
  | Message (Some parsed) =>
      match f_id parsed, f_method parsed with
      | Some _, Some method => bool_decide (method = "session/request_permission")
      | _, _ => false
      end
  | _ => false
  end.

(** The outcome the user gives with an event, if it is a decision. *)
Definition decision (e : event) : option RequestPermissionOutcome :=
  match e with
  | ResolvePermission optionId => Some (selected optionId)
  | CancelPermission => Some cancelled
  | _ => None
  end.

(** Nobody asks for a permission or decides on one. *)
Definition quiet (events : list event) : bool :=
  forallb (fun e => negb (asks_permission e) && negb (present (decision e))) events.

(** Whether an event is an inbound request with identifier [rid]. *)
Definition asks (rid : rpc_id) (e : event) : bool :=
  match e with
  | Message (Some parsed) =>
      match f_id parsed, f_method parsed with
      | Some id, Some _ => bool_decide (id = rid)
      | _, _ => false
      end
  | _ => false
  end.

(** Whether an event is the end of the [k]-th call of the file plugin. *)
Definition ends_call (k : nat) (e : event) : bool :=
  match e with
  | FileDone k' => bool_decide (k' = k)
  | _ => false
  end.

(** The call of the plugin a file request with parameters of its type
    makes. *)
Definition file_request (method : string) (args : params) : option file_call :=
  if decide (method = "fs/read_text_file") then
    match args with
    | ReadParams p => Some (reading p)
    | _ => None
    end
  else if decide (method = "fs/write_text_file") then
    match args with
    | WriteParams p => Some (writing p)
    | _ => None
    end
  else None.

(** No [handleRequest] call is suspended on the file plugin that will
    answer [rid]. *)
Definition no_file_handler (rid : rpc_id) (w : world) : Prop :=
  forall (k : nat) (c : suspended),
    file_calls w !! k = Some (Some c) -> answering c <> rid.

(** No [handleRequest] call is suspended that will answer [rid]. *)
Definition no_handler (rid : rpc_id) (w : world) : Prop :=
  permissionResolver (client w) <> Some rid /\ no_file_handler rid w.

(** The only suspended [handleRequest] call that will answer [rid] is the
    one that awaits the [k]-th call of the file plugin, which is [c]. *)
Definition file_handler (rid : rpc_id) (k : nat) (c : file_call) (w : world) : Prop :=
  permissionResolver (client w) <> Some rid
  /\ file_calls w !! k = Some (Some {| answering := rid; asked := c |})
  /\ forall (k' : nat) (c' : suspended),
       k' <> k -> file_calls w !! k' = Some (Some c') -> answering c' <> rid.

(** The only suspended [handleRequest] call that will answer [rid] is the
    one that awaits the permission decision. *)
Definition permission_handler (rid : rpc_id) (w : world) : Prop :=
  permissionResolver (client w) = Some rid /\ no_file_handler rid w.

(** An inbound request frame. *)
Definition request_frame (id : rpc_id) (method : string) (args : params) : frame :=
  {| f_id := Some id; f_method := Some method; f_params := args;
     f_result := JNull; f_error := None |}.

(** An inbound response frame with a result. *)
Definition result_frame (id : Z) (value : json) : frame :=
  {| f_id := Some (IdNum id); f_method := None; f_params := OtherParams JNull;
     f_result := value; f_error := None |}.

(** The state of a call made at a time when the clock showed
    [deadline - REQUEST_TIMEOUT], as long as no response for it has come and
    its send has not failed: pending with its timer set before the deadline,
    rejected with the timeout error from the deadline on. *)
Definition awaiting_timeout (id : Z) (method : string) (deadline : N) (w : world) : Prop :=
  if decide (now w < deadline)%N
  then view id w = (Some id, Some id, [])
       /\ timers_of id w =
          [{| due := deadline; timer_id := id; timer_method := method |}]
  else view id w =
         (None, None, [reject (String.append "Request timeout: " method)])
       /\ timers_of id w = [].

End Bridge.

(** ** The session store ([src/stores/session.ts]) *)

Module Session.
Import Acp Types.

(** The state of the store: its refs and the variables of its closure.
    [authMethodResolver] tells whether a resolver is stored; [acpClient]
    holds the agent identifier of the bridge, if there is one. The refs of
    the start-up progress display and [pendingPermission], which mirrors
    the bridge's [pendingPermissionRequest], are left out. *)
Record store := {
  savedSessions : list SavedSession;
  currentSession : option SavedSession;
  messages : list ChatMessage;
  toolCalls : gmap string ToolCallInfo;
  isConnected : bool;
  isLoading : bool;
  isConnecting : bool;
  error : option string;
  pendingAuthMethods : list AuthMethod;
  pendingAuthAgentName : string;
  authMethodResolver : bool;
  availableModes : list SessionMode;
  currentModeId : string;
  availableCommands : list AvailableCommand;
  availableModels : list ModelInfo;
  currentModelId : string;
  connectionAborted : bool;
  acpClient : option string
}.

Definition set_savedSessions (v : list SavedSession) (st : store) : store :=
  {| savedSessions := v;
     currentSession := currentSession st;
     messages := messages st;
     toolCalls := toolCalls st;
     isConnected := isConnected st;
     isLoading := isLoading st;
     isConnecting := isConnecting st;
     error := error st;
     pendingAuthMethods := pendingAuthMethods st;
     pendingAuthAgentName := pendingAuthAgentName st;
     authMethodResolver := authMethodResolver st;
     availableModes := availableModes st;
     currentModeId := currentModeId st;
     availableCommands := availableCommands st;
     availableModels := availableModels st;
     currentModelId := currentModelId st;
     connectionAborted := connectionAborted st;
     acpClient := acpClient st |}.

Definition set_currentSession (v : option SavedSession) (st : store) : store :=
  {| savedSessions := savedSessions st;
     currentSession := v;
     messages := messages st;
     toolCalls := toolCalls st;
     isConnected := isConnected st;
     isLoading := isLoading st;
     isConnecting := isConnecting st;
     error := error st;
     pendingAuthMethods := pendingAuthMethods st;
     pendingAuthAgentName := pendingAuthAgentName st;
     authMethodResolver := authMethodResolver st;
     availableModes := availableModes st;
     currentModeId := currentModeId st;
     availableCommands := availableCommands st;
     availableModels := availableModels st;
     currentModelId := currentModelId st;
     connectionAborted := connectionAborted st;
     acpClient := acpClient st |}.

Definition set_messages (v : list ChatMessage) (st : store) : store :=
  {| savedSessions := savedSessions st;
     currentSession := currentSession st;
     messages := v;
     toolCalls := toolCalls st;
     isConnected := isConnected st;
     isLoading := isLoading st;
     isConnecting := isConnecting st;
     error := error st;
     pendingAuthMethods := pendingAuthMethods st;
     pendingAuthAgentName := pendingAuthAgentName st;
     authMethodResolver := authMethodResolver st;
     availableModes := availableModes st;
     currentModeId := currentModeId st;
     availableCommands := availableCommands st;
     availableModels := availableModels st;
     currentModelId := currentModelId st;
     connectionAborted := connectionAborted st;
     acpClient := acpClient st |}.

Definition set_toolCalls (v : gmap string ToolCallInfo) (st : store) : store :=
  {| savedSessions := savedSessions st;
     currentSession := currentSession st;
     messages := messages st;
     toolCalls := v;
     isConnected := isConnected st;
     isLoading := isLoading st;
     isConnecting := isConnecting st;
     error := error st;
     pendingAuthMethods := pendingAuthMethods st;
     pendingAuthAgentName := pendingAuthAgentName st;
     authMethodResolver := authMethodResolver st;
     availableModes := availableModes st;
     currentModeId := currentModeId st;
     availableCommands := availableCommands st;
     availableModels := availableModels st;
     currentModelId := currentModelId st;
     connectionAborted := connectionAborted st;
     acpClient := acpClient st |}.

Definition set_isConnected (v : bool) (st : store) : store :=
  {| savedSessions := savedSessions st;
     currentSession := currentSession st;
     messages := messages st;
     toolCalls := toolCalls st;
     isConnected := v;
     isLoading := isLoading st;
     isConnecting := isConnecting st;
     error := error st;
     pendingAuthMethods := pendingAuthMethods st;
     pendingAuthAgentName := pendingAuthAgentName st;
     authMethodResolver := authMethodResolver st;
     availableModes := availableModes st;
     currentModeId := currentModeId st;
     availableCommands := availableCommands st;
     availableModels := availableModels st;
     currentModelId := currentModelId st;
     connectionAborted := connectionAborted st;
     acpClient := acpClient st |}.

Definition set_isLoading (v : bool) (st : store) : store :=
  {| savedSessions := savedSessions st;
     currentSession := currentSession st;
     messages := messages st;
     toolCalls := toolCalls st;
     isConnected := isConnected st;
     isLoading := v;
     isConnecting := isConnecting st;
     error := error st;
     pendingAuthMethods := pendingAuthMethods st;
     pendingAuthAgentName := pendingAuthAgentName st;
     authMethodResolver := authMethodResolver st;
     availableModes := availableModes st;
     currentModeId := currentModeId st;
     availableCommands := availableCommands st;
     availableModels := availableModels st;
     currentModelId := currentModelId st;
     connectionAborted := connectionAborted st;
     acpClient := acpClient st |}.

Definition set_isConnecting (v : bool) (st : store) : store :=
  {| savedSessions := savedSessions st;
     currentSession := currentSession st;
     messages := messages st;
     toolCalls := toolCalls st;
     isConnected := isConnected st;
     isLoading := isLoading st;
     isConnecting := v;
     error := error st;
     pendingAuthMethods := pendingAuthMethods st;
     pendingAuthAgentName := pendingAuthAgentName st;
     authMethodResolver := authMethodResolver st;
     availableModes := availableModes st;
     currentModeId := currentModeId st;
     availableCommands := availableCommands st;
     availableModels := availableModels st;
     currentModelId := currentModelId st;
     connectionAborted := connectionAborted st;
     acpClient := acpClient st |}.

Definition set_error (v : option string) (st : store) : store :=
  {| savedSessions := savedSessions st;
     currentSession := currentSession st;
     messages := messages st;
     toolCalls := toolCalls st;
     isConnected := isConnected st;
     isLoading := isLoading st;
     isConnecting := isConnecting st;
     error := v;
     pendingAuthMethods := pendingAuthMethods st;
     pendingAuthAgentName := pendingAuthAgentName st;
     authMethodResolver := authMethodResolver st;
     availableModes := availableModes st;
     currentModeId := currentModeId st;
     availableCommands := availableCommands st;
     availableModels := availableModels st;
     currentModelId := currentModelId st;
     connectionAborted := connectionAborted st;
     acpClient := acpClient st |}.

Definition set_pendingAuthMethods (v : list AuthMethod) (st : store) : store :=
  {| savedSessions := savedSessions st;
     currentSession := currentSession st;
     messages := messages st;
     toolCalls := toolCalls st;
     isConnected := isConnected st;
     isLoading := isLoading st;
     isConnecting := isConnecting st;
     error := error st;
     pendingAuthMethods := v;
     pendingAuthAgentName := pendingAuthAgentName st;
     authMethodResolver := authMethodResolver st;
     availableModes := availableModes st;
     currentModeId := currentModeId st;
     availableCommands := availableCommands st;
     availableModels := availableModels st;
     currentModelId := currentModelId st;
     connectionAborted := connectionAborted st;
     acpClient := acpClient st |}.

Definition set_pendingAuthAgentName (v : string) (st : store) : store :=
  {| savedSessions := savedSessions st;
     currentSession := currentSession st;
     messages := messages st;
     toolCalls := toolCalls st;
     isConnected := isConnected st;
     isLoading := isLoading st;
     isConnecting := isConnecting st;
     error := error st;
     pendingAuthMethods := pendingAuthMethods st;
     pendingAuthAgentName := v;
     authMethodResolver := authMethodResolver st;
     availableModes := availableModes st;
     currentModeId := currentModeId st;
     availableCommands := availableCommands st;
     availableModels := availableModels st;
     currentModelId := currentModelId st;
     connectionAborted := connectionAborted st;
     acpClient := acpClient st |}.

Definition set_authMethodResolver (v : bool) (st : store) : store :=
  {| savedSessions := savedSessions st;
     currentSession := currentSession st;
     messages := messages st;
     toolCalls := toolCalls st;
     isConnected := isConnected st;
     isLoading := isLoading st;
     isConnecting := isConnecting st;
     error := error st;
     pendingAuthMethods := pendingAuthMethods st;
     pendingAuthAgentName := pendingAuthAgentName st;
     authMethodResolver := v;
     availableModes := availableModes st;
     currentModeId := currentModeId st;
     availableCommands := availableCommands st;
     availableModels := availableModels st;
     currentModelId := currentModelId st;
     connectionAborted := connectionAborted st;
     acpClient := acpClient st |}.

Definition set_availableModes (v : list SessionMode) (st : store) : store :=
  {| savedSessions := savedSessions st;
     currentSession := currentSession st;
     messages := messages st;
     toolCalls := toolCalls st;
     isConnected := isConnected st;
     isLoading := isLoading st;
     isConnecting := isConnecting st;
     error := error st;
     pendingAuthMethods := pendingAuthMethods st;
     pendingAuthAgentName := pendingAuthAgentName st;
     authMethodResolver := authMethodResolver st;
     availableModes := v;
     currentModeId := currentModeId st;
     availableCommands := availableCommands st;
     availableModels := availableModels st;
     currentModelId := currentModelId st;
     connectionAborted := connectionAborted st;
     acpClient := acpClient st |}.

Definition set_currentModeId (v : string) (st : store) : store :=
  {| savedSessions := savedSessions st;
     currentSession := currentSession st;
     messages := messages st;
     toolCalls := toolCalls st;
     isConnected := isConnected st;
     isLoading := isLoading st;
     isConnecting := isConnecting st;
     error := error st;
     pendingAuthMethods := pendingAuthMethods st;
     pendingAuthAgentName := pendingAuthAgentName st;
     authMethodResolver := authMethodResolver st;
     availableModes := availableModes st;
     currentModeId := v;
     availableCommands := availableCommands st;
     availableModels := availableModels st;
     currentModelId := currentModelId st;
     connectionAborted := connectionAborted st;
     acpClient := acpClient st |}.

Definition set_availableCommands (v : list AvailableCommand) (st : store) : store :=
  {| savedSessions := savedSessions st;
     currentSession := currentSession st;
     messages := messages st;
     toolCalls := toolCalls st;
     isConnected := isConnected st;
     isLoading := isLoading st;
     isConnecting := isConnecting st;
     error := error st;
     pendingAuthMethods := pendingAuthMethods st;
     pendingAuthAgentName := pendingAuthAgentName st;
     authMethodResolver := authMethodResolver st;
     availableModes := availableModes st;
     currentModeId := currentModeId st;
     availableCommands := v;
     availableModels := availableModels st;
     currentModelId := currentModelId st;
     connectionAborted := connectionAborted st;
     acpClient := acpClient st |}.

Definition set_availableModels (v : list ModelInfo) (st : store) : store :=
  {| savedSessions := savedSessions st;
     currentSession := currentSession st;
     messages := messages st;
     toolCalls := toolCalls st;
     isConnected := isConnected st;
     isLoading := isLoading st;
     isConnecting := isConnecting st;
     error := error st;
     pendingAuthMethods := pendingAuthMethods st;
     pendingAuthAgentName := pendingAuthAgentName st;
     authMethodResolver := authMethodResolver st;
     availableModes := availableModes st;
     currentModeId := currentModeId st;
     availableCommands := availableCommands st;
     availableModels := v;
     currentModelId := currentModelId st;
     connectionAborted := connectionAborted st;
     acpClient := acpClient st |}.

Definition set_currentModelId (v : string) (st : store) : store :=
  {| savedSessions := savedSessions st;
     currentSession := currentSession st;
     messages := messages st;
     toolCalls := toolCalls st;
     isConnected := isConnected st;
     isLoading := isLoading st;
     isConnecting := isConnecting st;
     error := error st;
     pendingAuthMethods := pendingAuthMethods st;
     pendingAuthAgentName := pendingAuthAgentName st;
     authMethodResolver := authMethodResolver st;
     availableModes := availableModes st;
     currentModeId := currentModeId st;
     availableCommands := availableCommands st;
     availableModels := availableModels st;
     currentModelId := v;
     connectionAborted := connectionAborted st;
     acpClient := acpClient st |}.

Definition set_connectionAborted (v : bool) (st : store) : store :=
  {| savedSessions := savedSessions st;
     currentSession := currentSession st;
     messages := messages st;
     toolCalls := toolCalls st;
     isConnected := isConnected st;
     isLoading := isLoading st;
     isConnecting := isConnecting st;
     error := error st;
     pendingAuthMethods := pendingAuthMethods st;
     pendingAuthAgentName := pendingAuthAgentName st;
     authMethodResolver := authMethodResolver st;
     availableModes := availableModes st;
     currentModeId := currentModeId st;
     availableCommands := availableCommands st;
     availableModels := availableModels st;
     currentModelId := currentModelId st;
     connectionAborted := v;
     acpClient := acpClient st |}.

Definition set_acpClient (v : option string) (st : store) : store :=
  {| savedSessions := savedSessions st;
     currentSession := currentSession st;
     messages := messages st;
     toolCalls := toolCalls st;
     isConnected := isConnected st;
     isLoading := isLoading st;
     isConnecting := isConnecting st;
     error := error st;
     pendingAuthMethods := pendingAuthMethods st;
     pendingAuthAgentName := pendingAuthAgentName st;
     authMethodResolver := authMethodResolver st;
     availableModes := availableModes st;
     currentModeId := currentModeId st;
     availableCommands := availableCommands st;
     availableModels := availableModels st;
     currentModelId := currentModelId st;
     connectionAborted := connectionAborted st;
     acpClient := v |}.

Definition initial : store :=
  {| savedSessions := []; currentSession := None; messages := [];
     toolCalls := ∅; isConnected := false; isLoading := false;
     isConnecting := false; error := None; pendingAuthMethods := [];
     pendingAuthAgentName := ""; authMethodResolver := false;
     availableModes := []; currentModeId := ""; availableCommands := [];
     availableModels := []; currentModelId := "";
     connectionAborted := false; acpClient := None |}.

(** *** The conversation assembler: [handleSessionUpdate] *)

(** Assignments to the fields of a message or of a tool call. *)
Definition set_content (c : string) (m : ChatMessage) : ChatMessage :=
  {| id := id m; role := role m; content := c; thought := thought m;
     timestamp := timestamp m; Types.toolCalls := Types.toolCalls m |}.

Definition set_thought (t : option string) (m : ChatMessage) : ChatMessage :=
  {| id := id m; role := role m; content := content m; thought := t;
     timestamp := timestamp m; Types.toolCalls := Types.toolCalls m |}.

Definition set_message_toolCalls (tcs : option (list ToolCallInfo))
    (m : ChatMessage) : ChatMessage :=
  {| id := id m; role := role m; content := content m; thought := thought m;
     timestamp := timestamp m; Types.toolCalls := tcs |}.

Definition set_status (s : ToolCallStatus) (tc : ToolCallInfo) : ToolCallInfo :=
  {| toolCallId := toolCallId tc; title := title tc; kind := kind tc;
     status := s; locations := locations tc |}.

Definition set_title (t : string) (tc : ToolCallInfo) : ToolCallInfo :=
  {| toolCallId := toolCallId tc; title := t; kind := kind tc;
     status := status tc; locations := locations tc |}.

#[global] Instance role_eq_dec : EqDecision Role.
Proof. solve_decision. Defined.

(** [messages.value[messages.value.length - 1]] *)
Definition last_message (st : store) : option ChatMessage :=
  last (messages st).

(** An assignment through the reference to the last message. *)
Definition on_last_message (f : ChatMessage -> ChatMessage) (st : store) : store :=
  set_messages (alter f (length (messages st) - 1)%nat (messages st)) st.

(** [messages.value.push(m)] *)
Definition push_message (m : ChatMessage) (st : store) : store :=
  set_messages (messages st ++ [m]) st.

(** [update.content.type === 'text' ? update.content.text : ''] *)
Definition text_or_empty (c : ContentBlock) : string :=
  match c with
  | TextContent text => text
  | OtherContent _ => ""
  end.

(** [if (update.status) tc.status = update.status;
     if (update.title) tc.title = update.title;] *)
Definition apply_update (new_status : option ToolCallStatus)
    (new_title : option string) (tc : ToolCallInfo) : ToolCallInfo :=
  let tc := match new_status with
            | Some s => set_status s tc
            | None => tc
            end in
  match truthy new_title with
  | Some t => set_title t tc
  | None => tc
  end.

(** [const tc = list.find(t => t.toolCallId === id); if (tc) f(tc)]: the
    first entry with that identifier is the one that is assigned to. *)
Fixpoint update_found (tcid : string) (f : ToolCallInfo -> ToolCallInfo)
    (l : list ToolCallInfo) : list ToolCallInfo :=
  match l with
  | [] => []
  | tc :: rest =>
      if decide (toolCallId tc = tcid) then f tc :: rest
      else tc :: update_found tcid f rest
  end.

(** The body of [for (const msg of messages.value)] of a tool-call update. *)
Definition update_in_message (tcid : string) (f : ToolCallInfo -> ToolCallInfo)
    (msg : ChatMessage) : ChatMessage :=
  match Types.toolCalls msg with
  | Some tcs => set_message_toolCalls (Some (update_found tcid f tcs)) msg
  | None => msg
  end.

(** [handleSessionUpdate(notification)]; [uuid] and [now] are what
    [crypto.randomUUID()] and [Date.now()] return if the call makes a
    message. *)
Definition handleSessionUpdate (uuid : string) (now : Z)
    (notification : SessionNotification) (st : store) : store :=
  match update notification with
  | user_message_chunk c =>
      match last_message st with
      | Some lastUserMsg =>
          if decide (role lastUserMsg = user) then
            match c with
            | TextContent text =>
                on_last_message
                  (fun m => set_content (String.append (content m) text) m) st
            | OtherContent _ => st
            end
          else
            push_message
              {| id := uuid; role := user; content := text_or_empty c;
                 thought := None; timestamp := now; Types.toolCalls := None |} st
      | None =>
          push_message
            {| id := uuid; role := user; content := text_or_empty c;
               thought := None; timestamp := now; Types.toolCalls := None |} st
      end
  | agent_message_chunk c =>
      match last_message st with
      | Some lastMsg =>
          if decide (role lastMsg = assistant) then
            match c with
            | TextContent text =>
                on_last_message
                  (fun m => set_content (String.append (content m) text) m) st
            | OtherContent _ => st
            end
          else
            push_message
              {| id := uuid; role := assistant; content := text_or_empty c;
                 thought := None; timestamp := now; Types.toolCalls := Some [] |} st
      | None =>
          push_message
            {| id := uuid; role := assistant; content := text_or_empty c;
               thought := None; timestamp := now; Types.toolCalls := Some [] |} st
      end
  | agent_thought_chunk c =>
      match last_message st with
      | Some lastAssistantMsg =>
          if decide (role lastAssistantMsg = assistant) then
            match c with
            | TextContent text =>
                on_last_message
                  (fun m => set_thought
                              (Some (String.append (default "" (truthy (thought m))) text))
                              m) st
            | OtherContent _ => st
            end
          else
            push_message
              {| id := uuid; role := assistant; content := "";
                 thought := Some (text_or_empty c); timestamp := now;
                 Types.toolCalls := Some [] |} st
      | None =>
          push_message
            {| id := uuid; role := assistant; content := "";
               thought := Some (text_or_empty c); timestamp := now;
               Types.toolCalls := Some [] |} st
      end
  | tool_call tcid ttl knd sts locs =>
      let record := {| toolCallId := tcid; title := ttl;
                       kind := default "other" (truthy knd);
                       status := default pending sts;
                       locations := locs |} in
      let st :=
        match last_message st with
        | Some currentAssistantMsg =>
            if decide (role currentAssistantMsg = assistant) then
              on_last_message
                (fun m => set_message_toolCalls
                            (Some (default [] (Types.toolCalls m) ++ [record])) m) st
            else st
        | None => st
        end in
      set_toolCalls (<[tcid := record]> (toolCalls st)) st
  | tool_call_update tcid sts ttl =>
      match toolCalls st !! tcid with
      | Some existing =>
          let st := set_toolCalls
                      (<[tcid := apply_update sts ttl existing]> (toolCalls st)) st in
          set_messages
            (map (update_in_message tcid (apply_update sts ttl)) (messages st)) st
      | None => st
      end
  | current_mode_update mode =>
      match truthy mode with
      | Some m => set_currentModeId m st
      | None => st
      end
  | available_commands_update cmds =>
      match cmds with
      | Some l =>
          set_availableCommands
            (map (fun cmd => {| cmd_name := cmd_name cmd;
                                cmd_description := cmd_description cmd;
                                cmd_input_hint := cmd_input_hint cmd |}) l) st
      | None => st
      end
  | other_update _ => st
  end.

(** Notifications handled one after the other, in arrival order. *)
Definition handle_all (ns : list (string * Z * SessionNotification)) (st : store) : store :=
  foldl (fun s '(uuid, now, n) => handleSessionUpdate uuid now n s) st ns.

(** *** Asynchronous operations of the store *)

(** Calls that leave the store, in the order they are made. The four
    bridge requests go out through [AcpClientBridge.sendRequest] under the
    method names given by [wire_method]. *)
Inductive effect :=
| spawnAgent (name : string)
| onAgentStderr
| killAgent (agent : string)
| createAcpClient (agent : string)
| disconnect (agent : string)
| initialize
| newSession (cwd : string)
| loadSession (sessionId cwd : string)
| authenticate (methodId : string)
| saveSessionsToStore (sessions : list SavedSession)
| trackEvent (name agentName : string) (success : bool)
| trackError (message : string).

Definition wire_method (e : effect) : option string :=
  match e with
  | initialize => Some "initialize"
  | newSession _ => Some "session/new"
  | loadSession _ _ => Some "session/load"
  | authenticate _ => Some "authenticate"
  | _ => None
  end.

(** What an awaited promise can be fulfilled with. *)
Inductive value :=
| v_unit
| v_agent (a : AgentInstance)
| v_init (r : InitializeResponse)
| v_session (r : NewSessionResponse).

Inductive settlement :=
| fulfilled (v : value)
| rejected (e : string).

(** What other tasks do to the store while an operation is suspended: the
    bridge hands over a notification, or the user acts. [cancelConnection]
    suspends once itself, so it comes in two halves. *)
Inductive interrupt :=
| notified (uuid : string) (now : Z) (n : SessionNotification)
| method_selected (methodId : string)
| selection_cancelled
| cancel_requested
| cancel_finished.

(** The environment of an operation: the interruptions and the settlements
    of the promises it awaits, in the order they happen. *)
Inductive item :=
| happens (i : interrupt)
| settles (s : settlement).

Record world := {
  state : store;
  script : list item;
  log : list effect
}.

(** How an operation ends: it returns, it throws (the message of the
    error), or it stays suspended for ever. *)
Inductive result (A : Type) :=
| Done (a : A)
| Threw (e : string)
| Blocked.
Arguments Done {A} a.
Arguments Threw {A} e.
Arguments Blocked {A}.

Definition M (A : Type) : Type := world -> result A * world.

Definition ret {A : Type} (a : A) : M A := fun w => (Done a, w).

Definition bind {A B : Type} (m : M A) (k : A -> M B) : M B :=
  fun w =>
    match m w with
    | (Done a, w') => k a w'
    | (Threw e, w') => (Threw e, w')
    | (Blocked, w') => (Blocked, w')
    end.

Definition throw {A : Type} (e : string) : M A := fun w => (Threw e, w).

Definition block {A : Type} : M A := fun w => (Blocked, w).

(** [try { m } catch (e) { handler(e) }] *)
Definition catch {A : Type} (m : M A) (handler : string -> M A) : M A :=
  fun w =>
    match m w with
    | (Threw e, w') => handler e w'
    | other => other
    end.

Definition get : M store := fun w => (Done (state w), w).

Definition modify (f : store -> store) : M unit :=
  fun w => (Done tt, {| state := f (state w); script := script w; log := log w |}).

(** [try { m } finally { f }], for a [finally] block that only assigns. *)
Definition finally {A : Type} (m : M A) (f : store -> store) : M A :=
  fun w =>
    match m w with
    | (Blocked, w') => (Blocked, w')
    | (r, w') => (r, {| state := f (state w'); script := script w'; log := log w' |})
    end.

Definition emit (e : effect) : M unit :=
  fun w => (Done tt, {| state := state w; script := script w; log := log w ++ [e] |}).

Declare Scope task_scope.
Delimit Scope task_scope with task.
Notation "x <- m ;; k" := (bind m (fun x => k))
  (at level 100, m at next level, right associativity) : task_scope.
Notation "m ;; k" := (bind m (fun _ => k))
  (at level 100, right associativity) : task_scope.
Open Scope task_scope.

(** **** The user's operations *)

(** The common body of [selectAuthMethod], [cancelAuthSelection] and the
    middle of [cancelConnection]; the first component is the value handed
    to [authMethodResolver], if there was one. *)
Definition answer_auth (v : option string) (st : store) : option (option string) * store :=
  if authMethodResolver st
  then (Some v,
        set_pendingAuthAgentName ""
          (set_pendingAuthMethods [] (set_authMethodResolver false st)))
  else (None, st).

Definition selectAuthMethod (methodId : string) (st : store) :=
  answer_auth (Some methodId) st.

Definition cancelAuthSelection (st : store) :=
  answer_auth None st.

(** The end of [cancelConnection]. *)
Definition cancelConnection_tail (st : store) : store :=
  set_error None (set_isConnecting false (set_isLoading false st)).

(** [cancelConnection] up to [await acpClient.disconnect()], or to its end
    when there is no client. *)
Definition cancelConnection_begin (st : store) (out : list effect)
    : option (option string) * store * list effect :=
  let st := set_connectionAborted true st in
  let '(answered, st) := answer_auth None st in
  match acpClient st with
  | Some agent => (answered, st, out ++ [disconnect agent])
  | None => (answered, cancelConnection_tail st, out)
  end.

(** [cancelConnection] after [await acpClient.disconnect()]. *)
Definition cancelConnection_finish (st : store) : store :=
  cancelConnection_tail (set_acpClient None st).

Definition interrupted (i : interrupt) (st : store) (out : list effect)
    : option (option string) * store * list effect :=
  match i with
  | notified uuid now n => (None, handleSessionUpdate uuid now n st, out)
  | method_selected m => let '(a, st) := selectAuthMethod m st in (a, st, out)
  | selection_cancelled => let '(a, st) := cancelAuthSelection st in (a, st, out)
  | cancel_requested => cancelConnection_begin st out
  | cancel_finished => (None, cancelConnection_finish st, out)
  end.

(** **** Suspension *)

(** [await p] for a promise [p] that the environment settles (a command of
    the backend, the store plugin, [disconnect()]): the interruptions that
    come first are carried out, the first settlement is [p]'s. The promise
    of a request made on the bridge is awaited with [settle_answer] below. *)
Fixpoint settle (items : list item) (st : store) (out : list effect)
    : option settlement * world :=
  match items with
  | [] => (None, {| state := st; script := []; log := out |})
  | happens i :: rest =>
      let '(_, st, out) := interrupted i st out in settle rest st out
  | settles s :: rest =>
      (Some s, {| state := st; script := rest; log := out |})
  end.

Definition await : M value :=
  fun w =>
    match settle (script w) (state w) (log w) with
    | (Some (fulfilled v), w') => (Done v, w')
    | (Some (rejected e), w') => (Threw e, w')
    | (None, w') => (Blocked, w')
    end.

(** [await] of the promise [promptForAuthMethod] returns: it is resolved
    by the first interruption that calls [authMethodResolver]. No promise
    of the environment is awaited meanwhile. *)
Fixpoint choose (items : list item) (st : store) (out : list effect)
    : option (option string) * world :=
  match items with
  | [] => (None, {| state := st; script := []; log := out |})
  | happens i :: rest =>
      let '(answered, st, out) := interrupted i st out in
      match answered with
      | Some v => (Some v, {| state := st; script := rest; log := out |})
      | None => choose rest st out
      end
  | settles s :: rest =>
      (None, {| state := st; script := settles s :: rest; log := out |})
  end.

Definition await_choice : M (option string) :=
  fun w =>
    match choose (script w) (state w) (log w) with
    | (Some v, w') => (Done v, w')
    | (None, w') => (Blocked, w')
    end.

(** A call of an asynchronous function of the surroundings. *)
Definition call (e : effect) : M value := emit e ;; await.

Definition call_agent (e : effect) : M AgentInstance :=
  v <- call e ;;
  match v with
  | v_agent a => ret a
  | _ => block
  end.

(** Whether [disconnect()] has been called on the bridge of [agent]. *)
Definition disconnects (agent : string) (e : effect) : bool :=
  match e with
  | disconnect a => bool_decide (a = agent)
  | _ => false
  end.

(** Whether [cancelConnection] has cut the bridge of [agent] off: it has
    set the flag and called [disconnect()] on the bridge, which removes the
    listener of the agent's messages before anything else
    ([AcpClientBridge.disconnect]). Within an attempt no other caller of
    [disconnect()] goes on to use the bridge: [createSession] and
    [resumeSession] throw once they have called it. *)
Definition cut_off (agent : string) (st : store) (out : list effect) : bool :=
  connectionAborted st && existsb (disconnects agent) out.

(** [await] of the promise of a request made on the bridge of [agent]. The
    agent's answer fulfils it only while the bridge listens: once the bridge
    is cut off the answer is handed to nobody and the wait goes on, so the
    promise can only be rejected, by its timer or by the failure of its
    send. *)
Fixpoint settle_answer (agent : string) (items : list item) (st : store)
    (out : list effect) : option settlement * world :=
  match items with
  | [] => (None, {| state := st; script := []; log := out |})
  | happens i :: rest =>
      let '(_, st, out) := interrupted i st out in settle_answer agent rest st out
  | settles (fulfilled v) :: rest =>
      if cut_off agent st out then settle_answer agent rest st out
      else (Some (fulfilled v), {| state := st; script := rest; log := out |})
  | settles (rejected e) :: rest =>
      (Some (rejected e), {| state := st; script := rest; log := out |})
  end.

Definition await_answer (agent : string) : M value :=
  fun w =>
    match settle_answer agent (script w) (state w) (log w) with
    | (Some (fulfilled v), w') => (Done v, w')
    | (Some (rejected e), w') => (Threw e, w')
    | (None, w') => (Blocked, w')
    end.

(** A request made on the bridge of [agent]. *)
Definition request (agent : string) (e : effect) : M value :=
  emit e ;; await_answer agent.

Definition call_init (agent : string) (e : effect) : M InitializeResponse :=
  v <- request agent e ;;
  match v with
  | v_init r => ret r
  | _ => block
  end.

Definition call_session (agent : string) (e : effect) : M NewSessionResponse :=
  v <- request agent e ;;
  match v with
  | v_session r => ret r
  | _ => block
  end.

(** Reading the variable [acpClient] to call a method on it: on [null]
    the call throws a [TypeError]. *)
Definition NULL_CLIENT : string := "TypeError: acpClient is null".

Definition the_client : M string :=
  st <- get ;;
  match acpClient st with
  | Some agent => ret agent
  | None => throw NULL_CLIENT
  end.

(** [await acpClient.disconnect()] *)
Definition client_disconnect : M unit :=
  agent <- the_client ;;
  call (disconnect agent) ;;
  ret tt.

(** [await acpClient.initialize(...)] and the other bridge requests. *)
Definition client_initialize : M InitializeResponse :=
  agent <- the_client ;; call_init agent initialize.

Definition client_newSession (cwd : string) : M NewSessionResponse :=
  agent <- the_client ;; call_session agent (newSession cwd).

Definition client_loadSession (sessionId cwd : string) : M unit :=
  agent <- the_client ;; request agent (loadSession sessionId cwd) ;; ret tt.

Definition client_authenticate (methodId : string) : M unit :=
  agent <- the_client ;; request agent (authenticate methodId) ;; ret tt.

(** [promptForAuthMethod(authMethods, agentName)], awaited. *)
Definition promptForAuthMethod (methods : list AuthMethod) (agentName : string)
    : M (option string) :=
  modify (fun st => set_authMethodResolver true
                      (set_pendingAuthAgentName agentName
                         (set_pendingAuthMethods methods st))) ;;
  await_choice.

(** [errorMessage.toLowerCase().includes('authentication required') ||
     errorMessage.includes('-32000')] *)
Definition isAuthRequired (errorMessage : string) : bool :=
  includes (toLowerCase errorMessage) "authentication required"
  || includes errorMessage "-32000".

(** [if (connectionAborted) { await acpClient.disconnect(); throw ... }] *)
Definition check_aborted : M unit :=
  st <- get ;;
  if connectionAborted st
  then client_disconnect ;; throw "Connection cancelled"
  else ret tt.

(** What the environment supplies to one call of [createSession] or
    [resumeSession]: [crypto.randomUUID()], [Date.now()] and
    [new Date().toLocaleString()]. *)
Record env := {
  uuid : string;
  now : Z;
  localeString : string
}.

(** **** [createSession] *)

(** The [try]/[catch] around the first [newSession]. *)
Definition create_or_authenticate (agentName cwd : string)
    (availableAuthMethods : list AuthMethod) : M NewSessionResponse :=
  catch (client_newSession cwd)
    (fun errorMessage =>
       if isAuthRequired errorMessage && (0 <? length availableAuthMethods)%nat
       then
         selectedMethodId <- promptForAuthMethod availableAuthMethods agentName ;;
         st <- get ;;
         match truthy selectedMethodId with
         | Some methodId =>
             if connectionAborted st
             then client_disconnect ;; throw "Authentication cancelled by user"
             else
               client_authenticate methodId ;;
               check_aborted ;;
               client_newSession cwd
         | None =>
             client_disconnect ;; throw "Authentication cancelled by user"
         end
       else throw errorMessage).

Definition mode_of (m : SessionMode) : SessionMode :=
  {| mode_id := mode_id m; mode_name := mode_name m;
     mode_description := mode_description m |}.

Definition model_of (m : ModelInfo) : ModelInfo :=
  {| modelId := modelId m; model_name := model_name m;
     model_description := model_description m |}.

Definition set_up_modes (r : NewSessionResponse) (st : store) : store :=
  match modes r with
  | Some ms =>
      set_currentModeId (default "" (truthy (modes_current ms)))
        (set_availableModes (map mode_of (default [] (modes_available ms))) st)
  | None => set_currentModeId "" (set_availableModes [] st)
  end.

Definition set_up_models (r : NewSessionResponse) (st : store) : store :=
  match models r with
  | Some ms =>
      set_currentModelId (default "" (truthy (models_current ms)))
        (set_availableModels (map model_of (default [] (models_available ms))) st)
  | None => set_currentModelId "" (set_availableModels [] st)
  end.

(** From ["// Save session"] to the end of the [try] block. *)
Definition save_session (agentName cwd : string) (e : env)
    (supportsLoadSession : bool) (sessionResponse : NewSessionResponse) : M unit :=
  let session :=
    {| ss_id := uuid e; agentName := agentName;
       Types.sessionId := Acp.sessionId sessionResponse;
       ss_title := String.append "Session " (localeString e);
       lastUpdated := now e; cwd := cwd;
       supportsLoadSession := Some supportsLoadSession |} in
  modify (fun st => set_savedSessions (savedSessions st ++ [session])
                      (set_currentSession (Some session) st)) ;;
  st <- get ;;
  call (saveSessionsToStore (savedSessions st)) ;;
  modify (fun st => set_toolCalls ∅ (set_messages [] (set_isConnected true st))) ;;
  emit (trackEvent "SessionCreated" agentName true) ;;
  modify (set_up_modes sessionResponse) ;;
  modify (set_up_models sessionResponse).

(** From the handshake's return to the end of the [try] block. *)
Definition after_handshake (agentName cwd : string) (e : env)
    (initResponse : InitializeResponse) : M unit :=
  let supportsLoadSession := default false (Acp.loadSession initResponse) in
  check_aborted ;;
  let availableAuthMethods := default [] (authMethods initResponse) in
  check_aborted ;;
  sessionResponse <- create_or_authenticate agentName cwd availableAuthMethods ;;
  save_session agentName cwd e supportsLoadSession sessionResponse.

(** From the start of the [try] block to the handshake's return. *)
Definition connect_and_handshake (agentName : string) : M InitializeResponse :=
  agentInstance <- call_agent (spawnAgent agentName) ;;
  call onAgentStderr ;;
  st <- get ;;
  (if connectionAborted st
   then call (killAgent (agent_id agentInstance)) ;; throw "Connection cancelled"
   else ret tt) ;;
  call (createAcpClient (agent_id agentInstance)) ;;
  modify (set_acpClient (Some (agent_id agentInstance))) ;;
  check_aborted ;;
  client_initialize.

(** The assignments [createSession] starts with. *)
Definition start_connecting (st : store) : store :=
  set_error None
    (set_connectionAborted false (set_isConnecting true (set_isLoading true st))).

Definition createSession (agentName cwd : string) (e : env) : M unit :=
  modify start_connecting ;;
  finally
    (catch
       (initResponse <- connect_and_handshake agentName ;;
        after_handshake agentName cwd e initResponse)
       (fun message =>
          modify (fun st => set_acpClient None (set_error (Some message) st)) ;;
          emit (trackEvent "SessionCreated" agentName false) ;;
          emit (trackError message) ;;
          throw message))
    (fun st => set_isConnecting false (set_isLoading false st)).

(** **** [resumeSession] *)

(** The [try]/[catch] around the first [loadSession]. *)
Definition load_or_authenticate (savedSession : SavedSession)
    (availableAuthMethods : list AuthMethod) : M unit :=
  catch (client_loadSession (Types.sessionId savedSession) (cwd savedSession))
    (fun errorMessage =>
       if isAuthRequired errorMessage && (0 <? length availableAuthMethods)%nat
       then
         selectedMethodId <- promptForAuthMethod availableAuthMethods
                               (agentName savedSession) ;;
         match truthy selectedMethodId with
         | Some methodId =>
             client_authenticate methodId ;;
             client_loadSession (Types.sessionId savedSession) (cwd savedSession)
         | None =>
             client_disconnect ;; throw "Authentication cancelled by user"
         end
       else throw errorMessage).

(** [savedSession.lastUpdated = Date.now()]: the object is the one that
    [currentSession] was just set to, and the one of [savedSessions] that
    the caller passed. *)
Definition touch (t : Z) (s : SavedSession) : SavedSession :=
  {| ss_id := ss_id s; agentName := agentName s;
     Types.sessionId := Types.sessionId s; ss_title := ss_title s;
     lastUpdated := t; cwd := cwd s;
     supportsLoadSession := supportsLoadSession s |}.

Definition touch_saved (savedSession : SavedSession) (t : Z) (st : store) : store :=
  set_savedSessions
    (map (fun s => if decide (ss_id s = ss_id savedSession) then touch t s else s)
         (savedSessions st))
    (set_currentSession (Some (touch t savedSession)) st).

Definition resumeSession (savedSession : SavedSession) (e : env) : M unit :=
  modify (fun st => set_error None (set_isLoading true st)) ;;
  finally
    (catch
       (agentInstance <- call_agent (spawnAgent (agentName savedSession)) ;;
        call (createAcpClient (agent_id agentInstance)) ;;
        modify (set_acpClient (Some (agent_id agentInstance))) ;;
        initResponse <- client_initialize ;;
        let availableAuthMethods := default [] (authMethods initResponse) in
        modify (fun st => set_toolCalls ∅ (set_messages [] st)) ;;
        load_or_authenticate savedSession availableAuthMethods ;;
        modify (fun st => set_isConnected true
                            (set_currentSession (Some savedSession) st)) ;;
        emit (trackEvent "SessionResumed" (agentName savedSession) true) ;;
        modify (touch_saved savedSession (now e)) ;;
        st <- get ;;
        call (saveSessionsToStore (savedSessions st)) ;;
        ret tt)
       (fun message =>
          modify (set_error (Some message)) ;;
          emit (trackEvent "SessionResumed" (agentName savedSession) false) ;;
          emit (trackError message) ;;
          throw message))
    (set_isLoading false).

(** Running an operation of the store against a script. *)
Definition exec {A : Type} (m : M A) (st : store) (items : list item)
    : result A * world :=
  m {| state := st; script := items; log := [] |}.

(** The wire methods of the bridge requests made, in order. *)
Definition requests_sent (w : world) : list string :=
  omap wire_method (log w).

(** The messages and the tool-call table. *)
Definition transcript (st : store) : list ChatMessage * gmap string ToolCallInfo :=
  (messages st, toolCalls st).

(** What [handleSessionUpdate] does to the transcript. *)
Definition assemble (n : string * Z * SessionNotification)
    (t : list ChatMessage * gmap string ToolCallInfo)
    : list ChatMessage * gmap string ToolCallInfo :=
  let '(uuid, now, notification) := n in
  transcript (handleSessionUpdate uuid now notification
                (set_toolCalls (snd t) (set_messages (fst t) initial))).

Definition assemble_all (ns : list (string * Z * SessionNotification))
    (t : list ChatMessage * gmap string ToolCallInfo)
    : list ChatMessage * gmap string ToolCallInfo :=
  foldl (fun t n => assemble n t) t ns.

(** The notifications among interruptions, and among the items of a
    script, in order. *)
Definition notification_of (i : interrupt) : option (string * Z * SessionNotification) :=
  match i with
  | notified uuid now n => Some (uuid, now, n)
  | _ => None
  end.

Definition notifications_in (items : list item) : list (string * Z * SessionNotification) :=
  omap (fun it => match it with
                  | happens i => notification_of i
                  | settles _ => None
                  end) items.

(** Interruptions carried out one after the other. *)
Definition carry_out (pre : list interrupt) (sl : store * list effect)
    : store * list effect :=
  foldl (fun sl i => let '(_, st, out) := interrupted i (fst sl) (snd sl) in (st, out))
        sl pre.

Definition is_save (e : effect) : bool :=
  match e with
  | saveSessionsToStore _ => true
  | _ => false
  end.

(** Whether the operation got as far as saving the list of sessions. *)
Definition save_attempted (w : world) : bool := existsb is_save (log w).

(** What an operation establishes when started in [w]. *)
Definition post {A : Type} (m : M A) (w : world)
    (Q : result A -> world -> Prop) : Prop :=
  Q (fst (m w)) (snd (m w)).

(** An operation maintains a property of the world, however it ends. *)
Definition keeps {A : Type} (I : world -> Prop) (m : M A) : Prop :=
  forall w : world, I w -> post m w (fun _ w' => I w').

(** A property of the world that the consumption of script items by an
    [await] maintains. *)
Definition consumable (I : world -> Prop) : Prop :=
  forall (w : world) (pre : list interrupt) (used rest : list item),
    I w -> script w = (happens <$> pre) ++ used ++ rest ->
    Forall (fun it => match it with settles _ => True | happens _ => False end) used ->
    I {| state := fst (carry_out pre (state w, log w)); script := rest;
         log := snd (carry_out pre (state w, log w)) |}.

(** A property of the world that does not depend on the fields of the store
    that the operations assign outside the transcript and the session, nor
    on effects that are not bridge requests or saves. *)
Definition assignable (I : world -> Prop) (f : store -> store) : Prop :=
  forall w : world,
    I w -> I {| state := f (state w); script := script w; log := log w |}.

Definition emittable (I : world -> Prop) (e : effect) : Prop :=
  forall w : world,
    I w -> I {| state := state w; script := script w; log := log w ++ [e] |}.

(** The session is [c], the list of sessions has not been saved, and the
    transcript is what the notifications handled since the operation had
    [items] left to consume have made of [t]. *)
Definition untouched (items : list item) (c : option SavedSession)
    (t : list ChatMessage * gmap string ToolCallInfo) (w : world) : Prop :=
  currentSession (state w) = c
  /\ save_attempted w = false
  /\ exists used : list item,
       items = used ++ script w
       /\ transcript (state w) = assemble_all (notifications_in used) t.

Definition is_load (e : effect) : bool :=
  match e with
  | loadSession _ _ => true
  | _ => false
  end.

(** No [session/load] request has been sent. *)
Definition not_loaded (w : world) : Prop :=
  forallb (fun e => negb (is_load e)) (log w) = true.

(** The session is [c], the list of sessions has not been saved, and the
    transcript was cleared at some point and has since been built up by the
    notifications handled. *)
Definition cleared (items : list item) (c : option SavedSession) (w : world) : Prop :=
  exists before later : list item,
    items = before ++ later /\ untouched later c ([], ∅) w.

(** The error an operation throws after the teardown call it awaited has
    settled: its own when the call succeeded, the call's when it failed. *)
Definition teardown_error (s : settlement) : string :=
  match s with
  | fulfilled _ => "Connection cancelled"
  | rejected message => message
  end.

(** What can come while a request waits on a bridge that is cut off, until
    the request is rejected: answers of the agent, which nobody hears, and
    the end of [cancelConnection]. *)
Definition unheard (it : item) : bool :=
  match it with
  | settles (fulfilled _) => true
  | happens cancel_finished => true
  | _ => false
  end.

(** An attempt started in [st] has failed with [message] and is closed: the
    error is recorded, the bridge discarded, the progress flags are down,
    and the session and the connection flag are those of [st]. *)
Definition failed_with (message : string) (st : store) (w : world) : Prop :=
  error (state w) = Some message
  /\ acpClient (state w) = None
  /\ isLoading (state w) = false
  /\ isConnecting (state w) = false
  /\ currentSession (state w) = currentSession st
  /\ isConnected (state w) = isConnected st.

(** An assignment that leaves the session and the transcript alone. *)
Definition quiet_assignment (f : store -> store) : Prop :=
  forall st : store,
    currentSession (f st) = currentSession st
    /\ isConnected (f st) = isConnected st
    /\ transcript (f st) = transcript st.

(** A property of the store and the log that interruptions maintain. *)
Definition stable (I : store -> list effect -> Prop) : Prop :=
  forall (i : interrupt) (st : store) (out : list effect),
    I st out ->
    I (fst (carry_out [i] (st, out))) (snd (carry_out [i] (st, out))).

End Session.

(** ** The bridge: what a whole run shows *)

Module BridgeRuns.
Import Acp Bridge.

(** The identifier of an outbound request frame. *)
Definition request_id (f : out_frame) : option Z :=
  match f with
  | Request id _ _ => Some id
  | _ => None
  end.

Definition is_call (e : event) : bool :=
  match e with
  | Call _ _ => true
  | _ => false
  end.

(** [acpClient.onSessionUpdate = handleSessionUpdate], as the session store
    does once the bridge is created. *)
Definition listen (w : world) : world :=
  let b := client w in
  with_client
    {| agentId := agentId b; messageResolvers := messageResolvers b;
       messageRejecters := messageRejecters b;
       pendingMethods := pendingMethods b; nextRequestId := nextRequestId b;
       pendingPermissionRequest := pendingPermissionRequest b;
       permissionResolver := permissionResolver b;
       onSessionUpdate := true |} w.

(** The [session/update] notification an event brings, if it is one: a
    frame without [id] whose method is [session/update]. *)
Definition update_of (e : event) : option SessionNotification :=
  match e with
  | Message (Some parsed) =>
      match f_id parsed, f_method parsed, f_params parsed with
      | None, Some method, UpdateParams n =>
          if decide (method = "session/update") then Some n else None
      | _, _, _ => None
      end
  | _ => None
  end.

(** The three tables of pending calls hold the same identifiers. *)
Definition tables_agree (w : world) : Prop :=
  dom (messageRejecters (client w)) = dom (messageResolvers (client w))
  /\ dom (pendingMethods (client w)) = dom (messageResolvers (client w)).

(** Every pending call has a timer set that has not run, and no timer is
    set further ahead than the time-out. *)
Definition all_timed (w : world) : Prop :=
  (forall k : Z, k ∈ dom (messageResolvers (client w)) ->
                 exists t : timer, t ∈ timers w /\ timer_id t = k)
  /\ Forall (fun t => (due t <= now w + REQUEST_TIMEOUT)%N) (timers w).

(** The bridge holds nothing: no pending call, no timer. *)
Definition drained (w : world) : Prop :=
  messageResolvers (client w) = ∅
  /\ messageRejecters (client w) = ∅
  /\ pendingMethods (client w) = ∅
  /\ timers w = [].

End BridgeRuns.

(** ** More of JavaScript's strings *)

(** The white space [trim] removes, among the ASCII characters: tab, line
    feed, vertical tab, form feed, carriage return and space. *)
Definition is_space (c : ascii) : bool :=
  let n := nat_of_ascii c in
  ((9 <=? n) && (n <=? 13))%nat || (n =? 32)%nat.

Fixpoint trimStart (s : string) : string :=
  match s with
  | EmptyString => EmptyString
  | String c rest => if is_space c then trimStart rest else s
  end.

Fixpoint trimEnd (s : string) : string :=
  match s with
  | EmptyString => EmptyString
  | String c rest =>
      match trimEnd rest with
      | EmptyString => if is_space c then EmptyString else String c EmptyString
      | kept => String c kept
      end
  end.

(** [s.trim()] *)
Definition trim (s : string) : string := trimEnd (trimStart s).

(** A string of white space only. *)
Fixpoint blank (s : string) : bool :=
  match s with
  | EmptyString => true
  | String c rest => is_space c && blank rest
  end.

(** [s.startsWith(pattern)] *)
Definition startsWith (s pattern : string) : bool := String.prefix pattern s.

(** ** The traffic recorder: the filtered view ([src/stores/traffic.ts]) *)

Module TrafficView.

Definition setFilter (newFilter : Traffic.TrafficFilter) (st : Traffic.store)
    : Traffic.store :=
  {| Traffic.entries := Traffic.entries st; Traffic.isPaused := Traffic.isPaused st;
     Traffic.filter := newFilter; Traffic.searchQuery := Traffic.searchQuery st |}.

Definition setSearch (query : string) (st : Traffic.store) : Traffic.store :=
  {| Traffic.entries := Traffic.entries st; Traffic.isPaused := Traffic.isPaused st;
     Traffic.filter := Traffic.filter st; Traffic.searchQuery := query |}.

Definition clearSearch (st : Traffic.store) : Traffic.store := setSearch "" st.

(** [e.type === t] *)
Definition has_type (t : Traffic.TrafficType) (e : Traffic.TrafficEntry) : bool :=
  match t, Traffic.type e with
  | Traffic.request, Traffic.request
  | Traffic.response, Traffic.response
  | Traffic.notification, Traffic.notification => true
  | _, _ => false
  end.

Section WithStringify.

(** [JSON.stringify] on the payloads the recorder is given. *)
Context (stringify : json -> string).

(** The callback of the search filter. *)
Definition found (query : string) (e : Traffic.TrafficEntry) : bool :=
  includes (toLowerCase (Traffic.method e)) query
  || includes (toLowerCase (stringify (Traffic.payload e))) query.

(** The computed [filteredEntries]. *)
Definition filteredEntries (st : Traffic.store) : list Traffic.TrafficEntry :=
  let result := Traffic.entries st in
  let result :=
    match Traffic.filter st with
    | Traffic.f_requests => List.filter (has_type Traffic.request) result
    | Traffic.f_responses => List.filter (has_type Traffic.response) result
    | Traffic.f_notifications => List.filter (has_type Traffic.notification) result
    | Traffic.f_all => result
    end in
  let query := toLowerCase (trim (Traffic.searchQuery st)) in
  match truthy (Some query) with
  | Some _ => List.filter (found query) result
  | None => result
  end.

End WithStringify.

(** What the recorder has taken in: whether it is paused, and the entries
    accepted since it was last cleared. *)
Definition take_in (s : bool * list Traffic.TrafficEntry) (o : Traffic.op)
    : bool * list Traffic.TrafficEntry :=
  match o with
  | Traffic.Add e uuid now =>
      if fst s then s else (fst s, snd s ++ [Traffic.newEntry e uuid now])
  | Traffic.Clear => (fst s, [])
  | Traffic.TogglePause => (negb (fst s), snd s)
  end.

Definition taken_in (ops : list Traffic.op) : bool * list Traffic.TrafficEntry :=
  foldl take_in (false, []) ops.

End TrafficView.

(** ** The transcript a run of notifications builds *)

Module Transcript.
Import Acp Types Session.

(** No two neighbours of a list of roles are the same. *)
Fixpoint alternate (roles : list Role) : bool :=
  match roles with
  | r1 :: (r2 :: _) as rest => negb (bool_decide (r1 = r2)) && alternate rest
  | _ => true
  end.

(** No two neighbouring messages have the same role. *)
Definition alternating (ms : list ChatMessage) : bool :=
  alternate (role <$> ms).

(** What [handleSessionUpdate] leaves alone in a message once a later
    message exists: everything but the tool calls. *)
Definition settled_part (m : ChatMessage) : string * Role * Z * string * option string :=
  (id m, role m, timestamp m, content m, thought m).

(** The message at a position keeps its identifier, role and time, and its
    text can only grow at the end. *)
Definition grown (before after : option ChatMessage) : Prop :=
  match before, after with
  | Some m, Some m' =>
      (id m', role m', timestamp m') = (id m, role m, timestamp m)
      /\ String.prefix (content m) (content m') = true
  | _, _ => False
  end.

(** The record [tool_call] makes. *)
Definition announced (tcid ttl : string) (knd : option string)
    (sts : option ToolCallStatus) (locs : option (list string)) : ToolCallInfo :=
  {| toolCallId := tcid; title := ttl; kind := default "other" (truthy knd);
     status := default pending sts; locations := locs |}.

Definition announce (sessionId tcid ttl : string) (knd : option string)
    (sts : option ToolCallStatus) (locs : option (list string))
    : SessionNotification :=
  {| sn_sessionId := sessionId; update := tool_call tcid ttl knd sts locs |}.

End Transcript.

(** ** The session store: what a completed attempt leaves *)

Module Outcomes.
Import Acp Types Session.

(** A property of the world an operation leaves when it returns. *)
Definition on_done {A : Type} (P : world -> Prop) (r : result A) (w : world) : Prop :=
  match r with
  | Done _ => P w
  | _ => True
  end.

(** The session [createSession] makes of the agent's answer. *)
Definition new_session (agentName cwd : string) (e : env) (sid : string)
    (supports : bool) : SavedSession :=
  {| ss_id := uuid e; agentName := agentName; Types.sessionId := sid;
     ss_title := String.append "Session " (localeString e);
     lastUpdated := now e; cwd := cwd; supportsLoadSession := Some supports |}.

(** What [createSession] leaves when it returns. *)
Definition created (agentName cwd : string) (e : env) (w : world) : Prop :=
  isConnected (state w) = true
  /\ transcript (state w) = ([], ∅)
  /\ isLoading (state w) = false
  /\ isConnecting (state w) = false
  /\ save_attempted w = true
  /\ exists (sid : string) (supports : bool),
       currentSession (state w) = Some (new_session agentName cwd e sid supports)
       /\ last (savedSessions (state w)) =
          Some (new_session agentName cwd e sid supports).

(** The script left is an end of [items]. *)
Definition within (items : list item) (w : world) : Prop :=
  exists before : list item, items = before ++ script w.

(** The transcript is what the notifications handled since some point of
    [items] have made of the empty one. *)
Definition replayed (items : list item) (w : world) : Prop :=
  exists before used : list item,
    items = before ++ used ++ script w
    /\ transcript (state w) = assemble_all (notifications_in used) ([], ∅).

(** What [resumeSession] leaves when it returns. *)
Definition resumed (savedSession : SavedSession) (e : env) (items : list item)
    (w : world) : Prop :=
  isConnected (state w) = true
  /\ isLoading (state w) = false
  /\ currentSession (state w) = Some (touch (now e) savedSession)
  /\ save_attempted w = true
  /\ replayed items w.

(** An assignment that leaves the transcript alone. *)
Definition keeps_transcript (f : store -> store) : Prop :=
  forall st : store, transcript (f st) = transcript st.

End Outcomes.

(** ** The session store: the actions of a connected session *)

Module Actions.
Import Acp Types Session.

(** Calls that leave the store while a session is connected. The bridge
    calls go out through [AcpClientBridge]; [track] is [trackEvent] with
    its properties. *)
Inductive request :=
| bridge_prompt (sessionId text : string)
| bridge_cancel (sessionId : string)
| bridge_setMode (sessionId modeId : string)
| bridge_setSessionModel (sessionId modelId : string)
| bridge_disconnect (agent : string)
| save_sessions (sessions : list SavedSession)
| track (name : string) (properties : list (string * string)).

(** What an awaited promise is fulfilled with. *)
Inductive reply :=
| no_value
| prompt_response (stopReason : option string).

(** What happens while an action is suspended: the bridge hands over a
    [session/update] notification, or the awaited promise settles. Nothing
    else changes the store in the meantime. *)
Inductive occurrence :=
| arrives (uuid : string) (now : Z) (n : SessionNotification)
| answers (r : reply)
| fails (message : string).

Record scene := {
  store_now : store;
  to_come : list occurrence;
  sent : list request
}.

Definition action (A : Type) : Type := scene -> result A * scene.

Definition pure {A : Type} (a : A) : action A := fun sc => (Done a, sc).

Definition and_then {A B : Type} (m : action A) (k : A -> action B) : action B :=
  fun sc =>
    match m sc with
    | (Done a, sc') => k a sc'
    | (Threw e, sc') => (Threw e, sc')
    | (Blocked, sc') => (Blocked, sc')
    end.

Definition raise {A : Type} (e : string) : action A := fun sc => (Threw e, sc).

Definition read : action store := fun sc => (Done (store_now sc), sc).

Definition assign (f : store -> store) : action unit :=
  fun sc => (Done tt, {| store_now := f (store_now sc); to_come := to_come sc;
                         sent := sent sc |}).

Definition send_out (r : request) : action unit :=
  fun sc => (Done tt, {| store_now := store_now sc; to_come := to_come sc;
                         sent := sent sc ++ [r] |}).

(** [try { m } finally { f }], for a [finally] block that only assigns. *)
Definition ensure {A : Type} (m : action A) (f : store -> store) : action A :=
  fun sc =>
    match m sc with
    | (Blocked, sc') => (Blocked, sc')
    | (r, sc') => (r, {| store_now := f (store_now sc'); to_come := to_come sc';
                         sent := sent sc' |})
    end.

Declare Scope action_scope.
Delimit Scope action_scope with action.
Notation "x <~ m ;;; k" := (and_then m (fun x => k))
  (at level 100, m at next level, right associativity) : action_scope.
Notation "m ;;; k" := (and_then m (fun _ => k))
  (at level 100, right associativity) : action_scope.
Open Scope action_scope.

(** [await p]: the notifications that come first are handled, then [p]
    settles. *)
Fixpoint settle_with (l : list occurrence) (st : store) (out : list request)
    : result reply * scene :=
  match l with
  | [] => (Blocked, {| store_now := st; to_come := []; sent := out |})
  | arrives uuid now n :: rest =>
      settle_with rest (handleSessionUpdate uuid now n st) out
  | answers r :: rest => (Done r, {| store_now := st; to_come := rest; sent := out |})
  | fails e :: rest => (Threw e, {| store_now := st; to_come := rest; sent := out |})
  end.

Definition wait : action reply :=
  fun sc => settle_with (to_come sc) (store_now sc) (sent sc).

(** A call that is awaited. *)
Definition ask (r : request) : action reply := send_out r ;;; wait.

(** *** [sendPrompt] *)

(** [text.slice(0, 50) + (text.length > 50 ? '...' : '')], for a [text] of
    ASCII characters: [slice] and [length] count UTF-16 code units, which
    are the characters of such a text. *)
Definition first_words (text : string) : string :=
  String.append (substring 0 50 text)
    (if (50 <? String.length text)%nat then "..." else "").

Definition set_title_and_time (title : string) (t : Z) (s : SavedSession) : SavedSession :=
  {| ss_id := ss_id s; agentName := agentName s;
     Types.sessionId := Types.sessionId s; ss_title := title;
     lastUpdated := t; cwd := cwd s;
     supportsLoadSession := supportsLoadSession s |}.

(** [currentSession.value.title = title; currentSession.value.lastUpdated = t]:
    the object is also the entry of [savedSessions] with its identifier. *)
Definition retitle (title : string) (t : Z) (st : store) : store :=
  match currentSession st with
  | Some current =>
      set_savedSessions
        (map (fun s => if decide (ss_id s = ss_id current)
                       then set_title_and_time title t s else s)
             (savedSessions st))
        (set_currentSession (Some (set_title_and_time title t current)) st)
  | None => st
  end.

Definition stop_reason (r : reply) : option string :=
  match r with
  | prompt_response stopReason => stopReason
  | no_value => None
  end.

(** The [try] block of [sendPrompt]. *)
Definition prompt_exchange (text : string) (answeredAt : Z) (session : SavedSession)
    : action unit :=
  response <~ ask (bridge_prompt (Types.sessionId session) text) ;;;
  send_out (track "PromptSent"
              [("messageLength", pretty (String.length text));
               ("stopReason", default "unknown" (truthy (stop_reason response)))]) ;;;
  st <~ read ;;;
  if (length (messages st) =? 2)%nat && present (currentSession st)
  then
    assign (retitle (first_words text) answeredAt) ;;;
    st <~ read ;;;
    ask (save_sessions (savedSessions st)) ;;;
    pure tt
  else pure tt.

Definition prompt_message (text uuid : string) (sentAt : Z) : ChatMessage :=
  {| id := uuid; role := user; content := text; thought := None;
     timestamp := sentAt; Types.toolCalls := None |}.

(** [sendPrompt(text)]; [uuid] and [sentAt] are what [crypto.randomUUID()]
    and [Date.now()] return for the message, [answeredAt] what [Date.now()]
    returns after the answer. *)
Definition sendPrompt (text uuid : string) (sentAt answeredAt : Z) : action unit :=
  st <~ read ;;;
  match acpClient st, currentSession st with
  | Some _, Some session =>
      assign (push_message (prompt_message text uuid sentAt)) ;;;
      assign (set_isLoading true) ;;;
      ensure (prompt_exchange text answeredAt session) (set_isLoading false)
  | _, _ => raise "No active session"
  end.

(** *** [cancelOperation], [setMode], [setModel] *)

Definition cancelOperation : action unit :=
  st <~ read ;;;
  match acpClient st, currentSession st with
  | Some _, Some session => ask (bridge_cancel (Types.sessionId session)) ;;; pure tt
  | _, _ => pure tt
  end.

Definition setMode (modeId : string) : action unit :=
  st <~ read ;;;
  match acpClient st, currentSession st with
  | Some _, Some session =>
      ask (bridge_setMode (Types.sessionId session) modeId) ;;;
      assign (set_currentModeId modeId)
  | _, _ => raise "No active session"
  end.

Definition setModel (modelId : string) : action unit :=
  st <~ read ;;;
  match acpClient st, currentSession st with
  | Some _, Some session =>
      ask (bridge_setSessionModel (Types.sessionId session) modelId) ;;;
      assign (set_currentModelId modelId)
  | _, _ => raise "No active session"
  end.

(** *** [disconnect] *)

(** [Math.round(ms / 1000)] *)
Definition rounded_seconds (ms : Z) : Z := (ms + 500) / 1000.

(** The assignments at the end of [disconnect]. *)
Definition forget_session (st : store) : store :=
  set_currentModelId ""
    (set_availableModels []
       (set_availableCommands []
          (set_currentModeId ""
             (set_availableModes []
                (set_toolCalls ∅
                   (set_messages []
                      (set_isConnected false (set_currentSession None st)))))))).

(** [disconnect()]; [now1] and [now2] are what the two [Date.now()] return,
    the first of which is only evaluated when there is no time of last use. *)
Definition disconnect (now1 now2 : Z) : action unit :=
  st <~ read ;;;
  let agentName := default "unknown" (truthy (agentName <$> currentSession st)) in
  let sessionStart := default now1 (truthy_num (lastUpdated <$> currentSession st)) in
  let sessionDuration := rounded_seconds (now2 - sessionStart) in
  match acpClient st with
  | Some agent => ask (bridge_disconnect agent) ;;; assign (set_acpClient None)
  | None => pure tt
  end ;;;
  st <~ read ;;;
  send_out (track "SessionDisconnected"
              [("agentName", agentName);
               ("sessionDurationSeconds", pretty sessionDuration);
               ("messageCount", pretty (length (messages st)))]) ;;;
  assign forget_session.

(** *** [deleteSession] *)

Definition deleteSession (sessionId : string) : action unit :=
  assign (fun st => set_savedSessions
                      (List.filter (fun s => negb (bool_decide (ss_id s = sessionId)))
                                   (savedSessions st)) st) ;;;
  st <~ read ;;;
  ask (save_sessions (savedSessions st)) ;;;
  pure tt.

(** Running an action. *)
Definition perform {A : Type} (m : action A) (st : store) (l : list occurrence)
    : result A * scene :=
  m {| store_now := st; to_come := l; sent := [] |}.

(** *** Observations *)

(** The notifications among what happens. *)
Definition arrivals (l : list occurrence) : list (string * Z * SessionNotification) :=
  omap (fun o => match o with
                 | arrives uuid now n => Some (uuid, now, n)
                 | _ => None
                 end) l.

(** Notifications as occurrences. *)
Definition arriving (ns : list (string * Z * SessionNotification)) : list occurrence :=
  (fun '(uuid, now, n) => arrives uuid now n) <$> ns.

(** An action maintains a property of the store, however it ends. *)
Definition maintains {A : Type} (I : store -> Prop) (m : action A) : Prop :=
  forall sc : scene, I (store_now sc) -> I (store_now (snd (m sc))).

(** The message [sendPrompt] pushed is at position [i]. *)
Definition holds_prompt (i : nat) (text uuid : string) (sentAt : Z) (st : store) : Prop :=
  exists m : ChatMessage,
    messages st !! i = Some m
    /\ id m = uuid /\ role m = user /\ timestamp m = sentAt
    /\ String.prefix text (content m) = true.

(** *** The lines of the agent's error stream *)

(** [detectPhase(line)] *)
Definition detectPhase (line : string) : option string :=
  let lower := toLowerCase line in
  if includes lower "download" || includes lower "fetch" || includes lower "get "
  then Some "downloading"
  else if includes lower "install" || includes lower "added" || includes lower "packages"
  then Some "installing"
  else if includes lower "build" || includes lower "compil"
  then Some "building"
  else if includes lower "start" || includes lower "spawn"
  then Some "starting"
  else None.

(** [AgentStderr] *)
Record AgentStderr := {
  stderr_agent_id : string;
  stderr_line : string
}.

(** The refs of the start-up progress display. *)
Record progress := {
  startupPhase : string;
  startupLogs : list string
}.

(** The callback [createSession] hands to [onAgentStderr], for the agent
    with identifier [agent]. *)
Definition onStderr (agent : string) (p : progress) (stderr : AgentStderr) : progress :=
  if decide (stderr_agent_id stderr = agent) then
    let logs := startupLogs p ++ [stderr_line stderr] in
    match detectPhase (stderr_line stderr) with
    | Some detectedPhase => {| startupPhase := detectedPhase; startupLogs := logs |}
    | None => {| startupPhase := startupPhase p; startupLogs := logs |}
    end
  else p.

(** The lines of one agent among the events of the error streams. *)
Definition lines_of (agent : string) (events : list AgentStderr) : list string :=
  stderr_line <$> List.filter (fun s => bool_decide (stderr_agent_id s = agent)) events.

(** [startupPhase.value = 'starting'; startupLogs.value = []], at the start
    of [createSession]. *)
Definition progress_reset : progress :=
  {| startupPhase := "starting"; startupLogs := [] |}.

(** [startupPhase.value = phase] *)
Definition set_startupPhase (phase : string) (p : progress) : progress :=
  {| startupPhase := phase; startupLogs := startupLogs p |}.

(** The progress display in the course of [createSession]. The display is
    reset and, once the agent is spawned, the listener is registered; the
    events [registered] arrive before [createSession] goes on. *)
Definition progress_registered (agent : string) (registered : list AgentStderr)
    : progress :=
  foldl (onStderr agent) progress_reset registered.

(** The first check of the cancellation flag is passed: [createSession]
    sets the phase to ['initializing'], and the events [creating] arrive
    while the bridge is created. *)
Definition progress_initializing (agent : string)
    (registered creating : list AgentStderr) : progress :=
  foldl (onStderr agent)
    (set_startupPhase "initializing" (progress_registered agent registered))
    creating.

(** The second check is passed: [createSession] sets the phase to
    ['connecting'], and the events [connecting] arrive until the listener
    is removed at the end of the attempt. *)
Definition progress_connecting (agent : string)
    (registered creating connecting : list AgentStderr) : progress :=
  foldl (onStderr agent)
    (set_startupPhase "connecting"
       (progress_initializing agent registered creating))
    connecting.

End Actions.

(** ** Telemetry ([src/lib/telemetry.ts]) *)

Module Telemetry.

(** The calls made on the Application Insights SDK. *)
Inductive sdk_call :=
| construct
| loadAppInsights
| setAuthenticatedUserContext (id : string)
| trackPageView (name : string)
| sdk_trackEvent (name : string) (properties : option (list (string * string)))
| sdk_trackException (error : string) (properties : option (list (string * string)))
| sdk_trackMetric (name : string) (average : Z)
    (properties : option (list (string * string)))
| flush.

(** The variables of the module, and the calls made on the SDK so far;
    [appInsights] tells whether the variable holds an instance. *)
Record state := {
  isEnabled : bool;
  appInsights : bool;
  machineId : option string;
  calls : list sdk_call
}.

Definition start : state :=
  {| isEnabled := true; appInsights := false; machineId := None; calls := [] |}.

Section WithSdk.

(** Whether a call on the SDK throws. *)
Context (throws : sdk_call -> bool).

(** Calls made one after the other inside a [try] block: the first one
    that throws ends the block. *)
Fixpoint attempt (steps : list sdk_call) (made : list sdk_call) : bool * list sdk_call :=
  match steps with
  | [] => (true, made)
  | c :: rest => if throws c then (false, made ++ [c]) else attempt rest (made ++ [c])
  end.

(** [initTelemetry(enabled)]; [getMachineId] is what the call of that name
    does. *)
Definition initTelemetry (enabled : bool) (getMachineId : Bridge.outcome string)
    (st : state) : state :=
  if enabled then
    let id := match getMachineId with
              | Bridge.Returns id => Some id
              | Bridge.Throws _ => None
              end in
    let steps := [construct; loadAppInsights]
                 ++ match truthy id with
                    | Some id => [setAuthenticatedUserContext id]
                    | None => []
                    end
                 ++ [trackPageView "AppLaunch"] in
    let '(ok, made) := attempt steps (calls st) in
    {| isEnabled := true; appInsights := ok; machineId := id; calls := made |}
  else
    {| isEnabled := false; appInsights := appInsights st;
       machineId := machineId st; calls := calls st |}.

(** The body the three tracking functions share: nothing when telemetry is
    off or there is no instance, otherwise the call, whose exception is
    caught. *)
Definition tracking (c : sdk_call) (st : state) : state :=
  if negb (isEnabled st) || negb (appInsights st) then st
  else {| isEnabled := isEnabled st; appInsights := appInsights st;
          machineId := machineId st; calls := calls st ++ [c] |}.

Definition trackEvent (name : string) (properties : option (list (string * string)))
    (st : state) : state :=
  tracking (sdk_trackEvent name properties) st.

Definition trackError (error : string) (properties : option (list (string * string)))
    (st : state) : state :=
  tracking (sdk_trackException error properties) st.

Definition trackMetric (name : string) (value : Z)
    (properties : option (list (string * string))) (st : state) : state :=
  tracking (sdk_trackMetric name value properties) st.

(** [setTelemetryEnabled(enabled)]; the second component tells whether the
    call throws, which it does when [flush] does. *)
Definition setTelemetryEnabled (enabled : bool) (st : state) : state * bool :=
  if negb enabled && appInsights st
  then ({| isEnabled := enabled; appInsights := appInsights st;
           machineId := machineId st; calls := calls st ++ [flush] |},
        throws flush)
  else ({| isEnabled := enabled; appInsights := appInsights st;
           machineId := machineId st; calls := calls st |}, false).

Definition isTelemetryEnabled (st : state) : bool := isEnabled st.

(** The calls the rest of the application makes after the start. *)
Inductive op :=
| TrackEvent (name : string) (properties : option (list (string * string)))
| TrackError (error : string) (properties : option (list (string * string)))
| TrackMetric (name : string) (value : Z) (properties : option (list (string * string)))
| SetEnabled (enabled : bool).

Definition apply_op (st : state) (o : op) : state :=
  match o with
  | TrackEvent name properties => trackEvent name properties st
  | TrackError error properties => trackError error properties st
  | TrackMetric name value properties => trackMetric name value properties st
  | SetEnabled enabled => fst (setTelemetryEnabled enabled st)
  end.

Definition run (ops : list op) (st : state) : state := foldl apply_op st ops.

End WithSdk.

(** Is the call one of the three tracking calls? *)
Definition is_tracking (c : sdk_call) : bool :=
  match c with
  | sdk_trackEvent _ _ | sdk_trackException _ _ | sdk_trackMetric _ _ _ => true
  | _ => false
  end.

(** Is the operation [setTelemetryEnabled(true)]? *)
Definition switches_on (o : op) : bool :=
  match o with
  | SetEnabled true => true
  | _ => false
  end.

End Telemetry.

(** ** The list of sessions ([src/components/SessionList.vue]) *)

Module SessionList.
Import Types.

(** The store's computed [resumableSessions]. *)
Definition resumableSessions (st : Session.store) : list SavedSession :=
  List.filter (fun s => bool_decide (supportsLoadSession s = Some true))
              (Session.savedSessions st).

(** [l.sort((a, b) => b.lastUpdated - a.lastUpdated)]: the sort is stable,
    so with this comparator its result is the one of inserting each element,
    from the last to the first, in front of the first element that is not
    more recent. *)
Fixpoint insert_recent (s : SavedSession) (sorted : list SavedSession)
    : list SavedSession :=
  match sorted with
  | [] => [s]
  | t :: rest =>
      if lastUpdated t <=? lastUpdated s then s :: sorted
      else t :: insert_recent s rest
  end.

Definition sort_recent_first (l : list SavedSession) : list SavedSession :=
  foldr insert_recent [] l.

(** The component's computed [sessions]. *)
Definition sessions (st : Session.store) : list SavedSession :=
  sort_recent_first (resumableSessions st).

(** The order of the list: [a] may stand before [b]. *)
Definition not_older (a b : SavedSession) : Prop := lastUpdated b <= lastUpdated a.

End SessionList.

(** ** The command palette ([src/components/CommandPalette.vue],
    [src/components/ChatView.vue]) *)

Module Palette.
Import Acp.

(** The computed [filteredCommands]; a command is the store's record of
    it. *)
Definition filteredCommands (filter : string) (commands : list AvailableCommand)
    : list AvailableCommand :=
  let filterText := toLowerCase filter in
  match truthy (Some filterText) with
  | None => commands
  | Some _ =>
      List.filter
        (fun cmd => startsWith (toLowerCase (cmd_name cmd)) filterText
                    || includes (toLowerCase (cmd_description cmd)) filterText)
        commands
  end.

Inductive key := ArrowDown | ArrowUp | Enter | Escape | Tab | OtherKey.

Inductive emitted :=
| select (command : AvailableCommand)
| close.

(** [shown[i]] for a number [i]. *)
Definition at_index (shown : list AvailableCommand) (i : Z) : option AvailableCommand :=
  if i <? 0 then None else shown !! Z.to_nat i.

(** [handleKeyDown(event)]: the new [selectedIndex] and what is emitted.
    [%] is JavaScript's remainder, which has the sign of the dividend. *)
Definition handleKeyDown (visible : bool) (shown : list AvailableCommand)
    (event : key) (selectedIndex : Z) : Z * option emitted :=
  if negb visible || (length shown =? 0)%nat then (selectedIndex, None)
  else
    let len := Z.of_nat (length shown) in
    match event with
    | ArrowDown => (Z.rem (selectedIndex + 1) len, None)
    | ArrowUp => (Z.rem (selectedIndex - 1 + len) len, None)
    | Enter | Tab => (selectedIndex, select <$> at_index shown selectedIndex)
    | Escape => (selectedIndex, Some close)
    | OtherKey => (selectedIndex, None)
    end.

(** The computed [showCommandPalette] and [commandFilter] of the chat
    view, and the text [handleCommandSelect] puts in the input. *)
Definition showCommandPalette (availableCommands : list AvailableCommand)
    (inputText : string) : bool :=
  if (length availableCommands =? 0)%nat then false
  else if negb (startsWith inputText "/") then false
  else negb (includes inputText " ").

Definition commandFilter (inputText : string) : string :=
  if startsWith inputText "/"
  then match inputText with
       | String _ rest => rest
       | EmptyString => EmptyString
       end
  else "".

Definition handleCommandSelect (command : AvailableCommand) : string :=
  String.append "/" (String.append (cmd_name command) " ").

End Palette.

(** ** Reference definitions

    Definitions that follow the words of the specification, to compare the
    definitions above with. *)

Module Reference.
Import Acp Types.

(** The lines an [fs/read_text_file] request asks for: from the line
    numbered [line], counting from one (from the first line when [line] is
    absent or zero), at most [limit] of them (all of them when [limit] is
    absent or zero). *)
Definition requested_lines (line limit : option Z) (lines : list string) : list string :=
  let first := match line with
               | Some l => if l =? 0 then 0%nat else Z.to_nat (l - 1)
               | None => 0%nat
               end in
  let from_first := drop first lines in
  match limit with
  | Some k => if k =? 0 then from_first else take (Z.to_nat k) from_first
  | None => from_first
  end.

(** The message a text chunk makes when it cannot be appended. *)
Definition fresh_message (r : Role) (uuid : string) (now : Z) (text : string) : ChatMessage :=
  {| id := uuid; role := r; content := text; thought := None;
     timestamp := now;
     Types.toolCalls := match r with assistant => Some [] | _ => None end |}.

(** A text chunk of role [r]: if the last entry of the transcript has the
    same role the text is appended to its content, otherwise a new message
    is appended. *)
Definition fold_text_chunk (r : Role) (uuid : string) (now : Z) (text : string)
    (transcript : list ChatMessage) : list ChatMessage :=
  match reverse transcript with
  | lastEntry :: earlier =>
      if decide (role lastEntry = r)
      then reverse earlier ++
           [{| id := id lastEntry; role := role lastEntry;
               content := String.append (content lastEntry) text;
               thought := thought lastEntry;
               timestamp := timestamp lastEntry;
               Types.toolCalls := Types.toolCalls lastEntry |}]
      else transcript ++ [fresh_message r uuid now text]
  | [] => transcript ++ [fresh_message r uuid now text]
  end.

(** The notification that carries a text chunk of a user or of the
    assistant. *)
Definition text_chunk (r : Role) (sessionId text : string) : SessionNotification :=
  {| sn_sessionId := sessionId;
     update := match r with
               | user => user_message_chunk (TextContent text)
               | _ => agent_message_chunk (TextContent text)
               end |}.

(** A tool-call record with the fields an update carries put in: the
    status if there is one, the title if there is one and it is not
    empty. *)
Definition with_carried (new_status : option ToolCallStatus)
    (new_title : option string) (tc : ToolCallInfo) : ToolCallInfo :=
  {| toolCallId := toolCallId tc;
     title := match new_title with
              | Some t => if decide (t = "") then title tc else t
              | None => title tc
              end;
     kind := kind tc;
     status := match new_status with
               | Some s => s
               | None => status tc
               end;
     locations := locations tc |}.

(** Whether position [j] is the first one of [tcs] that holds an entry
    with identifier [tcid]. *)
Definition is_first_match (tcid : string) (tcs : list ToolCallInfo) (j : nat) : bool :=
  bool_decide (toolCallId <$> tcs !! j = Some tcid)
  && forallb (fun tc => negb (bool_decide (toolCallId tc = tcid))) (take j tcs).

Definition status_update (sessionId tcid : string)
    (new_status : option ToolCallStatus) (new_title : option string)
    : SessionNotification :=
  {| sn_sessionId := sessionId;
     update := tool_call_update tcid new_status new_title |}.

End Reference.

(** ** Example data *)

Module Examples.
Import Acp Types.

Definition four_lines : string :=
  String.append "a" (String newline (String.append "b" (String newline
    (String.append "c" (String newline "d"))))).

Definition lines_2_3 : ReadTextFileRequest :=
  {| read_path := "/notes.txt"; line := Some 2; limit := Some 2 |}.

(** A request whose [limit] is negative. *)
Definition negative_limit : ReadTextFileRequest :=
  {| read_path := "/notes.txt"; line := Some 1; limit := Some (-1) |}.

(** An assistant message whose tool-call list holds the identifier
    ["call-1"] twice: the agent announced that call two times. *)
Definition announced_twice : list (string * Z * SessionNotification) :=
  [("m1", 10, {| sn_sessionId := "s1";
                 update := agent_message_chunk (TextContent "Working") |});
   ("m2", 11, {| sn_sessionId := "s1";
                 update := tool_call "call-1" "Edit file" None None None |});
   ("m3", 12, {| sn_sessionId := "s1";
                 update := tool_call "call-1" "Edit file" None None None |})].

Definition call_1_completed : SessionNotification :=
  {| sn_sessionId := "s1";
     update := tool_call_update "call-1" (Some completed) None |}.

(** A file collaborator that knows no file and cannot write. *)
Definition no_read : string -> Bridge.outcome string :=
  fun _ => Bridge.Throws "No such file".

Definition no_write : string -> string -> Bridge.outcome unit :=
  fun _ _ => Bridge.Throws "Read-only file system".

Definition edit_permission (tool : string) : RequestPermissionRequest :=
  {| rp_sessionId := "s1";
     rp_toolCall := {| tcu_toolCallId := tool; tcu_title := Some "Edit file";
                       tcu_kind := None; tcu_status := None;
                       tcu_locations := None |};
     rp_options := [{| opt_kind := "allow_once"; opt_name := "Allow";
                       optionId := "allow" |};
                    {| opt_kind := "reject_once"; opt_name := "Reject";
                       optionId := "reject" |}] |}.

(** Two permission requests, the second arriving while the first waits for
    the user, and then the user's decisions. *)
Definition overlapping_permissions : list Bridge.event :=
  [Bridge.Message (Some (Bridge.request_frame (Bridge.IdNum 1)
                           "session/request_permission"
                           (Bridge.PermissionParams (edit_permission "call-1"))));
   Bridge.Message (Some (Bridge.request_frame (Bridge.IdNum 2)
                           "session/request_permission"
                           (Bridge.PermissionParams (edit_permission "call-2"))));
   Bridge.ResolvePermission "allow";
   Bridge.CancelPermission;
   Bridge.ResolvePermission "allow"].

Definition env_1 : Session.env :=
  {| Session.uuid := "uuid-1"; Session.now := 1000; Session.localeString := "today" |}.

Definition agent_1 : AgentInstance :=
  {| agent_id := "agent-1"; agent_name := "agent" |}.

(** A handshake result that advertises one authentication method. *)
Definition init_1 : InitializeResponse :=
  {| Acp.loadSession := Some true;
     authMethods := Some [{| am_id := "oauth"; am_name := "OAuth" |}] |}.

Definition session_response (sid : string) : NewSessionResponse :=
  {| Acp.sessionId := sid; modes := None; models := None |}.

Definition saved_1 : SavedSession :=
  {| ss_id := "uuid-0"; agentName := "agent"; Types.sessionId := "s0";
     ss_title := "Earlier session"; lastUpdated := 500; cwd := "/work";
     supportsLoadSession := Some true |}.

(** The user cancels while the agent is being spawned; the spawn, the
    registration of the stderr listener and the kill succeed. *)
Definition cancel_while_spawning : list Session.item :=
  [Session.happens Session.cancel_requested;
   Session.settles (Session.fulfilled (Session.v_agent agent_1));
   Session.settles (Session.fulfilled Session.v_unit);
   Session.settles (Session.fulfilled Session.v_unit)].

(** The user cancels while the list of sessions is being saved: the
    cancellation disconnects the bridge and ends, then the save succeeds. *)
Definition cancel_during_save : list Session.item :=
  [Session.settles (Session.fulfilled (Session.v_agent agent_1));
   Session.settles (Session.fulfilled Session.v_unit);
   Session.settles (Session.fulfilled Session.v_unit);
   Session.settles (Session.fulfilled (Session.v_init init_1));
   Session.settles (Session.fulfilled (Session.v_session (session_response "s1")));
   Session.happens Session.cancel_requested;
   Session.happens Session.cancel_finished;
   Session.settles (Session.fulfilled Session.v_unit)].

(** The user cancels while [session/new] is in flight: the agent's answer
    is not heard, the cancellation ends, and the request times out. *)
Definition cancel_during_new_session : list Session.item :=
  [Session.settles (Session.fulfilled (Session.v_agent agent_1));
   Session.settles (Session.fulfilled Session.v_unit);
   Session.settles (Session.fulfilled Session.v_unit);
   Session.settles (Session.fulfilled (Session.v_init init_1));
   Session.happens Session.cancel_requested;
   Session.settles (Session.fulfilled (Session.v_session (session_response "s1")));
   Session.happens Session.cancel_finished;
   Session.settles (Session.rejected "Request timeout: session/new")].

(** After the handshake: [session/new] is rejected for want of
    authentication, the user picks a method, [authenticate] and the second
    [session/new] succeed, and so does the save. *)
Definition authenticate_and_retry : list Session.item :=
  [Session.settles (Session.rejected "Authentication required");
   Session.happens (Session.method_selected "oauth");
   Session.settles (Session.fulfilled Session.v_unit);
   Session.settles (Session.fulfilled (Session.v_session (session_response "s2")));
   Session.settles (Session.fulfilled Session.v_unit)].

(** A resume in which every call succeeds. *)
Definition resume_succeeds : list Session.item :=
  [Session.settles (Session.fulfilled (Session.v_agent agent_1));
   Session.settles (Session.fulfilled Session.v_unit);
   Session.settles (Session.fulfilled (Session.v_init init_1));
   Session.settles (Session.fulfilled Session.v_unit);
   Session.settles (Session.fulfilled Session.v_unit)].

(** A store with a conversation in it. *)
Definition in_conversation : Session.store :=
  Session.handle_all
    [("m1", 10, {| sn_sessionId := "s0";
                   update := agent_message_chunk (TextContent "Hi") |})]
    (Session.set_currentSession (Some saved_1) Session.initial).

(** A resume whose [session/load] the agent rejects. *)
Definition resume_rejected : list Session.item :=
  [Session.settles (Session.fulfilled (Session.v_agent agent_1));
   Session.settles (Session.fulfilled Session.v_unit);
   Session.settles (Session.fulfilled (Session.v_init init_1));
   Session.settles (Session.rejected "Session not found")].

(** A resume whose [session/load] times out after one replayed chunk. *)
Definition resume_times_out : list Session.item :=
  [Session.settles (Session.fulfilled (Session.v_agent agent_1));
   Session.settles (Session.fulfilled Session.v_unit);
   Session.settles (Session.fulfilled (Session.v_init init_1));
   Session.happens
     (Session.notified "m2" 20
        {| sn_sessionId := "s0";
           update := user_message_chunk (TextContent "Earlier question") |});
   Session.settles (Session.rejected "Request timeout: session/load")].

(** The agent's answer to [session/new] saying, by its code alone, that
    authentication is required. *)
Definition auth_required_by_code : Bridge.wire_error :=
  {| Bridge.code := -32000; Bridge.message := Some "Please sign in" |}.

Definition auth_error_frame : Bridge.frame :=
  {| Bridge.f_id := Some (Bridge.IdNum 1); Bridge.f_method := None;
     Bridge.f_params := Bridge.OtherParams JNull; Bridge.f_result := JNull;
     Bridge.f_error := Some auth_required_by_code |}.

(** A [createSession] whose [session/new] is answered with that error. *)
Definition new_session_needs_auth : list Session.item :=
  [Session.settles (Session.fulfilled (Session.v_agent agent_1));
   Session.settles (Session.fulfilled Session.v_unit);
   Session.settles (Session.fulfilled Session.v_unit);
   Session.settles (Session.fulfilled (Session.v_init init_1));
   Session.settles
     (Session.rejected (Bridge.error_message auth_required_by_code))].

(** A question and its answer, each in one chunk. *)
Definition first_exchange : list (string * Z * SessionNotification) :=
  [("m1", 1, Reference.text_chunk user "s" "How are you?");
   ("m2", 2, Reference.text_chunk assistant "s" "Fine.")].

Definition second_exchange : list (string * Z * SessionNotification) :=
  [("m3", 3, Reference.text_chunk user "s" "Good.");
   ("m4", 4, Reference.text_chunk assistant "s" "Bye.")].

(** Two questions in a row, as a replay brings them. *)
Definition two_questions : list (string * Z * SessionNotification) :=
  [("m1", 1, Reference.text_chunk user "s" "How ");
   ("m2", 2, Reference.text_chunk user "s" "are you?");
   ("m3", 3, Reference.text_chunk assistant "s" "Fine.");
   ("m4", 4, Reference.text_chunk user "s" "Good.")].

(** A [createSession] in which every call succeeds. *)
Definition create_succeeds : list Session.item :=
  [Session.settles (Session.fulfilled (Session.v_agent agent_1));
   Session.settles (Session.fulfilled Session.v_unit);
   Session.settles (Session.fulfilled Session.v_unit);
   Session.settles (Session.fulfilled (Session.v_init init_1));
   Session.settles (Session.fulfilled (Session.v_session (session_response "s1")));
   Session.settles (Session.fulfilled Session.v_unit)].

(** A store connected to a session, with a conversation in it. *)
Definition connected : Session.store :=
  Session.set_acpClient (Some "agent-1")
    (Session.set_isConnected true in_conversation).

(** A store just connected to a session. *)
Definition just_connected : Session.store :=
  Session.set_acpClient (Some "agent-1")
    (Session.set_isConnected true
       (Session.set_currentSession (Some saved_1) Session.initial)).

(** The agent says it has changed the mode. *)
Definition mode_changed (modeId : string) : SessionNotification :=
  {| sn_sessionId := "s0"; update := current_mode_update (Some modeId) |}.


(** An SDK whose [loadAppInsights] throws, and one that never throws. *)
Definition sdk_fails_to_load (c : Telemetry.sdk_call) : bool :=
  match c with
  | Telemetry.loadAppInsights => true
  | _ => false
  end.

Definition sdk_works (c : Telemetry.sdk_call) : bool := false.

Definition two_events : list Telemetry.op :=
  [Telemetry.TrackEvent "session_created" None;
   Telemetry.TrackError "boom" None].

Definition three_commands : list Acp.AvailableCommand :=
  [{| Acp.cmd_name := "help"; Acp.cmd_description := "Show the commands";
      Acp.cmd_input_hint := None |};
   {| Acp.cmd_name := "plan"; Acp.cmd_description := "Make a plan";
      Acp.cmd_input_hint := Some "what to plan" |};
   {| Acp.cmd_name := "Test"; Acp.cmd_description := "Run the tests";
      Acp.cmd_input_hint := None |}].

(** The first [session/new] is rejected for want of authentication, the
    user dismisses the dialog, and the disconnection succeeds. *)
Definition dialog_dismissed : list Session.item :=
  [Session.settles (Session.rejected "Authentication required");
   Session.happens Session.selection_cancelled;
   Session.settles (Session.fulfilled Session.v_unit)].

End Examples.

(** * Properties *)

(** ** Arrays and strings *)

Lemma js_slice_from_neg {A : Type} (l : list A) (n : nat) :
  (0 < n)%nat ->
  js_slice_from l (- Z.of_nat n) = drop (length l - n) l.
Proof.
  intros Hn. unfold js_slice_from, js_slice, relative_index.
  assert (Hneg : (- Z.of_nat n <? 0) = true) by (apply Z.ltb_lt; lia).
  rewrite Hneg.
  assert (Hpos : (Z.of_nat (length l) <? 0) = false) by (apply Z.ltb_ge; lia).
  rewrite Hpos, Z.min_id.
  replace (Z.to_nat (Z.max (Z.of_nat (length l) + - Z.of_nat n) 0))
    with (length l - n)%nat by lia.
  apply take_ge. rewrite length_drop. lia.
Qed.

(** A slice between two indices that are not negative keeps [stop - start]
    elements from index [start] on, as far as the array goes. *)
Lemma js_slice_nonneg {A : Type} (l : list A) (start count : Z) :
  0 <= start -> 0 <= count ->
  js_slice l start (start + count) = take (Z.to_nat count) (drop (Z.to_nat start) l).
Proof.
  intros Hs Hc. unfold js_slice, relative_index.
  assert (H1 : (start <? 0) = false) by (apply Z.ltb_ge; lia).
  assert (H2 : (start + count <? 0) = false) by (apply Z.ltb_ge; lia).
  rewrite H1, H2.
  set (len := Z.of_nat (length l)).
  destruct (Z_le_gt_dec len start) as [Hge | Hlt].
  - rewrite !drop_ge by lia. now rewrite !take_nil.
  - replace (Z.to_nat (Z.min start len)) with (Z.to_nat start) by lia.
    destruct (Z_le_gt_dec (start + count) len) as [Hin | Hout].
    + f_equal. lia.
    + rewrite !take_ge; [reflexivity | rewrite length_drop; lia
                        | rewrite length_drop; lia].
Qed.

(** A slice from an index that is not negative to the end of the array. *)
Lemma js_slice_to_end {A : Type} (l : list A) (start : Z) :
  0 <= start ->
  js_slice l start (Z.of_nat (length l)) = drop (Z.to_nat start) l.
Proof.
  intros Hs. unfold js_slice, relative_index.
  assert (H1 : (start <? 0) = false) by (apply Z.ltb_ge; lia).
  assert (H2 : (Z.of_nat (length l) <? 0) = false) by (apply Z.ltb_ge; lia).
  rewrite H1, H2, Z.min_id.
  destruct (Z_le_gt_dec (Z.of_nat (length l)) start) as [Hge | Hlt].
  - rewrite !drop_ge by lia. now rewrite take_nil.
  - replace (Z.to_nat (Z.min start (Z.of_nat (length l)))) with (Z.to_nat start) by lia.
    apply take_ge. rewrite length_drop. lia.
Qed.

Lemma string_append_assoc (a b c : string) :
  String.append (String.append a b) c = String.append a (String.append b c).
Proof.
  induction a as [| ch a IH]; [reflexivity |].
  change (String ch (String.append (String.append a b) c) =
          String ch (String.append a (String.append b c))).
  now rewrite IH.
Qed.

Lemma split_on_nonempty (sep : ascii) (s : string) : split_on sep s <> [].
Proof.
  destruct s as [| c rest]; simpl; [discriminate |].
  destruct (Ascii.eqb c sep); [discriminate |].
  destruct (split_on sep rest); discriminate.
Qed.

Lemma join_with_cons (sep : ascii) (piece : string) (pieces : list string) :
  pieces <> [] ->
  join_with sep (piece :: pieces) =
  String.append piece (String sep (join_with sep pieces)).
Proof. destruct pieces; [contradiction | reflexivity]. Qed.

Lemma join_with_head (sep c : ascii) (piece : string) (pieces : list string) :
  join_with sep (String c piece :: pieces) =
  String c (join_with sep (piece :: pieces)).
Proof. destruct pieces; reflexivity. Qed.

(** Joining the pieces of a split gives the string back. *)
Lemma join_split (sep : ascii) (s : string) : join_with sep (split_on sep s) = s.
Proof.
  induction s as [| c rest IH]; [reflexivity |].
  pose proof (split_on_nonempty sep rest) as Hnil.
  cbn [split_on]. destruct (Ascii.eqb_spec c sep) as [-> | Hne].
  - rewrite join_with_cons by assumption. cbn [String.append]. now rewrite IH.
  - destruct (split_on sep rest) as [| piece pieces] eqn:E; [contradiction |].
    rewrite join_with_head. now rewrite IH.
Qed.

(** ** The traffic recorder *)

Module TrafficFacts.
Import Traffic.

Lemma most_recent_short {A : Type} (n : nat) (l : list A) :
  (length l <= n)%nat -> most_recent n l = l.
Proof.
  intros H. unfold most_recent.
  replace (length l - n)%nat with 0%nat by lia. reflexivity.
Qed.

Lemma most_recent_length {A : Type} (n : nat) (l : list A) :
  (length (most_recent n l) <= n)%nat.
Proof. unfold most_recent. rewrite length_drop. lia. Qed.

(** Evicting early or late makes no difference. *)
Lemma most_recent_snoc {A : Type} (n : nat) (l : list A) (x : A) :
  (0 < n)%nat ->
  most_recent n (most_recent n l ++ [x]) = most_recent n (l ++ [x]).
Proof.
  intros Hn. unfold most_recent.
  rewrite !length_app, length_drop. simpl.
  destruct (le_gt_dec (length l) n) as [Hle | Hgt].
  - replace (length l - n)%nat with 0%nat by lia. simpl.
    f_equal. lia.
  - replace (length l - (length l - n) + 1 - n)%nat with 1%nat by lia.
    rewrite !drop_app_le by (rewrite ?length_drop; lia).
    rewrite drop_drop. do 2 f_equal. lia.
Qed.

Lemma addEntry_entries (e : EntryInput) (uuid : string) (now : Z) (st : store) :
  entries (addEntry e uuid now st) =
  if isPaused st then entries st
  else most_recent MAX_ENTRIES (entries st ++ [newEntry e uuid now]).
Proof.
  unfold addEntry. destruct (isPaused st); [reflexivity |].
  destruct (Nat.ltb_spec MAX_ENTRIES (length (entries st ++ [newEntry e uuid now])))
    as [Hlt | Hge]; cbn [set_entries entries].
  - apply js_slice_from_neg. unfold MAX_ENTRIES. lia.
  - symmetry. now apply most_recent_short.
Qed.

Lemma addEntry_isPaused (e : EntryInput) (uuid : string) (now : Z) (st : store) :
  isPaused (addEntry e uuid now st) = isPaused st.
Proof.
  unfold addEntry. destruct (isPaused st) eqn:E; [assumption |].
  now destruct (_ <? _)%nat.
Qed.

Lemma apply_op_bounded (st : store) (o : op) :
  (length (entries st) <= MAX_ENTRIES)%nat ->
  (length (entries (apply_op st o)) <= MAX_ENTRIES)%nat.
Proof.
  intros H. destruct o as [e uuid now | |]; cbn [apply_op].
  - rewrite addEntry_entries. destruct (isPaused st); [assumption |].
    apply most_recent_length.
  - cbn. lia.
  - exact H.
Qed.

Lemma run_bounded (ops : list op) (st : store) :
  (length (entries st) <= MAX_ENTRIES)%nat ->
  (length (entries (run ops st)) <= MAX_ENTRIES)%nat.
Proof.
  revert st. induction ops as [| o ops IH]; intros st H; [exact H |].
  cbn. apply IH. now apply apply_op_bounded.
Qed.

Lemma add_all_entries (adds : list (EntryInput * string * Z)) (st : store)
    (history : list TrafficEntry) :
  isPaused st = false ->
  entries st = most_recent MAX_ENTRIES history ->
  entries (add_all adds st) = most_recent MAX_ENTRIES (history ++ (stamped <$> adds)).
Proof.
  revert st history. induction adds as [| [[e uuid] now] adds IH];
    intros st history Hrun Hst.
  - cbn. now rewrite app_nil_r.
  - cbn [add_all foldl]. fold (add_all adds (addEntry e uuid now st)).
    rewrite fmap_cons, cons_middle, app_assoc.
    apply IH.
    + now rewrite addEntry_isPaused.
    + rewrite addEntry_entries, Hrun, Hst. cbn [stamped].
      apply most_recent_snoc. unfold MAX_ENTRIES. lia.
Qed.

(** C9. Whatever calls are made on the recorder, starting from the empty
    one, it never holds more than 500 entries; a run of [addEntry] calls
    leaves the most recent 500 of the entries handed over, in the order
    they came, each with the identifier and the time generated for it and
    the other fields as given; and [addEntry] on a paused recorder changes
    nothing. *)
Theorem recorder_keeps_most_recent_500 :
  MAX_ENTRIES = 500%nat
  /\ (forall ops : list op,
        (length (entries (run ops initial)) <= 500)%nat)
  /\ (forall adds : list (EntryInput * string * Z),
        entries (add_all adds initial) = most_recent 500 (stamped <$> adds))
  /\ (forall (e : EntryInput) (uuid : string) (now : Z),
        newEntry e uuid now =
        {| id := uuid; timestamp := now; direction := in_direction e;
           type := in_type e; method := in_method e;
           requestId := in_requestId e; payload := in_payload e;
           error := in_error e |})
  /\ (forall (l : list TrafficEntry) (f : TrafficFilter) (q : string)
             (e : EntryInput) (uuid : string) (now : Z),
        addEntry e uuid now
          {| entries := l; isPaused := true; filter := f; searchQuery := q |} =
        {| entries := l; isPaused := true; filter := f; searchQuery := q |}).
Proof.
  split; [reflexivity |].
  split; [| split; [| split]].
  - intros ops. apply (run_bounded ops initial). cbn. lia.
  - intros adds.
    apply (add_all_entries adds initial []); reflexivity.
  - reflexivity.
  - reflexivity.
Qed.

End TrafficFacts.

(** ** The bridge: reading a file *)

Module ReadFileFacts.
Import Acp Bridge Reference Examples.

Lemma select_lines_spec (p : ReadTextFileRequest) (content : string) :
  (forall l, line p = Some l -> 0 <= l) ->
  (forall k, limit p = Some k -> 0 <= k) ->
  select_lines p content =
  match line p, limit p with
  | None, None => content
  | _, _ => join_with newline
              (requested_lines (line p) (limit p) (split_on newline content))
  end.
Proof.
  intros Hline Hlimit. unfold select_lines, requested_lines.
  destruct (line p) as [l |] eqn:El; destruct (limit p) as [k |] eqn:Ek;
    cbn [present orb]; try reflexivity; f_equal.
  - specialize (Hline l eq_refl). specialize (Hlimit k eq_refl).
    destruct (Z.eqb_spec l 0) as [-> | Hl]; destruct (Z.eqb_spec k 0) as [-> | Hk];
      cbn [truthy_num].
    + now rewrite js_slice_to_end.
    + destruct k; try lia. now rewrite (js_slice_nonneg _ 0) by lia.
    + destruct l; try lia. now rewrite js_slice_to_end by lia.
    + destruct l; try lia. destruct k; try lia.
      now rewrite js_slice_nonneg by lia.
  - specialize (Hline l eq_refl).
    destruct (Z.eqb_spec l 0) as [-> | Hl]; cbn [truthy_num].
    + now rewrite js_slice_to_end.
    + destruct l; try lia. now rewrite js_slice_to_end by lia.
  - specialize (Hlimit k eq_refl).
    destruct (Z.eqb_spec k 0) as [-> | Hk]; cbn [truthy_num].
    + now rewrite js_slice_to_end.
    + destruct k; try lia. now rewrite (js_slice_nonneg _ 0) by lia.
Qed.

(** C10. When the file is read, [readTextFile] answers a request that
    carries [line] and/or [limit] (numbers that are not negative, as the
    protocol has them) with the text split at the newlines, the lines taken
    from index [line - 1] (index 0 when [line] is absent or 0), at most
    [limit] of them (up to the end when [limit] is absent or 0), joined
    with newlines again; a request with neither gets the text as it is. *)
Theorem readTextFile_selects_lines
    (tauriReadTextFile : string -> outcome string)
    (p : ReadTextFileRequest) (content : string) :
  tauriReadTextFile (read_path p) = Returns content ->
  (forall l, line p = Some l -> 0 <= l) ->
  (forall k, limit p = Some k -> 0 <= k) ->
  readTextFile tauriReadTextFile p =
  Returns match line p, limit p with
          | None, None => content
          | _, _ => join_with newline
                      (requested_lines (line p) (limit p)
                         (split_on newline content))
          end.
Proof.
  intros Hread Hline Hlimit. unfold readTextFile. rewrite Hread.
  f_equal. now apply select_lines_spec.
Qed.

Lemma readTextFile_selects_lines_witness :
  readTextFile (fun _ => Returns four_lines) lines_2_3 =
  Returns (String.append "b" (String newline "c")).
Proof.
  rewrite (readTextFile_selects_lines (fun _ => Returns four_lines)
             lines_2_3 four_lines).
  - reflexivity.
  - reflexivity.
  - intros l H. cbn in H. injection H as <-. lia.
  - intros k H. cbn in H. injection H as <-. lia.
Defined.

(** C10 as stated fails for a negative [limit]: the request asks for at
    most [-1] lines from the first line on, and [readTextFile] returns three
    of the four lines of the file, since [slice] counts a negative end index
    from the end of the array. *)
Lemma negative_limit_returns_lines :
  readTextFile (fun _ => Returns four_lines) negative_limit =
  Returns (String.append "a" (String newline
             (String.append "b" (String newline "c"))))
  /\ join_with newline
       (requested_lines (line negative_limit) (limit negative_limit)
          (split_on newline four_lines)) = "".
Proof. split; vm_compute; reflexivity. Qed.

End ReadFileFacts.

(** ** The conversation assembler *)

Module AssemblerFacts.
Import Acp Types Session Reference.

Lemma alter_last {A : Type} (f : A -> A) (init : list A) (x : A) :
  alter f (length (init ++ [x]) - 1)%nat (init ++ [x]) = init ++ [f x].
Proof.
  rewrite length_app. cbn [length].
  replace (length init + 1 - 1)%nat with (length init + 0)%nat by lia.
  now rewrite alter_app_r.
Qed.

Lemma text_chunk_folds (r : Role) (uuid : string) (now : Z)
    (sid text : string) (st : store) :
  r <> system ->
  handleSessionUpdate uuid now (text_chunk r sid text) st =
  set_messages (fold_text_chunk r uuid now text (messages st)) st.
Proof.
  intros Hr. unfold handleSessionUpdate, fold_text_chunk, last_message,
    on_last_message, push_message, fresh_message, text_chunk.
  destruct (messages st) as [| m0 l0 _] eqn:E using rev_ind.
  - destruct r; try contradiction; reflexivity.
  - rewrite reverse_snoc, last_snoc, reverse_involutive.
    destruct r; try contradiction; cbn [update];
      destruct (decide (role m0 = _)); try reflexivity;
      now rewrite alter_last.
Qed.

(** Two chunks of one role in a row are one chunk of their texts put
    together. *)
Lemma fold_text_chunk_twice (r : Role) (u1 u2 : string) (n1 n2 : Z)
    (t1 t2 : string) (msgs : list ChatMessage) :
  fold_text_chunk r u2 n2 t2 (fold_text_chunk r u1 n1 t1 msgs) =
  fold_text_chunk r u1 n1 (String.append t1 t2) msgs.
Proof.
  pose proof string_append_assoc as Happ.
  unfold fold_text_chunk at 2 3.
  destruct (reverse msgs) as [| m earlier] eqn:E.
  - unfold fold_text_chunk. rewrite reverse_snoc. cbn [role fresh_message].
    destruct (decide (r = r)); [| contradiction].
    rewrite reverse_involutive. reflexivity.
  - destruct (decide (role m = r)) as [Hm | Hm].
    + unfold fold_text_chunk. rewrite reverse_snoc. cbn [role].
      destruct (decide (role m = r)); [| contradiction].
      rewrite reverse_involutive.
      cbn [id role content thought timestamp Types.toolCalls].
      now rewrite Happ.
    + unfold fold_text_chunk. rewrite reverse_snoc. cbn [role fresh_message].
      destruct (decide (r = r)); [| contradiction].
      rewrite reverse_involutive. reflexivity.
Qed.

(** C7. A text chunk of the user or of the assistant is appended to the
    last entry of the transcript when that entry has the chunk's role, and
    makes a new message with that role and text otherwise; nothing else in
    the store changes. Hence two chunks of one role in a row count as one
    chunk of the joined text: ["Hel"] then ["lo"] leave the transcript that
    the single chunk ["Hello"] leaves, which on an empty transcript is one
    message with content ["Hello"]. *)
Theorem text_chunks_concatenate :
  (forall (uuid : string) (now : Z) (sid text : string) (st : store),
      handleSessionUpdate uuid now (text_chunk user sid text) st =
      set_messages (fold_text_chunk user uuid now text (messages st)) st)
  /\ (forall (uuid : string) (now : Z) (sid text : string) (st : store),
      handleSessionUpdate uuid now (text_chunk assistant sid text) st =
      set_messages (fold_text_chunk assistant uuid now text (messages st)) st)
  /\ (forall (u1 u2 : string) (n1 n2 : Z) (sid : string) (st : store),
      messages (handleSessionUpdate u2 n2 (text_chunk user sid "lo")
                  (handleSessionUpdate u1 n1 (text_chunk user sid "Hel") st)) =
      fold_text_chunk user u1 n1 "Hello" (messages st))
  /\ (forall (u1 u2 : string) (n1 n2 : Z) (sid : string) (st : store),
      messages (handleSessionUpdate u2 n2 (text_chunk assistant sid "lo")
                  (handleSessionUpdate u1 n1 (text_chunk assistant sid "Hel") st)) =
      fold_text_chunk assistant u1 n1 "Hello" (messages st))
  /\ (forall (u1 u2 : string) (n1 n2 : Z) (sid : string),
      messages (handleSessionUpdate u2 n2 (text_chunk assistant sid "lo")
                  (handleSessionUpdate u1 n1 (text_chunk assistant sid "Hel")
                     initial)) =
      [{| id := u1; role := assistant; content := "Hello"; thought := None;
          timestamp := n1; Types.toolCalls := Some [] |}]).
Proof.
  assert (Htwice : forall r u1 u2 n1 n2 sid st t1 t2, r <> system ->
             messages (handleSessionUpdate u2 n2 (text_chunk r sid t2)
                         (handleSessionUpdate u1 n1 (text_chunk r sid t1) st)) =
             fold_text_chunk r u1 n1 (String.append t1 t2) (messages st)).
  { intros r u1 u2 n1 n2 sid st t1 t2 Hr.
    rewrite !text_chunk_folds by assumption. cbn [messages set_messages].
    apply fold_text_chunk_twice. }
  split; [| split; [| split; [| split]]].
  - intros. now apply text_chunk_folds.
  - intros. now apply text_chunk_folds.
  - intros. now apply (Htwice user).
  - intros. now apply (Htwice assistant).
  - intros. now rewrite (Htwice assistant).
Qed.

End AssemblerFacts.

(** ** The conversation assembler: tool-call updates *)

Module ToolCallFacts.
Import Acp Types Session Reference Examples.

Lemma apply_update_carried (s : option ToolCallStatus) (t : option string)
    (tc : ToolCallInfo) :
  apply_update s t tc = with_carried s t tc.
Proof.
  destruct tc as [i ti k st l]. unfold apply_update, with_carried.
  destruct s as [s |]; destruct t as [[| c t] |]; reflexivity.
Qed.

Lemma with_carried_id (s : option ToolCallStatus) (t : option string)
    (tc : ToolCallInfo) :
  toolCallId (with_carried s t tc) = toolCallId tc.
Proof. reflexivity. Qed.

Lemma with_carried_twice (s : option ToolCallStatus) (t : option string)
    (tc : ToolCallInfo) :
  with_carried s t (with_carried s t tc) = with_carried s t tc.
Proof.
  unfold with_carried. cbn [toolCallId title kind status locations].
  destruct s as [s |]; destruct t as [t |]; try reflexivity;
    destruct (decide (t = "")); reflexivity.
Qed.

Lemma update_found_length (tcid : string) (f : ToolCallInfo -> ToolCallInfo)
    (l : list ToolCallInfo) :
  length (update_found tcid f l) = length l.
Proof.
  induction l as [| tc rest IH]; [reflexivity |].
  cbn [update_found]. destruct (decide (toolCallId tc = tcid)); cbn; congruence.
Qed.

Lemma is_first_match_head (tcid : string) (hd : ToolCallInfo)
    (rest : list ToolCallInfo) :
  is_first_match tcid (hd :: rest) 0 = bool_decide (toolCallId hd = tcid).
Proof.
  unfold is_first_match. cbn [lookup list_lookup fmap option_fmap option_map take forallb].
  rewrite andb_true_r. apply bool_decide_ext. split; congruence.
Qed.

Lemma is_first_match_tail (tcid : string) (hd : ToolCallInfo)
    (rest : list ToolCallInfo) (j : nat) :
  is_first_match tcid (hd :: rest) (S j) =
  negb (bool_decide (toolCallId hd = tcid)) && is_first_match tcid rest j.
Proof.
  unfold is_first_match. cbn [lookup list_lookup take forallb].
  destruct (bool_decide (toolCallId hd = tcid)); cbn [negb andb].
  - apply andb_false_r.
  - reflexivity.
Qed.

(** Only the first entry with the identifier is assigned to. *)
Lemma update_found_lookup (tcid : string) (f : ToolCallInfo -> ToolCallInfo)
    (l : list ToolCallInfo) (j : nat) (tc : ToolCallInfo) :
  l !! j = Some tc ->
  update_found tcid f l !! j = Some (if is_first_match tcid l j then f tc else tc).
Proof.
  revert j. induction l as [| hd rest IH]; intros j Hj; [discriminate |].
  cbn [update_found].
  destruct j as [| j].
  - cbn in Hj. injection Hj as <-. rewrite is_first_match_head.
    destruct (decide (toolCallId hd = tcid)) as [Hhd | Hhd].
    + now rewrite bool_decide_eq_true_2.
    + now rewrite bool_decide_eq_false_2.
  - cbn in Hj. rewrite is_first_match_tail.
    destruct (decide (toolCallId hd = tcid)) as [Hhd | Hhd].
    + rewrite bool_decide_eq_true_2 by assumption. cbn. exact Hj.
    + rewrite bool_decide_eq_false_2 by assumption. cbn [negb andb].
      change ((hd :: update_found tcid f rest) !! S j)
        with (update_found tcid f rest !! j).
      now apply IH.
Qed.

Lemma update_found_twice (tcid : string) (f : ToolCallInfo -> ToolCallInfo)
    (l : list ToolCallInfo) :
  (forall tc, toolCallId (f tc) = toolCallId tc) ->
  (forall tc, f (f tc) = f tc) ->
  update_found tcid f (update_found tcid f l) = update_found tcid f l.
Proof.
  intros Hid Hff. induction l as [| tc rest IH]; [reflexivity |].
  cbn [update_found]. destruct (decide (toolCallId tc = tcid)) as [Htc | Htc].
  - cbn [update_found]. rewrite Hid.
    destruct (decide (toolCallId tc = tcid)); [| contradiction]. now rewrite Hff.
  - cbn [update_found].
    destruct (decide (toolCallId tc = tcid)); [contradiction |]. now rewrite IH.
Qed.

Lemma update_in_message_twice (tcid : string) (f : ToolCallInfo -> ToolCallInfo)
    (msg : ChatMessage) :
  (forall tc, toolCallId (f tc) = toolCallId tc) ->
  (forall tc, f (f tc) = f tc) ->
  update_in_message tcid f (update_in_message tcid f msg) = update_in_message tcid f msg.
Proof.
  intros Hid Hff. unfold update_in_message.
  destruct (Types.toolCalls msg) as [tcs |] eqn:E.
  - cbn [Types.toolCalls set_message_toolCalls]. unfold set_message_toolCalls.
    cbn. now rewrite update_found_twice.
  - now rewrite E.
Qed.

Lemma tool_call_update_known (uuid : string) (now : Z) (sid tcid : string)
    (sts : option ToolCallStatus) (ttl : option string) (st : store)
    (existing : ToolCallInfo) :
  toolCalls st !! tcid = Some existing ->
  handleSessionUpdate uuid now (status_update sid tcid sts ttl) st =
  set_messages (map (update_in_message tcid (with_carried sts ttl)) (messages st))
    (set_toolCalls (<[tcid := with_carried sts ttl existing]> (toolCalls st)) st).
Proof.
  intros H. unfold handleSessionUpdate, status_update. cbn [update]. rewrite H.
  cbn [messages set_toolCalls]. rewrite apply_update_carried.
  f_equal. apply map_ext. intros msg. unfold update_in_message.
  destruct (Types.toolCalls msg) as [tcs |]; [| reflexivity].
  do 2 f_equal. clear. induction tcs as [| tc rest IH]; [reflexivity |].
  cbn [update_found]. destruct (decide _); rewrite ?apply_update_carried; congruence.
Qed.

(** C8, as the code has it. A [tool_call_update] whose identifier is not in
    the tool-call table changes nothing. When it is there, the record of the
    table gets the status the update carries, if any, and its title, if any
    and not empty, and so does, in every message, the first entry of the
    message's tool-call list that has the identifier; no other entry, no
    other field of a message and nothing else in the store changes. Handling
    the same update again changes nothing more. *)
Theorem tool_call_update_applies :
  forall (uuid : string) (now : Z) (sid tcid : string)
         (sts : option ToolCallStatus) (ttl : option string) (st : store),
    let n := status_update sid tcid sts ttl in
    let st' := handleSessionUpdate uuid now n st in
    (toolCalls st !! tcid = None -> st' = st)
    /\ (forall existing : ToolCallInfo,
          toolCalls st !! tcid = Some existing ->
          toolCalls st' = <[tcid := with_carried sts ttl existing]> (toolCalls st)
          /\ st' = set_messages (messages st') (set_toolCalls (toolCalls st') st)
          /\ length (messages st') = length (messages st)
          /\ forall (i : nat) (msg : ChatMessage),
               messages st !! i = Some msg ->
               exists msg' : ChatMessage,
                 messages st' !! i = Some msg'
                 /\ id msg' = id msg /\ role msg' = role msg
                 /\ content msg' = content msg /\ thought msg' = thought msg
                 /\ timestamp msg' = timestamp msg
                 /\ match Types.toolCalls msg with
                    | None => Types.toolCalls msg' = None
                    | Some tcs =>
                        exists tcs' : list ToolCallInfo,
                          Types.toolCalls msg' = Some tcs'
                          /\ length tcs' = length tcs
                          /\ forall (j : nat) (tc : ToolCallInfo),
                               tcs !! j = Some tc ->
                               tcs' !! j =
                               Some (if is_first_match tcid tcs j
                                     then with_carried sts ttl tc else tc)
                    end)
    /\ handleSessionUpdate uuid now n st' = st'.
Proof.
  intros uuid now sid tcid sts ttl st n st'. subst n st'.
  split; [| split].
  - intros Hnone. unfold handleSessionUpdate, status_update. cbn [update].
    now rewrite Hnone.
  - intros existing Hex. rewrite (tool_call_update_known _ _ _ _ _ _ _ _ Hex).
    cbn [toolCalls messages set_messages set_toolCalls].
    split; [reflexivity |]. split; [reflexivity |].
    split; [apply length_map |].
    intros i msg Hi. exists (update_in_message tcid (with_carried sts ttl) msg).
    split. { rewrite list_lookup_fmap. now rewrite Hi. }
    unfold update_in_message.
    destruct (Types.toolCalls msg) as [tcs |] eqn:E.
    + cbn. repeat (split; [reflexivity |]).
      eexists. split; [reflexivity |]. split; [apply update_found_length |].
      intros j tc Hj. now apply update_found_lookup.
    + repeat (split; [reflexivity |]). exact E.
  - destruct (toolCalls st !! tcid) as [existing |] eqn:Hex.
    + rewrite (tool_call_update_known _ _ _ _ _ _ _ _ Hex).
      erewrite tool_call_update_known
        by (cbn [toolCalls set_messages set_toolCalls]; apply lookup_insert_eq).
      cbn [toolCalls messages set_messages set_toolCalls].
      rewrite with_carried_twice, insert_insert_eq, map_map.
      unfold set_messages, set_toolCalls. cbn. f_equal.
      apply map_ext. intros msg.
      apply update_in_message_twice; [reflexivity | apply with_carried_twice].
    + unfold handleSessionUpdate at 2. unfold status_update at 2. cbn [update].
      rewrite Hex. unfold handleSessionUpdate, status_update. cbn [update].
      now rewrite Hex.
Qed.

(** C8 as stated fails where a message lists an identifier twice: after the
    update to [completed], the second entry of the message with identifier
    ["call-1"] still has status [pending]. *)
Lemma tool_call_update_misses_second_entry :
  let st := handle_all announced_twice initial in
  let st' := handleSessionUpdate "m4" 13 call_1_completed st in
  map (fun m => option_map (map (fun tc => (toolCallId tc, status tc)))
                (Types.toolCalls m)) (messages st') =
  [Some [("call-1", completed); ("call-1", pending)]]
  /\ option_map status (toolCalls st' !! "call-1") = Some completed.
Proof. vm_compute. split; reflexivity. Qed.

End ToolCallFacts.

(** ** The bridge: pending calls *)

Module PendingCallFacts.
Import Acp Bridge.

Section WithFileAccess.

Context (tauriReadTextFile : string -> outcome string)
        (tauriWriteTextFile : string -> string -> outcome unit).

Local Abbreviation step := (Bridge.step tauriReadTextFile tauriWriteTextFile).
Local Abbreviation run := (Bridge.run tauriReadTextFile tauriWriteTextFile).
Local Abbreviation handleMessage := Bridge.handleMessage.
Local Abbreviation handleRequest := Bridge.handleRequest.
Local Abbreviation dispatch := Bridge.dispatch.
Local Abbreviation file_done := (Bridge.file_done tauriReadTextFile tauriWriteTextFile).

(** The end of a call of the file plugin touches the frames sent and the
    list of calls only. *)
Lemma file_done_frame (k : nat) (w : world) :
  client (file_done k w) = client w
  /\ now (file_done k w) = now w
  /\ timers (file_done k w) = timers w
  /\ sending (file_done k w) = sending w
  /\ invoked (file_done k w) = invoked w
  /\ delivered (file_done k w) = delivered w.
Proof.
  unfold Bridge.file_done. destruct (file_calls w !! k) as [[c |] |]; try easy.
  unfold answer. now destruct (file_result _ _ _).
Qed.

Lemma view_file_done (id : Z) (k : nat) (w : world) :
  view id (file_done k w) = view id w.
Proof.
  destruct (file_done_frame k w) as (H1 & _ & _ & _ & H5 & _).
  unfold view, calls_on. now rewrite H1, H5.
Qed.

Lemma run_snoc (events : list event) (e : event) (w : world) :
  run (events ++ [e]) w = step (run events w) e.
Proof. unfold Bridge.run. now rewrite foldl_app. Qed.

Lemma calls_on_invoke (id p : Z) (s : settlement) (w : world) :
  calls_on id (invoke p s w) =
  calls_on id w ++ (if decide (p = id) then [s] else []).
Proof.
  unfold calls_on, invoke. cbn [invoked].
  rewrite filter_app, fmap_app. f_equal.
  destruct (decide (p = id)) as [Hp | Hp].
  - rewrite filter_cons_True by exact Hp. reflexivity.
  - rewrite filter_cons_False by exact Hp. reflexivity.
Qed.

Lemma calls_on_with_client (id : Z) (b : bridge) (w : world) :
  calls_on id (with_client b w) = calls_on id w.
Proof. reflexivity. Qed.

(** *** The three ways a pending call ends *)

Lemma timeout_other (id : Z) (t : timer) (w : world) :
  timer_id t <> id -> view id (timeout t w) = view id w.
Proof.
  intros Hne. unfold timeout, view.
  destruct (decide (is_Some _)); [| reflexivity].
  rewrite calls_on_invoke. destruct (decide (timer_id t = id)); [contradiction |].
  rewrite app_nil_r. cbn. now rewrite !lookup_delete_ne.
Qed.

Lemma timeout_pending (t : timer) (w : world) (p : promise) :
  messageResolvers (client w) !! timer_id t = Some p ->
  view (timer_id t) (timeout t w) =
  (None, None,
   calls_on (timer_id t) w ++ [reject (String.append "Request timeout: " (timer_method t))]).
Proof.
  intros Hp. unfold timeout, view.
  destruct (decide (is_Some _)) as [_ | Hn]; [| now rewrite Hp in Hn; destruct Hn].
  rewrite calls_on_invoke. destruct (decide (timer_id t = timer_id t)); [| contradiction].
  cbn. now rewrite !lookup_delete_eq.
Qed.

(** The timer of a call that is no longer pending does nothing. *)
Lemma timeout_not_pending (t : timer) (w : world) :
  messageResolvers (client w) !! timer_id t = None -> timeout t w = w.
Proof.
  intros Hn. unfold timeout.
  destruct (decide (is_Some _)) as [[p Hp] |]; [congruence | reflexivity].
Qed.

(** A response for a call that is no longer pending calls nothing. *)
Lemma handleResponse_not_pending (id : rpc_id) (parsed : frame) (w : world) :
  get (messageResolvers (client w)) id = None ->
  invoked (handleResponse id parsed w) = invoked w.
Proof.
  intros Hn. unfold handleResponse. cbn [messageResolvers with_calls].
  now rewrite Hn.
Qed.

(** The [.catch] handler of the send calls [reject] whether or not the call
    is still pending. *)
Lemma send_failed_calls_reject (id : Z) (e : string) (w : world) :
  invoked (send_failed id e w) = invoked w ++ [{| target := id; how := reject e |}].
Proof. reflexivity. Qed.

(** *** What the other events leave alone *)

Lemma view_with_permission (id : Z) (req : option Types.PermissionRequest)
    (k : option rpc_id) (w : world) :
  view id (with_client (with_permission req k (client w)) w) = view id w.
Proof. reflexivity. Qed.

Lemma view_send (id : Z) (f : out_frame) (w : world) :
  view id (send f w) = view id w.
Proof. reflexivity. Qed.

Lemma view_handleRequest (id : Z) (rid : rpc_id) (method : string)
    (args : params) (w : world) :
  view id (handleRequest rid method args w) = view id w.
Proof.
  unfold Bridge.handleRequest, Bridge.dispatch, readTextFile, writeTextFile, answer.
  repeat (destruct (decide _)); destruct args; try reflexivity;
    repeat match goal with
           | |- context [match ?x with Returns _ => _ | Throws _ => _ end] =>
               destruct x
           end; reflexivity.
Qed.

Lemma view_handleNotification (id : Z) (method : string) (args : params) (w : world) :
  view id (handleNotification method args w) = view id w.
Proof.
  unfold handleNotification. destruct (decide _); [| reflexivity].
  destruct (onSessionUpdate (client w)); [| reflexivity].
  destruct args; reflexivity.
Qed.

Lemma view_decide_permission (id : Z) (o : RequestPermissionOutcome) (w : world) :
  view id (decide_permission o w) = view id w.
Proof.
  unfold decide_permission. destruct (permissionResolver (client w)); reflexivity.
Qed.

Lemma view_send_failed_other (id k : Z) (e : string) (w : world) :
  k <> id -> view id (send_failed k e w) = view id w.
Proof.
  intros Hne. unfold send_failed, view. rewrite calls_on_invoke.
  destruct (decide (k = id)); [contradiction |]. rewrite app_nil_r.
  cbn. now rewrite !lookup_delete_ne.
Qed.

(** A response for another identifier. *)
Lemma view_handleResponse_other (id : Z) (rid : rpc_id) (parsed : frame) (w : world) :
  well_formed w -> rid <> IdNum id ->
  view id (handleResponse rid parsed w) = view id w.
Proof.
  intros (Hres & Hrej & _) Hne. unfold handleResponse.
  cbn [messageResolvers messageRejecters with_calls pendingMethods].
  destruct rid as [n | s |]; cbn [get delete_id]; try reflexivity.
  assert (Hn : n <> id) by congruence.
  destruct (messageResolvers (client w) !! n) as [p |] eqn:Ep; [| reflexivity].
  destruct (messageRejecters (client w) !! n) as [q |] eqn:Eq; [| reflexivity].
  destruct (Hres n p Ep) as [-> _]. destruct (Hrej n q Eq) as [-> _].
  destruct (f_error parsed); unfold view; rewrite calls_on_invoke;
    destruct (decide (n = id)); try contradiction; rewrite app_nil_r;
    cbn; now rewrite !lookup_delete_ne.
Qed.

(** The response to a pending call settles it. *)
Lemma view_handleResponse_result (id : Z) (value : json) (cs : list settlement)
    (w : world) :
  view id w = (Some id, Some id, cs) ->
  view id (handleMessage (Some (result_frame id value)) w) =
  (None, None, cs ++ [resolve value]).
Proof.
  unfold view. intros H. injection H as Hres Hrej Hcs.
  unfold Bridge.handleMessage, result_frame.
  cbn [f_id f_method f_params f_result f_error truthy].
  unfold handleResponse.
  cbn [messageResolvers messageRejecters with_calls pendingMethods get delete_id
       f_error f_result].
  rewrite Hres, Hrej. rewrite calls_on_invoke, calls_on_with_client, Hcs.
  destruct (decide (id = id)); [| contradiction].
  cbn. now rewrite !lookup_delete_eq.
Qed.

(** *** Worlds the event loop reaches *)

Lemma well_formed_new (agent : string) : well_formed (new_world agent).
Proof.
  unfold well_formed, new_world, new_bridge. cbn.
  split; [| split; [| split; [| split]]].
  - intros k p H. now rewrite lookup_empty in H.
  - intros k p H. now rewrite lookup_empty in H.
  - constructor.
  - constructor.
  - intros k H. set_solver.
Qed.

Lemma well_formed_ext (w w' : world) :
  messageResolvers (client w') = messageResolvers (client w) ->
  messageRejecters (client w') = messageRejecters (client w) ->
  nextRequestId (client w') = nextRequestId (client w) ->
  timers w' = timers w -> invoked w' = invoked w -> sending w' = sending w ->
  well_formed w -> well_formed w'.
Proof.
  unfold well_formed. intros -> -> -> -> -> ->. trivial.
Qed.

Lemma well_formed_invoke (p : promise) (s : settlement) (w : world) :
  p < nextRequestId (client w) -> well_formed w -> well_formed (invoke p s w).
Proof.
  intros Hp (Hres & Hrej & Htm & Hinv & Hsend).
  unfold well_formed, invoke. cbn.
  split; [| split; [| split; [| split]]]; try assumption.
  apply Forall_app. split; [assumption |]. now repeat constructor.
Qed.

Lemma well_formed_forget (id : Z) (w : world) :
  well_formed w -> well_formed (forget id w).
Proof.
  intros (Hres & Hrej & Htm & Hinv & Hsend).
  unfold well_formed, forget. cbn.
  split; [| split; [| split; [| split]]]; try assumption.
  - intros k p [_ H]%lookup_delete_Some. now apply Hres.
  - intros k p [_ H]%lookup_delete_Some. now apply Hrej.
Qed.

Lemma well_formed_with_sending (s : gset Z) (w : world) :
  (forall k, k ∈ s -> k ∈ sending w) ->
  well_formed w -> well_formed (with_sending s w).
Proof.
  intros Hsub (Hres & Hrej & Htm & Hinv & Hsend).
  unfold well_formed, with_sending. cbn.
  split; [| split; [| split; [| split]]]; try assumption.
  intros k H. now apply Hsend, Hsub.
Qed.

Lemma well_formed_timeout (t : timer) (w : world) :
  timer_id t < nextRequestId (client w) ->
  well_formed w -> well_formed (timeout t w).
Proof.
  intros Ht Hw. unfold timeout. destruct (decide _); [| assumption].
  apply well_formed_invoke; [exact Ht |]. now apply well_formed_forget.
Qed.

Lemma next_timeout (t : timer) (w : world) :
  nextRequestId (client (timeout t w)) = nextRequestId (client w).
Proof. unfold timeout. now destruct (decide _). Qed.

Lemma timers_timeout (t : timer) (w : world) :
  timers (timeout t w) = timers w.
Proof. unfold timeout. now destruct (decide _). Qed.

Lemma now_timeout (t : timer) (w : world) : now (timeout t w) = now w.
Proof. unfold timeout. now destruct (decide _). Qed.

Lemma fire_all_frame (ts : list timer) (w : world) :
  let w' := foldl (fun w tm => timeout tm w) w ts in
  nextRequestId (client w') = nextRequestId (client w)
  /\ timers w' = timers w /\ now w' = now w.
Proof.
  revert w. induction ts as [| t ts IH]; intros w; [easy |].
  cbn [foldl]. destruct (IH (timeout t w)) as (H1 & H2 & H3).
  cbn zeta. rewrite H1, H2, H3, next_timeout, timers_timeout, now_timeout. easy.
Qed.

Lemma well_formed_fire_all (ts : list timer) (w : world) :
  Forall (fun t => timer_id t < nextRequestId (client w)) ts ->
  well_formed w -> well_formed (foldl (fun w tm => timeout tm w) w ts).
Proof.
  revert w. induction ts as [| t ts IH]; intros w Hts Hw; [exact Hw |].
  cbn [foldl]. inversion Hts as [| ? ? Ht Hts']; subst.
  apply IH.
  - now rewrite next_timeout.
  - now apply well_formed_timeout.
Qed.

Lemma well_formed_elapse (ms : N) (w : world) :
  well_formed w -> well_formed (elapse ms w).
Proof.
  intros Hw. pose proof Hw as (Hres & Hrej & Htm & Hinv & Hsend).
  unfold elapse. apply well_formed_fire_all.
  - cbn. apply Forall_forall. intros t [_ Ht]%list_elem_of_filter.
    rewrite Forall_forall in Htm. now apply Htm.
  - unfold well_formed, with_clock. cbn.
    split; [| split; [| split; [| split]]]; try assumption.
    apply Forall_forall. intros t [_ Ht]%list_elem_of_filter.
    rewrite Forall_forall in Htm. now apply Htm.
Qed.

Lemma well_formed_sendRequest (method : string) (args : option json) (w : world) :
  well_formed w -> well_formed (sendRequest method args w).
Proof.
  intros (Hres & Hrej & Htm & Hinv & Hsend).
  unfold well_formed, sendRequest. cbn.
  set (id := nextRequestId (client w)).
  assert (Hlookup : forall (m : gmap Z promise) k p,
             (forall k p, m !! k = Some p -> p = k /\ k < id) ->
             <[id := id]> m !! k = Some p -> p = k /\ k < id + 1).
  { intros m k p Hm H. destruct (decide (id = k)) as [<- | Hne].
    - rewrite lookup_insert_eq in H. injection H as <-. lia.
    - rewrite lookup_insert_ne in H by assumption. apply Hm in H. lia. }
  split; [| split; [| split; [| split]]].
  - intros k p H. now apply (Hlookup _ _ _ Hres).
  - intros k p H. now apply (Hlookup _ _ _ Hrej).
  - apply Forall_app. split.
    + eapply Forall_impl; [exact Htm |]. cbn. intros. lia.
    + repeat constructor. cbn. lia.
  - eapply Forall_impl; [exact Hinv |]. cbn. intros. lia.
  - intros k [->%elem_of_singleton | H]%elem_of_union; [lia |].
    apply Hsend in H. fold id in H. lia.
Qed.

Lemma well_formed_handleResponse (rid : rpc_id) (parsed : frame) (w : world) :
  well_formed w -> well_formed (handleResponse rid parsed w).
Proof.
  intros Hw. pose proof Hw as (Hres & Hrej & Htm & Hinv & Hsend).
  unfold handleResponse.
  cbn [messageResolvers messageRejecters with_calls pendingMethods].
  destruct rid as [n | s |]; cbn [get delete_id];
    try (eapply well_formed_ext; [..| exact Hw]; reflexivity).
  destruct (messageResolvers (client w) !! n) as [p |] eqn:Ep;
    [| eapply well_formed_ext; [..| exact Hw]; reflexivity].
  destruct (messageRejecters (client w) !! n) as [q |] eqn:Eq;
    [| eapply well_formed_ext; [..| exact Hw]; reflexivity].
  destruct (Hres n p Ep) as [-> Hn]. destruct (Hrej n q Eq) as [-> _].
  assert (Hforget : well_formed
            (with_client
               (with_calls (delete n (messageResolvers (client w)))
                           (delete n (messageRejecters (client w)))
                           (delete n (pendingMethods (client w)))
                           (with_calls (messageResolvers (client w))
                              (messageRejecters (client w))
                              (delete n (pendingMethods (client w))) (client w))) w)).
  { eapply well_formed_ext; [..| exact (well_formed_forget n w Hw)]; reflexivity. }
  destruct (f_error parsed); apply well_formed_invoke; assumption.
Qed.

Lemma well_formed_handleRequest (rid : rpc_id) (method : string)
    (args : params) (w : world) :
  well_formed w -> well_formed (handleRequest rid method args w).
Proof.
  intros Hw. eapply well_formed_ext; [..| exact Hw];
    unfold Bridge.handleRequest, Bridge.dispatch, readTextFile, writeTextFile, answer;
    repeat (destruct (decide _)); destruct args; try reflexivity;
    repeat match goal with
           | |- context [match ?x with Returns _ => _ | Throws _ => _ end] =>
               destruct x
           end; reflexivity.
Qed.

Lemma well_formed_handleMessage (line : option frame) (w : world) :
  well_formed w -> well_formed (handleMessage line w).
Proof.
  intros Hw. unfold Bridge.handleMessage. destruct line as [parsed |]; [| exact Hw].
  set (w1 := match f_id parsed, f_method parsed with
             | Some id, None => handleResponse id parsed w
             | _, _ => w
             end).
  assert (H1 : well_formed w1).
  { unfold w1. destruct (f_id parsed), (f_method parsed); try assumption.
    now apply well_formed_handleResponse. }
  set (w2 := match f_id parsed, f_method parsed with
             | Some id, Some method => handleRequest id method (f_params parsed) w1
             | _, _ => w1
             end).
  assert (H2 : well_formed w2).
  { unfold w2. destruct (f_id parsed), (f_method parsed); try assumption.
    now apply well_formed_handleRequest. }
  destruct (f_id parsed); [exact H2 |].
  destruct (truthy (f_method parsed)); [| exact H2].
  eapply well_formed_ext; [..| exact H2];
    unfold handleNotification; destruct (decide _); try reflexivity;
    destruct (onSessionUpdate (client w2)); try reflexivity;
    destruct (f_params parsed); reflexivity.
Qed.

Lemma well_formed_step (w : world) (e : event) :
  well_formed w -> well_formed (step w e).
Proof.
  intros Hw. pose proof Hw as (Hres & Hrej & Htm & Hinv & Hsend).
  destruct e as [method args | line | id | id err | ms | optionId | | kf]; cbn [Bridge.step].
  - now apply well_formed_sendRequest.
  - now apply well_formed_handleMessage.
  - destruct (decide _); [| exact Hw].
    unfold well_formed, with_sending. cbn.
    split; [| split; [| split; [| split]]]; try assumption.
    intros k [H _]%elem_of_difference. now apply Hsend.
  - destruct (decide _) as [Hin |]; [| exact Hw].
    unfold send_failed. apply well_formed_invoke; [now apply Hsend |].
    apply well_formed_forget.
    unfold well_formed, with_sending. cbn.
    split; [| split; [| split; [| split]]]; try assumption.
    intros k [H _]%elem_of_difference. now apply Hsend.
  - now apply well_formed_elapse.
  - eapply well_formed_ext; [..| exact Hw];
      unfold resolvePermission, decide_permission;
      destruct (permissionResolver (client w)); reflexivity.
  - eapply well_formed_ext; [..| exact Hw];
      unfold cancelPermission, decide_permission;
      destruct (permissionResolver (client w)); reflexivity.
  - destruct (file_done_frame kf w) as (H1 & H2 & H3 & H4 & H5 & H6).
    eapply well_formed_ext; [..| exact Hw]; congruence.
Qed.

Lemma well_formed_run (events : list event) (w : world) :
  well_formed w -> well_formed (run events w).
Proof.
  revert w. induction events as [| e events IH]; intros w Hw; [exact Hw |].
  cbn. apply IH. now apply well_formed_step.
Qed.

(** *** A call that nothing answers *)

Lemma filter_swap {A : Type} (P Q : A -> Prop)
    `{forall x, Decision (P x)} `{forall x, Decision (Q x)} (l : list A) :
  filter P (filter Q l) = filter Q (filter P l).
Proof.
  induction l as [| x l IH]; [reflexivity |].
  destruct (decide (P x)) as [HP | HP]; destruct (decide (Q x)) as [HQ | HQ].
  - rewrite (filter_cons_True Q), (filter_cons_True P), (filter_cons_True P),
      (filter_cons_True Q) by assumption. now rewrite IH.
  - rewrite (filter_cons_False Q), (filter_cons_True P), (filter_cons_False Q)
      by assumption. exact IH.
  - rewrite (filter_cons_True Q), (filter_cons_False P), (filter_cons_False P)
      by assumption. exact IH.
  - rewrite (filter_cons_False Q), (filter_cons_False P) by assumption. exact IH.
Qed.

Lemma view_sendRequest (id : Z) (method : string) (args : option json) (w : world) :
  id < nextRequestId (client w) ->
  view id (sendRequest method args w) = view id w.
Proof.
  intros Hid. unfold view, sendRequest. cbn.
  rewrite !lookup_insert_ne by lia. reflexivity.
Qed.

Lemma timers_of_sendRequest (id : Z) (method : string) (args : option json)
    (w : world) :
  id < nextRequestId (client w) ->
  timers_of id (sendRequest method args w) = timers_of id w.
Proof.
  intros Hid. unfold timers_of, sendRequest. cbn.
  rewrite filter_app, filter_cons_False by (cbn; lia).
  now rewrite filter_nil, app_nil_r.
Qed.

Lemma view_handleMessage (id : Z) (line : option frame) (w : world) :
  well_formed w -> answers id (Message line) = false ->
  view id (handleMessage line w) = view id w.
Proof.
  intros Hw Hans. unfold Bridge.handleMessage.
  destruct line as [parsed |]; [| reflexivity]. cbn [answers] in Hans.
  destruct (f_id parsed) as [rid |] eqn:Eid;
    destruct (f_method parsed) as [method |] eqn:Em; cbn [truthy].
  - apply view_handleRequest.
  - rewrite view_handleResponse_other; [reflexivity | exact Hw |].
    destruct rid as [n | |]; try discriminate.
    apply bool_decide_eq_false in Hans. congruence.
  - destruct method; [reflexivity | apply view_handleNotification].
  - reflexivity.
Qed.

Lemma frame_handleMessage (line : option frame) (w : world) :
  let w' := handleMessage line w in
  now w' = now w /\ timers w' = timers w
  /\ nextRequestId (client w') = nextRequestId (client w).
Proof.
  unfold Bridge.handleMessage. destruct line as [parsed |]; [| easy].
  assert (Hresp : forall rid w0,
             now (handleResponse rid parsed w0) = now w0
             /\ timers (handleResponse rid parsed w0) = timers w0
             /\ nextRequestId (client (handleResponse rid parsed w0)) =
                nextRequestId (client w0)).
  { intros rid w0. unfold handleResponse.
    cbn [messageResolvers messageRejecters with_calls pendingMethods].
    destruct (get _ rid); [| easy]. destruct (get _ rid); [| easy].
    destruct (f_error parsed); easy. }
  assert (Hreq : forall rid method args w0,
             now (handleRequest rid method args w0) = now w0
             /\ timers (handleRequest rid method args w0) = timers w0
             /\ nextRequestId (client (handleRequest rid method args w0)) =
                nextRequestId (client w0)).
  { intros rid method args w0.
    unfold Bridge.handleRequest, Bridge.dispatch, readTextFile, writeTextFile, answer.
    repeat (destruct (decide _)); destruct args; try easy;
      repeat match goal with
             | |- context [match ?x with Returns _ => _ | Throws _ => _ end] =>
                 destruct x
             end; easy. }
  assert (Hnot : forall method args w0,
             now (handleNotification method args w0) = now w0
             /\ timers (handleNotification method args w0) = timers w0
             /\ nextRequestId (client (handleNotification method args w0)) =
                nextRequestId (client w0)).
  { intros method args w0. unfold handleNotification.
    destruct (decide _); [| easy]. destruct (onSessionUpdate _); [| easy].
    destruct args; easy. }
  destruct (f_id parsed) as [rid |]; destruct (f_method parsed) as [method |];
    cbn [truthy]; cbn zeta.
  - apply Hreq.
  - apply Hresp.
  - destruct method; [easy | apply Hnot].
  - easy.
Qed.

Lemma view_fire_others (id : Z) (ts : list timer) (w : world) :
  Forall (fun t => timer_id t <> id) ts ->
  view id (foldl (fun w tm => timeout tm w) w ts) = view id w.
Proof.
  revert w. induction ts as [| t ts IH]; intros w Hts; [reflexivity |].
  inversion Hts as [| ? ? Ht Hts']; subst. cbn [foldl].
  rewrite IH by assumption. now apply timeout_other.
Qed.

Lemma filter_none_Forall (id : Z) (ts : list timer) :
  filter (fun t => timer_id t = id) ts = [] ->
  Forall (fun t => timer_id t <> id) ts.
Proof.
  induction ts as [| t ts IH]; intros H; [constructor |].
  destruct (decide (timer_id t = id)) as [Ht | Ht].
  - rewrite filter_cons_True in H by assumption. discriminate.
  - rewrite filter_cons_False in H by assumption. constructor; auto.
Qed.

(** Among the timers that run, the one of a pending call rejects it. *)
Lemma view_fire_one (id : Z) (tm : timer) (ts : list timer) (w : world)
    (p : promise) (q : option promise) (cs : list settlement) :
  filter (fun t => timer_id t = id) ts = [tm] ->
  view id w = (Some p, q, cs) ->
  view id (foldl (fun w tm => timeout tm w) w ts) =
  (None, None, cs ++ [reject (String.append "Request timeout: " (timer_method tm))]).
Proof.
  revert w. induction ts as [| t ts IH]; intros w Hts Hview; [discriminate |].
  cbn [foldl]. destruct (decide (timer_id t = id)) as [Ht | Ht].
  - rewrite filter_cons_True in Hts by assumption.
    injection Hts as -> Hrest. subst id.
    rewrite view_fire_others by now apply filter_none_Forall.
    unfold view in Hview. injection Hview as Hres _ Hcs.
    rewrite (timeout_pending _ _ _ Hres). now rewrite Hcs.
  - rewrite filter_cons_False in Hts by assumption.
    apply IH; [assumption |]. now rewrite timeout_other.
Qed.

Lemma timers_of_elapse (id : Z) (ms : N) (w : world) :
  timers_of id (elapse ms w) =
  filter (fun tm => ¬ (due tm <= now w + ms)%N) (timers_of id w).
Proof.
  unfold timers_of, elapse.
  destruct (fire_all_frame
              (filter (fun tm => (due tm <= now w + ms)%N) (timers w))
              (with_clock (now w + ms)
                 (filter (fun tm => ¬ (due tm <= now w + ms)%N) (timers w)) w))
    as (_ & -> & _).
  cbn [timers with_clock]. apply filter_swap.
Qed.

Lemma now_elapse (ms : N) (w : world) : now (elapse ms w) = (now w + ms)%N.
Proof.
  unfold elapse.
  destruct (fire_all_frame
              (filter (fun tm => (due tm <= now w + ms)%N) (timers w))
              (with_clock (now w + ms)
                 (filter (fun tm => ¬ (due tm <= now w + ms)%N) (timers w)) w))
    as (_ & _ & ->).
  reflexivity.
Qed.

Lemma next_elapse (ms : N) (w : world) :
  nextRequestId (client (elapse ms w)) = nextRequestId (client w).
Proof.
  unfold elapse.
  destruct (fire_all_frame
              (filter (fun tm => (due tm <= now w + ms)%N) (timers w))
              (with_clock (now w + ms)
                 (filter (fun tm => ¬ (due tm <= now w + ms)%N) (timers w)) w))
    as (-> & _ & _).
  reflexivity.
Qed.

Lemma awaiting_timeout_elapse (id : Z) (method : string) (deadline : N)
    (ms : N) (w : world) :
  awaiting_timeout id method deadline w ->
  awaiting_timeout id method deadline (elapse ms w).
Proof.
  unfold awaiting_timeout. rewrite now_elapse, timers_of_elapse.
  set (tm := {| due := deadline; timer_id := id; timer_method := method |}).
  intros H. unfold elapse.
  set (due_now := filter (fun tm => (due tm <= now w + ms)%N) (timers w)).
  set (w1 := with_clock _ _ w).
  assert (Hdue : filter (fun t => timer_id t = id) due_now =
                 filter (fun tm => (due tm <= now w + ms)%N) (timers_of id w)).
  { unfold due_now, timers_of. apply filter_swap. }
  destruct (decide (now w < deadline)%N) as [Hbefore | Hafter].
  - destruct H as [Hview Htimers]. rewrite Htimers in Hdue |- *.
    destruct (decide (now w + ms < deadline)%N) as [Hstill | Hover].
    + rewrite filter_cons_False in Hdue by (cbn; lia).
      rewrite filter_cons_True by (cbn; lia).
      split; [| reflexivity].
      rewrite view_fire_others by now apply filter_none_Forall.
      exact Hview.
    + rewrite filter_cons_True in Hdue by (cbn; lia).
      rewrite filter_cons_False by (cbn; lia).
      split; [| reflexivity].
      now rewrite (view_fire_one id tm due_now w1 id (Some id) [] Hdue Hview).
  - destruct H as [Hview Htimers]. rewrite Htimers in Hdue |- *.
    destruct (decide (now w + ms < deadline)%N) as [Hstill | Hover]; [lia |].
    split; [| reflexivity].
    rewrite view_fire_others by now apply filter_none_Forall.
    exact Hview.
Qed.

Lemma awaiting_timeout_step (id : Z) (method : string) (deadline : N)
    (w : world) (e : event) :
  id < nextRequestId (client w) -> well_formed w ->
  answers id e = false -> fails_send id e = false ->
  awaiting_timeout id method deadline w ->
  awaiting_timeout id method deadline (step w e).
Proof.
  intros Hid Hw Hans Hfail H.
  destruct e as [m args | line | k | k err | ms | optionId | | kf]; cbn [Bridge.step].
  - unfold awaiting_timeout in *.
    rewrite view_sendRequest, timers_of_sendRequest by assumption. exact H.
  - unfold awaiting_timeout, timers_of in *.
    destruct (frame_handleMessage line w) as (-> & -> & _).
    now rewrite view_handleMessage.
  - destruct (decide _); exact H.
  - destruct (decide _); [| exact H].
    cbn [fails_send] in Hfail. apply bool_decide_eq_false in Hfail.
    unfold awaiting_timeout, timers_of in *.
    now rewrite view_send_failed_other.
  - now apply awaiting_timeout_elapse.
  - unfold awaiting_timeout, timers_of, resolvePermission in *.
    rewrite view_decide_permission. unfold decide_permission.
    destruct (permissionResolver (client w)); exact H.
  - unfold awaiting_timeout, timers_of, cancelPermission in *.
    rewrite view_decide_permission. unfold decide_permission.
    destruct (permissionResolver (client w)); exact H.
  - destruct (file_done_frame kf w) as (H1 & H2 & H3 & H4 & H5 & H6).
    unfold awaiting_timeout, timers_of, view, calls_on in *.
    rewrite H1, H2, H3, H5. exact H.
Qed.

Lemma next_step_le (w : world) (e : event) :
  nextRequestId (client w) <= nextRequestId (client (step w e)).
Proof.
  destruct e as [m args | line | k | k err | ms | optionId | | kf]; cbn [Bridge.step].
  - cbn. lia.
  - destruct (frame_handleMessage line w) as (_ & _ & ->). lia.
  - destruct (decide _); cbn; lia.
  - destruct (decide _); cbn; lia.
  - rewrite next_elapse. lia.
  - unfold resolvePermission, decide_permission.
    destruct (permissionResolver (client w)); cbn; lia.
  - unfold cancelPermission, decide_permission.
    destruct (permissionResolver (client w)); cbn; lia.
  - destruct (file_done_frame kf w) as (H1 & _). rewrite H1. lia.
Qed.

Lemma now_step (w : world) (e : event) :
  now (step w e) = (now w + duration e)%N.
Proof.
  destruct e as [m args | line | k | k err | ms | optionId | | kf];
    cbn [Bridge.step duration]; rewrite ?N.add_0_r.
  - reflexivity.
  - now destruct (frame_handleMessage line w) as (-> & _ & _).
  - now destruct (decide _).
  - now destruct (decide _).
  - apply now_elapse.
  - unfold resolvePermission, decide_permission.
    now destruct (permissionResolver (client w)).
  - unfold cancelPermission, decide_permission.
    now destruct (permissionResolver (client w)).
  - now destruct (file_done_frame kf w) as (_ & H2 & _).
Qed.

Lemma now_run (events : list event) (w : world) :
  now (run events w) = (now w + elapsed events)%N.
Proof.
  revert w. induction events as [| e events IH]; intros w.
  - cbn. lia.
  - cbn [Bridge.run foldl elapsed foldr]. fold (run events (step w e)).
    rewrite IH, now_step. fold (elapsed events). lia.
Qed.

Lemma awaiting_timeout_run (id : Z) (method : string) (deadline : N)
    (events : list event) (w : world) :
  id < nextRequestId (client w) -> well_formed w ->
  forallb (fun e => negb (answers id e) && negb (fails_send id e)) events = true ->
  awaiting_timeout id method deadline w ->
  awaiting_timeout id method deadline (run events w).
Proof.
  revert w. induction events as [| e events IH]; intros w Hid Hw Hev H; [exact H |].
  cbn [forallb] in Hev. apply andb_prop in Hev as [He Hev].
  apply andb_prop in He as [Hans Hfail].
  apply negb_true_iff in Hans, Hfail.
  cbn [Bridge.run foldl]. fold (run events (step w e)). apply IH.
  - pose proof (next_step_le w e). lia.
  - now apply well_formed_step.
  - exact Hev.
  - now apply awaiting_timeout_step.
Qed.

(** A call starts out pending, with its timer set for 60 seconds later. *)
Lemma awaiting_timeout_sendRequest (method : string) (args : option json) (w : world) :
  well_formed w ->
  awaiting_timeout (nextRequestId (client w)) method (now w + REQUEST_TIMEOUT)
    (sendRequest method args w).
Proof.
  intros (Hres & Hrej & Htm & Hinv & Hsend).
  unfold awaiting_timeout.
  destruct (decide _) as [_ | Hn]; [| cbn in Hn; unfold REQUEST_TIMEOUT in Hn; lia].
  set (id := nextRequestId (client w)). split.
  - unfold view, sendRequest. cbn. fold id. rewrite !lookup_insert_eq.
    do 2 f_equal. unfold calls_on. cbn [invoked send with_sending with_client with_clock].
    replace (filter (fun i => target i = id) (invoked w)) with (@nil invocation);
      [reflexivity |].
    symmetry. clear -Hinv. fold id in Hinv.
    induction (invoked w) as [| i l IH]; [reflexivity |].
    inversion Hinv; subst. rewrite filter_cons_False by lia. auto.
  - unfold timers_of, sendRequest. cbn. fold id.
    rewrite filter_app, filter_cons_True by reflexivity. rewrite filter_nil.
    replace (filter (fun t => timer_id t = id) (timers w)) with (@nil timer);
      [reflexivity |].
    symmetry. clear -Htm. fold id in Htm.
    induction (timers w) as [| t l IH]; [reflexivity |].
    inversion Htm; subst. rewrite filter_cons_False by lia. auto.
Qed.

(** *** A call that is over *)

Lemma view_fire_settled (id : Z) (ts : list timer) (w : world)
    (q : option promise) (cs : list settlement) :
  view id w = (None, q, cs) ->
  view id (foldl (fun w tm => timeout tm w) w ts) = view id w.
Proof.
  revert w. induction ts as [| t ts IH]; intros w Hview; [reflexivity |].
  cbn [foldl].
  assert (Hsame : view id (timeout t w) = view id w).
  { destruct (decide (timer_id t = id)) as [<- | Hne].
    - rewrite timeout_not_pending; [reflexivity |].
      unfold view in Hview. now injection Hview.
    - now apply timeout_other. }
  rewrite (IH (timeout t w)); [exact Hsame | now rewrite Hsame].
Qed.

Lemma view_elapse_settled (id : Z) (ms : N) (w : world)
    (q : option promise) (cs : list settlement) :
  view id w = (None, q, cs) -> view id (elapse ms w) = view id w.
Proof.
  intros Hview. unfold elapse.
  exact (view_fire_settled id _ (with_clock _ _ w) q cs Hview).
Qed.

(** Once its entry is gone, only the failure of its send calls the promise
    of a request again. *)
Lemma settled_step (id : Z) (w : world) (e : event)
    (q : option promise) (cs : list settlement) :
  id < nextRequestId (client w) -> well_formed w ->
  fails_send id e = false ->
  view id w = (None, q, cs) ->
  view id (step w e) = view id w.
Proof.
  intros Hid Hw Hfail Hview.
  destruct e as [m args | line | k | k err | ms | optionId | | kf]; cbn [Bridge.step].
  - now apply view_sendRequest.
  - destruct (answers id (Message line)) eqn:Hans;
      [| now apply view_handleMessage].
    destruct line as [parsed |]; [| discriminate]. cbn [answers] in Hans.
    unfold Bridge.handleMessage.
    destruct (f_id parsed) as [[n | |] |]; try discriminate.
    destruct (f_method parsed); [discriminate |].
    apply bool_decide_eq_true in Hans. subst n. cbn [truthy].
    unfold handleResponse.
    cbn [messageResolvers messageRejecters with_calls pendingMethods get].
    unfold view in Hview. injection Hview as Hres _ _. now rewrite Hres.
  - now destruct (decide _).
  - destruct (decide _); [| reflexivity].
    cbn [fails_send] in Hfail. apply bool_decide_eq_false in Hfail.
    now rewrite view_send_failed_other.
  - now apply (view_elapse_settled id ms w q cs).
  - apply view_decide_permission.
  - apply view_decide_permission.
  - apply view_file_done.
Qed.

Lemma settled_run (id : Z) (events : list event) (w : world)
    (q : option promise) (cs : list settlement) :
  id < nextRequestId (client w) -> well_formed w ->
  no_send_failure id events = true ->
  view id w = (None, q, cs) ->
  view id (run events w) = view id w.
Proof.
  revert w. induction events as [| e events IH]; intros w Hid Hw Hev Hview;
    [reflexivity |].
  unfold no_send_failure in Hev. cbn [forallb] in Hev.
  apply andb_prop in Hev as [He Hev]. apply negb_true_iff in He.
  cbn [Bridge.run foldl]. fold (run events (step w e)).
  assert (Hstep : view id (step w e) = view id w) by now apply (settled_step id w e q cs).
  rewrite (IH (step w e)); [exact Hstep | | | exact Hev | now rewrite Hstep].
  - pose proof (next_step_le w e). lia.
  - now apply well_formed_step.
Qed.

(** A response for a pending call settles it, with the result or with the
    message of the error. *)
Lemma view_handleMessage_answer (id : Z) (parsed : frame) (w : world) :
  answers id (Message (Some parsed)) = true ->
  view id w = (Some id, Some id, []) ->
  exists s, view id (handleMessage (Some parsed) w) = (None, None, [s]).
Proof.
  intros Hans Hview. cbn [answers] in Hans. unfold Bridge.handleMessage.
  destruct (f_id parsed) as [[n | |] |]; try discriminate.
  destruct (f_method parsed); [discriminate |].
  apply bool_decide_eq_true in Hans. subst n. cbn [truthy].
  unfold view in Hview. injection Hview as Hres Hrej Hcs.
  unfold handleResponse.
  cbn [messageResolvers messageRejecters with_calls pendingMethods get delete_id].
  rewrite Hres, Hrej.
  destruct (f_error parsed) as [err |]; eexists; unfold view;
    rewrite calls_on_invoke, calls_on_with_client, Hcs;
    (destruct (decide (id = id)); [| contradiction]);
    cbn; rewrite !lookup_delete_eq; reflexivity.
Qed.

Lemma pending_or_settled_step (id : Z) (method : string) (deadline : N)
    (w : world) (e : event) :
  id < nextRequestId (client w) -> well_formed w ->
  fails_send id e = false ->
  pending_or_settled id method deadline w ->
  pending_or_settled id method deadline (step w e).
Proof.
  intros Hid Hw Hfail [(Hnow & Hview & Htimers) | [s Hs]].
  - destruct (answers id e) eqn:Hans.
    + right. destruct e as [| [parsed |] | | | | | |]; try discriminate.
      cbn [Bridge.step]. now apply view_handleMessage_answer.
    + assert (Hw0 : awaiting_timeout id method deadline w).
      { unfold awaiting_timeout. destruct (decide _); [easy | lia]. }
      pose proof (awaiting_timeout_step id method deadline w e Hid Hw Hans Hfail Hw0)
        as Hstep.
      unfold awaiting_timeout in Hstep.
      destruct (decide (now (step w e) < deadline)%N) as [Hlt | Hge].
      * left. easy.
      * right. destruct Hstep as [Hv _]. eauto.
  - right. exists s. now rewrite (settled_step id w e None [s]).
Qed.

Lemma pending_or_settled_run (id : Z) (method : string) (deadline : N)
    (events : list event) (w : world) :
  id < nextRequestId (client w) -> well_formed w ->
  no_send_failure id events = true ->
  pending_or_settled id method deadline w ->
  pending_or_settled id method deadline (run events w).
Proof.
  revert w. induction events as [| e events IH]; intros w Hid Hw Hev H; [exact H |].
  unfold no_send_failure in Hev. cbn [forallb] in Hev.
  apply andb_prop in Hev as [He Hev]. apply negb_true_iff in He.
  cbn [Bridge.run foldl]. fold (run events (step w e)). apply IH.
  - pose proof (next_step_le w e). lia.
  - now apply well_formed_step.
  - exact Hev.
  - now apply pending_or_settled_step.
Qed.

(** *** Timeouts *)

Lemma awaiting_timeout_after_call (agent : string) (before after : list event)
    (m : string) (a : option json) :
  let w0 := run before (new_world agent) in
  let id := nextRequestId (client w0) in
  unanswered id after = true ->
  awaiting_timeout id m (now w0 + REQUEST_TIMEOUT) (run (Call m a :: after) w0)
  /\ now (run (Call m a :: after) w0) = (now w0 + elapsed after)%N.
Proof.
  intros w0 id Hun.
  assert (Hw0 : well_formed w0) by apply well_formed_run, well_formed_new.
  cbn [Bridge.run foldl Bridge.step]. fold (run after (sendRequest m a w0)).
  split.
  - apply awaiting_timeout_run.
    + cbn. fold id. lia.
    + now apply well_formed_sendRequest.
    + exact Hun.
    + now apply awaiting_timeout_sendRequest.
  - now rewrite now_run.
Qed.

Lemma run_cons (e : event) (events : list event) (w : world) :
  run (e :: events) w = run events (step w e).
Proof. reflexivity. Qed.

Lemma run_nil (w : world) : run [] w = w.
Proof. reflexivity. Qed.

Lemma unanswered_call_times_out (agent : string) (before after : list event)
    (m : string) (a : option json) :
  unanswered (nextRequestId (client (run before (new_world agent)))) after = true ->
  if decide (elapsed after < REQUEST_TIMEOUT)%N
  then view (nextRequestId (client (run before (new_world agent))))
         (run (Call m a :: after) (run before (new_world agent))) =
       (Some (nextRequestId (client (run before (new_world agent)))),
        Some (nextRequestId (client (run before (new_world agent)))), [])
  else view (nextRequestId (client (run before (new_world agent))))
         (run (Call m a :: after) (run before (new_world agent))) =
       (None, None, [reject (String.append "Request timeout: " m)]).
Proof.
  intros Hun.
  destruct (awaiting_timeout_after_call agent before after m a Hun) as [Haw Hnow].
  unfold awaiting_timeout in Haw. rewrite Hnow in Haw. clear Hnow.
  revert Haw.
  generalize (view (nextRequestId (client (run before (new_world agent))))
                (run (Call m a :: after) (run before (new_world agent)))).
  generalize (timers_of (nextRequestId (client (run before (new_world agent))))
                (run (Call m a :: after) (run before (new_world agent)))).
  generalize (now (run before (new_world agent))).
  generalize (nextRequestId (client (run before (new_world agent)))).
  intros id t0 ts v Haw.
  destruct (decide (elapsed after < REQUEST_TIMEOUT)%N);
    destruct (decide (t0 + elapsed after < t0 + REQUEST_TIMEOUT)%N);
    try lia; exact (proj1 Haw).
Qed.

Lemma step_Call (m : string) (a : option json) (w : world) :
  step w (Call m a) = sendRequest m a w.
Proof. reflexivity. Qed.

Lemma step_Elapse (ms : N) (w : world) : step w (Elapse ms) = elapse ms w.
Proof. reflexivity. Qed.

Lemma step_Message (line : option frame) (w : world) :
  step w (Message line) = handleMessage line w.
Proof. reflexivity. Qed.

Lemma next_sendRequest (m : string) (a : option json) (w : world) :
  nextRequestId (client (sendRequest m a w)) = nextRequestId (client w) + 1.
Proof. reflexivity. Qed.

Lemma now_sendRequest (m : string) (a : option json) (w : world) :
  now (sendRequest m a w) = now w.
Proof. reflexivity. Qed.

(** A call whose response comes before its deadline is resolved, and stays
    so when time goes on. *)
Lemma call_resolves (w : world) (m : string) (a : option json) (r : json)
    (d d' : N) :
  well_formed w -> (d < REQUEST_TIMEOUT)%N ->
  view (nextRequestId (client w))
    (elapse d'
       (handleMessage (Some (result_frame (nextRequestId (client w)) r))
          (elapse d (sendRequest m a w)))) =
  (None, None, [resolve r]).
Proof.
  intros Hw Hd.
  pose proof (awaiting_timeout_elapse _ _ _ d _
                (awaiting_timeout_sendRequest m a w Hw)) as Hb.
  unfold awaiting_timeout in Hb. rewrite now_elapse, now_sendRequest in Hb.
  destruct (decide (now w + d < now w + REQUEST_TIMEOUT)%N) as [_ | Hn]; [| lia].
  destruct Hb as [Hview _].
  pose proof (view_handleResponse_result _ r [] _ Hview) as Hres.
  rewrite (view_elapse_settled _ d' _ None _ Hres). exact Hres.
Qed.

(** The call sent second is resolved by its response. *)
Lemma second_call_resolves (w0 : world) (mA mB : string) (aA aB : option json)
    (r : json) (d1 d2 d3 : N) :
  well_formed w0 -> (d1 + d2 < REQUEST_TIMEOUT)%N ->
  view (nextRequestId (client w0) + 1)
    (run [Call mA aA; Elapse d1; Call mB aB; Elapse d2;
          Message (Some (result_frame (nextRequestId (client w0) + 1) r));
          Elapse d3] w0) =
  (None, None, [resolve r]).
Proof.
  intros Hw0 Hd. rewrite !run_cons, run_nil.
  rewrite !step_Call, !step_Elapse, step_Message.
  rewrite <- (next_sendRequest mA aA w0), <- (next_elapse d1 (sendRequest mA aA w0)).
  apply call_resolves; [| lia].
  now apply well_formed_elapse, well_formed_sendRequest.
Qed.

(** C3. A request that gets no response (and whose send does not fail) is
    pending until 60 seconds after it was sent and from then on is rejected
    with the timeout error, its entry removed; a timer that runs leaves the
    entries and the promises of the other requests alone; and when B, sent
    after A, gets its response before A's deadline, B is resolved with the
    result while A is still pending before the 60-second mark and rejected
    with the timeout error from the mark on. *)
Theorem timeout_rejects_only_its_call :
  REQUEST_TIMEOUT = 60000%N
  /\ (forall (agent : string) (before after : list event) (m : string)
             (a : option json),
        let w0 := run before (new_world agent) in
        let id := nextRequestId (client w0) in
        let w := run (Call m a :: after) w0 in
        unanswered id after = true ->
        if decide (elapsed after < REQUEST_TIMEOUT)%N
        then view id w = (Some id, Some id, [])
        else view id w =
             (None, None, [reject (String.append "Request timeout: " m)]))
  /\ (forall (t : timer) (w : world) (other : Z),
        other <> timer_id t -> view other (timeout t w) = view other w)
  /\ (forall (agent : string) (before : list event) (mA mB : string)
             (aA aB : option json) (r : json) (d1 d2 d3 : N),
        (d1 + d2 < REQUEST_TIMEOUT)%N ->
        let w0 := run before (new_world agent) in
        let A := nextRequestId (client w0) in
        let B := A + 1 in
        let w := run [Call mA aA; Elapse d1; Call mB aB; Elapse d2;
                      Message (Some (result_frame B r)); Elapse d3] w0 in
        view B w = (None, None, [resolve r])
        /\ if decide (d1 + d2 + d3 < REQUEST_TIMEOUT)%N
           then view A w = (Some A, Some A, [])
           else view A w =
                (None, None, [reject (String.append "Request timeout: " mA)])).
Proof.
  split; [reflexivity |]. split; [| split].
  - intros agent before after m a w0 id w Hun.
    exact (unanswered_call_times_out agent before after m a Hun).
  - intros t w other Hne. apply timeout_other. congruence.
  - intros agent before mA mB aA aB r d1 d2 d3 Hd w0 A B w.
    split.
    + apply second_call_resolves; [| exact Hd].
      apply well_formed_run, well_formed_new.
    + pose proof (unanswered_call_times_out agent before
                    [Elapse d1; Call mB aB; Elapse d2;
                     Message (Some (result_frame B r)); Elapse d3] mA aA) as H.
      assert (Hel : elapsed [Elapse d1; Call mB aB; Elapse d2;
                             Message (Some (result_frame B r)); Elapse d3] =
                    (d1 + d2 + d3)%N).
      { unfold elapsed. cbn [foldr duration]. lia. }
      rewrite Hel in H. apply H.
      unfold unanswered.
      cbn [forallb answers fails_send result_frame f_id f_method negb andb].
      rewrite bool_decide_eq_false_2 by (unfold B, A, w0; lia). reflexivity.
Qed.

(** *** One call per promise *)


End WithFileAccess.

(** C1 at the input where it fails: the response to request [0] arrives and
    resolves the promise, then the send of the request fails and [reject] is
    called on the same promise; or the timer rejects the promise and then
    the failing send rejects it again. *)
Theorem send_failure_rejects_settled_call :
  calls_on 0
    (run Examples.no_read Examples.no_write
       [Call "initialize" None;
        Message (Some (result_frame 0 (JStr "ok")));
        SendFailed 0 "write failed"]
       (new_world "agent-1")) =
  [resolve (JStr "ok"); reject "write failed"]
  /\ calls_on 0
       (run Examples.no_read Examples.no_write
          [Call "initialize" None; Elapse 60000; SendFailed 0 "write failed"]
          (new_world "agent-1")) =
     [reject "Request timeout: initialize"; reject "write failed"].
Proof. split; vm_compute; reflexivity. Qed.

(** C3 as stated fails where the send of the request fails: request [0]
    gets no response, and at the 60-second mark its promise holds the error
    of the failed send, not a timeout error; the timer that runs then finds
    the entry gone and does nothing. *)
Lemma send_failure_preempts_timeout :
  view 0
    (run Examples.no_read Examples.no_write
       [Call "initialize" None; SendFailed 0 "write failed"]
       (new_world "agent-1")) =
  (None, None, [reject "write failed"])
  /\ view 0
       (run Examples.no_read Examples.no_write
          [Call "initialize" None; SendFailed 0 "write failed"; Elapse 60000]
          (new_world "agent-1")) =
     (None, None, [reject "write failed"]).
Proof. split; vm_compute; reflexivity. Qed.

Lemma timeout_rejects_only_its_call_witness :
  view 0
    (run Examples.no_read Examples.no_write
       [Call "initialize" None; Elapse 59999] (new_world "agent-1")) =
  (Some 0, Some 0, [])
  /\ view 0
       (run Examples.no_read Examples.no_write
          [Call "initialize" None; Elapse 60000] (new_world "agent-1")) =
     (None, None, [reject "Request timeout: initialize"]).
Proof.
  destruct (timeout_rejects_only_its_call Examples.no_read Examples.no_write)
    as (_ & H & _).
  split.
  - exact (H "agent-1" [] [Elapse 59999] "initialize" None eq_refl).
  - exact (H "agent-1" [] [Elapse 60000] "initialize" None eq_refl).
Defined.


End PendingCallFacts.

(** ** The bridge: requests of the agent *)

Module InboundRequestFacts.
Import Acp Bridge.

Section WithFileAccess.

Context (tauriReadTextFile : string -> outcome string)
        (tauriWriteTextFile : string -> string -> outcome unit).

Local Abbreviation step := (Bridge.step tauriReadTextFile tauriWriteTextFile).
Local Abbreviation run := (Bridge.run tauriReadTextFile tauriWriteTextFile).
Local Abbreviation file_done := (Bridge.file_done tauriReadTextFile tauriWriteTextFile).
Local Abbreviation file_result := (Bridge.file_result tauriReadTextFile tauriWriteTextFile).
Local Abbreviation file_response :=
  (Bridge.file_response tauriReadTextFile tauriWriteTextFile).

Lemma responses_to_snoc (rid : rpc_id) (out : list out_frame) (f : out_frame) :
  responses_to rid (out ++ [f]) =
  responses_to rid out ++ (if decide (response_id f = Some rid) then [f] else []).
Proof.
  unfold responses_to. now rewrite filter_app.
Qed.

Lemma responses_to_other (rid : rpc_id) (out : list out_frame) (f : out_frame) :
  response_id f <> Some rid -> responses_to rid (out ++ [f]) = responses_to rid out.
Proof.
  intros H. rewrite responses_to_snoc.
  destruct (decide _); [contradiction | apply app_nil_r].
Qed.

Lemma responses_to_own (rid : rpc_id) (out : list out_frame) (f : out_frame) :
  response_id f = Some rid -> responses_to rid (out ++ [f]) = responses_to rid out ++ [f].
Proof.
  intros H. rewrite responses_to_snoc.
  destruct (decide _); [reflexivity | contradiction].
Qed.

(** The response of a file request is sent by [answer]. *)
Lemma answer_file_result (rid : rpc_id) (c : file_call) (w : world) :
  answer rid (file_result c) w = send (file_response rid c) w.
Proof.
  unfold Bridge.file_result, Bridge.file_response.
  destruct c as [p | p];
    [destruct (readTextFile tauriReadTextFile p)
    | destruct (writeTextFile tauriWriteTextFile p)]; reflexivity.
Qed.

Lemma response_id_file_response (rid : rpc_id) (c : file_call) :
  response_id (file_response rid c) = Some rid.
Proof.
  unfold Bridge.file_response.
  destruct c as [p | p];
    [destruct (readTextFile tauriReadTextFile p)
    | destruct (writeTextFile tauriWriteTextFile p)]; reflexivity.
Qed.

(** What [handleRequest] does in the turn in which the request arrives. *)
Lemma handleRequest_cases (id : rpc_id) (method : string) (args : params) (w : world) :
  (exists c, file_request method args = Some c
             /\ handleRequest id method args w = suspend id c w)
  \/ (exists p, method = "session/request_permission"
                /\ args = PermissionParams p
                /\ handleRequest id method args w =
                   with_client (with_permission (Some (local_request p)) (Some id)
                                  (client w)) w)
  \/ (exists code message,
        handleRequest id method args w = send (ErrorResponse id code message) w).
Proof.
  unfold handleRequest, dispatch, file_request.
  destruct (decide (method = "fs/read_text_file")).
  { destruct args; cbn [answer]; eauto 6. }
  destruct (decide (method = "fs/write_text_file")).
  { destruct args; cbn [answer]; eauto 6. }
  destruct (decide (method = "session/request_permission")).
  { destruct args; cbn [answer]; eauto 8. }
  cbn [answer]. eauto 6.
Qed.

(** The frames an event makes the bridge send in answer to [rid], when the
    event is not a request with that identifier. *)
Lemma responses_step (rid : rpc_id) (w : world) (e : event) :
  asks rid e = false ->
  responses_to rid (outbox (step w e)) =
  responses_to rid (outbox w) ++
  match e with
  | FileDone k =>
      match file_calls w !! k with
      | Some (Some c) =>
          if decide (answering c = rid) then [file_response rid (asked c)] else []
      | _ => []
      end
  | ResolvePermission _ | CancelPermission =>
      match decision e with
      | Some o =>
          if decide (permissionResolver (client w) = Some rid)
          then [Response rid (PermissionResult o)] else []
      | None => []
      end
  | _ => []
  end.
Proof.
  intros Hask.
  assert (Hdecide : forall o,
             responses_to rid (outbox (decide_permission o w)) =
             responses_to rid (outbox w) ++
             (if decide (permissionResolver (client w) = Some rid)
              then [Response rid (PermissionResult o)] else [])).
  { intros o. unfold decide_permission.
    destruct (permissionResolver (client w)) as [id |] eqn:Hres.
    - cbn [answer outbox with_client send].
      destruct (decide (Some id = Some rid)) as [[= ->] | Hne].
      + now apply responses_to_own.
      + rewrite app_nil_r. apply responses_to_other. cbn. congruence.
    - destruct (decide _); [discriminate | now rewrite app_nil_r]. }
  destruct e as [m args | line | id | id err | ms | optionId | | k];
    cbn [Bridge.step decision].
  - rewrite app_nil_r. unfold sendRequest. cbn [outbox with_clock with_sending send].
    now apply responses_to_other.
  - rewrite app_nil_r. destruct line as [parsed |]; [| reflexivity].
    cbn [asks] in Hask. unfold handleMessage.
    destruct (f_id parsed) as [id |]; destruct (f_method parsed) as [method |];
      cbn [truthy].
    + apply bool_decide_eq_false in Hask.
      destruct (handleRequest_cases id method (f_params parsed) w)
        as [(c & _ & ->) | [(p & _ & _ & ->) | (code & message & ->)]];
        try reflexivity.
      cbn [outbox send]. apply responses_to_other. cbn. congruence.
    + unfold handleResponse.
      cbn [messageResolvers messageRejecters with_calls pendingMethods].
      destruct (get _ id); [| reflexivity]. destruct (get _ id); [| reflexivity].
      destruct (f_error parsed); reflexivity.
    + destruct method; [reflexivity |]. unfold handleNotification.
      destruct (decide (_ = "session/update")); [| reflexivity].
      destruct (onSessionUpdate (client w)); [| reflexivity].
      destruct (f_params parsed); reflexivity.
    + reflexivity.
  - rewrite app_nil_r. now destruct (decide (_ ∈ _)).
  - rewrite app_nil_r. now destruct (decide (_ ∈ _)).
  - rewrite app_nil_r. unfold elapse.
    set (w1 := with_clock _ _ w).
    change (outbox w) with (outbox w1). generalize w1. clear w1.
    induction (filter _ (timers w)) as [| t ts IH]; intros w1; [reflexivity |].
    cbn [foldl]. rewrite IH. unfold timeout. now destruct (decide (is_Some _)).
  - apply Hdecide.
  - apply Hdecide.
  - unfold Bridge.file_done.
    destruct (file_calls w !! k) as [[c |] |]; try now rewrite app_nil_r.
    rewrite answer_file_result. cbn [outbox send with_file_calls].
    destruct (decide (answering c = rid)) as [<- | Hne].
    + apply responses_to_own, response_id_file_response.
    + rewrite app_nil_r. apply responses_to_other.
      rewrite response_id_file_response. congruence.
Qed.

(** What an event does to the list of the calls of the file plugin:
    nothing, or a request makes a call, or a call ends. *)
Lemma file_calls_after (w : world) (e : event) :
  file_calls (step w e) = file_calls w
  \/ (exists id c, asks id e = true
                   /\ file_calls (step w e) =
                      file_calls w ++ [Some {| answering := id; asked := c |}])
  \/ (exists k c, e = FileDone k
                  /\ file_calls w !! k = Some (Some c)
                  /\ file_calls (step w e) = <[k := None]> (file_calls w)).
Proof.
  destruct e as [m args | line | id | id err | ms | optionId | | k];
    cbn [Bridge.step].
  - now left.
  - destruct line as [parsed |]; [| now left].
    unfold handleMessage. cbn [asks].
    destruct (f_id parsed) as [id |]; destruct (f_method parsed) as [method |];
      cbn [truthy].
    + destruct (handleRequest_cases id method (f_params parsed) w)
        as [(c & _ & ->) | [(p & _ & _ & ->) | (code & message & ->)]];
        [| now left | now left].
      right. left. exists id, c. split; [now apply bool_decide_eq_true |].
      reflexivity.
    + left. unfold handleResponse.
      cbn [messageResolvers messageRejecters with_calls pendingMethods].
      destruct (get _ id); [| reflexivity]. destruct (get _ id); [| reflexivity].
      destruct (f_error parsed); reflexivity.
    + left. destruct method; [reflexivity |]. unfold handleNotification.
      destruct (decide (_ = "session/update")); [| reflexivity].
      destruct (onSessionUpdate (client w)); [| reflexivity].
      destruct (f_params parsed); reflexivity.
    + now left.
  - left. now destruct (decide (_ ∈ _)).
  - left. now destruct (decide (_ ∈ _)).
  - left. unfold elapse.
    set (w1 := with_clock _ _ w).
    change (file_calls w) with (file_calls w1). generalize w1. clear w1.
    induction (filter _ (timers w)) as [| t ts IH]; intros w1; [reflexivity |].
    cbn [foldl]. rewrite IH. unfold timeout. now destruct (decide (is_Some _)).
  - left. unfold resolvePermission, decide_permission.
    now destruct (permissionResolver (client w)).
  - left. unfold cancelPermission, decide_permission.
    now destruct (permissionResolver (client w)).
  - unfold Bridge.file_done.
    destruct (file_calls w !! k) as [[c |] |] eqn:E; [| now left | now left].
    right. right. exists k, c. split; [reflexivity |]. split; [exact E |].
    rewrite answer_file_result. reflexivity.
Qed.

(** A call that is open stays open until its end. *)
Lemma file_call_kept (w : world) (e : event) (k : nat) (c : suspended) :
  file_calls w !! k = Some (Some c) -> ends_call k e = false ->
  file_calls (step w e) !! k = Some (Some c).
Proof.
  intros Hopen Hend.
  destruct (file_calls_after w e)
    as [-> | [(id & c' & _ & ->) | (k0 & c' & -> & _ & ->)]].
  - exact Hopen.
  - rewrite lookup_app_l; [exact Hopen |]. now apply lookup_lt_Some in Hopen.
  - cbn [ends_call] in Hend. apply bool_decide_eq_false in Hend.
    now rewrite list_lookup_insert_ne.
Qed.

(** The end of a call closes it. *)
Lemma file_call_closed (w : world) (k : nat) (c : suspended) :
  file_calls (step w (FileDone k)) !! k <> Some (Some c).
Proof.
  cbn [Bridge.step]. unfold Bridge.file_done.
  destruct (file_calls w !! k) as [[c' |] |] eqn:E.
  - rewrite answer_file_result. cbn [file_calls send with_file_calls].
    rewrite list_lookup_insert_eq by now apply lookup_lt_Some in E. discriminate.
  - congruence.
  - congruence.
Qed.

(** No call that will answer [rid] is made unless a request with that
    identifier arrives. *)
Lemma file_call_old (rid : rpc_id) (w : world) (e : event) (k : nat) (c : suspended) :
  asks rid e = false ->
  file_calls (step w e) !! k = Some (Some c) -> answering c = rid ->
  file_calls w !! k = Some (Some c).
Proof.
  intros Hask Hopen Hrid.
  destruct (file_calls_after w e)
    as [E | [(id & c' & Hid & E) | (k0 & c' & -> & _ & E)]];
    rewrite E in Hopen.
  - exact Hopen.
  - apply lookup_app_Some in Hopen as [Hopen | [_ Hopen]]; [exact Hopen |].
    destruct (k - length (file_calls w))%nat; [| discriminate].
    cbn in Hopen. injection Hopen as <-. cbn in Hrid. congruence.
  - destruct (decide (k = k0)) as [-> | Hne].
    + apply list_lookup_insert_Some in Hopen as [(_ & Hnone & _) | [Hne _]];
        [discriminate | contradiction].
    + now rewrite list_lookup_insert_ne in Hopen.
Qed.

(** The permission continuation: only a permission request stores one, and
    only a decision takes it away. *)
Lemma resolver_step (w : world) (e : event) :
  asks_permission e = false -> decision e = None ->
  permissionResolver (client (step w e)) = permissionResolver (client w).
Proof.
  intros Hask Hdec.
  destruct e as [m args | line | id | id err | ms | optionId | | k];
    cbn [Bridge.step]; try discriminate.
  - reflexivity.
  - destruct line as [parsed |]; [| reflexivity].
    cbn [asks_permission] in Hask. unfold handleMessage.
    destruct (f_id parsed) as [id |]; destruct (f_method parsed) as [method |];
      cbn [truthy].
    + apply bool_decide_eq_false in Hask.
      destruct (handleRequest_cases id method (f_params parsed) w)
        as [(c & _ & ->) | [(p & Hm & _ & _) | (code & message & ->)]];
        [reflexivity | contradiction | reflexivity].
    + unfold handleResponse.
      cbn [messageResolvers messageRejecters with_calls pendingMethods].
      destruct (get _ id); [| reflexivity]. destruct (get _ id); [| reflexivity].
      destruct (f_error parsed); reflexivity.
    + destruct method; [reflexivity |]. unfold handleNotification.
      destruct (decide (_ = "session/update")); [| reflexivity].
      destruct (onSessionUpdate (client w)); [| reflexivity].
      destruct (f_params parsed); reflexivity.
    + reflexivity.
  - now destruct (decide (_ ∈ _)).
  - now destruct (decide (_ ∈ _)).
  - unfold elapse.
    set (w1 := with_clock _ _ w).
    change (client w) with (client w1). generalize w1. clear w1.
    induction (filter _ (timers w)) as [| t ts IH]; intros w1; [reflexivity |].
    cbn [foldl]. rewrite IH. unfold timeout.
    now destruct (decide (is_Some _)).
  - unfold Bridge.file_done.
    destruct (file_calls w !! k) as [[c |] |]; try reflexivity.
    now rewrite answer_file_result.
Qed.

(** A continuation that will answer [rid] is stored only by a request with
    that identifier. *)
Lemma resolver_old (rid : rpc_id) (w : world) (e : event) :
  asks rid e = false ->
  permissionResolver (client (step w e)) = Some rid ->
  permissionResolver (client w) = Some rid.
Proof.
  intros Hask H.
  destruct (asks_permission e) eqn:Hperm.
  - destruct e as [| [parsed |] | | | | | |]; try discriminate.
    cbn [asks asks_permission Bridge.step] in *. unfold handleMessage in H.
    destruct (f_id parsed) as [id |]; destruct (f_method parsed) as [method |];
      try discriminate.
    apply bool_decide_eq_false in Hask. cbn [truthy] in H.
    destruct (handleRequest_cases id method (f_params parsed) w)
      as [(c & _ & E) | [(p & _ & _ & E) | (code & message & E)]];
      rewrite E in H; try exact H.
    cbn in H. congruence.
  - destruct (decision e) as [o |] eqn:Hdec.
    + destruct e; try discriminate; cbn [Bridge.step] in H;
        unfold resolvePermission, cancelPermission, decide_permission in H;
        destruct (permissionResolver (client w)) eqn:E; cbn in H;
        first [discriminate H | congruence].
    + now rewrite resolver_step in H.
Qed.

(** *** Handlers that are suspended *)

Lemma no_handler_step (rid : rpc_id) (w : world) (e : event) :
  asks rid e = false -> no_handler rid w ->
  no_handler rid (step w e)
  /\ responses_to rid (outbox (step w e)) = responses_to rid (outbox w).
Proof.
  intros Hask [Hres Hfile]. split; [split |].
  - intros H. apply Hres. now apply (resolver_old rid w e).
  - intros k c Hopen Hrid. apply (Hfile k c); [| exact Hrid].
    now apply (file_call_old rid w e).
  - rewrite responses_step by exact Hask.
    destruct e as [m args | line | id | id err | ms | optionId | | k];
      cbn [decision]; try apply app_nil_r.
    + destruct (decide _); [contradiction | apply app_nil_r].
    + destruct (decide _); [contradiction | apply app_nil_r].
    + destruct (file_calls w !! k) as [[c |] |] eqn:E; try apply app_nil_r.
      destruct (decide _) as [Hrid |]; [| apply app_nil_r].
      now destruct (Hfile k c E).
Qed.

Lemma no_handler_run (rid : rpc_id) (events : list event) (w : world) :
  forallb (fun e => negb (asks rid e)) events = true -> no_handler rid w ->
  no_handler rid (run events w)
  /\ responses_to rid (outbox (run events w)) = responses_to rid (outbox w).
Proof.
  revert w. induction events as [| e events IH]; intros w Hev Hw; [now split |].
  cbn [forallb] in Hev. apply andb_prop in Hev as [He Hev].
  apply negb_true_iff in He.
  destruct (no_handler_step rid w e He Hw) as [Hw1 Hout1].
  cbn [Bridge.run foldl]. fold (run events (step w e)).
  destruct (IH (step w e) Hev Hw1) as [Hw2 Hout2].
  split; [exact Hw2 | congruence].
Qed.

Lemma file_handler_step (rid : rpc_id) (k : nat) (c : file_call) (w : world)
    (e : event) :
  asks rid e = false -> ends_call k e = false -> file_handler rid k c w ->
  file_handler rid k c (step w e)
  /\ responses_to rid (outbox (step w e)) = responses_to rid (outbox w).
Proof.
  intros Hask Hend (Hres & Hopen & Hothers). split; [split; [| split] |].
  - intros H. apply Hres. now apply (resolver_old rid w e).
  - now apply file_call_kept.
  - intros k' c' Hne Hopen' Hrid. apply (Hothers k' c' Hne); [| exact Hrid].
    now apply (file_call_old rid w e).
  - rewrite responses_step by exact Hask.
    destruct e as [m args | line | id | id err | ms | optionId | | k0];
      cbn [decision]; try apply app_nil_r.
    + destruct (decide _); [contradiction | apply app_nil_r].
    + destruct (decide _); [contradiction | apply app_nil_r].
    + cbn [ends_call] in Hend. apply bool_decide_eq_false in Hend.
      destruct (file_calls w !! k0) as [[c0 |] |] eqn:E; try apply app_nil_r.
      destruct (decide _) as [Hrid |]; [| apply app_nil_r].
      now destruct (Hothers k0 c0 Hend E).
Qed.

Lemma file_handler_run (rid : rpc_id) (k : nat) (c : file_call)
    (events : list event) (w : world) :
  forallb (fun e => negb (asks rid e)) events = true ->
  forallb (fun e => negb (ends_call k e)) events = true ->
  file_handler rid k c w ->
  file_handler rid k c (run events w)
  /\ responses_to rid (outbox (run events w)) = responses_to rid (outbox w).
Proof.
  revert w. induction events as [| e events IH]; intros w Hev Hends Hw; [now split |].
  cbn [forallb] in Hev, Hends.
  apply andb_prop in Hev as [He Hev]. apply andb_prop in Hends as [Hend Hends].
  apply negb_true_iff in He, Hend.
  destruct (file_handler_step rid k c w e He Hend Hw) as [Hw1 Hout1].
  cbn [Bridge.run foldl]. fold (run events (step w e)).
  destruct (IH (step w e) Hev Hends Hw1) as [Hw2 Hout2].
  split; [exact Hw2 | congruence].
Qed.

(** When the call of the plugin ends, the handler sends its response and
    is gone. *)
Lemma file_handler_done (rid : rpc_id) (k : nat) (c : file_call) (w : world) :
  file_handler rid k c w ->
  no_handler rid (step w (FileDone k))
  /\ responses_to rid (outbox (step w (FileDone k))) =
     responses_to rid (outbox w) ++ [file_response rid c].
Proof.
  intros (Hres & Hopen & Hothers). split; [split |].
  - now rewrite resolver_step.
  - intros k' c' Hopen' Hrid.
    destruct (decide (k' = k)) as [-> | Hne].
    + now apply file_call_closed in Hopen'.
    + apply (Hothers k' c' Hne); [| exact Hrid].
      now apply (file_call_old rid w (FileDone k)).
  - rewrite responses_step by reflexivity. rewrite Hopen. cbn [answering asked].
    destruct (decide (rid = rid)); [reflexivity | contradiction].
Qed.

Lemma permission_handler_step (rid : rpc_id) (w : world) (e : event) :
  asks rid e = false -> asks_permission e = false -> decision e = None ->
  permission_handler rid w ->
  permission_handler rid (step w e)
  /\ responses_to rid (outbox (step w e)) = responses_to rid (outbox w).
Proof.
  intros Hask Hperm Hdec [Hres Hfile]. split; [split |].
  - now rewrite resolver_step.
  - intros k c Hopen Hrid. apply (Hfile k c); [| exact Hrid].
    now apply (file_call_old rid w e).
  - rewrite responses_step by exact Hask.
    destruct e as [m args | line | id | id err | ms | optionId | | k];
      try discriminate; try apply app_nil_r.
    destruct (file_calls w !! k) as [[c |] |] eqn:E; try apply app_nil_r.
    destruct (decide _) as [Hrid |]; [| apply app_nil_r].
    now destruct (Hfile k c E).
Qed.

Lemma permission_handler_run (rid : rpc_id) (events : list event) (w : world) :
  forallb (fun e => negb (asks rid e)) events = true ->
  quiet events = true ->
  permission_handler rid w ->
  permission_handler rid (run events w)
  /\ responses_to rid (outbox (run events w)) = responses_to rid (outbox w).
Proof.
  revert w. induction events as [| e events IH]; intros w Hev Hq Hw; [now split |].
  cbn [forallb] in Hev. unfold quiet in Hq. cbn [forallb] in Hq.
  apply andb_prop in Hev as [He Hev]. apply andb_prop in Hq as [Hqe Hq].
  apply andb_prop in Hqe as [Hperm Hdec].
  apply negb_true_iff in He, Hperm, Hdec.
  assert (Hnone : decision e = None) by now destruct (decision e).
  destruct (permission_handler_step rid w e He Hperm Hnone Hw) as [Hw1 Hout1].
  cbn [Bridge.run foldl]. fold (run events (step w e)).
  destruct (IH (step w e) Hev Hq Hw1) as [Hw2 Hout2].
  split; [exact Hw2 | congruence].
Qed.

(** The decision goes to the handler whose continuation is stored, which
    sends its response and is gone. *)
Lemma permission_handler_decided (rid : rpc_id) (w : world) (e : event)
    (o : RequestPermissionOutcome) :
  decision e = Some o -> permission_handler rid w ->
  no_handler rid (step w e)
  /\ responses_to rid (outbox (step w e)) =
     responses_to rid (outbox w) ++ [Response rid (PermissionResult o)].
Proof.
  intros Hdec [Hres Hfile].
  assert (Hask : asks rid e = false) by (destruct e; try discriminate; reflexivity).
  split; [split |].
  - destruct e; try discriminate; cbn [Bridge.step];
      unfold resolvePermission, cancelPermission, decide_permission;
      rewrite Hres; cbn; discriminate.
  - intros k c Hopen Hrid. apply (Hfile k c); [| exact Hrid].
    now apply (file_call_old rid w e).
  - rewrite responses_step by exact Hask.
    destruct e; try discriminate; rewrite Hdec;
      (destruct (decide _); [reflexivity | contradiction]).
Qed.

Lemma run_snoc_then (before after : list event) (e : event) (w : world) :
  run (before ++ e :: after) w = run after (step (run before w) e).
Proof. unfold Bridge.run. now rewrite foldl_app. Qed.

Lemma forallb_app_true {A : Type} (p : A -> bool) (l1 l2 : list A) :
  forallb p (l1 ++ l2) = true -> forallb p l1 = true /\ forallb p l2 = true.
Proof. rewrite forallb_app. apply andb_prop. Qed.


End WithFileAccess.



End InboundRequestFacts.


(** ** The session store: a logic for its operations *)

Module TaskLogic.
Import Acp Types Session.

Lemma carry_out_cons (i : interrupt) (pre : list interrupt) (sl : store * list effect) :
  carry_out (i :: pre) sl = carry_out pre (carry_out [i] sl).
Proof. reflexivity. Qed.

Lemma carry_out_app (pre1 pre2 : list interrupt) (sl : store * list effect) :
  carry_out (pre1 ++ pre2) sl = carry_out pre2 (carry_out pre1 sl).
Proof. unfold carry_out. now rewrite foldl_app. Qed.

Lemma carry_out_stable (I : store -> list effect -> Prop) (pre : list interrupt)
    (st : store) (out : list effect) :
  stable I -> I st out ->
  I (fst (carry_out pre (st, out))) (snd (carry_out pre (st, out))).
Proof.
  intros HI. revert st out. induction pre as [| i pre IH]; intros st out H; [exact H |].
  rewrite carry_out_cons.
  destruct (carry_out [i] (st, out)) as [st1 out1] eqn:E.
  apply IH. specialize (HI i st out H). now rewrite E in HI.
Qed.

(** What an [await] consumes and does. *)
Lemma settle_spec (items : list item) (st : store) (out : list effect) :
  exists pre : list interrupt,
    (state (snd (settle items st out)), log (snd (settle items st out))) =
    carry_out pre (st, out)
    /\ match fst (settle items st out) with
       | Some s => items = (happens <$> pre) ++ settles s :: script (snd (settle items st out))
       | None => items = happens <$> pre /\ script (snd (settle items st out)) = []
       end.
Proof.
  revert st out. induction items as [| [i | s] rest IH]; intros st out.
  - exists []. cbn. auto.
  - cbn [settle]. destruct (interrupted i st out) as [[a st1] out1] eqn:E.
    destruct (IH st1 out1) as (pre & Hrun & Hitems).
    exists (i :: pre). split.
    + rewrite carry_out_cons. unfold carry_out at 2. cbn [foldl fst snd].
      now rewrite E.
    + destruct (fst (settle rest st1 out1)).
      * rewrite fmap_cons. cbn [app]. now f_equal.
      * destruct Hitems as [-> Hs]. now rewrite fmap_cons.
  - exists []. cbn. auto.
Qed.

(** What awaiting the authentication choice consumes and does. *)
Lemma choose_spec (items : list item) (st : store) (out : list effect) :
  exists pre : list interrupt,
    (state (snd (choose items st out)), log (snd (choose items st out))) =
    carry_out pre (st, out)
    /\ items = (happens <$> pre) ++ script (snd (choose items st out)).
Proof.
  revert st out. induction items as [| [i | s] rest IH]; intros st out.
  - exists []. cbn. auto.
  - cbn [choose]. destruct (interrupted i st out) as [[a st1] out1] eqn:E.
    destruct a as [v |].
    + exists [i]. cbn [snd state log script]. split.
      * unfold carry_out. cbn [foldl fst snd]. now rewrite E.
      * reflexivity.
    + destruct (IH st1 out1) as (pre & Hrun & Hitems).
      exists (i :: pre). split.
      * rewrite carry_out_cons. unfold carry_out at 2. cbn [foldl fst snd].
        now rewrite E.
      * rewrite fmap_cons. cbn [app]. now f_equal.
  - exists []. cbn. auto.
Qed.

(** *** Rules *)

Section Rules.

Context {A B : Type}.

Lemma post_weaken (m : M A) (w : world) (Q Q' : result A -> world -> Prop) :
  post m w Q -> (forall r w', Q r w' -> Q' r w') -> post m w Q'.
Proof. unfold post. auto. Qed.

Lemma post_ret (a : A) (w : world) (Q : result A -> world -> Prop) :
  Q (Done a) w -> post (ret a) w Q.
Proof. auto. Qed.

Lemma post_throw (e : string) (w : world) (Q : result A -> world -> Prop) :
  Q (Threw e) w -> post (throw e) w Q.
Proof. auto. Qed.

Lemma post_block (w : world) (Q : result A -> world -> Prop) :
  Q Blocked w -> post block w Q.
Proof. auto. Qed.

Lemma post_bind (m : M A) (k : A -> M B) (w : world)
    (Q : result B -> world -> Prop) :
  post m w (fun r w' => match r with
                        | Done a => post (k a) w' Q
                        | Threw e => Q (Threw e) w'
                        | Blocked => Q Blocked w'
                        end) ->
  post (bind m k) w Q.
Proof. unfold post, bind. now destruct (m w) as [[a | e |] w']. Qed.

Lemma post_catch (m : M A) (handler : string -> M A) (w : world)
    (Q : result A -> world -> Prop) :
  post m w (fun r w' => match r with
                        | Threw e => post (handler e) w' Q
                        | other => Q other w'
                        end) ->
  post (catch m handler) w Q.
Proof. unfold post, catch. now destruct (m w) as [[a | e |] w']. Qed.

Lemma post_finally (m : M A) (f : store -> store) (w : world)
    (Q : result A -> world -> Prop) :
  post m w (fun r w' => match r with
                        | Blocked => Q Blocked w'
                        | other => Q other {| state := f (state w');
                                              script := script w';
                                              log := log w' |}
                        end) ->
  post (finally m f) w Q.
Proof. unfold post, finally. now destruct (m w) as [[a | e |] w']. Qed.

End Rules.

Lemma post_get (w : world) (Q : result store -> world -> Prop) :
  Q (Done (state w)) w -> post get w Q.
Proof. auto. Qed.

Lemma post_modify (f : store -> store) (w : world)
    (Q : result unit -> world -> Prop) :
  Q (Done tt) {| state := f (state w); script := script w; log := log w |} ->
  post (modify f) w Q.
Proof. auto. Qed.

Lemma post_emit (e : effect) (w : world) (Q : result unit -> world -> Prop) :
  Q (Done tt) {| state := state w; script := script w; log := log w ++ [e] |} ->
  post (emit e) w Q.
Proof. auto. Qed.

(** After an [await] the script is what it was less the interruptions
    carried out and the settlement; without a settlement the operation stays
    suspended. *)
Lemma post_await (w : world) (Q : result value -> world -> Prop) :
  (forall (pre : list interrupt) (rest : list item) (s : settlement),
      script w = (happens <$> pre) ++ settles s :: rest ->
      Q match s with
        | fulfilled v => Done v
        | rejected e => Threw e
        end
        {| state := fst (carry_out pre (state w, log w)); script := rest;
           log := snd (carry_out pre (state w, log w)) |}) ->
  (forall pre : list interrupt,
      script w = happens <$> pre ->
      Q Blocked {| state := fst (carry_out pre (state w, log w)); script := [];
                   log := snd (carry_out pre (state w, log w)) |}) ->
  post await w Q.
Proof.
  intros Hsome Hnone. unfold post, await.
  destruct (settle_spec (script w) (state w) (log w)) as (pre & Hrun & Hitems).
  destruct (settle (script w) (state w) (log w)) as [[s |] [st' sc' lg']];
    cbn [fst snd state log script] in *.
  - specialize (Hsome pre sc' s Hitems). rewrite <- Hrun in Hsome.
    cbn [fst snd] in Hsome. now destruct s.
  - destruct Hitems as [Hitems ->]. specialize (Hnone pre Hitems).
    rewrite <- Hrun in Hnone. exact Hnone.
Qed.

Lemma post_await_choice (w : world) (Q : result (option string) -> world -> Prop) :
  (forall (pre : list interrupt) (rest : list item) (r : result (option string)),
      script w = (happens <$> pre) ++ rest ->
      Q r {| state := fst (carry_out pre (state w, log w)); script := rest;
             log := snd (carry_out pre (state w, log w)) |}) ->
  post await_choice w Q.
Proof.
  intros H. unfold post, await_choice.
  destruct (choose_spec (script w) (state w) (log w)) as (pre & Hrun & Hitems).
  destruct (choose (script w) (state w) (log w)) as [[v |] [st' sc' lg']];
    cbn [fst snd state log script] in *.
  - specialize (H pre sc' (Done v) Hitems). rewrite <- Hrun in H. exact H.
  - specialize (H pre sc' Blocked Hitems). rewrite <- Hrun in H. exact H.
Qed.

(** *** Operations that maintain a property *)

Section Keeps.

Context (I : world -> Prop).

Lemma keeps_ret {A : Type} (a : A) : keeps I (ret a).
Proof. intros w H. exact H. Qed.

Lemma keeps_throw {A : Type} (e : string) : keeps I (throw (A := A) e).
Proof. intros w H. exact H. Qed.

Lemma keeps_block {A : Type} : keeps I (block (A := A)).
Proof. intros w H. exact H. Qed.

Lemma keeps_get : keeps I get.
Proof. intros w H. exact H. Qed.

Lemma keeps_modify (f : store -> store) : assignable I f -> keeps I (modify f).
Proof. intros Hf w H. now apply Hf. Qed.

Lemma keeps_emit (e : effect) : emittable I e -> keeps I (emit e).
Proof. intros He w H. now apply He. Qed.

Lemma keeps_bind {A B : Type} (m : M A) (k : A -> M B) :
  keeps I m -> (forall a, keeps I (k a)) -> keeps I (bind m k).
Proof.
  intros Hm Hk w H. apply post_bind. specialize (Hm w H). unfold post in *.
  destruct (m w) as [[a | e |] w']; cbn [fst snd] in *; auto.
  now apply Hk.
Qed.

Lemma keeps_catch {A : Type} (m : M A) (handler : string -> M A) :
  keeps I m -> (forall e, keeps I (handler e)) -> keeps I (catch m handler).
Proof.
  intros Hm Hh w H. apply post_catch. specialize (Hm w H). unfold post in *.
  destruct (m w) as [[a | e |] w']; cbn [fst snd] in *; auto.
  now apply Hh.
Qed.

Lemma keeps_finally {A : Type} (m : M A) (f : store -> store) :
  keeps I m -> assignable I f -> keeps I (finally m f).
Proof.
  intros Hm Hf w H. apply post_finally. specialize (Hm w H). unfold post in *.
  destruct (m w) as [[a | e |] w']; cbn [fst snd] in *; auto.
Qed.

Lemma keeps_await : consumable I -> keeps I await.
Proof.
  intros HI w H. apply post_await.
  - intros pre rest s Hs. apply (HI w pre [settles s] rest H Hs).
    repeat constructor.
  - intros pre Hs. apply (HI w pre [] [] H).
    + now rewrite Hs, app_nil_r.
    + constructor.
Qed.

Lemma keeps_await_choice : consumable I -> keeps I await_choice.
Proof.
  intros HI w H. apply post_await_choice.
  intros pre rest r Hs. apply (HI w pre [] rest H Hs). constructor.
Qed.

Lemma keeps_call (e : effect) : consumable I -> emittable I e -> keeps I (call e).
Proof.
  intros HI He. unfold call. apply keeps_bind.
  - now apply keeps_emit.
  - intros _. now apply keeps_await.
Qed.

(** The wait for an answer consumes interruptions and settlements, the
    answers that are lost among them. *)
Lemma settle_answer_keeps (agent : string) (items : list item) (st : store)
    (out : list effect) :
  consumable I ->
  I {| state := st; script := items; log := out |} ->
  I (snd (settle_answer agent items st out)).
Proof.
  intros HI. revert st out.
  induction items as [| [i | s] rest IH]; intros st out H.
  - exact H.
  - cbn [settle_answer].
    assert (H1 := HI _ [i] [] rest H eq_refl ltac:(constructor)).
    unfold carry_out in H1. cbn [foldl fst snd state log] in H1.
    destruct (interrupted i st out) as [[a st1] out1].
    apply IH. exact H1.
  - assert (H1 := HI _ [] [settles s] rest H eq_refl ltac:(repeat constructor)).
    cbn [settle_answer]. destruct s as [v | e]; [| exact H1].
    destruct (cut_off agent st out); [apply IH |]; exact H1.
Qed.

Lemma keeps_await_answer (agent : string) :
  consumable I -> keeps I (await_answer agent).
Proof.
  intros HI w H. unfold post, await_answer.
  pose proof (settle_answer_keeps agent (script w) (state w) (log w) HI) as H1.
  destruct w as [st sc lg]. cbn [state script log] in *. specialize (H1 H).
  now destruct (settle_answer agent sc st lg) as [[[v | e] |] w'].
Qed.

Lemma keeps_request (agent : string) (e : effect) :
  consumable I -> emittable I e -> keeps I (request agent e).
Proof.
  intros HI He. unfold request. apply keeps_bind.
  - now apply keeps_emit.
  - intros _. now apply keeps_await_answer.
Qed.

Lemma keeps_the_client : keeps I the_client.
Proof.
  unfold the_client. apply keeps_bind; [apply keeps_get |].
  intros st. destruct (acpClient st); [apply keeps_ret | apply keeps_throw].
Qed.

End Keeps.

(** *** What interruptions do *)

Lemma transcript_handleSessionUpdate (uuid : string) (now : Z)
    (n : SessionNotification) (st : store) :
  transcript (handleSessionUpdate uuid now n st) =
  assemble (uuid, now, n) (transcript st).
Proof.
  unfold assemble, transcript, handleSessionUpdate, last_message,
    on_last_message, push_message.
  cbn [fst snd messages toolCalls set_messages set_toolCalls initial].
  destruct (update n) as [c | c | c | tcid ttl knd sts locs | tcid sts ttl | m | cmds | other].
  - destruct (last (messages st)) as [m |]; [| reflexivity].
    destruct (decide _); [| reflexivity]. now destruct c.
  - destruct (last (messages st)) as [m |]; [| reflexivity].
    destruct (decide _); [| reflexivity]. now destruct c.
  - destruct (last (messages st)) as [m |]; [| reflexivity].
    destruct (decide _); [| reflexivity]. now destruct c.
  - destruct (last (messages st)) as [m |]; [| reflexivity].
    now destruct (decide _).
  - now destruct (toolCalls st !! tcid).
  - now destruct (truthy m).
  - now destruct cmds.
  - reflexivity.
Qed.

Lemma frame_handleSessionUpdate (uuid : string) (now : Z)
    (n : SessionNotification) (st : store) :
  currentSession (handleSessionUpdate uuid now n st) = currentSession st
  /\ isConnected (handleSessionUpdate uuid now n st) = isConnected st.
Proof.
  unfold handleSessionUpdate, last_message, on_last_message, push_message.
  destruct (update n) as [c | c | c | tcid ttl knd sts locs | tcid sts ttl | m | cmds | other].
  - destruct (last (messages st)) as [m |]; [| easy].
    destruct (decide _); [| easy]. now destruct c.
  - destruct (last (messages st)) as [m |]; [| easy].
    destruct (decide _); [| easy]. now destruct c.
  - destruct (last (messages st)) as [m |]; [| easy].
    destruct (decide _); [| easy]. now destruct c.
  - destruct (last (messages st)) as [m |]; [| easy].
    now destruct (decide _).
  - now destruct (toolCalls st !! tcid).
  - now destruct (truthy m).
  - now destruct cmds.
  - easy.
Qed.

(** An interruption changes the transcript only by a notification, leaves
    the session alone, and sends nothing but a disconnect. *)
Lemma interrupted_frame (i : interrupt) (st : store) (out : list effect) :
  let st' := fst (carry_out [i] (st, out)) in
  let out' := snd (carry_out [i] (st, out)) in
  currentSession st' = currentSession st
  /\ isConnected st' = isConnected st
  /\ transcript st' =
     assemble_all (omap notification_of [i]) (transcript st)
  /\ (exists ds, out' = out ++ ds
                 /\ Forall (fun e => exists a, e = disconnect a) ds).
Proof.
  assert (Hnone : forall l : list effect,
             exists ds, l = l ++ ds
                        /\ Forall (fun e => exists a, e = disconnect a) ds).
  { intros l. exists []. now rewrite app_nil_r. }
  assert (Hone : forall (l : list effect) (a : string),
             exists ds, l ++ [disconnect a] = l ++ ds
                        /\ Forall (fun e => exists a, e = disconnect a) ds).
  { intros l a. exists [disconnect a]. split; [reflexivity |].
    repeat constructor. eauto. }
  unfold carry_out. cbn [foldl fst snd].
  destruct i as [uuid now n | m | | |]; cbn [interrupted omap notification_of].
  - cbn [fst snd assemble_all foldl].
    destruct (frame_handleSessionUpdate uuid now n st) as [H1 H2].
    split; [exact H1 |]. split; [exact H2 |].
    split; [apply transcript_handleSessionUpdate | apply Hnone].
  - unfold selectAuthMethod, answer_auth.
    destruct (authMethodResolver st); cbn [fst snd];
      (split; [reflexivity |]; split; [reflexivity |];
       split; [reflexivity | apply Hnone]).
  - unfold cancelAuthSelection, answer_auth.
    destruct (authMethodResolver st); cbn [fst snd];
      (split; [reflexivity |]; split; [reflexivity |];
       split; [reflexivity | apply Hnone]).
  - unfold cancelConnection_begin, answer_auth.
    cbn [authMethodResolver set_connectionAborted].
    destruct (authMethodResolver st);
      cbn [acpClient set_pendingAuthAgentName set_pendingAuthMethods
           set_authMethodResolver set_connectionAborted];
      destruct (acpClient st) as [a |]; cbn [fst snd];
      (split; [reflexivity |]; split; [reflexivity |];
       split; [reflexivity | first [apply Hnone | apply Hone]]).
  - cbn [fst snd].
    split; [reflexivity |]. split; [reflexivity |].
    split; [reflexivity | apply Hnone].
Qed.

Lemma carry_out_frame (pre : list interrupt) (st : store) (out : list effect) :
  let st' := fst (carry_out pre (st, out)) in
  let out' := snd (carry_out pre (st, out)) in
  currentSession st' = currentSession st
  /\ isConnected st' = isConnected st
  /\ transcript st' = assemble_all (omap notification_of pre) (transcript st)
  /\ (exists ds, out' = out ++ ds
                 /\ Forall (fun e => exists a, e = disconnect a) ds).
Proof.
  revert st out. induction pre as [| i pre IH]; intros st out.
  - cbn. split; [reflexivity |]. split; [reflexivity |]. split; [reflexivity |].
    exists []. now rewrite app_nil_r.
  - rewrite carry_out_cons.
    destruct (interrupted_frame i st out) as (H1 & H2 & H3 & ds1 & H4 & H5).
    destruct (carry_out [i] (st, out)) as [st1 out1]. cbn [fst snd] in *.
    destruct (IH st1 out1) as (K1 & K2 & K3 & ds2 & K4 & K5).
    subst out1. cbn zeta.
    split; [congruence |]. split; [congruence |]. split.
    + rewrite K3, H3.
      change (omap notification_of (i :: pre))
        with (match notification_of i with
              | Some n => n :: omap notification_of pre
              | None => omap notification_of pre
              end).
      change (omap notification_of [i])
        with (match notification_of i with
              | Some n => [n]
              | None => []
              end).
      destruct (notification_of i) as [n |]; reflexivity.
    + exists (ds1 ++ ds2). rewrite app_assoc. split; [exact K4 |].
      now apply Forall_app.
Qed.

(** *** The properties the operations maintain *)

Lemma notifications_in_app (l1 l2 : list item) :
  notifications_in (l1 ++ l2) = notifications_in l1 ++ notifications_in l2.
Proof. unfold notifications_in. apply omap_app. Qed.

Lemma notifications_in_happens (pre : list interrupt) :
  notifications_in (happens <$> pre) = omap notification_of pre.
Proof.
  induction pre as [| i pre IH]; [reflexivity |].
  rewrite fmap_cons.
  change (notifications_in (happens i :: (happens <$> pre)))
    with (match notification_of i with
          | Some n => n :: notifications_in (happens <$> pre)
          | None => notifications_in (happens <$> pre)
          end).
  change (omap notification_of (i :: pre))
    with (match notification_of i with
          | Some n => n :: omap notification_of pre
          | None => omap notification_of pre
          end).
  now rewrite IH.
Qed.

Lemma notifications_in_settles (used : list item) :
  Forall (fun it => match it with settles _ => True | happens _ => False end) used ->
  notifications_in used = [].
Proof.
  induction 1 as [| it used Hit _ IH]; [reflexivity |].
  destruct it; [contradiction | exact IH].
Qed.

Lemma assemble_all_app (ns1 ns2 : list (string * Z * SessionNotification))
    (t : list ChatMessage * gmap string ToolCallInfo) :
  assemble_all (ns1 ++ ns2) t = assemble_all ns2 (assemble_all ns1 t).
Proof. unfold assemble_all. apply foldl_app. Qed.

Lemma save_attempted_disconnects (out ds : list effect) :
  Forall (fun e => exists a, e = disconnect a) ds ->
  existsb is_save (out ++ ds) = existsb is_save out.
Proof.
  intros H. rewrite existsb_app.
  replace (existsb is_save ds) with false; [apply orb_false_r |].
  induction H as [| e ds [a ->] _ IH]; [reflexivity | exact IH].
Qed.

Lemma untouched_consumable (items : list item) (c : option SavedSession)
    (t : list ChatMessage * gmap string ToolCallInfo) :
  consumable (untouched items c t).
Proof.
  intros w pre used rest (Hc & Hs & used0 & Hitems & Ht) Hscript Hused.
  destruct (carry_out_frame pre (state w) (log w)) as (H1 & _ & H3 & ds & H4 & H5).
  unfold untouched, save_attempted. cbn [state log script].
  split; [congruence |]. split.
  - rewrite H4. rewrite save_attempted_disconnects by assumption. exact Hs.
  - exists (used0 ++ (happens <$> pre) ++ used). split.
    + rewrite Hitems, Hscript. now rewrite <- !app_assoc.
    + rewrite H3, Ht, !notifications_in_app, notifications_in_happens,
        (notifications_in_settles used Hused), app_nil_r.
      now rewrite assemble_all_app.
Qed.

Lemma untouched_assignable (items : list item) (c : option SavedSession)
    (t : list ChatMessage * gmap string ToolCallInfo) (f : store -> store) :
  quiet_assignment f -> assignable (untouched items c t) f.
Proof.
  intros Hf w (Hc & Hs & used & Hitems & Ht).
  destruct (Hf (state w)) as (H1 & _ & H3).
  unfold untouched. cbn [state log script].
  split; [congruence |]. split; [exact Hs |].
  exists used. split; [exact Hitems | congruence].
Qed.

Lemma untouched_emittable (items : list item) (c : option SavedSession)
    (t : list ChatMessage * gmap string ToolCallInfo) (e : effect) :
  is_save e = false -> emittable (untouched items c t) e.
Proof.
  intros He w (Hc & Hs & used & Hitems & Ht).
  unfold untouched, save_attempted. cbn [state log script].
  split; [exact Hc |]. split.
  - rewrite existsb_app. cbn. rewrite He. unfold save_attempted in Hs.
    now rewrite Hs.
  - exists used. split; assumption.
Qed.

Lemma saved_consumable : consumable (fun w => save_attempted w = true).
Proof.
  intros w pre used rest Hs _ _.
  destruct (carry_out_frame pre (state w) (log w)) as (_ & _ & _ & ds & H4 & H5).
  unfold save_attempted in *. cbn [log]. rewrite H4.
  now rewrite save_attempted_disconnects.
Qed.

Lemma saved_assignable (f : store -> store) :
  assignable (fun w => save_attempted w = true) f.
Proof. intros w H. exact H. Qed.

Lemma saved_emittable (e : effect) :
  emittable (fun w => save_attempted w = true) e.
Proof.
  intros w H. unfold save_attempted in *. cbn [log].
  rewrite existsb_app, H. reflexivity.
Qed.

(** *** The parts of the operations that assign quietly *)

Ltac quiet := intros ?; split; [reflexivity | split; reflexivity].

Ltac keeps_steps :=
  repeat first
    [ apply keeps_ret | apply keeps_throw | apply keeps_block | apply keeps_get
    | apply keeps_the_client
    | apply keeps_await; assumption
    | apply keeps_await_choice; assumption
    | apply keeps_call; [assumption | auto]
    | apply keeps_request; [assumption | auto]
    | apply keeps_modify; auto
    | apply keeps_emit; auto
    | apply keeps_bind
    | apply keeps_catch
    | match goal with
      | |- forall _, keeps _ _ => intro
      | |- keeps _ (match ?x with _ => _ end) => destruct x
      end ].

Section Flows.

Context (I : world -> Prop)
        (HI : consumable I)
        (Ha : forall f, quiet_assignment f -> assignable I f)
        (He : forall e, is_save e = false -> emittable I e).

Lemma keeps_client_disconnect : keeps I client_disconnect.
Proof. unfold client_disconnect. keeps_steps. Qed.

Lemma keeps_check_aborted : keeps I check_aborted.
Proof.
  unfold check_aborted. keeps_steps.
Qed.

Lemma keeps_client_initialize : keeps I client_initialize.
Proof. unfold client_initialize, call_init. keeps_steps. Qed.

Lemma keeps_client_newSession (cwd : string) : keeps I (client_newSession cwd).
Proof. unfold client_newSession, call_session. keeps_steps. Qed.

Lemma keeps_client_loadSession (sid cwd : string) :
  keeps I (client_loadSession sid cwd).
Proof. unfold client_loadSession. keeps_steps. Qed.

Lemma keeps_client_authenticate (methodId : string) :
  keeps I (client_authenticate methodId).
Proof. unfold client_authenticate. keeps_steps. Qed.

Lemma keeps_promptForAuthMethod (methods : list AuthMethod) (agentName : string) :
  keeps I (promptForAuthMethod methods agentName).
Proof.
  unfold promptForAuthMethod. apply keeps_bind.
  - apply keeps_modify, Ha. quiet.
  - intros _. now apply keeps_await_choice.
Qed.

Lemma keeps_create_or_authenticate (agentName cwd : string)
    (methods : list AuthMethod) :
  keeps I (create_or_authenticate agentName cwd methods).
Proof.
  unfold create_or_authenticate. apply keeps_catch.
  - apply keeps_client_newSession.
  - intros msg. destruct (_ && _); [| apply keeps_throw].
    apply keeps_bind; [apply keeps_promptForAuthMethod |]. intros selected.
    apply keeps_bind; [apply keeps_get |]. intros st.
    destruct (truthy selected) as [m |].
    + destruct (connectionAborted st).
      * apply keeps_bind; [apply keeps_client_disconnect |]. intros _.
        apply keeps_throw.
      * apply keeps_bind; [apply keeps_client_authenticate |]. intros _.
        apply keeps_bind; [apply keeps_check_aborted |]. intros _.
        apply keeps_client_newSession.
    + apply keeps_bind; [apply keeps_client_disconnect |]. intros _.
      apply keeps_throw.
Qed.

Lemma keeps_load_or_authenticate (savedSession : SavedSession)
    (methods : list AuthMethod) :
  keeps I (load_or_authenticate savedSession methods).
Proof.
  unfold load_or_authenticate. apply keeps_catch.
  - apply keeps_client_loadSession.
  - intros msg. destruct (_ && _); [| apply keeps_throw].
    apply keeps_bind; [apply keeps_promptForAuthMethod |]. intros selected.
    destruct (truthy selected) as [m |].
    + apply keeps_bind; [apply keeps_client_authenticate |]. intros _.
      apply keeps_client_loadSession.
    + apply keeps_bind; [apply keeps_client_disconnect |]. intros _.
      apply keeps_throw.
Qed.

Lemma keeps_connect_and_handshake (agentName : string) :
  keeps I (connect_and_handshake agentName).
Proof.
  unfold connect_and_handshake, call_agent.
  apply keeps_bind.
  { apply keeps_bind; [apply keeps_call; auto |].
    intros v. destruct v; first [apply keeps_ret | apply keeps_block]. }
  intros agentInstance.
  apply keeps_bind; [apply keeps_call; auto |]. intros _.
  apply keeps_bind; [apply keeps_get |]. intros st.
  apply keeps_bind.
  { destruct (connectionAborted st); [| apply keeps_ret].
    apply keeps_bind; [apply keeps_call; auto |]. intros _. apply keeps_throw. }
  intros _.
  apply keeps_bind; [apply keeps_call; auto |]. intros _.
  apply keeps_bind; [apply keeps_modify, Ha; quiet |]. intros _.
  apply keeps_bind; [apply keeps_check_aborted |]. intros _.
  apply keeps_client_initialize.
Qed.

End Flows.

(** *** Combining properties *)

Lemma or_consumable (I1 I2 : world -> Prop) :
  consumable I1 -> consumable I2 -> consumable (fun w => I1 w \/ I2 w).
Proof.
  intros H1 H2 w pre used rest [H | H] Hs Hu; [left | right]; eauto.
Qed.

Lemma or_assignable (I1 I2 : world -> Prop) (f : store -> store) :
  assignable I1 f -> assignable I2 f -> assignable (fun w => I1 w \/ I2 w) f.
Proof. intros H1 H2 w [H | H]; [left | right]; auto. Qed.

Lemma or_emittable (I1 I2 : world -> Prop) (e : effect) :
  emittable I1 e -> emittable I2 e -> emittable (fun w => I1 w \/ I2 w) e.
Proof. intros H1 H2 w [H | H]; [left | right]; auto. Qed.

Lemma and_consumable (I1 I2 : world -> Prop) :
  consumable I1 -> consumable I2 -> consumable (fun w => I1 w /\ I2 w).
Proof. intros H1 H2 w pre used rest [Ha Hb] Hs Hu. split; eauto. Qed.

Lemma and_assignable (I1 I2 : world -> Prop) (f : store -> store) :
  assignable I1 f -> assignable I2 f -> assignable (fun w => I1 w /\ I2 w) f.
Proof. intros H1 H2 w [Ha Hb]. split; auto. Qed.

Lemma and_emittable (I1 I2 : world -> Prop) (e : effect) :
  emittable I1 e -> emittable I2 e -> emittable (fun w => I1 w /\ I2 w) e.
Proof. intros H1 H2 w [Ha Hb]. split; auto. Qed.

Lemma not_loaded_consumable : consumable not_loaded.
Proof.
  intros w pre used rest H _ _.
  destruct (carry_out_frame pre (state w) (log w)) as (_ & _ & _ & ds & H4 & H5).
  unfold not_loaded in *. cbn [log]. rewrite H4, forallb_app, H.
  cbn [andb]. clear -H5.
  induction H5 as [| e ds [a ->] _ IH]; [reflexivity | exact IH].
Qed.

Lemma not_loaded_assignable (f : store -> store) : assignable not_loaded f.
Proof. intros w H. exact H. Qed.

Lemma not_loaded_emittable (e : effect) :
  is_load e = false -> emittable not_loaded e.
Proof.
  intros He w H. unfold not_loaded in *. cbn [log].
  rewrite forallb_app, H. cbn. now rewrite He.
Qed.

Lemma cleared_consumable (items : list item) (c : option SavedSession) :
  consumable (cleared items c).
Proof.
  intros w pre used rest (before & later & Hitems & H) Hs Hu.
  exists before, later. split; [exact Hitems |].
  now apply (untouched_consumable later c ([], ∅) w pre used rest).
Qed.

Lemma cleared_assignable (items : list item) (c : option SavedSession)
    (f : store -> store) :
  quiet_assignment f -> assignable (cleared items c) f.
Proof.
  intros Hf w (before & later & Hitems & H).
  exists before, later. split; [exact Hitems |].
  now apply untouched_assignable.
Qed.

Lemma cleared_emittable (items : list item) (c : option SavedSession) (e : effect) :
  is_save e = false -> emittable (cleared items c) e.
Proof.
  intros He w (before & later & Hitems & H).
  exists before, later. split; [exact Hitems |].
  now apply untouched_emittable.
Qed.

(** Sequencing with a property that holds in between. *)
Lemma post_bind_keeps {A B : Type} (I K : world -> Prop) (m : M A) (k : A -> M B)
    (w : world) :
  keeps I m -> I w ->
  (forall w', I w' -> K w') ->
  (forall a w', I w' -> post (k a) w' (fun _ w'' => K w'')) ->
  post (bind m k) w (fun _ w'' => K w'').
Proof.
  intros Hm Hw HK Hk. apply post_bind. specialize (Hm w Hw). unfold post in *.
  destruct (m w) as [[a | e |] w']; cbn [fst snd] in *; auto.
Qed.

(** Once the list of sessions goes out to be saved, it has been attempted. *)
Lemma post_call_save {B : Type} (l : list SavedSession) (k : value -> M B)
    (w : world) :
  (forall v, keeps (fun w => save_attempted w = true) (k v)) ->
  post (bind (call (saveSessionsToStore l)) k) w
    (fun _ w' => save_attempted w' = true).
Proof.
  intros Hk.
  pose proof (keeps_bind (fun w => save_attempted w = true) await k
                (keeps_await _ saved_consumable) Hk) as H.
  specialize (H {| state := state w; script := script w;
                   log := log w ++ [saveSessionsToStore l] |}).
  unfold post, bind, call, emit in *. cbn [fst snd] in *.
  apply H. unfold save_attempted. cbn [log]. rewrite existsb_app. cbn.
  apply orb_true_r.
Qed.

Lemma post_save_session (agentName cwd : string) (e : env) (supports : bool)
    (r : NewSessionResponse) (w : world) :
  post (save_session agentName cwd e supports r) w
    (fun _ w' => save_attempted w' = true).
Proof.
  unfold save_session. apply post_bind, post_modify. apply post_bind, post_get.
  apply post_call_save. intros v.
  repeat first [ apply keeps_bind | apply keeps_modify, saved_assignable
               | apply keeps_emit, saved_emittable | intro ].
Qed.

(** *** Following a script item by item *)

Lemma post_await_settled (w : world) (s : settlement) (rest : list item)
    (Q : result value -> world -> Prop) :
  script w = settles s :: rest ->
  Q match s with
    | fulfilled v => Done v
    | rejected message => Threw message
    end
    {| state := state w; script := rest; log := log w |} ->
  post await w Q.
Proof.
  intros Hs H. unfold post, await. rewrite Hs. cbn [settle].
  now destruct s.
Qed.

Lemma post_await_interrupted (w : world) (i : interrupt) (rest : list item)
    (Q : result value -> world -> Prop) :
  script w = happens i :: rest ->
  post await {| state := fst (carry_out [i] (state w, log w)); script := rest;
                log := snd (carry_out [i] (state w, log w)) |} Q ->
  post await w Q.
Proof.
  intros Hs H. unfold post, await in *. rewrite Hs. cbn [settle].
  unfold carry_out in H. cbn [foldl fst snd state script log] in H.
  now destruct (interrupted i (state w) (log w)) as [[a st1] out1].
Qed.

(** An answer that comes while the bridge listens, or a rejection. *)
Lemma post_answer_settled (agent : string) (w : world) (s : settlement)
    (rest : list item) (Q : result value -> world -> Prop) :
  script w = settles s :: rest ->
  (forall v, s = fulfilled v -> cut_off agent (state w) (log w) = false) ->
  Q match s with
    | fulfilled v => Done v
    | rejected message => Threw message
    end
    {| state := state w; script := rest; log := log w |} ->
  post (await_answer agent) w Q.
Proof.
  intros Hs Hcut H. unfold post, await_answer. rewrite Hs. cbn [settle_answer].
  destruct s as [v | message]; [| exact H].
  now rewrite (Hcut v eq_refl).
Qed.

Lemma post_answer_interrupted (agent : string) (w : world) (i : interrupt)
    (rest : list item) (Q : result value -> world -> Prop) :
  script w = happens i :: rest ->
  post (await_answer agent)
    {| state := fst (carry_out [i] (state w, log w)); script := rest;
       log := snd (carry_out [i] (state w, log w)) |} Q ->
  post (await_answer agent) w Q.
Proof.
  intros Hs H. unfold post, await_answer in *. rewrite Hs. cbn [settle_answer].
  unfold carry_out in H. cbn [foldl fst snd state script log] in H.
  now destruct (interrupted i (state w) (log w)) as [[a st1] out1].
Qed.

(** On a bridge that is cut off, the answers are lost and the request ends
    with its rejection; the session is left alone meanwhile. *)
Lemma settle_answer_unheard (agent : string) (waiting : list item)
    (message : string) (rest : list item) (st : store) (out : list effect) :
  cut_off agent st out = true ->
  forallb unheard waiting = true ->
  exists st' : store,
    settle_answer agent (waiting ++ settles (rejected message) :: rest) st out =
    (Some (rejected message), {| state := st'; script := rest; log := out |})
    /\ currentSession st' = currentSession st
    /\ isConnected st' = isConnected st.
Proof.
  revert st. induction waiting as [| it waiting IH]; intros st Hcut Hw.
  - exists st. repeat split.
  - cbn [forallb] in Hw. apply andb_prop in Hw as [Hit Hw].
    destruct it as [[| | | |] | [v | e]]; try discriminate Hit.
    + cbn [app settle_answer interrupted].
      destruct (IH (cancelConnection_finish st)) as (st' & E & H1 & H2);
        [exact Hcut | exact Hw |].
      exists st'. split; [exact E |]. split; [exact H1 | exact H2].
    + cbn [app settle_answer]. rewrite Hcut. now apply IH.
Qed.

Lemma post_answer_unheard (agent : string) (w : world) (waiting : list item)
    (message : string) (rest : list item) (Q : result value -> world -> Prop) :
  script w = waiting ++ settles (rejected message) :: rest ->
  forallb unheard waiting = true ->
  cut_off agent (state w) (log w) = true ->
  (forall st' : store,
      currentSession st' = currentSession (state w) ->
      isConnected st' = isConnected (state w) ->
      Q (Threw message) {| state := st'; script := rest; log := log w |}) ->
  post (await_answer agent) w Q.
Proof.
  intros Hs Hw Hcut H. unfold post, await_answer. rewrite Hs.
  destruct (settle_answer_unheard agent waiting message rest (state w) (log w)
              Hcut Hw) as (st' & E & H1 & H2).
  rewrite E. now apply H.
Qed.

(** What the start of [cancelConnection] does. *)
Lemma cancel_requested_carried_out (st : store) (out : list effect) :
  let st' := fst (carry_out [cancel_requested] (st, out)) in
  let out' := snd (carry_out [cancel_requested] (st, out)) in
  connectionAborted st' = true
  /\ acpClient st' = acpClient st
  /\ currentSession st' = currentSession st
  /\ isConnected st' = isConnected st
  /\ out' = out ++ match acpClient st with
                   | Some agent => [disconnect agent]
                   | None => []
                   end.
Proof.
  unfold carry_out. cbn [foldl fst snd interrupted].
  unfold cancelConnection_begin, answer_auth.
  cbn [authMethodResolver set_connectionAborted].
  destruct (authMethodResolver st);
    cbn [acpClient set_pendingAuthAgentName set_pendingAuthMethods
         set_authMethodResolver set_connectionAborted];
    destruct (acpClient st) as [agent |] eqn:E; cbn [fst snd];
    rewrite ?app_nil_r; repeat split; cbn; now rewrite ?E.
Qed.

End TaskLogic.

(** ** The session store: what a failed attempt leaves behind *)

Module FailedAttemptFacts.
Import Acp Types Session TaskLogic.

Section Create.

Context (items : list item) (c : option SavedSession)
        (t : list ChatMessage * gmap string ToolCallInfo).

Local Abbreviation J :=
  (fun w : world => save_attempted w = true \/ untouched items c t w).

Lemma J_consumable : consumable J.
Proof. apply or_consumable; [apply saved_consumable | apply untouched_consumable]. Qed.

Lemma J_assignable (f : store -> store) : quiet_assignment f -> assignable J f.
Proof.
  intros Hf. apply or_assignable; [apply saved_assignable |].
  now apply untouched_assignable.
Qed.

Lemma J_emittable (e : effect) : is_save e = false -> emittable J e.
Proof.
  intros He. apply or_emittable; [apply saved_emittable |].
  now apply untouched_emittable.
Qed.

Lemma createSession_keeps (agentName cwd : string) (e : env) :
  keeps J (createSession agentName cwd e).
Proof.
  pose proof J_consumable as HI. pose proof J_assignable as Ha.
  pose proof J_emittable as He.
  unfold createSession.
  apply keeps_bind; [apply keeps_modify, Ha; quiet |]. intros _.
  apply keeps_finally; [| apply Ha; quiet].
  apply keeps_catch.
  - apply keeps_bind; [now apply keeps_connect_and_handshake |]. intros ini.
    unfold after_handshake.
    apply keeps_bind; [now apply keeps_check_aborted |]. intros _.
    apply keeps_bind; [now apply keeps_check_aborted |]. intros _.
    apply keeps_bind; [now apply keeps_create_or_authenticate |]. intros r.
    intros w _. apply (post_weaken _ _ _ _ (post_save_session _ _ _ _ _ w)).
    intros _ w' H. now left.
  - intros msg.
    apply keeps_bind; [apply keeps_modify, Ha; quiet |]. intros _.
    apply keeps_bind; [now apply keeps_emit, He |]. intros _.
    apply keeps_bind; [now apply keeps_emit, He |]. intros _.
    apply keeps_throw.
Qed.

End Create.

Section Resume.

Context (items : list item) (c : option SavedSession)
        (t : list ChatMessage * gmap string ToolCallInfo).

Local Abbreviation U :=
  (fun w : world => untouched items c t w /\ not_loaded w).

Local Abbreviation K :=
  (fun w : world => save_attempted w = true
                    \/ (untouched items c t w /\ not_loaded w)
                    \/ cleared items c w).

Lemma U_consumable : consumable U.
Proof.
  apply and_consumable; [apply untouched_consumable | apply not_loaded_consumable].
Qed.

Lemma U_assignable (f : store -> store) : quiet_assignment f -> assignable U f.
Proof.
  intros Hf. apply and_assignable; [now apply untouched_assignable |].
  apply not_loaded_assignable.
Qed.

Lemma U_emittable (e : effect) :
  is_save e = false -> is_load e = false -> emittable U e.
Proof.
  intros Hs Hl. apply and_emittable; [now apply untouched_emittable |].
  now apply not_loaded_emittable.
Qed.

Lemma K_assignable (f : store -> store) : quiet_assignment f -> assignable K f.
Proof.
  intros Hf. apply or_assignable; [apply saved_assignable |].
  apply or_assignable; [now apply U_assignable | now apply cleared_assignable].
Qed.

Lemma K_emittable (e : effect) :
  is_save e = false -> is_load e = false -> emittable K e.
Proof.
  intros Hs Hl. apply or_emittable; [apply saved_emittable |].
  apply or_emittable; [now apply U_emittable | now apply cleared_emittable].
Qed.

(** Clearing the transcript starts a new account of it. *)
Lemma clear_transcript (w : world) :
  U w ->
  cleared items c
    {| state := set_toolCalls ∅ (set_messages [] (state w));
       script := script w; log := log w |}.
Proof.
  intros [(Hc & Hs & used & Hitems & Ht) _].
  exists used, (script w). split; [exact Hitems |].
  split; [exact Hc |]. split; [exact Hs |].
  exists []. split; reflexivity.
Qed.

Lemma resumeSession_post (savedSession : SavedSession) (e : env) (w : world) :
  U w -> post (resumeSession savedSession e) w (fun _ w' => K w').
Proof.
  intros Hw. pose proof U_consumable as HU.
  assert (HC : consumable (cleared items c)) by apply cleared_consumable.
  unfold resumeSession.
  apply post_bind, post_modify.
  set (w1 := {| state := _; script := script w; log := log w |}).
  assert (Hw1 : U w1) by (apply (U_assignable _ ltac:(quiet) w Hw)).
  clearbody w1. clear w Hw.
  apply post_finally.
  assert (Hbody : post
            (catch
               (agentInstance <- call_agent (spawnAgent (agentName savedSession)) ;;
                call (createAcpClient (agent_id agentInstance)) ;;
                modify (set_acpClient (Some (agent_id agentInstance))) ;;
                initResponse <- client_initialize ;;
                modify (fun st => set_toolCalls ∅ (set_messages [] st)) ;;
                load_or_authenticate savedSession
                  (default [] (authMethods initResponse)) ;;
                modify (fun st => set_isConnected true
                                    (set_currentSession (Some savedSession) st)) ;;
                emit (trackEvent "SessionResumed" (agentName savedSession) true) ;;
                modify (touch_saved savedSession (now e)) ;;
                st <- get ;;
                call (saveSessionsToStore (savedSessions st)) ;;
                ret tt)
               (fun message =>
                  modify (set_error (Some message)) ;;
                  emit (trackEvent "SessionResumed" (agentName savedSession) false) ;;
                  emit (trackError message) ;;
                  throw message))
            w1 (fun _ w' => K w')).
  { apply post_catch.
    eapply post_weaken.
    - (* the body *)
      apply (post_bind_keeps U K).
      + unfold call_agent. apply keeps_bind.
        * apply keeps_call; [exact HU | now apply U_emittable].
        * intros v. destruct v; first [apply keeps_ret | apply keeps_block].
      + exact Hw1.
      + intros w' H. right. now left.
      + intros agentInstance w2 Hw2.
        apply (post_bind_keeps U K).
        * apply keeps_call; [exact HU | now apply U_emittable].
        * exact Hw2.
        * intros w' H. right. now left.
        * intros _ w3 Hw3.
          apply (post_bind_keeps U K).
          -- apply keeps_modify, U_assignable. quiet.
          -- exact Hw3.
          -- intros w' H. right. now left.
          -- intros _ w4 Hw4.
             apply (post_bind_keeps U K).
             ++ unfold client_initialize, call_init.
                apply keeps_bind; [apply keeps_the_client |]. intros agent.
                apply keeps_bind.
                ** apply keeps_request; [exact HU | now apply U_emittable].
                ** intros v. destruct v; first [apply keeps_ret | apply keeps_block].
             ++ exact Hw4.
             ++ intros w' H. right. now left.
             ++ intros initResponse w5 Hw5.
                apply post_bind, post_modify.
                apply (post_bind_keeps (cleared items c) K).
                ** apply keeps_load_or_authenticate.
                   --- exact HC.
                   --- intros f Hf. now apply cleared_assignable.
                   --- intros e0 He0. now apply cleared_emittable.
                ** now apply clear_transcript.
                ** intros w' H. right. now right.
                ** intros _ w6 _.
                   apply post_bind, post_modify. apply post_bind, post_emit.
                   apply post_bind, post_modify. apply post_bind, post_get.
                   eapply post_weaken.
                   --- apply post_call_save. intros v. apply keeps_ret.
                   --- intros r w' H. now left.
    - (* the handler *)
      intros r w' HK. destruct r as [u | message |]; try exact HK.
      assert (Hk : keeps K
                (modify (set_error (Some message)) ;;
                 emit (trackEvent "SessionResumed" (agentName savedSession) false) ;;
                 emit (trackError message) ;;
                 throw (A := unit) message)).
      { apply keeps_bind; [apply keeps_modify, K_assignable; quiet |]. intros _.
        apply keeps_bind; [now apply keeps_emit, K_emittable |]. intros _.
        apply keeps_bind; [now apply keeps_emit, K_emittable |]. intros _.
        apply keeps_throw. }
      exact (Hk w' HK). }
  eapply post_weaken; [exact Hbody |].
  intros r w' HK. destruct r; try exact HK;
    apply (K_assignable _ ltac:(quiet) w' HK).
Qed.

End Resume.




End FailedAttemptFacts.

(** ** The session store: cancelling a connection attempt *)

Module CancellationFacts.
Import Acp Types Session TaskLogic.

Lemma cut_off_after_disconnect (agent : string) (st : store) (out : list effect) :
  connectionAborted st = true ->
  cut_off agent st (out ++ [disconnect agent]) = true.
Proof.
  intros H. unfold cut_off. rewrite H, existsb_app. cbn [existsb disconnects].
  rewrite bool_decide_eq_true_2 by reflexivity. cbn. apply orb_true_r.
Qed.

(** The [catch] and [finally] blocks of [createSession] after the [try]
    block has thrown. *)
Lemma attempt_closed (agentName message : string) (st st1 : store)
    (out1 : list effect) (sent : list string) (teardown : effect)
    (rest : list item) :
  currentSession st1 = currentSession st ->
  isConnected st1 = isConnected st ->
  omap wire_method out1 = sent ->
  teardown ∈ out1 ->
  let w2 := {| state := set_isConnecting false
                          (set_isLoading false
                             (set_acpClient None (set_error (Some message) st1)));
               script := rest;
               log := (out1 ++ [trackEvent "SessionCreated" agentName false])
                      ++ [trackError message] |} in
  requests_sent w2 = sent
  /\ teardown ∈ log w2
  /\ failed_with message st w2
  /\ script w2 = rest.
Proof.
  intros Hc Hb Hsent Hin w2. subst w2.
  unfold requests_sent, failed_with in *. cbn [state script log].
  split; [rewrite !omap_app; cbn; now rewrite !app_nil_r |].
  split; [rewrite !elem_of_app; now left; left |].
  split; [| reflexivity].
  repeat split; cbn; assumption.
Qed.

Ltac fails_closed :=
  apply post_bind, post_modify; apply post_bind, post_emit;
  apply post_bind, post_emit; apply post_throw; cbn [state script log];
  split; [reflexivity |]; apply attempt_closed.

(** C5, as the code has it, for a new session. A cancellation requested
    while the agent is being spawned or while the bridge is being created
    takes effect when that call returns, although it succeeds: the attempt
    kills the agent, respectively disconnects the bridge, and throws
    "Connection cancelled" (the error of the kill or the disconnect when
    that fails), having sent no request at all. A cancellation requested
    while [initialize] or [session/new] is in flight disconnects the bridge
    at once, so that the answers of the agent are not heard any more; when
    the request is then rejected the attempt throws its error and sends
    nothing further. In each case the attempt ends closed: the error is
    recorded, the bridge discarded, the progress flags are down and the
    session and the connection flag are what they were before the call. *)
Theorem cancelled_createSession_sends_nothing_more
    (agentName cwd : string) (e : env) (st : store) (a : AgentInstance)
    (rest : list item) :
  (forall kill : settlement,
      let out := exec (createSession agentName cwd e) st
                   (happens cancel_requested
                    :: settles (fulfilled (v_agent a))
                    :: settles (fulfilled v_unit)
                    :: settles kill :: rest) in
      fst out = Threw (teardown_error kill)
      /\ requests_sent (snd out) = []
      /\ killAgent (agent_id a) ∈ log (snd out)
      /\ failed_with (teardown_error kill) st (snd out)
      /\ script (snd out) = rest)
  /\ (forall disconnected : settlement,
        let out := exec (createSession agentName cwd e) st
                     (settles (fulfilled (v_agent a))
                      :: settles (fulfilled v_unit)
                      :: happens cancel_requested
                      :: settles (fulfilled v_unit)
                      :: settles disconnected :: rest) in
        fst out = Threw (teardown_error disconnected)
        /\ requests_sent (snd out) = []
        /\ disconnect (agent_id a) ∈ log (snd out)
        /\ failed_with (teardown_error disconnected) st (snd out)
        /\ script (snd out) = rest)
  /\ (forall (waiting : list item) (message : string),
        forallb unheard waiting = true ->
        let out := exec (createSession agentName cwd e) st
                     (settles (fulfilled (v_agent a))
                      :: settles (fulfilled v_unit)
                      :: settles (fulfilled v_unit)
                      :: happens cancel_requested
                      :: waiting ++ settles (rejected message) :: rest) in
        fst out = Threw message
        /\ requests_sent (snd out) = ["initialize"]
        /\ disconnect (agent_id a) ∈ log (snd out)
        /\ failed_with message st (snd out)
        /\ script (snd out) = rest)
  /\ (forall (initResponse : InitializeResponse) (waiting : list item)
             (message : string),
        forallb unheard waiting = true ->
        isAuthRequired message = false ->
        let out := exec (createSession agentName cwd e) st
                     (settles (fulfilled (v_agent a))
                      :: settles (fulfilled v_unit)
                      :: settles (fulfilled v_unit)
                      :: settles (fulfilled (v_init initResponse))
                      :: happens cancel_requested
                      :: waiting ++ settles (rejected message) :: rest) in
        fst out = Threw message
        /\ requests_sent (snd out) = ["initialize"; "session/new"]
        /\ disconnect (agent_id a) ∈ log (snd out)
        /\ failed_with message st (snd out)
        /\ script (snd out) = rest).
Proof.
  split; [| split; [| split]].
  - (* while the agent is spawned *)
    intros kill out. subst out.
    change (post (createSession agentName cwd e)
              {| state := st;
                 script := happens cancel_requested
                           :: settles (fulfilled (v_agent a))
                           :: settles (fulfilled v_unit)
                           :: settles kill :: rest;
                 log := [] |}
              (fun r w' =>
                 r = Threw (teardown_error kill)
                 /\ requests_sent w' = []
                 /\ killAgent (agent_id a) ∈ log w'
                 /\ failed_with (teardown_error kill) st w'
                 /\ script w' = rest)).
    unfold createSession. apply post_bind, post_modify.
    apply post_finally, post_catch. apply post_bind.
    unfold connect_and_handshake. apply post_bind. unfold call_agent.
    apply post_bind. unfold call at 1. apply post_bind, post_emit.
    cbn [state script log app].
    eapply post_await_interrupted; [reflexivity |]. cbn [state script log].
    destruct (cancel_requested_carried_out (start_connecting st)
                [spawnAgent agentName]) as (Hflag & _ & Hc & Hb & Hout).
    destruct (carry_out [cancel_requested]
                (start_connecting st, [spawnAgent agentName])) as [st1 out1].
    cbn [fst snd] in *.
    eapply post_await_settled; [reflexivity |]. cbn [state script log].
    apply post_ret.
    apply post_bind. unfold call at 1. apply post_bind, post_emit.
    eapply post_await_settled; [reflexivity |]. cbn [state script log].
    apply post_bind, post_get. cbn [state]. rewrite Hflag.
    apply post_bind. apply post_bind. unfold call. apply post_bind, post_emit.
    eapply post_await_settled; [reflexivity |]. cbn [state script log].
    assert (Hsent : omap wire_method
                      ((out1 ++ [onAgentStderr]) ++ [killAgent (agent_id a)]) = []).
    { rewrite Hout, !omap_app. cbn. now destruct (acpClient st). }
    destruct kill as [v | message]; cbn [teardown_error].
    + apply post_throw. fails_closed; try assumption.
      rewrite elem_of_app. right. apply list_elem_of_singleton. reflexivity.
    + fails_closed; try assumption.
      rewrite elem_of_app. right. apply list_elem_of_singleton. reflexivity.
  - (* while the bridge is created *)
    intros disconnected out. subst out.
    change (post (createSession agentName cwd e)
              {| state := st;
                 script := settles (fulfilled (v_agent a))
                           :: settles (fulfilled v_unit)
                           :: happens cancel_requested
                           :: settles (fulfilled v_unit)
                           :: settles disconnected :: rest;
                 log := [] |}
              (fun r w' =>
                 r = Threw (teardown_error disconnected)
                 /\ requests_sent w' = []
                 /\ disconnect (agent_id a) ∈ log w'
                 /\ failed_with (teardown_error disconnected) st w'
                 /\ script w' = rest)).
    unfold createSession. apply post_bind, post_modify.
    apply post_finally, post_catch. apply post_bind.
    unfold connect_and_handshake. apply post_bind. unfold call_agent.
    apply post_bind. unfold call at 1. apply post_bind, post_emit.
    cbn [state script log app].
    eapply post_await_settled; [reflexivity |]. cbn [state script log].
    apply post_ret.
    apply post_bind. unfold call at 1. apply post_bind, post_emit.
    eapply post_await_settled; [reflexivity |]. cbn [state script log].
    apply post_bind, post_get. cbn [state].
    change (connectionAborted (start_connecting st)) with false.
    apply post_bind, post_ret.
    apply post_bind. unfold call at 1. apply post_bind, post_emit.
    cbn [state script log].
    eapply post_await_interrupted; [reflexivity |]. cbn [state script log].
    destruct (cancel_requested_carried_out (start_connecting st)
                (([spawnAgent agentName] ++ [onAgentStderr])
                 ++ [createAcpClient (agent_id a)]))
      as (Hflag & _ & Hc & Hb & Hout).
    destruct (carry_out [cancel_requested]
                (start_connecting st,
                 ([spawnAgent agentName] ++ [onAgentStderr])
                 ++ [createAcpClient (agent_id a)])) as [st1 out1].
    cbn [fst snd] in *.
    eapply post_await_settled; [reflexivity |]. cbn [state script log].
    apply post_bind, post_modify. cbn [state script log].
    apply post_bind. unfold check_aborted. apply post_bind, post_get.
    cbn [state]. change (connectionAborted (set_acpClient _ st1))
      with (connectionAborted st1). rewrite Hflag.
    apply post_bind. unfold client_disconnect. apply post_bind.
    unfold the_client. apply post_bind, post_get. cbn [state].
    change (acpClient (set_acpClient (Some (agent_id a)) st1))
      with (Some (agent_id a)).
    apply post_ret. apply post_bind. unfold call. apply post_bind, post_emit.
    eapply post_await_settled; [reflexivity |]. cbn [state script log].
    assert (Hsent : omap wire_method (out1 ++ [disconnect (agent_id a)]) = []).
    { rewrite Hout, !omap_app. cbn. now destruct (acpClient st). }
    destruct disconnected as [v | message]; cbn [teardown_error].
    + apply post_ret. apply post_throw. fails_closed; try assumption.
      rewrite elem_of_app. right. apply list_elem_of_singleton. reflexivity.
    + fails_closed; try assumption.
      rewrite elem_of_app. right. apply list_elem_of_singleton. reflexivity.
  - (* while the handshake is in flight *)
    intros waiting message Hwaiting out. subst out.
    change (post (createSession agentName cwd e)
              {| state := st;
                 script := settles (fulfilled (v_agent a))
                           :: settles (fulfilled v_unit)
                           :: settles (fulfilled v_unit)
                           :: happens cancel_requested
                           :: waiting ++ settles (rejected message) :: rest;
                 log := [] |}
              (fun r w' =>
                 r = Threw message
                 /\ requests_sent w' = ["initialize"]
                 /\ disconnect (agent_id a) ∈ log w'
                 /\ failed_with message st w'
                 /\ script w' = rest)).
    unfold createSession. apply post_bind, post_modify.
    apply post_finally, post_catch. apply post_bind.
    unfold connect_and_handshake. apply post_bind. unfold call_agent.
    apply post_bind. unfold call at 1. apply post_bind, post_emit.
    cbn [state script log app].
    eapply post_await_settled; [reflexivity |]. cbn [state script log].
    apply post_ret.
    apply post_bind. unfold call at 1. apply post_bind, post_emit.
    eapply post_await_settled; [reflexivity |]. cbn [state script log].
    apply post_bind, post_get. cbn [state].
    change (connectionAborted (start_connecting st)) with false.
    apply post_bind, post_ret.
    apply post_bind. unfold call at 1. apply post_bind, post_emit.
    eapply post_await_settled; [reflexivity |]. cbn [state script log].
    apply post_bind, post_modify. cbn [state script log].
    apply post_bind. unfold check_aborted. apply post_bind, post_get.
    cbn [state].
    change (connectionAborted (set_acpClient _ (start_connecting st))) with false.
    apply post_ret.
    unfold client_initialize. apply post_bind. unfold the_client.
    apply post_bind, post_get. cbn [state].
    change (acpClient (set_acpClient (Some (agent_id a)) (start_connecting st)))
      with (Some (agent_id a)).
    apply post_ret. unfold call_init. apply post_bind. unfold request.
    apply post_bind, post_emit. cbn [state script log].
    eapply post_answer_interrupted; [reflexivity |]. cbn [state script log].
    match goal with
    | |- context [carry_out [cancel_requested] (?s0, ?o0)] =>
        destruct (cancel_requested_carried_out s0 o0)
          as (Hflag & _ & Hc & Hb & Hout);
        destruct (carry_out [cancel_requested] (s0, o0)) as [st1 out1]
    end.
    cbn [fst snd] in *.
    change (acpClient (set_acpClient (Some (agent_id a)) (start_connecting st)))
      with (Some (agent_id a)) in Hout.
    eapply post_answer_unheard; [reflexivity | exact Hwaiting | |].
    { cbn [state log]. rewrite Hout. now apply cut_off_after_disconnect. }
    intros st' Hc' Hb'. cbn [state script log] in *.
    fails_closed.
    + now rewrite Hc', Hc.
    + now rewrite Hb', Hb.
    + rewrite Hout, !omap_app. reflexivity.
    + rewrite Hout, elem_of_app. right. apply list_elem_of_singleton. reflexivity.
  - (* while session/new is in flight *)
    intros initResponse waiting message Hwaiting Hauth out. subst out.
    change (post (createSession agentName cwd e)
              {| state := st;
                 script := settles (fulfilled (v_agent a))
                           :: settles (fulfilled v_unit)
                           :: settles (fulfilled v_unit)
                           :: settles (fulfilled (v_init initResponse))
                           :: happens cancel_requested
                           :: waiting ++ settles (rejected message) :: rest;
                 log := [] |}
              (fun r w' =>
                 r = Threw message
                 /\ requests_sent w' = ["initialize"; "session/new"]
                 /\ disconnect (agent_id a) ∈ log w'
                 /\ failed_with message st w'
                 /\ script w' = rest)).
    unfold createSession. apply post_bind, post_modify.
    apply post_finally, post_catch. apply post_bind.
    unfold connect_and_handshake. apply post_bind. unfold call_agent.
    apply post_bind. unfold call at 1. apply post_bind, post_emit.
    cbn [state script log app].
    eapply post_await_settled; [reflexivity |]. cbn [state script log].
    apply post_ret.
    apply post_bind. unfold call at 1. apply post_bind, post_emit.
    eapply post_await_settled; [reflexivity |]. cbn [state script log].
    apply post_bind, post_get. cbn [state].
    change (connectionAborted (start_connecting st)) with false.
    apply post_bind, post_ret.
    apply post_bind. unfold call at 1. apply post_bind, post_emit.
    eapply post_await_settled; [reflexivity |]. cbn [state script log].
    apply post_bind, post_modify. cbn [state script log].
    apply post_bind. unfold check_aborted at 1. apply post_bind, post_get.
    cbn [state].
    change (connectionAborted (set_acpClient _ (start_connecting st))) with false.
    apply post_ret.
    unfold client_initialize. apply post_bind. unfold the_client at 1.
    apply post_bind, post_get. cbn [state].
    change (acpClient (set_acpClient (Some (agent_id a)) (start_connecting st)))
      with (Some (agent_id a)).
    apply post_ret. unfold call_init. apply post_bind. unfold request at 1.
    apply post_bind, post_emit. cbn [state script log].
    eapply post_answer_settled; [reflexivity | intros; reflexivity |].
    cbn [state script log]. apply post_ret.
    unfold after_handshake.
    apply post_bind. unfold check_aborted at 1. apply post_bind, post_get.
    cbn [state].
    change (connectionAborted (set_acpClient _ (start_connecting st))) with false.
    apply post_ret.
    apply post_bind. unfold check_aborted at 1. apply post_bind, post_get.
    cbn [state].
    change (connectionAborted (set_acpClient _ (start_connecting st))) with false.
    apply post_ret.
    apply post_bind. unfold create_or_authenticate. apply post_catch.
    unfold client_newSession at 1. apply post_bind. unfold the_client at 1.
    apply post_bind, post_get. cbn [state].
    change (acpClient (set_acpClient (Some (agent_id a)) (start_connecting st)))
      with (Some (agent_id a)).
    apply post_ret. unfold call_session at 1. apply post_bind.
    unfold request at 1. apply post_bind, post_emit. cbn [state script log].
    eapply post_answer_interrupted; [reflexivity |]. cbn [state script log].
    match goal with
    | |- context [carry_out [cancel_requested] (?s0, ?o0)] =>
        destruct (cancel_requested_carried_out s0 o0)
          as (Hflag & _ & Hc & Hb & Hout);
        destruct (carry_out [cancel_requested] (s0, o0)) as [st1 out1]
    end.
    cbn [fst snd] in *.
    change (acpClient (set_acpClient (Some (agent_id a)) (start_connecting st)))
      with (Some (agent_id a)) in Hout.
    eapply post_answer_unheard; [reflexivity | exact Hwaiting | |].
    { cbn [state log]. rewrite Hout. now apply cut_off_after_disconnect. }
    intros st' Hc' Hb'. cbn [state script log] in *.
    rewrite Hauth. cbn [andb]. apply post_throw.
    fails_closed.
    + now rewrite Hc', Hc.
    + now rewrite Hb', Hb.
    + rewrite Hout, !omap_app. reflexivity.
    + rewrite Hout, elem_of_app. right. apply list_elem_of_singleton. reflexivity.
Qed.

Lemma cancelled_createSession_witness :
  fst (exec (createSession "agent" "/work" Examples.env_1) initial
         Examples.cancel_during_new_session) =
  Threw "Request timeout: session/new"
  /\ requests_sent
       (snd (exec (createSession "agent" "/work" Examples.env_1) initial
               Examples.cancel_during_new_session)) =
     ["initialize"; "session/new"]
  /\ disconnect "agent-1"
     ∈ log (snd (exec (createSession "agent" "/work" Examples.env_1) initial
                   Examples.cancel_during_new_session)).
Proof.
  destruct (cancelled_createSession_sends_nothing_more
              "agent" "/work" Examples.env_1 initial Examples.agent_1 [])
    as (_ & _ & _ & H).
  destruct (H Examples.init_1
              [settles (fulfilled (v_session (Examples.session_response "s1")));
               happens cancel_finished]
              "Request timeout: session/new" eq_refl eq_refl)
    as (Hthrew & Hsent & Hdisconnect & _).
  split; [exact Hthrew |]. split; [exact Hsent | exact Hdisconnect].
Defined.

(** Where the flag is not looked at. A [createSession] cancelled while the
    list of sessions is being saved completes: the store shows the session
    as connected although the cancellation has disconnected the bridge and
    discarded it. And [resumeSession] never looks at the flag: started with
    the flag still set by a cancelled [createSession], it sends
    [initialize] and [session/load] and completes. *)
Lemma cancellation_not_checked :
  fst (exec (createSession "agent" "/work" Examples.env_1) initial
         Examples.cancel_during_save) = Done tt
  /\ connectionAborted
       (state (snd (exec (createSession "agent" "/work" Examples.env_1) initial
                      Examples.cancel_during_save))) = true
  /\ existsb (disconnects "agent-1")
       (log (snd (exec (createSession "agent" "/work" Examples.env_1) initial
                    Examples.cancel_during_save))) = true
  /\ isConnected
       (state (snd (exec (createSession "agent" "/work" Examples.env_1) initial
                      Examples.cancel_during_save))) = true
  /\ Types.sessionId <$>
     currentSession
       (state (snd (exec (createSession "agent" "/work" Examples.env_1) initial
                      Examples.cancel_during_save))) = Some "s1"
  /\ acpClient
       (state (snd (exec (createSession "agent" "/work" Examples.env_1) initial
                      Examples.cancel_during_save))) = None
  /\ fst (exec (createSession "agent" "/work" Examples.env_1) initial
            Examples.cancel_while_spawning) = Threw "Connection cancelled"
  /\ connectionAborted
       (state (snd (exec (createSession "agent" "/work" Examples.env_1) initial
                      Examples.cancel_while_spawning))) = true
  /\ fst (exec (resumeSession Examples.saved_1 Examples.env_1)
            (state (snd (exec (createSession "agent" "/work" Examples.env_1)
                           initial Examples.cancel_while_spawning)))
            Examples.resume_succeeds) = Done tt
  /\ requests_sent
       (snd (exec (resumeSession Examples.saved_1 Examples.env_1)
               (state (snd (exec (createSession "agent" "/work" Examples.env_1)
                              initial Examples.cancel_while_spawning)))
               Examples.resume_succeeds)) = ["initialize"; "session/load"]
  /\ connectionAborted
       (state
          (snd (exec (resumeSession Examples.saved_1 Examples.env_1)
                  (state (snd (exec (createSession "agent" "/work" Examples.env_1)
                                 initial Examples.cancel_while_spawning)))
                  Examples.resume_succeeds))) = true.
Proof. repeat split; vm_compute; reflexivity. Qed.

End CancellationFacts.

(** ** The session store: authentication *)

Module AuthenticationFacts.
Import Acp Types Session TaskLogic.

(** C4 at the input where it fails: the bridge rejects a call with the
    message of the error response only, so the classification never sees
    the numeric code. An answer to [session/new] with code [-32000] and the
    message "Please sign in" is not classified as authentication-required,
    and [createSession] throws without asking for a method or sending
    [authenticate]; an error with another code whose message contains
    "-32000" is classified as authentication-required. *)
Theorem auth_required_code_not_seen :
  (forall (c1 c2 : Z) (m : option string),
      isAuthRequired (Bridge.error_message {| Bridge.code := c1; Bridge.message := m |}) =
      isAuthRequired (Bridge.error_message {| Bridge.code := c2; Bridge.message := m |}))
  /\ Bridge.calls_on 1
       (Bridge.run Examples.no_read Examples.no_write
          [Bridge.Call "initialize" None;
           Bridge.Message (Some (Bridge.result_frame 0 (JStr "ok")));
           Bridge.Call "session/new" None;
           Bridge.Message (Some Examples.auth_error_frame)]
          (Bridge.new_world "agent-1")) =
     [Bridge.reject "Please sign in"]
  /\ isAuthRequired (Bridge.error_message Examples.auth_required_by_code) = false
  /\ fst (exec (createSession "agent" "/work" Examples.env_1) initial
            Examples.new_session_needs_auth) = Threw "Please sign in"
  /\ requests_sent
       (snd (exec (createSession "agent" "/work" Examples.env_1) initial
               Examples.new_session_needs_auth)) = ["initialize"; "session/new"]
  /\ isAuthRequired
       (Bridge.error_message
          {| Bridge.code := -32603;
             Bridge.message := Some "Budget of -32000 exceeded" |}) = true.
Proof.
  split; [reflexivity |].
  repeat split; vm_compute; reflexivity.
Qed.


(** An [await] whose promise is the next to settle. *)
Lemma post_await_now (w : world) (s : settlement) (rest : list item)
    (Q : result value -> world -> Prop) :
  script w = settles s :: rest ->
  Q match s with
    | fulfilled v => Done v
    | rejected message => Threw message
    end
    {| state := state w; script := rest; log := log w |} ->
  post await w Q.
Proof.
  intros Hs H. unfold post, await. rewrite Hs. cbn [settle].
  now destruct s.
Qed.

(** The user picks a method while the dialog is open. *)
Lemma post_choice_now (w : world) (methodId : string) (rest : list item)
    (Q : result (option string) -> world -> Prop) :
  script w = happens (method_selected methodId) :: rest ->
  authMethodResolver (state w) = true ->
  Q (Done (Some methodId))
    {| state := set_pendingAuthAgentName ""
                  (set_pendingAuthMethods [] (set_authMethodResolver false (state w)));
       script := rest; log := log w |} ->
  post await_choice w Q.
Proof.
  intros Hs Hr H. unfold post, await_choice. rewrite Hs.
  cbn [choose interrupted]. unfold selectAuthMethod, answer_auth. rewrite Hr.
  exact H.
Qed.

(** The retry at work: when the first [session/new] is rejected with an
    error classified as authentication-required, a method was advertised and
    the user picks one, and [authenticate], the second [session/new] and the
    save succeed with nothing else happening in between, the attempt
    completes having sent exactly [session/new], [authenticate],
    [session/new], and the current session is the one of the second answer. *)
Theorem authenticate_then_retry
    (agentName cwd : string) (e : env) (initResponse : InitializeResponse)
    (methods : list AuthMethod) (w : world) (agent errorMessage methodId : string)
    (sessionResponse : NewSessionResponse) (rest : list item) :
  acpClient (state w) = Some agent ->
  connectionAborted (state w) = false ->
  authMethods initResponse = Some methods ->
  methods <> [] ->
  isAuthRequired errorMessage = true ->
  methodId <> "" ->
  script w =
    settles (rejected errorMessage)
    :: happens (method_selected methodId)
    :: settles (fulfilled v_unit)
    :: settles (fulfilled (v_session sessionResponse))
    :: settles (fulfilled v_unit)
    :: rest ->
  let out := after_handshake agentName cwd e initResponse w in
  fst out = Done tt
  /\ requests_sent (snd out) =
     requests_sent w ++ ["session/new"; "authenticate"; "session/new"]
  /\ Types.sessionId <$> currentSession (state (snd out)) =
     Some (Acp.sessionId sessionResponse)
  /\ isConnected (state (snd out)) = true
  /\ script (snd out) = rest.
Proof.
  intros Hclient Hflag Hmethods Hne Hauth Hm Hscript out. subst out.
  destruct w as [st sc lg]. cbn [state script log] in *. subst sc.
  destruct methods as [| method methods]; [congruence |].
  destruct methodId as [| ch methodId]; [congruence |].
  change (post (after_handshake agentName cwd e initResponse)
            {| state := st;
               script := settles (rejected errorMessage)
                         :: happens (method_selected (String ch methodId))
                         :: settles (fulfilled v_unit)
                         :: settles (fulfilled (v_session sessionResponse))
                         :: settles (fulfilled v_unit) :: rest;
               log := lg |}
            (fun r w' =>
               r = Done tt
               /\ requests_sent w' =
                  omap wire_method lg ++ ["session/new"; "authenticate"; "session/new"]
               /\ Types.sessionId <$> currentSession (state w') =
                  Some (Acp.sessionId sessionResponse)
               /\ isConnected (state w') = true
               /\ script w' = rest)).
  unfold after_handshake.
  apply post_bind. unfold check_aborted. apply post_bind, post_get.
  cbn [state]. rewrite Hflag. apply post_ret.
  apply post_bind. apply post_bind, post_get.
  cbn [state]. rewrite Hflag. apply post_ret.
  apply post_bind. unfold create_or_authenticate. apply post_catch.
  unfold client_newSession at 1. apply post_bind. unfold the_client at 1.
  apply post_bind, post_get. cbn [state]. rewrite Hclient. apply post_ret.
  unfold call_session at 1. apply post_bind. unfold request at 1.
  apply post_bind, post_emit. cbn [state script log].
  eapply post_answer_settled; [reflexivity | discriminate |].
  cbn [state script log].
  rewrite Hauth, Hmethods. cbn [default from_option Datatypes.id length Nat.ltb Nat.leb andb].
  apply post_bind. unfold promptForAuthMethod. apply post_bind, post_modify.
  cbn [state script log].
  eapply post_choice_now; [reflexivity | reflexivity |]. cbn [state script log].
  apply post_bind, post_get. cbn [state truthy].
  cbn [connectionAborted set_pendingAuthAgentName set_pendingAuthMethods
       set_authMethodResolver].
  rewrite Hflag.
  apply post_bind. unfold client_authenticate. apply post_bind.
  unfold the_client at 1. apply post_bind, post_get. cbn [state].
  cbn [acpClient set_pendingAuthAgentName set_pendingAuthMethods
       set_authMethodResolver].
  rewrite Hclient. apply post_ret.
  apply post_bind. unfold request at 1. apply post_bind, post_emit.
  cbn [state script log].
  eapply post_answer_settled; [reflexivity | |].
  { intros _ _. unfold cut_off. cbn [state log]. 
    change (connectionAborted (set_pendingAuthAgentName _ _))
      with (connectionAborted st).
    now rewrite Hflag. }
  cbn [state script log].
  apply post_ret.
  apply post_bind. unfold check_aborted. apply post_bind, post_get.
  cbn [state connectionAborted set_pendingAuthAgentName set_pendingAuthMethods
       set_authMethodResolver].
  rewrite Hflag. apply post_ret.
  unfold client_newSession. apply post_bind. unfold the_client.
  apply post_bind, post_get.
  cbn [state acpClient set_pendingAuthAgentName set_pendingAuthMethods
       set_authMethodResolver].
  rewrite Hclient. apply post_ret.
  unfold call_session. apply post_bind. unfold request.
  apply post_bind, post_emit.
  cbn [state script log].
  eapply post_answer_settled; [reflexivity | |].
  { intros _ _. unfold cut_off. cbn [state log].
    change (connectionAborted (set_pendingAuthAgentName _ _))
      with (connectionAborted st).
    now rewrite Hflag. }
  cbn [state script log].
  apply post_ret.
  unfold save_session.
  apply post_bind, post_modify. apply post_bind, post_get.
  apply post_bind. apply post_bind, post_emit.
  cbn [state script log].
  eapply post_await_now; [reflexivity |]. cbn [state script log].
  apply post_bind, post_modify. apply post_bind, post_emit.
  apply post_bind, post_modify. apply post_modify.
  cbn [state script log].
  split; [reflexivity |]. split.
  { unfold requests_sent. cbn [log]. rewrite !omap_app. cbn.
    now rewrite app_nil_r, <- !app_assoc. }
  unfold set_up_modes, set_up_models.
  destruct (modes sessionResponse), (models sessionResponse); cbn;
    repeat split; reflexivity.
Qed.

Lemma authenticate_then_retry_witness :
  requests_sent
    (snd (after_handshake "agent" "/work" Examples.env_1 Examples.init_1
            {| state := set_acpClient (Some "agent-1") initial;
               script := Examples.authenticate_and_retry; log := [initialize] |})) =
  ["initialize"; "session/new"; "authenticate"; "session/new"]
  /\ Types.sessionId <$>
     currentSession
       (state
          (snd (after_handshake "agent" "/work" Examples.env_1 Examples.init_1
                  {| state := set_acpClient (Some "agent-1") initial;
                     script := Examples.authenticate_and_retry;
                     log := [initialize] |}))) = Some "s2".
Proof.
  destruct (authenticate_then_retry "agent" "/work" Examples.env_1 Examples.init_1
              [{| am_id := "oauth"; am_name := "OAuth" |}]
              {| state := set_acpClient (Some "agent-1") initial;
                 script := Examples.authenticate_and_retry; log := [initialize] |}
              "agent-1" "Authentication required" "oauth"
              (Examples.session_response "s2") [])
    as (_ & Hsent & Hsession & _).
  - reflexivity.
  - reflexivity.
  - reflexivity.
  - discriminate.
  - vm_compute. reflexivity.
  - discriminate.
  - reflexivity.
  - split; [exact Hsent | exact Hsession].
Defined.

End AuthenticationFacts.

(** ** The bridge: invariants of the event loop *)

Module BridgeRunFacts.
Import Acp Bridge BridgeRuns.

Section WithFileAccess.

Context (tauriReadTextFile : string -> outcome string)
        (tauriWriteTextFile : string -> string -> outcome unit).

Local Abbreviation step := (Bridge.step tauriReadTextFile tauriWriteTextFile).
Local Abbreviation run := (Bridge.run tauriReadTextFile tauriWriteTextFile).
Local Abbreviation handleMessage :=
  Bridge.handleMessage.
Local Abbreviation handleRequest :=
  Bridge.handleRequest.
Local Abbreviation dispatch :=
  Bridge.dispatch.

Lemma run_app (events1 events2 : list event) (w : world) :
  run (events1 ++ events2) w = run events2 (run events1 w).
Proof. unfold Bridge.run. apply foldl_app. Qed.

Lemma filter_all {A : Type} (P : A -> Prop) `{forall x, Decision (P x)}
    (l : list A) :
  Forall P l -> filter P l = l.
Proof.
  induction 1 as [| x l Hx _ IH]; [reflexivity |].
  rewrite filter_cons_True by exact Hx. now rewrite IH.
Qed.

Lemma filter_none {A : Type} (P : A -> Prop) `{forall x, Decision (P x)}
    (l : list A) :
  Forall (fun x => ~ P x) l -> filter P l = [].
Proof.
  induction 1 as [| x l Hx _ IH]; [reflexivity |].
  now rewrite filter_cons_False by exact Hx.
Qed.

Lemma difference_absent (X : gset Z) (k : Z) : k ∉ X -> X ∖ {[ k ]} = X.
Proof.
  intros Hk. apply set_eq. intros j.
  rewrite elem_of_difference, elem_of_singleton. split; [now intros [Hj _] |].
  intros Hj. split; [exact Hj |]. now intros ->.
Qed.

Lemma difference_subset (X : gset Z) (k : Z) : X ∖ {[ k ]} ⊆ X.
Proof. intros j. rewrite elem_of_difference. now intros [Hj _]. Qed.

(** *** Outbound requests are numbered in the order they are sent *)

Lemma outbox_fire_all (ts : list timer) (w : world) :
  outbox (foldl (fun w tm => timeout tm w) w ts) = outbox w.
Proof.
  revert w. induction ts as [| t ts IH]; intros w; [reflexivity |].
  cbn [foldl]. rewrite IH. unfold timeout. now destruct (decide _).
Qed.

Lemma requests_answer (id : rpc_id) (h : handled) (w : world) :
  omap request_id (outbox (answer id h w)) = omap request_id (outbox w).
Proof.
  destruct h; cbn [answer send outbox]; rewrite ?omap_app; cbn;
    now rewrite ?app_nil_r.
Qed.

Lemma outbox_dispatch (id : rpc_id) (method : string) (args : params) (w : world) :
  outbox (snd (dispatch id method args w)) = outbox w.
Proof.
  unfold Bridge.dispatch.
  repeat destruct (decide _); try reflexivity;
    destruct args; reflexivity.
Qed.

Lemma requests_handleMessage (line : option frame) (w : world) :
  omap request_id (outbox (handleMessage line w)) = omap request_id (outbox w).
Proof.
  destruct line as [parsed |]; [| reflexivity].
  unfold Bridge.handleMessage.
  set (w1 := match f_id parsed, f_method parsed with
             | Some id, None => handleResponse id parsed w
             | _, _ => w
             end).
  assert (H1 : outbox w1 = outbox w).
  { unfold w1. destruct (f_id parsed) as [id |], (f_method parsed); try reflexivity.
    unfold handleResponse.
    cbn [messageResolvers messageRejecters pendingMethods with_calls].
    destruct (get (messageResolvers (client w)) id),
      (get (messageRejecters (client w)) id); try reflexivity.
    now destruct (f_error parsed). }
  set (w2 := match f_id parsed, f_method parsed with
             | Some id, Some method => handleRequest id method (f_params parsed) w1
             | _, _ => w1
             end).
  assert (H2 : omap request_id (outbox w2) = omap request_id (outbox w)).
  { unfold w2. destruct (f_id parsed) as [id |], (f_method parsed) as [method |];
      rewrite <- ?H1; try reflexivity.
    unfold Bridge.handleRequest.
    pose proof (outbox_dispatch id method (f_params parsed) w1) as Hd.
    destruct (dispatch id method (f_params parsed) w1) as [h w'].
    rewrite requests_answer. cbn [snd] in Hd. now rewrite Hd. }
  clearbody w2. clear w1 H1.
  destruct (f_id parsed); [exact H2 |].
  destruct (truthy (f_method parsed)) as [method |]; [| exact H2].
  unfold handleNotification.
  destruct (decide _); [| exact H2].
  destruct (onSessionUpdate _); [| exact H2].
  now destruct (f_params parsed).
Qed.

Lemma requests_decide_permission (o : RequestPermissionOutcome) (w : world) :
  omap request_id (outbox (decide_permission o w)) = omap request_id (outbox w).
Proof.
  unfold decide_permission. destruct (permissionResolver _); [| reflexivity].
  cbn [with_client outbox]. apply requests_answer.
Qed.

Lemma requests_step (w : world) (e : event) :
  omap request_id (outbox (step w e)) =
  omap request_id (outbox w) ++
  (if is_call e then [nextRequestId (client w)] else []).
Proof.
  destruct e as [method args | line | id | id err | ms | optionId | | kf];
    cbn [Bridge.step is_call]; rewrite ?app_nil_r.
  - cbn. rewrite omap_app. reflexivity.
  - apply requests_handleMessage.
  - now destruct (decide _).
  - now destruct (decide _).
  - unfold elapse. now rewrite outbox_fire_all.
  - apply requests_decide_permission.
  - apply requests_decide_permission.
  - unfold Bridge.file_done.
    destruct (file_calls w !! kf) as [[c |] |]; try reflexivity.
    now rewrite requests_answer.
Qed.

Lemma next_step (w : world) (e : event) :
  nextRequestId (client (step w e)) =
  nextRequestId (client w) + (if is_call e then 1 else 0).
Proof.
  destruct e as [method args | line | id | id err | ms | optionId | | kf];
    cbn [Bridge.step is_call]; rewrite ?Z.add_0_r.
  - reflexivity.
  - apply PendingCallFacts.frame_handleMessage.
  - now destruct (decide _).
  - now destruct (decide _).
  - apply PendingCallFacts.next_elapse.
  - unfold resolvePermission, decide_permission.
    destruct (permissionResolver _); [| reflexivity]. now destruct w.
  - unfold cancelPermission, decide_permission.
    destruct (permissionResolver _); [| reflexivity]. now destruct w.
  - now destruct (PendingCallFacts.file_done_frame
                    tauriReadTextFile tauriWriteTextFile kf w) as [-> _].
Qed.

(** Whatever happens, the requests the bridge has sent carry the
    identifiers [0], [1], [2], ... in the order they were sent, one per call
    of [sendRequest]. *)
Theorem request_ids_count_up (agent : string) (events : list event) :
  omap request_id (outbox (run events (new_world agent))) =
  seqZ 0 (Z.of_nat (length (filter (fun e => is_call e = true) events)))
  /\ nextRequestId (client (run events (new_world agent))) =
     Z.of_nat (length (filter (fun e => is_call e = true) events)).
Proof.
  induction events as [| e events [IH1 IH2]] using rev_ind; [now split |].
  rewrite run_app. cbn [Bridge.run foldl].
  rewrite requests_step, next_step, IH1, IH2, filter_app, length_app.
  destruct (is_call e) eqn:He.
  - rewrite filter_cons_True by exact He. cbn [filter_nil length].
    rewrite filter_nil. cbn [length].
    rewrite Nat2Z.inj_add. cbn [Z.of_nat Pos.of_succ_nat].
    split; [| reflexivity].
    rewrite seqZ_app by lia. reflexivity.
  - rewrite filter_cons_False by (rewrite He; discriminate).
    rewrite filter_nil. cbn [length]. rewrite Nat.add_0_r, app_nil_r, Z.add_0_r.
    now split.
Qed.

(** *** The tables of pending calls *)

Lemma tables_agree_forget (id : Z) (w : world) :
  tables_agree w -> tables_agree (forget id w).
Proof.
  intros [HJ HP]. unfold tables_agree, forget.
  cbn [client with_client with_calls messageResolvers messageRejecters pendingMethods].
  rewrite !dom_delete_L. now rewrite HJ, HP.
Qed.

Lemma tables_agree_ext (w w' : world) :
  messageResolvers (client w') = messageResolvers (client w) ->
  messageRejecters (client w') = messageRejecters (client w) ->
  pendingMethods (client w') = pendingMethods (client w) ->
  tables_agree w -> tables_agree w'.
Proof. unfold tables_agree. now intros -> -> ->. Qed.

Lemma tables_agree_timeout (t : timer) (w : world) :
  tables_agree w -> tables_agree (timeout t w).
Proof.
  intros H. unfold timeout. destruct (decide _); [| exact H].
  apply (tables_agree_ext (forget (timer_id t) w)); try reflexivity.
  now apply tables_agree_forget.
Qed.

Lemma tables_agree_fire_all (ts : list timer) (w : world) :
  tables_agree w -> tables_agree (foldl (fun w tm => timeout tm w) w ts).
Proof.
  revert w. induction ts as [| t ts IH]; intros w H; [exact H |].
  cbn [foldl]. now apply IH, tables_agree_timeout.
Qed.

Lemma tables_agree_handleResponse (id : rpc_id) (parsed : frame) (w : world) :
  tables_agree w -> tables_agree (handleResponse id parsed w).
Proof.
  intros [HJ HP]. unfold handleResponse.
  cbn [messageResolvers messageRejecters pendingMethods with_calls].
  destruct id as [n | s |]; cbn [get delete_id].
  - destruct (messageResolvers (client w) !! n) as [resolver |] eqn:HR.
    + destruct (messageRejecters (client w) !! n) as [rejecter |] eqn:HJn.
      * assert (Hagree : tables_agree
                  (with_client
                     (with_calls (delete n (messageResolvers (client w)))
                        (delete n (messageRejecters (client w)))
                        (delete n (pendingMethods (client w))) (client w)) w)).
        { split; cbn; rewrite !dom_delete_L; [now rewrite HJ | now rewrite HP]. }
        destruct (f_error parsed); exact Hagree.
      * apply not_elem_of_dom in HJn. rewrite HJ in HJn.
        apply not_elem_of_dom in HJn. congruence.
    + split; cbn; [exact HJ |].
      rewrite dom_delete_L, HP. apply not_elem_of_dom in HR.
      now apply difference_absent.
  - now split.
  - now split.
Qed.

Lemma tables_dispatch (id : rpc_id) (method : string) (args : params) (w : world) :
  let w' := snd (dispatch id method args w) in
  messageResolvers (client w') = messageResolvers (client w)
  /\ messageRejecters (client w') = messageRejecters (client w)
  /\ pendingMethods (client w') = pendingMethods (client w)
  /\ timers w' = timers w /\ now w' = now w
  /\ delivered w' = delivered w
  /\ onSessionUpdate (client w') = onSessionUpdate (client w).
Proof.
  unfold Bridge.dispatch.
  repeat destruct (decide _); try easy; destruct args; easy.
Qed.

Lemma tables_handleRequest (id : rpc_id) (method : string) (args : params) (w : world) :
  let w' := handleRequest id method args w in
  messageResolvers (client w') = messageResolvers (client w)
  /\ messageRejecters (client w') = messageRejecters (client w)
  /\ pendingMethods (client w') = pendingMethods (client w)
  /\ timers w' = timers w /\ now w' = now w
  /\ delivered w' = delivered w
  /\ onSessionUpdate (client w') = onSessionUpdate (client w).
Proof.
  unfold Bridge.handleRequest.
  pose proof (tables_dispatch id method args w) as H.
  destruct (dispatch id method args w) as [h w1]. cbn [snd] in H.
  now destruct h.
Qed.

Lemma tables_handleNotification (method : string) (args : params) (w : world) :
  let w' := handleNotification method args w in
  messageResolvers (client w') = messageResolvers (client w)
  /\ messageRejecters (client w') = messageRejecters (client w)
  /\ pendingMethods (client w') = pendingMethods (client w)
  /\ timers w' = timers w /\ now w' = now w.
Proof.
  unfold handleNotification. destruct (decide _); [| easy].
  destruct (onSessionUpdate _); [| easy]. now destruct args.
Qed.

Lemma tables_decide_permission (o : RequestPermissionOutcome) (w : world) :
  let w' := decide_permission o w in
  messageResolvers (client w') = messageResolvers (client w)
  /\ messageRejecters (client w') = messageRejecters (client w)
  /\ pendingMethods (client w') = pendingMethods (client w)
  /\ timers w' = timers w /\ now w' = now w
  /\ delivered w' = delivered w
  /\ onSessionUpdate (client w') = onSessionUpdate (client w).
Proof.
  unfold decide_permission. now destruct (permissionResolver _).
Qed.

Lemma tables_file_done (k : nat) (w : world) :
  let w' := Bridge.file_done tauriReadTextFile tauriWriteTextFile k w in
  messageResolvers (client w') = messageResolvers (client w)
  /\ messageRejecters (client w') = messageRejecters (client w)
  /\ pendingMethods (client w') = pendingMethods (client w)
  /\ timers w' = timers w /\ now w' = now w
  /\ delivered w' = delivered w
  /\ onSessionUpdate (client w') = onSessionUpdate (client w).
Proof.
  unfold Bridge.file_done. destruct (file_calls w !! k) as [[c |] |]; try easy.
  unfold answer. now destruct (file_result _ _ _).
Qed.

Lemma tables_agree_handleMessage (line : option frame) (w : world) :
  tables_agree w -> tables_agree (handleMessage line w).
Proof.
  intros H. destruct line as [parsed |]; [| exact H].
  unfold Bridge.handleMessage.
  set (w1 := match f_id parsed, f_method parsed with
             | Some id, None => handleResponse id parsed w
             | _, _ => w
             end).
  assert (H1 : tables_agree w1).
  { unfold w1. destruct (f_id parsed) as [id |], (f_method parsed); try exact H.
    now apply tables_agree_handleResponse. }
  clearbody w1.
  set (w2 := match f_id parsed, f_method parsed with
             | Some id, Some method => handleRequest id method (f_params parsed) w1
             | _, _ => w1
             end).
  assert (H2 : tables_agree w2).
  { unfold w2. destruct (f_id parsed) as [id |], (f_method parsed) as [method |];
      try exact H1.
    destruct (tables_handleRequest id method (f_params parsed) w1)
      as (E1 & E2 & E3 & _).
    exact (tables_agree_ext _ _ E1 E2 E3 H1). }
  clearbody w2.
  destruct (f_id parsed); [exact H2 |].
  destruct (truthy (f_method parsed)) as [method |]; [| exact H2].
  destruct (tables_handleNotification method (f_params parsed) w2)
    as (E1 & E2 & E3 & _).
  exact (tables_agree_ext _ _ E1 E2 E3 H2).
Qed.

Lemma tables_agree_step (w : world) (e : event) :
  tables_agree w -> tables_agree (step w e).
Proof.
  intros H.
  destruct e as [method args | line | id | id err | ms | optionId | | kf];
    cbn [Bridge.step].
  - destruct H as [HJ HP]. split; cbn; rewrite !dom_insert_L; [now rewrite HJ |].
    now rewrite HP.
  - now apply tables_agree_handleMessage.
  - now destruct (decide _).
  - destruct (decide _); [| exact H].
    apply (tables_agree_ext (forget id w)); try reflexivity.
    now apply tables_agree_forget.
  - unfold elapse. now apply tables_agree_fire_all.
  - destruct (tables_decide_permission (selected optionId) w) as (E1 & E2 & E3 & _).
    exact (tables_agree_ext _ _ E1 E2 E3 H).
  - destruct (tables_decide_permission cancelled w) as (E1 & E2 & E3 & _).
    exact (tables_agree_ext _ _ E1 E2 E3 H).
  - destruct (tables_file_done kf w) as (E1 & E2 & E3 & _).
    exact (tables_agree_ext _ _ E1 E2 E3 H).
Qed.

(** Whatever happens, the three tables of pending calls hold the same
    identifiers: a resolver is never stored without its rejecter, and the
    table of method names never keeps the name of a call that is over. *)
Theorem pending_tables_agree (agent : string) (events : list event) :
  tables_agree (run events (new_world agent)).
Proof.
  induction events as [| e events IH] using rev_ind; [now split |].
  rewrite run_app. now apply tables_agree_step.
Qed.

(** *** No call outlives the time-out *)

Lemma resolvers_timeout (t : timer) (w : world) :
  messageResolvers (client (timeout t w)) =
  delete (timer_id t) (messageResolvers (client w)).
Proof.
  unfold timeout. destruct (decide _) as [H | H]; [reflexivity |].
  symmetry. apply fin_maps.delete_id. now apply eq_None_not_Some.
Qed.

Lemma resolvers_fire_all (ts : list timer) (w : world) (k : Z) :
  k ∈ dom (messageResolvers (client (foldl (fun w tm => timeout tm w) w ts))) <->
  k ∈ dom (messageResolvers (client w)) /\ k ∉ timer_id <$> ts.
Proof.
  revert w. induction ts as [| t ts IH]; intros w.
  - cbn. split; [intros H; split; [exact H | apply not_elem_of_nil] | now intros [H _]].
  - cbn [foldl]. rewrite IH, resolvers_timeout, dom_delete_L, fmap_cons.
    rewrite not_elem_of_cons, elem_of_difference, elem_of_singleton. tauto.
Qed.

Lemma all_timed_elapse (ms : N) (w : world) :
  all_timed w -> all_timed (elapse ms w).
Proof.
  intros [Hpending Hdue]. unfold elapse.
  set (t := (now w + ms)%N).
  set (due_now := filter (fun tm => (due tm <= t)%N) (timers w)).
  set (later := filter (fun tm => ¬ (due tm <= t)%N) (timers w)).
  destruct (PendingCallFacts.fire_all_frame due_now (with_clock t later w))
    as (_ & Htimers & Hnow).
  split.
  - intros k Hk. rewrite Htimers. cbn [timers with_clock].
    apply resolvers_fire_all in Hk as [Hk Hfired]. cbn in Hk.
    destruct (Hpending k Hk) as (tm & Hin & Hid).
    exists tm. split; [| exact Hid].
    unfold later. apply list_elem_of_filter. split; [| exact Hin].
    intros Hle. apply Hfired. apply list_elem_of_fmap. exists tm.
    split; [now symmetry |]. unfold due_now. apply list_elem_of_filter. now split.
  - rewrite Htimers, Hnow. cbn [timers now with_clock].
    apply Forall_forall. intros tm Hin.
    unfold later in Hin. apply list_elem_of_filter in Hin as [_ Hin].
    rewrite Forall_forall in Hdue. specialize (Hdue tm Hin). unfold t. lia.
Qed.

Lemma all_timed_shrink (w w' : world) :
  dom (messageResolvers (client w')) ⊆ dom (messageResolvers (client w)) ->
  timers w' = timers w -> now w' = now w ->
  all_timed w -> all_timed w'.
Proof.
  intros Hsub Ht Hn [Hpending Hdue]. split.
  - intros k Hk. rewrite Ht. apply Hpending. now apply Hsub.
  - now rewrite Ht, Hn.
Qed.

Lemma resolvers_handleResponse (id : rpc_id) (parsed : frame) (w : world) :
  dom (messageResolvers (client (handleResponse id parsed w))) ⊆
  dom (messageResolvers (client w))
  /\ timers (handleResponse id parsed w) = timers w
  /\ now (handleResponse id parsed w) = now w.
Proof.
  unfold handleResponse.
  cbn [messageResolvers messageRejecters pendingMethods with_calls].
  destruct (get (messageResolvers (client w)) id),
    (get (messageRejecters (client w)) id); try easy.
  destruct (f_error parsed); cbn; (split; [| easy]);
    destruct id; cbn [delete_id]; rewrite ?dom_delete_L;
    first [apply difference_subset | reflexivity].
Qed.

Lemma all_timed_handleMessage (line : option frame) (w : world) :
  all_timed w -> all_timed (handleMessage line w).
Proof.
  intros H. destruct line as [parsed |]; [| exact H].
  unfold Bridge.handleMessage.
  set (w1 := match f_id parsed, f_method parsed with
             | Some id, None => handleResponse id parsed w
             | _, _ => w
             end).
  assert (H1 : all_timed w1).
  { unfold w1. destruct (f_id parsed) as [id |], (f_method parsed); try exact H.
    destruct (resolvers_handleResponse id parsed w) as (E1 & E2 & E3).
    exact (all_timed_shrink _ _ E1 E2 E3 H). }
  clearbody w1.
  set (w2 := match f_id parsed, f_method parsed with
             | Some id, Some method => handleRequest id method (f_params parsed) w1
             | _, _ => w1
             end).
  assert (H2 : all_timed w2).
  { unfold w2. destruct (f_id parsed) as [id |], (f_method parsed) as [method |];
      try exact H1.
    destruct (tables_handleRequest id method (f_params parsed) w1)
      as (E1 & _ & _ & E2 & E3 & _).
    apply (all_timed_shrink w1); try assumption. now rewrite E1. }
  clearbody w2.
  destruct (f_id parsed); [exact H2 |].
  destruct (truthy (f_method parsed)) as [method |]; [| exact H2].
  destruct (tables_handleNotification method (f_params parsed) w2)
    as (E1 & _ & _ & E2 & E3).
  apply (all_timed_shrink w2); try assumption. now rewrite E1.
Qed.

Lemma all_timed_step (w : world) (e : event) :
  all_timed w -> all_timed (step w e).
Proof.
  intros H.
  destruct e as [method args | line | id | id err | ms | optionId | | kf];
    cbn [Bridge.step].
  - destruct H as [Hpending Hdue]. split.
    + intros k Hk. cbn in Hk. rewrite dom_insert_L in Hk.
      cbn [Bridge.sendRequest timers with_clock].
      apply elem_of_union in Hk as [Hk | Hk].
      * apply elem_of_singleton in Hk as ->.
        eexists. split; [apply elem_of_app; right; apply list_elem_of_singleton;
                         reflexivity | reflexivity].
      * destruct (Hpending k Hk) as (tm & Hin & Hid).
        exists tm. split; [| exact Hid]. apply elem_of_app. now left.
    + cbn. apply Forall_app. split; [exact Hdue |]. repeat constructor. cbn. lia.
  - now apply all_timed_handleMessage.
  - now destruct (decide _).
  - destruct (decide _); [| exact H].
    apply (all_timed_shrink w); try reflexivity; [| exact H].
    cbn. rewrite dom_delete_L. apply difference_subset.
  - now apply all_timed_elapse.
  - destruct (tables_decide_permission (selected optionId) w)
      as (E1 & _ & _ & E2 & E3 & _).
    apply (all_timed_shrink w); try assumption.
    unfold resolvePermission. now rewrite E1.
  - destruct (tables_decide_permission cancelled w)
      as (E1 & _ & _ & E2 & E3 & _).
    apply (all_timed_shrink w); try assumption.
    unfold cancelPermission. now rewrite E1.
  - destruct (tables_file_done kf w) as (E1 & _ & _ & E2 & E3 & _).
    apply (all_timed_shrink w); try assumption. now rewrite E1.
Qed.

Lemma all_timed_run (agent : string) (events : list event) :
  all_timed (run events (new_world agent)).
Proof.
  induction events as [| e events IH] using rev_ind.
  - split; [| constructor]. intros k Hk. cbn in Hk.
    rewrite dom_empty_L in Hk. now apply not_elem_of_empty in Hk.
  - rewrite run_app. now apply all_timed_step.
Qed.

(** Whatever has happened, once the time-out has passed with nothing else
    happening the bridge holds nothing: no call is pending, under none of the
    three tables, and no timer is set. *)
Theorem bridge_drained_after_timeout (agent : string) (events : list event)
    (more : N) :
  drained (run (events ++ [Elapse (REQUEST_TIMEOUT + more)]) (new_world agent)).
Proof.
  rewrite run_app. cbn [Bridge.run foldl Bridge.step].
  pose proof (all_timed_run agent events) as [Hpending Hdue].
  pose proof (pending_tables_agree agent events) as Hagree.
  set (w := run events (new_world agent)) in *.
  pose proof (tables_agree_step w (Elapse (REQUEST_TIMEOUT + more)) Hagree)
    as [HJ HP].
  cbn [Bridge.step] in HJ, HP.
  assert (Hall : filter (fun tm => (due tm <= now w + (REQUEST_TIMEOUT + more))%N)
                   (timers w) = timers w).
  { apply filter_all. eapply Forall_impl; [exact Hdue |].
    cbn. intros tm Hle. lia. }
  assert (Hnone : filter (fun tm => ¬ (due tm <= now w + (REQUEST_TIMEOUT + more))%N)
                    (timers w) = []).
  { apply filter_none. eapply Forall_impl; [exact Hdue |].
    cbn. intros tm Hle Hn. apply Hn. lia. }
  assert (HR : messageResolvers (client (elapse (REQUEST_TIMEOUT + more) w)) = ∅).
  { apply dom_empty_inv_L. apply set_eq. intros k.
    split; [| intros Hk; now apply not_elem_of_empty in Hk].
    unfold elapse. rewrite resolvers_fire_all, Hall. intros [Hk Hfired].
    destruct (Hpending k Hk) as (tm & Hin & Hid).
    destruct Hfired. apply list_elem_of_fmap. exists tm. now split. }
  split; [exact HR |]. rewrite HR, dom_empty_L in HJ, HP.
  split; [now apply dom_empty_inv_L |]. split; [now apply dom_empty_inv_L |].
  unfold elapse.
  destruct (PendingCallFacts.fire_all_frame
              (filter (fun tm => (due tm <= now w + (REQUEST_TIMEOUT + more))%N) (timers w))
              (with_clock (now w + (REQUEST_TIMEOUT + more))
                 (filter (fun tm => ¬ (due tm <= now w + (REQUEST_TIMEOUT + more))%N)
                    (timers w)) w))
    as (_ & Htimers & _).
  rewrite Htimers. cbn [timers with_clock]. exact Hnone.
Qed.

(** *** Notifications *)

Lemma bridge_frame_fire_all (ts : list timer) (w : world) :
  onSessionUpdate (client (foldl (fun w tm => timeout tm w) w ts)) =
  onSessionUpdate (client w)
  /\ delivered (foldl (fun w tm => timeout tm w) w ts) = delivered w.
Proof.
  revert w. induction ts as [| t ts IH]; intros w; [now split |].
  cbn [foldl]. destruct (IH (timeout t w)) as [-> ->].
  unfold timeout. now destruct (decide _).
Qed.

Lemma bridge_frame_handleResponse (id : rpc_id) (parsed : frame) (w : world) :
  onSessionUpdate (client (handleResponse id parsed w)) = onSessionUpdate (client w)
  /\ delivered (handleResponse id parsed w) = delivered w.
Proof.
  unfold handleResponse.
  cbn [messageResolvers messageRejecters pendingMethods with_calls].
  destruct (get (messageResolvers (client w)) id),
    (get (messageRejecters (client w)) id); try easy.
  now destruct (f_error parsed).
Qed.

(** What a frame hands to the callback. *)
Lemma delivered_handleMessage (line : option frame) (w : world) :
  onSessionUpdate (client (handleMessage line w)) = onSessionUpdate (client w)
  /\ delivered (handleMessage line w) =
     delivered w ++
     (if onSessionUpdate (client w)
      then from_option (fun n => [n]) [] (update_of (Message line))
      else []).
Proof.
  assert (Hsame : forall w' : world,
             onSessionUpdate (client w') = onSessionUpdate (client w) ->
             delivered w' = delivered w ->
             onSessionUpdate (client w') = onSessionUpdate (client w)
             /\ delivered w' = delivered w ++ (if onSessionUpdate (client w) then [] else [])).
  { intros w' H1 H2. split; [exact H1 |]. rewrite H2.
    destruct (onSessionUpdate (client w)); now rewrite app_nil_r. }
  destruct line as [parsed |]; [| now apply Hsame].
  unfold Bridge.handleMessage, update_of.
  destruct (f_id parsed) as [id |].
  - destruct (f_method parsed) as [method |].
    + destruct (tables_handleRequest id method (f_params parsed) w)
        as (_ & _ & _ & _ & _ & E1 & E2).
      now apply Hsame.
    + destruct (bridge_frame_handleResponse id parsed w) as [E1 E2].
      now apply Hsame.
  - destruct (f_method parsed) as [method |]; [| now apply Hsame].
    destruct (decide (method = "session/update")) as [-> | Hne].
    + cbn [truthy]. unfold handleNotification.
      destruct (onSessionUpdate (client w)) eqn:Hl.
      * destruct (f_params parsed); cbn [from_option];
          first [now rewrite app_nil_r | now split].
      * now rewrite app_nil_r.
    + destruct method as [| c method]; cbn [truthy].
      * destruct (f_params parsed); rewrite ?decide_False by exact Hne;
          now apply Hsame.
      * unfold handleNotification.
        destruct (f_params parsed); rewrite ?decide_False by exact Hne;
          now apply Hsame.
Qed.

Lemma delivered_step (w : world) (e : event) :
  onSessionUpdate (client (step w e)) = onSessionUpdate (client w)
  /\ delivered (step w e) =
     delivered w ++
     (if onSessionUpdate (client w)
      then from_option (fun n => [n]) [] (update_of e)
      else []).
Proof.
  assert (Hsame : forall w' : world,
             onSessionUpdate (client w') = onSessionUpdate (client w) ->
             delivered w' = delivered w ->
             onSessionUpdate (client w') = onSessionUpdate (client w)
             /\ delivered w' = delivered w ++ (if onSessionUpdate (client w) then [] else [])).
  { intros w' H1 H2. split; [exact H1 |]. rewrite H2.
    destruct (onSessionUpdate (client w)); now rewrite app_nil_r. }
  destruct e as [method args | line | id | id err | ms | optionId | | kf];
    cbn [Bridge.step].
  - now apply Hsame.
  - apply delivered_handleMessage.
  - destruct (decide _); now apply Hsame.
  - destruct (decide _); now apply Hsame.
  - unfold elapse.
    destruct (bridge_frame_fire_all
                (filter (fun tm => (due tm <= now w + ms)%N) (timers w))
                (with_clock (now w + ms)
                   (filter (fun tm => ¬ (due tm <= now w + ms)%N) (timers w)) w))
      as [E1 E2].
    now apply Hsame.
  - destruct (tables_decide_permission (selected optionId) w)
      as (_ & _ & _ & _ & _ & E1 & E2).
    now apply Hsame.
  - destruct (tables_decide_permission cancelled w)
      as (_ & _ & _ & _ & _ & E1 & E2).
    now apply Hsame.
  - destruct (tables_file_done kf w) as (_ & _ & _ & _ & _ & E1 & E2).
    now apply Hsame.
Qed.

(** Once the callback is set, it is handed exactly the [session/update]
    notifications that arrive, each once and in arrival order; before it is
    set, the notifications that arrive are dropped. *)
Theorem updates_delivered_in_order (events : list event) (w : world) :
  delivered (run events (listen w)) = delivered w ++ omap update_of events
  /\ forall agent : string, delivered (run events (new_world agent)) = [].
Proof.
  split.
  - assert (H : onSessionUpdate (client (run events (listen w))) = true
                /\ delivered (run events (listen w)) =
                   delivered w ++ omap update_of events).
    { induction events as [| e events [IH1 IH2]] using rev_ind.
      - split; [reflexivity |]. cbn. now rewrite app_nil_r.
      - rewrite run_app. cbn [Bridge.run foldl].
        destruct (delivered_step (run events (listen w)) e) as [E1 E2].
        rewrite E1, E2, IH1, IH2, omap_app, <- app_assoc.
        split; reflexivity. }
    apply H.
  - intros agent.
    assert (H : onSessionUpdate (client (run events (new_world agent))) = false
                /\ delivered (run events (new_world agent)) = []).
    { induction events as [| e events [IH1 IH2]] using rev_ind; [now split |].
      rewrite run_app. cbn [Bridge.run foldl].
      destruct (delivered_step (run events (new_world agent)) e) as [E1 E2].
      rewrite E1, E2, IH1, IH2. now split. }
    apply H.
Qed.

End WithFileAccess.

End BridgeRunFacts.

(** ** The traffic recorder: pausing, clearing and the filtered view *)

Module TrafficViewFacts.
Import TrafficView.

Lemma lower_char_space (c : ascii) : is_space (lower_char c) = is_space c.
Proof. destruct c as [[] [] [] [] [] [] [] []]; reflexivity. Qed.

Lemma lower_char_twice (c : ascii) : lower_char (lower_char c) = lower_char c.
Proof. destruct c as [[] [] [] [] [] [] [] []]; reflexivity. Qed.

Lemma toLowerCase_twice (s : string) : toLowerCase (toLowerCase s) = toLowerCase s.
Proof.
  induction s as [| c s IH]; [reflexivity |].
  cbn [toLowerCase]. now rewrite lower_char_twice, IH.
Qed.

Lemma trimStart_lower (s : string) :
  trimStart (toLowerCase s) = toLowerCase (trimStart s).
Proof.
  induction s as [| c s IH]; [reflexivity |].
  cbn [toLowerCase trimStart]. rewrite lower_char_space.
  now destruct (is_space c).
Qed.

Lemma trimEnd_lower (s : string) :
  trimEnd (toLowerCase s) = toLowerCase (trimEnd s).
Proof.
  induction s as [| c s IH]; [reflexivity |].
  cbn [toLowerCase trimEnd]. rewrite IH, lower_char_space.
  destruct (trimEnd s); cbn [toLowerCase]; [| reflexivity].
  now destruct (is_space c).
Qed.

Lemma trim_lower (s : string) : trim (toLowerCase s) = toLowerCase (trim s).
Proof. unfold trim. now rewrite trimStart_lower, trimEnd_lower. Qed.

Lemma trim_blank (s : string) : blank s = true -> trim s = "".
Proof.
  unfold trim. induction s as [| c s IH]; [reflexivity |].
  cbn [blank trimStart]. intros [Hc Hs]%andb_true_iff. rewrite Hc. now apply IH.
Qed.

Section WithStringify.

Context (stringify : json -> string).

Lemma filter_sublist {A : Type} (f : A -> bool) (l : list A) :
  sublist (List.filter f l) l.
Proof.
  induction l as [| x l IH]; [constructor |].
  cbn [List.filter]. destruct (f x); now constructor.
Qed.

(** The filtered view shows recorded entries only, in the order they were
    recorded; with the filter [all] and an empty search it shows them all;
    a search of white space only is no search; and the search does not tell
    upper case from lower case in the query. *)
Theorem filtered_view_shows_entries (st : Traffic.store) :
  sublist (filteredEntries stringify st) (Traffic.entries st)
  /\ filteredEntries stringify (clearSearch (setFilter Traffic.f_all st)) =
     Traffic.entries st
  /\ (forall query : string,
        blank query = true ->
        filteredEntries stringify (setSearch query st) =
        filteredEntries stringify (clearSearch st))
  /\ (forall query : string,
        filteredEntries stringify (setSearch (toLowerCase query) st) =
        filteredEntries stringify (setSearch query st)).
Proof.
  split; [| split; [| split]].
  - unfold filteredEntries.
    assert (H : sublist
                  match Traffic.filter st with
                  | Traffic.f_all => Traffic.entries st
                  | Traffic.f_requests =>
                      List.filter (has_type Traffic.request) (Traffic.entries st)
                  | Traffic.f_responses =>
                      List.filter (has_type Traffic.response) (Traffic.entries st)
                  | Traffic.f_notifications =>
                      List.filter (has_type Traffic.notification) (Traffic.entries st)
                  end (Traffic.entries st)).
    { destruct (Traffic.filter st); first [reflexivity | apply filter_sublist]. }
    destruct (truthy _); [| exact H].
    etransitivity; [apply filter_sublist | exact H].
  - reflexivity.
  - intros query Hq. unfold filteredEntries, setSearch, clearSearch.
    cbn [Traffic.searchQuery Traffic.filter Traffic.entries setSearch].
    now rewrite (trim_blank query Hq).
  - intros query. unfold filteredEntries, setSearch.
    cbn [Traffic.searchQuery Traffic.filter Traffic.entries].
    now rewrite trim_lower, toLowerCase_twice.
Qed.

End WithStringify.

Lemma filtered_view_shows_entries_witness :
  filteredEntries (fun _ => "{}")
    (setSearch (String (ascii_of_nat 9) " ")
       (Traffic.addEntry
          {| Traffic.in_direction := Traffic.dir_out;
             Traffic.in_type := Traffic.request;
             Traffic.in_method := "initialize"; Traffic.in_requestId := None;
             Traffic.in_payload := JNull; Traffic.in_error := None |}
          "e1" 1 Traffic.initial)) =
  [{| Traffic.id := "e1"; Traffic.timestamp := 1;
      Traffic.direction := Traffic.dir_out; Traffic.type := Traffic.request;
      Traffic.method := "initialize"; Traffic.requestId := None;
      Traffic.payload := JNull; Traffic.error := None |}].
Proof.
  destruct (filtered_view_shows_entries (fun _ => "{}")
              (Traffic.addEntry
                 {| Traffic.in_direction := Traffic.dir_out;
                    Traffic.in_type := Traffic.request;
                    Traffic.in_method := "initialize"; Traffic.in_requestId := None;
                    Traffic.in_payload := JNull; Traffic.in_error := None |}
                 "e1" 1 Traffic.initial))
    as (_ & _ & Hblank & _).
  rewrite (Hblank (String (ascii_of_nat 9) " ")) by reflexivity.
  reflexivity.
Defined.

(** *** Pausing and clearing *)

Lemma taken_in_snoc (ops : list Traffic.op) (o : Traffic.op) :
  taken_in (ops ++ [o]) = take_in (taken_in ops) o.
Proof. unfold taken_in. now rewrite foldl_app. Qed.

Lemma traffic_run_snoc (ops : list Traffic.op) (o : Traffic.op) (st : Traffic.store) :
  Traffic.run (ops ++ [o]) st = Traffic.apply_op (Traffic.run ops st) o.
Proof. unfold Traffic.run. now rewrite foldl_app. Qed.

(** Whatever calls are made on the recorder, starting from the empty one,
    it holds the most recent 500 of the entries handed over while it was not
    paused since it was last cleared: an entry handed over during a pause is
    dropped, not queued, and clearing does not end a pause. *)
Theorem recorder_holds_what_it_took_in (ops : list Traffic.op) :
  Traffic.isPaused (Traffic.run ops Traffic.initial) = fst (taken_in ops)
  /\ Traffic.entries (Traffic.run ops Traffic.initial) =
     Traffic.most_recent 500 (snd (taken_in ops)).
Proof.
  induction ops as [| o ops [IHp IHe]] using rev_ind; [now split |].
  rewrite traffic_run_snoc, taken_in_snoc.
  destruct o as [e uuid now | |]; cbn [Traffic.apply_op take_in].
  - rewrite TrafficFacts.addEntry_isPaused, TrafficFacts.addEntry_entries, IHp, IHe.
    destruct (taken_in ops) as [[] acc]; cbn [fst snd]; (split; [reflexivity |]);
      [reflexivity |].
    apply TrafficFacts.most_recent_snoc. unfold Traffic.MAX_ENTRIES. lia.
  - cbn [fst snd]. split; [exact IHp | reflexivity].
  - cbn [fst snd]. split; [| exact IHe]. cbn. now rewrite IHp.
Qed.

End TrafficViewFacts.

(** ** The session store: the transcript under notifications *)

Module TranscriptFacts.
Import Acp Types Session Transcript.

Lemma fmap_alter_same {A B : Type} (g : A -> B) (f : A -> A) (i : nat) (l : list A) :
  (forall x, g (f x) = g x) -> g <$> alter f i l = g <$> l.
Proof.
  intros H. revert i. induction l as [| x l IH]; intros [| i]; cbn; try reflexivity.
  - now rewrite H.
  - now rewrite IH.
Qed.

Lemma prefix_refl (s : string) : String.prefix s s = true.
Proof.
  induction s as [| c s IH]; [reflexivity |].
  cbn. destruct (ascii_dec c c); [exact IH | congruence].
Qed.

Lemma prefix_append (s t : string) : String.prefix s (String.append s t) = true.
Proof.
  induction s as [| c s IH]; [now destruct t |].
  change (String.append (String c s) t) with (String c (String.append s t)).
  cbn. destruct (ascii_dec c c); [exact IH | congruence].
Qed.

Lemma prefix_trans (s t u : string) :
  String.prefix s t = true -> String.prefix t u = true -> String.prefix s u = true.
Proof.
  revert t u. induction s as [| c s IH]; intros [| d t] [| e u]; cbn;
    try reflexivity; try discriminate.
  destruct (ascii_dec c d) as [-> |]; [| discriminate].
  destruct (ascii_dec d e) as [-> |]; [| discriminate].
  destruct (ascii_dec e e); [apply IH | congruence].
Qed.

Lemma update_in_message_settled (tcid : string) (f : ToolCallInfo -> ToolCallInfo)
    (m : ChatMessage) :
  settled_part (update_in_message tcid f m) = settled_part m.
Proof. unfold update_in_message. now destruct (Types.toolCalls m). Qed.

(** What one notification does to the list of messages: it changes tool
    calls only, or the last message only and neither its identifier, role
    nor time, or it appends one message, of another role than the last. *)
Lemma messages_handleSessionUpdate (uuid : string) (now : Z)
    (n : SessionNotification) (st : store) :
  let after := messages (handleSessionUpdate uuid now n st) in
  settled_part <$> after = settled_part <$> messages st
  \/ (exists f : ChatMessage -> ChatMessage,
        after = alter f (length (messages st) - 1)%nat (messages st)
        /\ forall m, (id (f m), role (f m), timestamp (f m)) = (id m, role m, timestamp m)
                     /\ String.prefix (content m) (content (f m)) = true)
  \/ (exists m : ChatMessage,
        after = messages st ++ [m]
        /\ (role <$> last (messages st)) <> Some (role m)).
Proof.
  unfold handleSessionUpdate, last_message.
  assert (Hsame : forall st', messages st' = messages st ->
            settled_part <$> messages st' = settled_part <$> messages st
            \/ (exists f : ChatMessage -> ChatMessage,
                  messages st' = alter f (length (messages st) - 1)%nat (messages st)
                  /\ forall m, (id (f m), role (f m), timestamp (f m)) =
                               (id m, role m, timestamp m)
                               /\ String.prefix (content m) (content (f m)) = true)
            \/ (exists m : ChatMessage,
                  messages st' = messages st ++ [m]
                  /\ (role <$> last (messages st)) <> Some (role m))).
  { intros st' ->. now left. }
  assert (Halter : forall f : ChatMessage -> ChatMessage,
            (forall m, (id (f m), role (f m), timestamp (f m)) =
                       (id m, role m, timestamp m)
                       /\ String.prefix (content m) (content (f m)) = true) ->
            settled_part <$> messages (on_last_message f st) =
            settled_part <$> messages st
            \/ (exists f' : ChatMessage -> ChatMessage,
                  messages (on_last_message f st) =
                  alter f' (length (messages st) - 1)%nat (messages st)
                  /\ forall m, (id (f' m), role (f' m), timestamp (f' m)) =
                               (id m, role m, timestamp m)
                               /\ String.prefix (content m) (content (f' m)) = true)
            \/ (exists m : ChatMessage,
                  messages (on_last_message f st) = messages st ++ [m]
                  /\ (role <$> last (messages st)) <> Some (role m))).
  { intros f Hf. right. left. exists f. now split. }
  assert (Hpush : forall m : ChatMessage,
            (role <$> last (messages st)) <> Some (role m) ->
            settled_part <$> messages (push_message m st) =
            settled_part <$> messages st
            \/ (exists f' : ChatMessage -> ChatMessage,
                  messages (push_message m st) =
                  alter f' (length (messages st) - 1)%nat (messages st)
                  /\ forall m, (id (f' m), role (f' m), timestamp (f' m)) =
                               (id m, role m, timestamp m)
                               /\ String.prefix (content m) (content (f' m)) = true)
            \/ (exists m' : ChatMessage,
                  messages (push_message m st) = messages st ++ [m']
                  /\ (role <$> last (messages st)) <> Some (role m'))).
  { intros m Hm. right. right. exists m. now split. }
  cbn zeta.
  destruct (update n) as [c | c | c | tcid ttl knd sts locs | tcid sts ttl | m | cmds | other].
  - destruct (last (messages st)) as [lastMsg |] eqn:Hlast.
    + destruct (decide (role lastMsg = user)) as [Hr | Hr].
      * destruct c; [| now apply Hsame].
        apply Halter. intros m0. split; [reflexivity |].
        first [apply prefix_append | apply prefix_refl].
      * apply Hpush. cbn. congruence.
    + now apply Hpush.
  - destruct (last (messages st)) as [lastMsg |] eqn:Hlast.
    + destruct (decide (role lastMsg = assistant)) as [Hr | Hr].
      * destruct c; [| now apply Hsame].
        apply Halter. intros m0. split; [reflexivity |].
        first [apply prefix_append | apply prefix_refl].
      * apply Hpush. cbn. congruence.
    + now apply Hpush.
  - destruct (last (messages st)) as [lastMsg |] eqn:Hlast.
    + destruct (decide (role lastMsg = assistant)) as [Hr | Hr].
      * destruct c; [| now apply Hsame].
        apply Halter. intros m0. split; [reflexivity |].
        first [apply prefix_append | apply prefix_refl].
      * apply Hpush. cbn. congruence.
    + now apply Hpush.
  - cbn [messages set_toolCalls].
    destruct (last (messages st)) as [lastMsg |] eqn:Hlast.
    + destruct (decide (role lastMsg = assistant)); [| now apply Hsame].
      apply Halter. intros m0. split; [reflexivity | apply prefix_refl].
    + now apply Hsame.
  - destruct (toolCalls st !! tcid); [| now apply Hsame].
    left. cbn [messages set_messages set_toolCalls].
    rewrite <- list_fmap_compose. apply list_fmap_ext.
    intros i m _. apply update_in_message_settled.
  - destruct (truthy m); now apply Hsame.
  - destruct cmds; now apply Hsame.
  - now apply Hsame.
Qed.

Lemma alternate_snoc (roles : list Role) (r : Role) :
  alternate roles = true -> last roles <> Some r -> alternate (roles ++ [r]) = true.
Proof.
  induction roles as [| r1 [| r2 roles] IH]; intros Halt Hlast; [reflexivity | |].
  - cbn in *. rewrite bool_decide_eq_false_2 by congruence. reflexivity.
  - cbn [alternate app] in *. apply andb_true_iff in Halt as [H1 H2].
    rewrite H1. cbn [andb]. apply IH; [exact H2 | exact Hlast].
Qed.

Lemma alternating_handleSessionUpdate (uuid : string) (now : Z)
    (n : SessionNotification) (st : store) :
  alternating (messages st) = true ->
  alternating (messages (handleSessionUpdate uuid now n st)) = true.
Proof.
  intros H. unfold alternating in *.
  destruct (messages_handleSessionUpdate uuid now n st)
    as [Hsame | [(f & -> & Hf) | (m & -> & Hm)]].
  - assert (Hroles : role <$> messages (handleSessionUpdate uuid now n st) =
                     role <$> messages st).
    { transitivity ((fun p => snd (fst (fst (fst p)))) <$>
                      (settled_part <$> messages (handleSessionUpdate uuid now n st))).
      - now rewrite <- list_fmap_compose.
      - rewrite Hsame. now rewrite <- list_fmap_compose. }
    now rewrite Hroles.
  - rewrite fmap_alter_same; [exact H |]. intros m. destruct (Hf m) as [Hm _].
    congruence.
  - rewrite fmap_app. apply alternate_snoc; [exact H |]. now rewrite fmap_last.
Qed.

(** Notifications never put two messages of the same role next to each
    other: in a transcript built by notifications, as the replay of a resumed
    session is, the roles alternate, and a chunk whose role is that of the
    last message is merged into it. *)
Theorem notifications_keep_roles_alternating
    (ns : list (string * Z * SessionNotification)) (st : store) :
  alternating (messages st) = true ->
  alternating (messages (handle_all ns st)) = true.
Proof.
  revert st. induction ns as [| [[uuid now] n] ns IH]; intros st H; [exact H |].
  cbn [handle_all foldl]. apply IH. now apply alternating_handleSessionUpdate.
Qed.

Lemma notifications_keep_roles_alternating_witness :
  role <$> messages (handle_all Examples.two_questions initial) =
  [user; assistant; user]
  /\ alternating (messages (handle_all Examples.two_questions initial)) = true.
Proof.
  split; [reflexivity |].
  apply (notifications_keep_roles_alternating Examples.two_questions initial).
  reflexivity.
Defined.

(** *** Earlier messages *)

Lemma length_handleSessionUpdate (uuid : string) (now : Z)
    (n : SessionNotification) (st : store) :
  (length (messages st) <= length (messages (handleSessionUpdate uuid now n st))
   <= S (length (messages st)))%nat.
Proof.
  destruct (messages_handleSessionUpdate uuid now n st)
    as [Hsame | [(f & -> & Hf) | (m & -> & Hm)]].
  - apply (f_equal length) in Hsame. rewrite !length_fmap in Hsame. lia.
  - rewrite length_alter. lia.
  - rewrite length_app. cbn. lia.
Qed.

Lemma settled_handleSessionUpdate (uuid : string) (now : Z)
    (n : SessionNotification) (st : store) (i : nat) :
  (S i < length (messages st))%nat ->
  settled_part <$> (messages (handleSessionUpdate uuid now n st) !! i) =
  settled_part <$> (messages st !! i).
Proof.
  intros Hi.
  destruct (messages_handleSessionUpdate uuid now n st)
    as [Hsame | [(f & -> & Hf) | (m & -> & Hm)]].
  - rewrite <- !list_lookup_fmap. now rewrite Hsame.
  - rewrite list_lookup_alter_ne by lia. reflexivity.
  - rewrite lookup_app_l by lia. reflexivity.
Qed.

Lemma grown_handleSessionUpdate (uuid : string) (now : Z)
    (n : SessionNotification) (st : store) (i : nat) :
  (i < length (messages st))%nat ->
  grown (messages st !! i) (messages (handleSessionUpdate uuid now n st) !! i).
Proof.
  intros Hi. destruct (lookup_lt_is_Some_2 _ _ Hi) as [m Hm]. rewrite Hm.
  destruct (messages_handleSessionUpdate uuid now n st)
    as [Hsame | [(f & -> & Hf) | (m' & -> & _)]].
  - assert (H : settled_part <$> (messages (handleSessionUpdate uuid now n st) !! i) =
                Some (settled_part m)).
    { rewrite <- list_lookup_fmap, Hsame, list_lookup_fmap, Hm. reflexivity. }
    destruct (messages (handleSessionUpdate uuid now n st) !! i) as [m' |];
      [| discriminate H].
    cbn [fmap option_fmap option_map] in H.
    assert (Hs : settled_part m' = settled_part m) by congruence.
    unfold settled_part in Hs. inversion Hs.
    split; [congruence |].
    replace (content m') with (content m) by congruence. apply prefix_refl.
  - destruct (decide (i = length (messages st) - 1)%nat) as [-> | Hne].
    + rewrite list_lookup_alter_eq, Hm. cbn. apply Hf.
    + rewrite list_lookup_alter_ne by congruence. rewrite Hm.
      split; [reflexivity | apply prefix_refl].
  - rewrite lookup_app_l by exact Hi. rewrite Hm.
    split; [reflexivity | apply prefix_refl].
Qed.

Lemma grown_trans (a b c : option ChatMessage) : grown a b -> grown b c -> grown a c.
Proof.
  destruct a as [ma |], b as [mb |], c as [mc |]; cbn; try tauto.
  intros [H1 H2] [H3 H4]. split; [congruence |].
  exact (prefix_trans _ _ _ H2 H4).
Qed.

(** Notifications never remove or reorder messages, and each adds at most
    one; a message keeps its identifier, role and time, and its text only
    grows at the end; and once a message is no longer the last one, its text
    and its thought stay as they are for good. *)
Theorem notifications_keep_earlier_messages
    (ns : list (string * Z * SessionNotification)) (st : store) :
  (length (messages st) <= length (messages (handle_all ns st))
   <= length (messages st) + length ns)%nat
  /\ (forall i : nat,
        (i < length (messages st))%nat ->
        grown (messages st !! i) (messages (handle_all ns st) !! i))
  /\ (forall i : nat,
        (S i < length (messages st))%nat ->
        settled_part <$> (messages (handle_all ns st) !! i) =
        settled_part <$> (messages st !! i)).
Proof.
  revert st. induction ns as [| [[uuid now] n] ns IH]; intros st.
  - cbn. split; [lia |]. split; [| reflexivity].
    intros i Hi. destruct (lookup_lt_is_Some_2 _ _ Hi) as [m ->].
    split; [reflexivity | apply prefix_refl].
  - cbn [handle_all foldl length].
    pose proof (length_handleSessionUpdate uuid now n st) as Hlen.
    destruct (IH (handleSessionUpdate uuid now n st)) as (IHlen & IHgrown & IHset).
    fold (handle_all ns (handleSessionUpdate uuid now n st)) in *.
    split; [lia |]. split.
    + intros i Hi. eapply grown_trans; [now apply grown_handleSessionUpdate |].
      apply IHgrown. lia.
    + intros i Hi.
      rewrite IHset by lia. now apply settled_handleSessionUpdate.
Qed.

Lemma notifications_keep_earlier_messages_witness :
  settled_part <$>
    (messages (handle_all Examples.second_exchange
                 (handle_all Examples.first_exchange initial)) !! 0%nat) =
  settled_part <$> (messages (handle_all Examples.first_exchange initial) !! 0%nat).
Proof.
  apply (proj2 (proj2 (notifications_keep_earlier_messages Examples.second_exchange
                         (handle_all Examples.first_exchange initial)))).
  vm_compute. lia.
Defined.

(** *** Tool calls *)

Lemma last_alter {A : Type} (f : A -> A) (l : list A) :
  last (alter f (length l - 1)%nat l) = f <$> last l.
Proof.
  induction l as [| x l IH] using rev_ind; [reflexivity |].
  rewrite length_app. cbn [length].
  replace (length l + 1 - 1)%nat with (length l + 0)%nat by lia.
  rewrite alter_app_r. cbn. now rewrite !last_snoc.
Qed.

Lemma toolCalls_after_announce (uuid : string) (now : Z)
    (sid tcid ttl : string) (knd : option string) (sts : option ToolCallStatus)
    (locs : option (list string)) (st : store) :
  toolCalls (handleSessionUpdate uuid now (announce sid tcid ttl knd sts locs) st) =
  <[tcid := announced tcid ttl knd sts locs]> (toolCalls st).
Proof.
  unfold handleSessionUpdate, announce, last_message. cbn [update].
  destruct (last (messages st)) as [m |]; [| reflexivity].
  now destruct (decide _).
Qed.

(** A tool call that is announced and then updated: the table holds the
    record the announcement made (kind [other] and status [pending] when
    the announcement left them out, whatever it held under that identifier
    before), then the same record with the new status; no other entry of
    the table changes; and the announcement is added at the end of the tool
    calls of the last message when that is one of the assistant, and to no
    message otherwise. *)
Theorem announced_tool_call_is_updated
    (uuid1 uuid2 : string) (now1 now2 : Z) (sid tcid ttl : string)
    (knd : option string) (sts : option ToolCallStatus)
    (locs : option (list string)) (s : ToolCallStatus) (st : store) :
  let st1 := handleSessionUpdate uuid1 now1 (announce sid tcid ttl knd sts locs) st in
  let st2 := handleSessionUpdate uuid2 now2
               (Reference.status_update sid tcid (Some s) None) st1 in
  toolCalls st1 !! tcid = Some (announced tcid ttl knd sts locs)
  /\ toolCalls st2 !! tcid = Some (set_status s (announced tcid ttl knd sts locs))
  /\ (forall other : string,
        other <> tcid -> toolCalls st2 !! other = toolCalls st !! other)
  /\ match last (messages st) with
     | Some m =>
         if decide (role m = assistant)
         then last (messages st1) =
              Some (set_message_toolCalls
                      (Some (default [] (Types.toolCalls m) ++
                             [announced tcid ttl knd sts locs])) m)
         else messages st1 = messages st
     | None => messages st1 = messages st
     end.
Proof.
  intros st1 st2.
  assert (H1 : toolCalls st1 = <[tcid := announced tcid ttl knd sts locs]> (toolCalls st))
    by apply toolCalls_after_announce.
  assert (H2 : toolCalls st2 =
               <[tcid := set_status s (announced tcid ttl knd sts locs)]> (toolCalls st1)).
  { unfold st2, handleSessionUpdate, Reference.status_update. cbn [update].
    rewrite H1, lookup_insert_eq. reflexivity. }
  split; [rewrite H1; apply lookup_insert_eq |].
  split; [rewrite H2; apply lookup_insert_eq |].
  split.
  - intros other Hne. rewrite H2, H1, !lookup_insert_ne by congruence. reflexivity.
  - unfold st1, handleSessionUpdate, announce, last_message. cbn [update].
    destruct (last (messages st)) as [m |] eqn:Hlast; [| reflexivity].
    destruct (decide (role m = assistant)); [| reflexivity].
    cbn [messages set_toolCalls on_last_message set_messages].
    now rewrite last_alter, Hlast.
Qed.

End TranscriptFacts.

(** ** The session store: completed attempts *)

Module CompletedAttemptFacts.
Import Acp Types Session TaskLogic Outcomes.

Section OnDone.

Context {A B : Type} (P : world -> Prop).

Lemma post_bind_done (m : M A) (k : A -> M B) (w : world) :
  (forall a w', post (k a) w' (on_done P)) -> post (bind m k) w (on_done P).
Proof.
  intros Hk. apply post_bind. unfold post.
  destruct (m w) as [[a | e |] w']; cbn [fst snd]; [apply Hk | exact I | exact I].
Qed.

Lemma post_bind_keeps_done (J : world -> Prop) (m : M A) (k : A -> M B) (w : world) :
  keeps J m -> J w ->
  (forall a w', J w' -> post (k a) w' (on_done P)) ->
  post (bind m k) w (on_done P).
Proof.
  intros Hm Hw Hk. apply post_bind. specialize (Hm w Hw). unfold post in *.
  destruct (m w) as [[a | e |] w']; cbn [fst snd] in *; [now apply Hk | exact I | exact I].
Qed.

End OnDone.

(** Interruptions leave the list of saved sessions alone. *)
Lemma savedSessions_handleSessionUpdate (uuid : string) (now : Z)
    (n : SessionNotification) (st : store) :
  savedSessions (handleSessionUpdate uuid now n st) = savedSessions st.
Proof.
  unfold handleSessionUpdate, last_message, on_last_message, push_message.
  destruct (update n) as [c | c | c | tcid ttl knd sts locs | tcid sts ttl | m | cmds | other].
  - destruct (last (messages st)) as [m |]; [| easy].
    destruct (decide _); [| easy]. now destruct c.
  - destruct (last (messages st)) as [m |]; [| easy].
    destruct (decide _); [| easy]. now destruct c.
  - destruct (last (messages st)) as [m |]; [| easy].
    destruct (decide _); [| easy]. now destruct c.
  - destruct (last (messages st)) as [m |]; [| easy].
    now destruct (decide _).
  - now destruct (toolCalls st !! tcid).
  - now destruct (truthy m).
  - now destruct cmds.
  - easy.
Qed.

Lemma savedSessions_interrupted (i : interrupt) (st : store) (out : list effect) :
  savedSessions (fst (carry_out [i] (st, out))) = savedSessions st.
Proof.
  unfold carry_out. cbn [foldl fst snd].
  destruct i as [uuid now n | m | | |]; cbn [interrupted].
  - apply savedSessions_handleSessionUpdate.
  - unfold selectAuthMethod, answer_auth. now destruct (authMethodResolver st).
  - unfold cancelAuthSelection, answer_auth. now destruct (authMethodResolver st).
  - unfold cancelConnection_begin, answer_auth.
    cbn [authMethodResolver set_connectionAborted].
    destruct (authMethodResolver st);
      cbn [acpClient set_pendingAuthAgentName set_pendingAuthMethods
           set_authMethodResolver set_connectionAborted];
      now destruct (acpClient st).
  - reflexivity.
Qed.

Lemma savedSessions_carry_out (pre : list interrupt) (st : store) (out : list effect) :
  savedSessions (fst (carry_out pre (st, out))) = savedSessions st.
Proof.
  revert st out. induction pre as [| i pre IH]; intros st out; [reflexivity |].
  rewrite carry_out_cons.
  pose proof (savedSessions_interrupted i st out) as H.
  destruct (carry_out [i] (st, out)) as [st1 out1]. cbn [fst] in H.
  now rewrite IH.
Qed.

(** A [try]/[catch]/[finally] whose [catch] block rethrows returns only
    when its [try] block does. *)
Lemma post_try_done {A : Type} (P : world -> Prop) (m : M A)
    (handler : string -> M A) (f : store -> store) (w : world) :
  (forall (message : string) (w' : world) (a : A),
      fst (handler message w') <> Done a) ->
  post m w (on_done (fun w' => P {| state := f (state w'); script := script w';
                                    log := log w' |})) ->
  post (finally (catch m handler) f) w (on_done P).
Proof.
  intros Hh Hm. unfold post, finally, catch in *.
  destruct (m w) as [[a | message |] w']; cbn [fst snd on_done] in *;
    [exact Hm | | exact I].
  specialize (Hh message w').
  destruct (handler message w') as [[a | message' |] w'']; cbn [fst snd on_done] in *;
    [now destruct (Hh a) | exact I | exact I].
Qed.

Lemma on_done_exec {A : Type} (P : world -> Prop) (m : M A) (st : store)
    (items : list item) (a : A) :
  post m {| state := st; script := items; log := [] |} (on_done P) ->
  fst (exec m st items) = Done a -> P (snd (exec m st items)).
Proof.
  unfold post, exec.
  destruct (m {| state := st; script := items; log := [] |}) as [[u | message |] w'];
    cbn [fst snd on_done]; [auto | discriminate | discriminate].
Qed.

(** *** [createSession] *)

Lemma save_session_created (agentName cwd : string) (e : env) (supports : bool)
    (r : NewSessionResponse) (w : world) :
  post (save_session agentName cwd e supports r) w
    (on_done (fun w' =>
                created agentName cwd e
                  {| state := set_isConnecting false (set_isLoading false (state w'));
                     script := script w'; log := log w' |})).
Proof.
  unfold save_session.
  apply post_bind, post_modify. apply post_bind, post_get.
  apply post_bind. unfold call. apply post_bind, post_emit.
  apply post_await; cbn [state script log]; [| intros; exact I].
  intros pre rest s Hs. destruct s as [v | message]; [| exact I].
  apply post_bind, post_modify. apply post_bind, post_emit.
  apply post_bind, post_modify. apply post_modify.
  cbn [on_done state script log].
  match goal with
  | |- context [carry_out pre (?st1, ?out1)] =>
      destruct (carry_out_frame pre st1 out1) as (H1 & _ & _ & ds & H4 & H5);
      pose proof (savedSessions_carry_out pre st1 out1) as H6;
      destruct (carry_out pre (st1, out1)) as [st2 out2]
  end.
  cbn [fst snd currentSession savedSessions set_savedSessions set_currentSession]
    in H1, H4, H6.
  subst out2.
  unfold created, transcript, save_attempted. cbn [state log fst snd].
  unfold set_up_modes, set_up_models.
  destruct (modes r), (models r); cbn;
    (split; [reflexivity |]; split; [reflexivity |]; split; [reflexivity |];
     split; [reflexivity |]; split;
     [ rewrite !existsb_app; cbn; now rewrite !orb_true_r
     | exists (Acp.sessionId r), supports; rewrite H1, H6;
       split; [reflexivity | apply last_snoc] ]).
Qed.

(** When [createSession] returns, the store is connected with an empty
    transcript, whatever notifications came during the attempt; the current
    session is a new one with the generated identifier, the agent's name,
    the directory, the agent's session identifier and the title "Session"
    with the date; it is the last of the saved sessions, which have gone out
    to be stored; and the two progress flags are down. *)
Theorem createSession_returns_connected
    (agentName cwd : string) (e : env) (st : store) (items : list item) :
  fst (exec (createSession agentName cwd e) st items) = Done tt ->
  created agentName cwd e (snd (exec (createSession agentName cwd e) st items)).
Proof.
  apply on_done_exec.
  unfold createSession. apply post_bind, post_modify.
  apply post_try_done; [intros message w' a; discriminate |].
  apply post_bind_done. intros initResponse w1.
  unfold after_handshake.
  apply post_bind_done. intros _ w2.
  apply post_bind_done. intros _ w3.
  apply post_bind_done. intros sessionResponse w4.
  apply save_session_created.
Qed.

Lemma createSession_returns_connected_witness :
  created "agent" "/work" Examples.env_1
    (snd (exec (createSession "agent" "/work" Examples.env_1) initial
            Examples.create_succeeds)).
Proof.
  apply (createSession_returns_connected "agent" "/work" Examples.env_1 initial
           Examples.create_succeeds).
  vm_compute. reflexivity.
Defined.

(** *** [resumeSession] *)

Lemma within_consumable (items : list item) : consumable (within items).
Proof.
  intros w pre used rest [before Hb] Hs _.
  exists (before ++ (happens <$> pre) ++ used). cbn [script].
  rewrite Hb, Hs. now rewrite <- !app_assoc.
Qed.

Lemma replayed_consumable (items : list item) : consumable (replayed items).
Proof.
  intros w pre used rest (before & used0 & Hitems & Ht) Hscript Hused.
  destruct (carry_out_frame pre (state w) (log w)) as (_ & _ & H3 & _).
  exists before, (used0 ++ (happens <$> pre) ++ used). cbn [state script]. split.
  - rewrite Hitems, Hscript. now rewrite <- !app_assoc.
  - rewrite H3, Ht, !notifications_in_app, notifications_in_happens,
      (notifications_in_settles used Hused), app_nil_r.
    now rewrite assemble_all_app.
Qed.

Lemma replayed_assignable (items : list item) (f : store -> store) :
  keeps_transcript f -> assignable (replayed items) f.
Proof.
  intros Hf w (before & used & Hitems & Ht).
  exists before, used. cbn [state script]. split; [exact Hitems |].
  now rewrite Hf.
Qed.

Lemma replayed_emittable (items : list item) (e : effect) :
  emittable (replayed items) e.
Proof. intros w H. exact H. Qed.

Lemma quiet_keeps_transcript (f : store -> store) :
  quiet_assignment f -> keeps_transcript f.
Proof. intros Hf st. apply Hf. Qed.

(** From the assignment of the current session to the end of the [try]
    block. *)
Lemma resume_tail_resumed (savedSession : SavedSession) (e : env)
    (items : list item) (w : world) :
  replayed items w ->
  post (modify (fun st => set_isConnected true
                            (set_currentSession (Some savedSession) st)) ;;
        emit (trackEvent "SessionResumed" (agentName savedSession) true) ;;
        modify (touch_saved savedSession (now e)) ;;
        st <- get ;;
        call (saveSessionsToStore (savedSessions st)) ;;
        ret tt) w
    (on_done (fun w' =>
                resumed savedSession e items
                  {| state := set_isLoading false (state w');
                     script := script w'; log := log w' |})).
Proof.
  intros Hw.
  apply post_bind, post_modify. apply post_bind, post_emit.
  apply post_bind, post_modify. apply post_bind, post_get.
  apply post_bind. unfold call. apply post_bind, post_emit.
  match goal with
  | |- post await ?w3 _ =>
      assert (Hw3 : replayed items w3);
      [| set (w3' := w3) in *;
         assert (Hc : currentSession (state w3') = Some (touch (now e) savedSession))
           by reflexivity;
         assert (Hi : isConnected (state w3') = true) by reflexivity;
         assert (Hl : existsb is_save (log w3') = true)
           by (cbn [log w3']; rewrite existsb_app; cbn; apply orb_true_r);
         clearbody w3' ]
  end.
  { apply (replayed_emittable items).
    apply (replayed_assignable items (touch_saved savedSession (now e)));
      [intros st; reflexivity |].
    apply (replayed_emittable items).
    apply (replayed_assignable items
             (fun st => set_isConnected true
                          (set_currentSession (Some savedSession) st)));
      [intros st; reflexivity | exact Hw]. }
  apply post_await; [| intros; exact I].
  intros pre rest s Hs. destruct s as [v | message]; [| exact I].
  apply post_ret. cbn [on_done].
  pose proof (replayed_consumable items w3' pre [settles (fulfilled v)] rest Hw3 Hs
                ltac:(repeat constructor)) as Hr.
  destruct (carry_out_frame pre (state w3') (log w3')) as (H1 & H2 & _ & ds & H4 & H5).
  destruct (carry_out pre (state w3', log w3')) as [st4 out4].
  cbn [fst snd] in *. subst out4.
  split; [now rewrite <- Hi |]. split; [reflexivity |].
  split; [now rewrite <- Hc |].
  split; [unfold save_attempted; cbn [log]; rewrite existsb_app, Hl; reflexivity |].
  destruct Hr as (before & used & Hitems & Ht).
  exists before, used. now split.
Qed.

(** When [resumeSession] returns, the store is connected, the current
    session is the one that was passed with its time of last use set, the
    saved sessions have gone out to be stored, the progress flag is down, and
    the transcript is the empty one with the notifications applied that were
    handled after it was cleared: what was in it before the call is gone. *)
Theorem resumeSession_returns_replayed
    (savedSession : SavedSession) (e : env) (st : store) (items : list item) :
  fst (exec (resumeSession savedSession e) st items) = Done tt ->
  resumed savedSession e items (snd (exec (resumeSession savedSession e) st items)).
Proof.
  apply on_done_exec.
  unfold resumeSession. apply post_bind, post_modify.
  apply post_try_done; [intros message w' a; discriminate |].
  pose proof (within_consumable items) as HW.
  assert (Ha : forall f, assignable (within items) f) by (intros f w H; exact H).
  assert (He : forall e0, emittable (within items) e0) by (intros e0 w H; exact H).
  eapply post_bind_keeps_done with (J := within items).
  { unfold call_agent. apply keeps_bind; [now apply keeps_call |].
    intros v. destruct v; first [apply keeps_ret | apply keeps_block]. }
  { now exists []. }
  intros agentInstance w1 Hw1.
  eapply post_bind_keeps_done with (J := within items);
    [now apply keeps_call | exact Hw1 |].
  intros _ w2 Hw2.
  eapply post_bind_keeps_done with (J := within items);
    [now apply keeps_modify | exact Hw2 |].
  intros _ w3 Hw3.
  eapply post_bind_keeps_done with (J := within items); [| exact Hw3 |].
  { unfold client_initialize, call_init.
    apply keeps_bind; [apply keeps_the_client |]. intros agent.
    apply keeps_bind; [now apply keeps_request |].
    intros v. destruct v; first [apply keeps_ret | apply keeps_block]. }
  intros initResponse w4 [before Hw4].
  apply post_bind, post_modify.
  eapply post_bind_keeps_done with (J := replayed items).
  { apply keeps_load_or_authenticate.
    - apply replayed_consumable.
    - intros f Hf. now apply replayed_assignable, quiet_keeps_transcript.
    - intros e0 _. apply replayed_emittable. }
  { exists before, []. cbn [state script]. split; [exact Hw4 | reflexivity]. }
  intros _ w5 Hw5.
  now apply resume_tail_resumed.
Qed.

Lemma resumeSession_returns_replayed_witness :
  resumed Examples.saved_1 Examples.env_1 Examples.resume_succeeds
    (snd (exec (resumeSession Examples.saved_1 Examples.env_1)
            Examples.in_conversation Examples.resume_succeeds)).
Proof.
  apply (resumeSession_returns_replayed Examples.saved_1 Examples.env_1
           Examples.in_conversation Examples.resume_succeeds).
  vm_compute. reflexivity.
Defined.

End CompletedAttemptFacts.

(** ** The session store: the actions of a connected session *)

Module ActionFacts.
Import Acp Types Session Actions Transcript.

(** *** Rules *)

Section Maintains.

Context (I : store -> Prop).

Lemma maintains_pure {A : Type} (a : A) : maintains I (pure a).
Proof. intros sc H. exact H. Qed.

Lemma maintains_raise {A : Type} (e : string) : maintains I (raise (A := A) e).
Proof. intros sc H. exact H. Qed.

Lemma maintains_read : maintains I read.
Proof. intros sc H. exact H. Qed.

Lemma maintains_send_out (r : request) : maintains I (send_out r).
Proof. intros sc H. exact H. Qed.

Lemma maintains_assign (f : store -> store) :
  (forall st, I st -> I (f st)) -> maintains I (assign f).
Proof. intros Hf sc H. now apply Hf. Qed.

Lemma maintains_and_then {A B : Type} (m : action A) (k : A -> action B) :
  maintains I m -> (forall a, maintains I (k a)) -> maintains I (and_then m k).
Proof.
  intros Hm Hk sc H. specialize (Hm sc H). unfold and_then.
  destruct (m sc) as [[a | e |] sc']; cbn [snd] in *; [now apply Hk | exact Hm | exact Hm].
Qed.

Lemma maintains_ensure {A : Type} (m : action A) (f : store -> store) :
  maintains I m -> (forall st, I st -> I (f st)) -> maintains I (ensure m f).
Proof.
  intros Hm Hf sc H. specialize (Hm sc H). unfold ensure.
  destruct (m sc) as [[a | e |] sc']; cbn [snd store_now] in *;
    [now apply Hf | now apply Hf | exact Hm].
Qed.

Lemma maintains_wait :
  (forall uuid now n st, I st -> I (handleSessionUpdate uuid now n st)) ->
  maintains I wait.
Proof.
  intros Hn [st l out] H. unfold wait. cbn [store_now to_come sent] in *.
  revert st H. induction l as [| [uuid now n | r | e] l IH]; intros st H;
    cbn [settle_with snd store_now]; try exact H.
  apply IH. now apply Hn.
Qed.

Lemma maintains_ask (r : request) :
  (forall uuid now n st, I st -> I (handleSessionUpdate uuid now n st)) ->
  maintains I (ask r).
Proof.
  intros Hn. unfold ask. apply maintains_and_then; [apply maintains_send_out |].
  intros _. now apply maintains_wait.
Qed.

End Maintains.

Lemma settle_with_arriving (ns : list (string * Z * SessionNotification))
    (l : list occurrence) (st : store) (out : list request) :
  settle_with (arriving ns ++ l) st out = settle_with l (handle_all ns st) out.
Proof.
  revert st. induction ns as [| [[uuid now] n] ns IH]; intros st; [reflexivity |].
  cbn [arriving fmap list_fmap app settle_with handle_all foldl]. apply IH.
Qed.

(** *** [sendPrompt] *)

Lemma holds_prompt_handleSessionUpdate (i : nat) (text id0 : string) (sentAt : Z)
    (uuid : string) (now : Z) (n : SessionNotification) (st : store) :
  holds_prompt i text id0 sentAt st ->
  holds_prompt i text id0 sentAt (handleSessionUpdate uuid now n st).
Proof.
  intros (m & Hm & Hid & Hrole & Htime & Hpre).
  pose proof (TranscriptFacts.grown_handleSessionUpdate uuid now n st i
                (lookup_lt_Some _ _ _ Hm)) as Hg.
  rewrite Hm in Hg.
  destruct (messages (handleSessionUpdate uuid now n st) !! i) as [m' |] eqn:E;
    [| contradiction].
  destruct Hg as [Hsame Hgrow]. exists m'. split; [exact E |].
  injection Hsame as H1 H2 H3.
  split; [congruence |]. split; [congruence |]. split; [congruence |].
  exact (TranscriptFacts.prefix_trans _ _ _ Hpre Hgrow).
Qed.

Lemma first_words_short (text : string) :
  (String.length (first_words text) <= 53)%nat
  /\ ((String.length text <= 50)%nat -> first_words text = text).
Proof.
  unfold first_words.
  assert (Hsub : forall (n : nat) (s : string),
             (String.length (substring 0 n s) <= n)%nat
             /\ ((String.length s <= n)%nat -> substring 0 n s = s)).
  { induction n as [| n IH]; intros s.
    - destruct s as [| c s]; cbn; (split; [lia |]); [reflexivity | lia].
    - destruct s as [| c s]; cbn; [split; [lia | reflexivity] |].
      destruct (IH s) as [H1 H2]. split; [lia |].
      intros H. f_equal. apply H2. lia. }
  destruct (Hsub 50%nat text) as [H1 H2].
  assert (Hlen : forall s t, String.length (String.append s t) =
                             (String.length s + String.length t)%nat).
  { induction s as [| c s IH]; intros t; [reflexivity |].
    change (String.append (String c s) t) with (String c (String.append s t)).
    cbn. now rewrite IH. }
  assert (Hnil : forall s, String.append s "" = s).
  { induction s as [| c s IH]; [reflexivity |].
    change (String.append (String c s) "") with (String c (String.append s "")).
    now rewrite IH. }
  split.
  - rewrite Hlen. destruct (50 <? String.length text)%nat; cbn; lia.
  - intros Hshort. rewrite (H2 Hshort).
    destruct (Nat.ltb_spec 50 (String.length text)); [lia | apply Hnil].
Qed.

Lemma sendPrompt_connected (text uuid : string) (sentAt answeredAt : Z) (sc : scene)
    (agent : string) (session : SavedSession) :
  acpClient (store_now sc) = Some agent ->
  currentSession (store_now sc) = Some session ->
  sendPrompt text uuid sentAt answeredAt sc =
  ensure (prompt_exchange text answeredAt session) (set_isLoading false)
    {| store_now := set_isLoading true
                      (push_message (prompt_message text uuid sentAt) (store_now sc));
       to_come := to_come sc; sent := sent sc |}.
Proof.
  intros Hclient Hsession. unfold sendPrompt. unfold and_then at 1. unfold read at 1.
  now rewrite Hclient, Hsession.
Qed.

Lemma prompt_exchange_maintains (I : store -> Prop) (text : string) (answeredAt : Z)
    (session : SavedSession) :
  (forall uuid now n st, I st -> I (handleSessionUpdate uuid now n st)) ->
  (forall st, I st -> I (retitle (first_words text) answeredAt st)) ->
  maintains I (prompt_exchange text answeredAt session).
Proof.
  intros Hn Hr. unfold prompt_exchange.
  apply maintains_and_then; [now apply maintains_ask |].
  intros response. apply maintains_and_then; [apply maintains_send_out |].
  intros _. apply maintains_and_then; [apply maintains_read |].
  intros st. destruct (_ && _); [| apply maintains_pure].
  apply maintains_and_then; [now apply maintains_assign |].
  intros _. apply maintains_and_then; [apply maintains_read |].
  intros st0. apply maintains_and_then; [now apply maintains_ask |].
  intros _. apply maintains_pure.
Qed.



Lemma ask_answered (r : request) (ns : list (string * Z * SessionNotification))
    (v : reply) (rest : list occurrence) (sc : scene) :
  to_come sc = arriving ns ++ answers v :: rest ->
  ask r sc = (Done v, {| store_now := handle_all ns (store_now sc); to_come := rest;
                         sent := sent sc ++ [r] |}).
Proof.
  intros H. unfold ask, and_then, send_out, wait. cbn [to_come store_now sent].
  now rewrite H, settle_with_arriving.
Qed.

Lemma ask_failed (r : request) (ns : list (string * Z * SessionNotification))
    (e : string) (rest : list occurrence) (sc : scene) :
  to_come sc = arriving ns ++ fails e :: rest ->
  ask r sc = (Threw e, {| store_now := handle_all ns (store_now sc); to_come := rest;
                          sent := sent sc ++ [r] |}).
Proof.
  intros H. unfold ask, and_then, send_out, wait. cbn [to_come store_now sent].
  now rewrite H, settle_with_arriving.
Qed.

Lemma session_handle_all (ns : list (string * Z * SessionNotification)) (st : store) :
  currentSession (handle_all ns st) = currentSession st
  /\ savedSessions (handle_all ns st) = savedSessions st
  /\ isConnected (handle_all ns st) = isConnected st.
Proof.
  revert st. induction ns as [| [[uuid now] n] ns IH]; intros st; [easy |].
  cbn [handle_all foldl].
  destruct (IH (handleSessionUpdate uuid now n st)) as (H1 & H2 & H3).
  fold (handle_all ns (handleSessionUpdate uuid now n st)) in *.
  destruct (TaskLogic.frame_handleSessionUpdate uuid now n st) as [E1 E3].
  rewrite H1, H2, H3, E1, E3.
  now rewrite CompletedAttemptFacts.savedSessions_handleSessionUpdate.
Qed.

(** The first exchange gives the session its title, for a prompt of ASCII
    characters: when the answer to the
    prompt comes while the transcript holds exactly two messages, the current
    session, and with it its entry among the saved sessions, gets the first
    50 characters of the prompt as its title, followed by "..." when the
    prompt is longer, and the time of the answer; then the saved sessions go
    out to be stored. With any other number of messages the session is left
    as it is and nothing is stored. *)
Theorem first_exchange_titles_the_session
    (text uuid : string) (sentAt answeredAt : Z) (sc : scene)
    (agent : string) (session : SavedSession)
    (ns : list (string * Z * SessionNotification)) (stopReason : option string)
    (rest : list occurrence) :
  ascii_only text = true ->
  acpClient (store_now sc) = Some agent ->
  currentSession (store_now sc) = Some session ->
  let at_answer :=
    handle_all ns (set_isLoading true
                     (push_message (prompt_message text uuid sentAt) (store_now sc))) in
  let asked := bridge_prompt (Types.sessionId session) text in
  let tracked :=
    track "PromptSent"
      [("messageLength", pretty (String.length text));
       ("stopReason", default "unknown" (truthy stopReason))] in
  (length (messages at_answer) = 2%nat ->
   to_come sc = arriving ns ++ answers (prompt_response stopReason)
                               :: answers no_value :: rest ->
   sendPrompt text uuid sentAt answeredAt sc =
   (Done tt,
    {| store_now := set_isLoading false (retitle (first_words text) answeredAt at_answer);
       to_come := rest;
       sent := sent sc ++
               [asked; tracked;
                save_sessions
                  (savedSessions (retitle (first_words text) answeredAt at_answer))] |})
   /\ currentSession (retitle (first_words text) answeredAt at_answer) =
      Some (set_title_and_time (first_words text) answeredAt session))
  /\ (length (messages at_answer) <> 2%nat ->
      to_come sc = arriving ns ++ answers (prompt_response stopReason) :: rest ->
      sendPrompt text uuid sentAt answeredAt sc =
      (Done tt,
       {| store_now := set_isLoading false at_answer; to_come := rest;
          sent := sent sc ++ [asked; tracked] |}))
  /\ (String.length (first_words text) <= 53)%nat
  /\ ((String.length text <= 50)%nat -> first_words text = text).
Proof.
  intros _ Hclient Hsession at_answer asked tracked.
  destruct (session_handle_all ns
              (set_isLoading true
                 (push_message (prompt_message text uuid sentAt) (store_now sc))))
    as (Hcur & _ & _).
  fold at_answer in Hcur.
  cbn [currentSession set_isLoading push_message set_messages] in Hcur.
  rewrite Hsession in Hcur.
  split; [| split; [| apply first_words_short]].
  - intros Hlen Hcome.
    rewrite (sendPrompt_connected text uuid sentAt answeredAt sc agent session
               Hclient Hsession).
    split; [| unfold retitle; now rewrite Hcur].
    unfold ensure, prompt_exchange. unfold and_then at 1.
    rewrite (ask_answered asked ns (prompt_response stopReason)
               (answers no_value :: rest)) by exact Hcome.
    cbn [store_now to_come sent]. fold at_answer.
    unfold and_then at 1. unfold send_out at 1.
    unfold and_then at 1. unfold read at 1. cbn [store_now to_come sent].
    rewrite Hlen, Hcur. cbn [Nat.eqb present andb].
    unfold and_then at 1. unfold assign at 1. cbn [store_now to_come sent].
    unfold and_then at 1. unfold read at 1. cbn [store_now to_come sent].
    unfold and_then at 1.
    rewrite (ask_answered _ [] no_value rest) by reflexivity.
    cbn [pure handle_all foldl store_now to_come sent stop_reason].
    now rewrite <- !app_assoc.
  - intros Hlen Hcome.
    rewrite (sendPrompt_connected text uuid sentAt answeredAt sc agent session
               Hclient Hsession).
    unfold ensure, prompt_exchange. unfold and_then at 1.
    rewrite (ask_answered asked ns (prompt_response stopReason) rest) by exact Hcome.
    cbn [store_now to_come sent]. fold at_answer.
    unfold and_then at 1. unfold send_out at 1.
    unfold and_then at 1. unfold read at 1. cbn [store_now to_come sent].
    apply Nat.eqb_neq in Hlen. rewrite Hlen. cbn [andb pure stop_reason].
    now rewrite <- !app_assoc.
Qed.

Lemma first_exchange_titles_the_session_witness :
  ss_title <$>
    currentSession
      (store_now
         (snd (sendPrompt "Tell me about the weather in Paris and in Rome in the spring"
                 "u1" 5 9
                 {| store_now := Examples.just_connected;
                    to_come := arriving [("m2", 7, Reference.text_chunk assistant "s" "Mild.")]
                               ++ [answers (prompt_response (Some "end_turn"));
                                   answers no_value];
                    sent := [] |}))) =
  Some "Tell me about the weather in Paris and in Rome in ...".
Proof.
  destruct (first_exchange_titles_the_session
              "Tell me about the weather in Paris and in Rome in the spring" "u1" 5 9
              {| store_now := Examples.just_connected;
                 to_come := arriving [("m2", 7, Reference.text_chunk assistant "s" "Mild.")]
                            ++ [answers (prompt_response (Some "end_turn"));
                                answers no_value];
                 sent := [] |}
              "agent-1" Examples.saved_1
              [("m2", 7, Reference.text_chunk assistant "s" "Mild.")]
              (Some "end_turn") [] eq_refl eq_refl eq_refl)
    as [H _].
  destruct H as [-> _]; reflexivity.
Defined.

(** *** [setMode] and [setModel] *)

(** [setMode] without a bridge or a session throws and sends nothing. With
    them it sends the request; when the agent accepts, the current mode is
    the requested one, whatever mode the notifications that arrived in the
    meantime announced, and when the agent refuses, the store is what those
    notifications made of it. [setModel] does the same with the model. *)
Theorem requested_mode_wins (modeId modelId : string) (sc : scene) :
  (acpClient (store_now sc) = None \/ currentSession (store_now sc) = None ->
   setMode modeId sc = (Threw "No active session", sc)
   /\ setModel modelId sc = (Threw "No active session", sc))
  /\ (forall (agent : string) (session : SavedSession)
             (ns : list (string * Z * SessionNotification)) (rest : list occurrence),
        acpClient (store_now sc) = Some agent ->
        currentSession (store_now sc) = Some session ->
        (forall r : reply,
            to_come sc = arriving ns ++ answers r :: rest ->
            setMode modeId sc =
            (Done tt,
             {| store_now := set_currentModeId modeId (handle_all ns (store_now sc));
                to_come := rest;
                sent := sent sc ++ [bridge_setMode (Types.sessionId session) modeId] |})
            /\ setModel modelId sc =
               (Done tt,
                {| store_now := set_currentModelId modelId (handle_all ns (store_now sc));
                   to_come := rest;
                   sent := sent sc ++
                           [bridge_setSessionModel (Types.sessionId session) modelId] |}))
        /\ (forall e : string,
              to_come sc = arriving ns ++ fails e :: rest ->
              setMode modeId sc =
              (Threw e,
               {| store_now := handle_all ns (store_now sc); to_come := rest;
                  sent := sent sc ++ [bridge_setMode (Types.sessionId session) modeId] |})
              /\ setModel modelId sc =
                 (Threw e,
                  {| store_now := handle_all ns (store_now sc); to_come := rest;
                     sent := sent sc ++
                             [bridge_setSessionModel (Types.sessionId session) modelId] |}))).
Proof.
  split.
  - intros [H | H]; unfold setMode, setModel, and_then, read; cbn [fst snd];
      rewrite H; [now split |]. now destruct (acpClient (store_now sc)).
  - intros agent session ns rest Hclient Hsession. split.
    + intros r Hcome. unfold setMode, setModel. unfold and_then at 1 3.
      unfold read. rewrite Hclient, Hsession. unfold and_then.
      now rewrite !(ask_answered _ ns r rest) by exact Hcome.
    + intros e Hcome. unfold setMode, setModel. unfold and_then at 1 3.
      unfold read. rewrite Hclient, Hsession. unfold and_then.
      now rewrite !(ask_failed _ ns e rest) by exact Hcome.
Qed.

Lemma requested_mode_wins_witness :
  currentModeId
    (store_now
       (snd (setMode "code"
               {| store_now := Examples.just_connected;
                  to_come := arriving [("m1", 1, Examples.mode_changed "ask")]
                             ++ [answers no_value];
                  sent := [] |}))) = "code".
Proof.
  destruct (requested_mode_wins "code" "" 
              {| store_now := Examples.just_connected;
                 to_come := arriving [("m1", 1, Examples.mode_changed "ask")]
                            ++ [answers no_value];
                 sent := [] |}) as [_ H].
  destruct (H "agent-1" Examples.saved_1 [("m1", 1, Examples.mode_changed "ask")] []
              eq_refl eq_refl) as [Hdone _].
  destruct (Hdone no_value eq_refl) as [-> _]. reflexivity.
Defined.

(** *** [disconnect] *)

(** [disconnect] with a bridge: when the bridge's disconnect fails, the
    call throws with nothing reset, so the store still shows the session as
    connected and still holds the bridge; when it succeeds, and when there
    was no bridge, the session, the transcript, the modes, the commands and
    the models are reset after one telemetry event, and the saved sessions
    stay. *)
Theorem disconnect_resets_or_fails (now1 now2 : Z) (sc : scene) :
  (forall (agent : string) (ns : list (string * Z * SessionNotification))
          (e : string) (rest : list occurrence),
      acpClient (store_now sc) = Some agent ->
      to_come sc = arriving ns ++ fails e :: rest ->
      disconnect now1 now2 sc =
      (Threw e, {| store_now := handle_all ns (store_now sc); to_come := rest;
                   sent := sent sc ++ [bridge_disconnect agent] |})
      /\ currentSession (handle_all ns (store_now sc)) = currentSession (store_now sc)
      /\ isConnected (handle_all ns (store_now sc)) = isConnected (store_now sc))
  /\ (forall (agent : string) (ns : list (string * Z * SessionNotification))
             (r : reply) (rest : list occurrence),
        acpClient (store_now sc) = Some agent ->
        to_come sc = arriving ns ++ answers r :: rest ->
        exists properties : list (string * string),
          disconnect now1 now2 sc =
          (Done tt,
           {| store_now := forget_session
                             (set_acpClient None (handle_all ns (store_now sc)));
              to_come := rest;
              sent := sent sc ++ [bridge_disconnect agent;
                                  track "SessionDisconnected" properties] |}))
  /\ (acpClient (store_now sc) = None ->
      exists properties : list (string * string),
        disconnect now1 now2 sc =
        (Done tt,
         {| store_now := forget_session (store_now sc); to_come := to_come sc;
            sent := sent sc ++ [track "SessionDisconnected" properties] |}))
  /\ (forall st : store,
        currentSession (forget_session st) = None
        /\ isConnected (forget_session st) = false
        /\ transcript (forget_session st) = ([], ∅)
        /\ savedSessions (forget_session st) = savedSessions st
        /\ acpClient (forget_session st) = acpClient st).
Proof.
  split; [| split; [| split]].
  - intros agent ns e rest Hclient Hcome.
    destruct (session_handle_all ns (store_now sc)) as (H1 & _ & H3).
    split; [| now split].
    unfold disconnect. unfold and_then at 1. unfold read at 1. rewrite Hclient.
    cbn zeta. unfold and_then at 1 2.
    now rewrite (ask_failed _ ns e rest) by exact Hcome.
  - intros agent ns r rest Hclient Hcome. eexists.
    unfold disconnect. unfold and_then at 1. unfold read at 1. rewrite Hclient.
    cbn zeta. unfold and_then at 1 2.
    rewrite (ask_answered _ ns r rest) by exact Hcome.
    unfold assign at 1. cbn [store_now to_come sent].
    unfold and_then, read, send_out, assign. cbn [store_now to_come sent].
    rewrite <- app_assoc. reflexivity.
  - intros Hclient. eexists.
    unfold disconnect. unfold and_then at 1. unfold read at 1. rewrite Hclient.
    cbn zeta. unfold and_then, pure, read, send_out, assign.
    cbn [store_now to_come sent]. reflexivity.
  - intros st. repeat split.
Qed.

Lemma disconnect_resets_or_fails_witness :
  fst (disconnect 100 200
         {| store_now := Examples.connected; to_come := [fails "kill failed"];
            sent := [] |}) = Threw "kill failed"
  /\ isConnected
       (store_now
          (snd (disconnect 100 200
                  {| store_now := Examples.connected; to_come := [fails "kill failed"];
                     sent := [] |}))) = true.
Proof.
  destruct (disconnect_resets_or_fails 100 200
              {| store_now := Examples.connected; to_come := [fails "kill failed"];
                 sent := [] |}) as [H _].
  destruct (H "agent-1" [] "kill failed" [] eq_refl eq_refl) as (-> & _ & _).
  split; reflexivity.
Defined.

(** *** [deleteSession] *)

Lemma filter_twice {A : Type} (f : A -> bool) (l : list A) :
  List.filter f (List.filter f l) = List.filter f l.
Proof.
  induction l as [| x l IH]; [reflexivity |].
  cbn [List.filter]. destruct (f x) eqn:E; [| exact IH].
  cbn [List.filter]. now rewrite E, IH.
Qed.

(** [deleteSession] removes every saved session with the identifier and
    keeps the others in their order, whether the store reports the list
    stored or not; it leaves the current session alone, also when that is
    the session deleted; and deleting twice is deleting once. *)
Theorem deleteSession_removes_the_entry (sessionId : string) (sc : scene) :
  let kept := List.filter (fun s => negb (bool_decide (ss_id s = sessionId)))
                          (savedSessions (store_now sc)) in
  savedSessions (store_now (snd (deleteSession sessionId sc))) = kept
  /\ currentSession (store_now (snd (deleteSession sessionId sc))) =
     currentSession (store_now sc)
  /\ Forall (fun s => ss_id s <> sessionId) kept
  /\ savedSessions
       (store_now (snd (deleteSession sessionId (snd (deleteSession sessionId sc))))) =
     kept.
Proof.
  intros kept.
  assert (Hkeep : forall (l : list SavedSession) (c : option SavedSession) (sc0 : scene),
             savedSessions (store_now sc0) = l -> currentSession (store_now sc0) = c ->
             savedSessions (store_now (snd (deleteSession sessionId sc0))) =
             List.filter (fun s => negb (bool_decide (ss_id s = sessionId))) l
             /\ currentSession (store_now (snd (deleteSession sessionId sc0))) = c).
  { intros l c sc0 Hl Hc.
    assert (Hm : maintains
                   (fun st => savedSessions st =
                              List.filter (fun s => negb (bool_decide (ss_id s = sessionId))) l
                              /\ currentSession st = c)
                   (st <~ read ;;; ask (save_sessions (savedSessions st)) ;;; pure tt)).
    { apply maintains_and_then; [apply maintains_read |]. intros st.
      apply maintains_and_then; [| intros _; apply maintains_pure].
      apply maintains_ask. intros uuid now n st0 [H1 H2].
      rewrite CompletedAttemptFacts.savedSessions_handleSessionUpdate.
      destruct (TaskLogic.frame_handleSessionUpdate uuid now n st0) as [E1 _].
      now rewrite E1. }
    unfold deleteSession. unfold and_then at 1. unfold assign at 1.
    apply Hm. cbn [store_now savedSessions currentSession set_savedSessions].
    now rewrite Hl, Hc. }
  destruct (Hkeep _ _ sc eq_refl eq_refl) as [H1 H2].
  split; [exact H1 |]. split; [exact H2 |]. split.
  - apply Forall_forall. intros s Hs. unfold kept in Hs.
    apply list_elem_of_In, filter_In in Hs as [_ Hs].
    apply negb_true_iff, bool_decide_eq_false in Hs. exact Hs.
  - destruct (Hkeep _ _ (snd (deleteSession sessionId sc)) H1 eq_refl) as [H3 _].
    rewrite H3. apply filter_twice.
Qed.

(** *** The error stream of the agent *)

Lemma detectPhase_lower (line : string) :
  detectPhase (toLowerCase line) = detectPhase line.
Proof. unfold detectPhase. now rewrite TrafficViewFacts.toLowerCase_twice. Qed.

Lemma lines_of_snoc (agent : string) (events : list AgentStderr) (s : AgentStderr) :
  lines_of agent (events ++ [s]) =
  lines_of agent events ++
  (if decide (stderr_agent_id s = agent) then [stderr_line s] else []).
Proof.
  unfold lines_of. rewrite List.filter_app, fmap_app. cbn [List.filter].
  destruct (decide (stderr_agent_id s = agent)) as [H | H].
  - now rewrite bool_decide_eq_true_2.
  - now rewrite bool_decide_eq_false_2.
Qed.

Lemma onStderr_fold (agent : string) (events : list AgentStderr) (p : progress) :
  startupLogs (foldl (onStderr agent) p events) =
  startupLogs p ++ lines_of agent events
  /\ startupPhase (foldl (onStderr agent) p events) =
     default (startupPhase p) (last (omap detectPhase (lines_of agent events))).
Proof.
  split.
  - induction events as [| s events IH] using rev_ind.
    + cbn. now rewrite app_nil_r.
    + rewrite foldl_app, lines_of_snoc. cbn [foldl]. unfold onStderr at 1.
      destruct (decide (stderr_agent_id s = agent)).
      * destruct (detectPhase (stderr_line s)); cbn [startupLogs];
          now rewrite IH, app_assoc.
      * now rewrite IH, app_nil_r.
  - induction events as [| s events IH] using rev_ind; [reflexivity |].
    rewrite foldl_app, lines_of_snoc. cbn [foldl]. unfold onStderr at 1.
    destruct (decide (stderr_agent_id s = agent)).
    + rewrite omap_app.
      change (omap detectPhase [stderr_line s])
        with (match detectPhase (stderr_line s) with
              | Some ph => [ph]
              | None => []
              end).
      destruct (detectPhase (stderr_line s)) as [ph |]; cbn [startupPhase].
      * now rewrite last_snoc.
      * now rewrite app_nil_r.
    + now rewrite app_nil_r.
Qed.

Lemma lines_of_app (agent : string) (events1 events2 : list AgentStderr) :
  lines_of agent (events1 ++ events2) =
  lines_of agent events1 ++ lines_of agent events2.
Proof. unfold lines_of. now rewrite List.filter_app, fmap_app. Qed.

(** While [createSession] starts an agent whose error stream carries lines
    of ASCII characters, the log shown is the lines of that agent's error
    stream since the listener was registered, in order, the lines of other
    agents left out. The phase shown is the one detected in the last of
    those lines in which one is detected, among the lines that came since
    [createSession] last set the phase itself, and otherwise the phase
    [createSession] set: "starting" at the reset, "initializing" when the
    agent is spawned and the listener registered, "connecting" when the
    bridge is created. The phase detected in a line does not depend on
    upper and lower case. *)
Theorem startup_progress_follows_stderr (agent : string)
    (registered creating connecting : list AgentStderr) :
  Forall (fun s => ascii_only (stderr_line s) = true)
    (registered ++ creating ++ connecting) ->
  let shown (own : string) (events : list AgentStderr) :=
    default own (last (omap detectPhase (lines_of agent events))) in
  (startupLogs (progress_registered agent registered) =
   lines_of agent registered
   /\ startupPhase (progress_registered agent registered) =
      shown "starting" registered)
  /\ (startupLogs (progress_initializing agent registered creating) =
      lines_of agent (registered ++ creating)
      /\ startupPhase (progress_initializing agent registered creating) =
         shown "initializing" creating)
  /\ (startupLogs (progress_connecting agent registered creating connecting) =
      lines_of agent (registered ++ creating ++ connecting)
      /\ startupPhase (progress_connecting agent registered creating connecting) =
         shown "connecting" connecting)
  /\ (forall line : string,
        ascii_only line = true ->
        detectPhase (toLowerCase line) = detectPhase line).
Proof.
  intros _ shown. unfold progress_connecting, progress_initializing,
    progress_registered.
  destruct (onStderr_fold agent registered progress_reset) as [L1 P1].
  set (p1 := foldl (onStderr agent) progress_reset registered) in *.
  destruct (onStderr_fold agent creating (set_startupPhase "initializing" p1))
    as [L2 P2].
  set (p2 := foldl (onStderr agent) (set_startupPhase "initializing" p1) creating)
    in *.
  destruct (onStderr_fold agent connecting (set_startupPhase "connecting" p2))
    as [L3 P3].
  cbn [set_startupPhase startupLogs startupPhase progress_reset] in *.
  repeat split.
  - exact L1.
  - exact P1.
  - rewrite L2, L1. now rewrite lines_of_app.
  - exact P2.
  - rewrite L3, L2, L1. now rewrite !lines_of_app, app_assoc.
  - exact P3.
  - intros line _. apply detectPhase_lower.
Qed.

Lemma startup_progress_follows_stderr_witness :
  startupLogs
    (progress_connecting "agent-1"
       [{| stderr_agent_id := "agent-1"; stderr_line := "npm WARN Downloading" |}]
       [{| stderr_agent_id := "agent-2"; stderr_line := "Building" |}]
       [{| stderr_agent_id := "agent-1"; stderr_line := "added 3 PACKAGES" |};
        {| stderr_agent_id := "agent-1"; stderr_line := "ready" |}]) =
  ["npm WARN Downloading"; "added 3 PACKAGES"; "ready"]
  /\ startupPhase
       (progress_connecting "agent-1"
          [{| stderr_agent_id := "agent-1"; stderr_line := "npm WARN Downloading" |}]
          [{| stderr_agent_id := "agent-2"; stderr_line := "Building" |}]
          [{| stderr_agent_id := "agent-1"; stderr_line := "added 3 PACKAGES" |};
           {| stderr_agent_id := "agent-1"; stderr_line := "ready" |}]) =
     "installing"
  /\ startupPhase
       (progress_initializing "agent-1"
          [{| stderr_agent_id := "agent-1"; stderr_line := "npm WARN Downloading" |}]
          [{| stderr_agent_id := "agent-2"; stderr_line := "Building" |}]) =
     "initializing".
Proof.
  destruct (startup_progress_follows_stderr "agent-1"
              [{| stderr_agent_id := "agent-1"; stderr_line := "npm WARN Downloading" |}]
              [{| stderr_agent_id := "agent-2"; stderr_line := "Building" |}]
              [{| stderr_agent_id := "agent-1"; stderr_line := "added 3 PACKAGES" |};
               {| stderr_agent_id := "agent-1"; stderr_line := "ready" |}])
    as (_ & [_ P2] & [L3 P3] & _).
  - repeat constructor.
  - split; [exact L3 | split; [exact P3 | exact P2]].
Defined.

End ActionFacts.

(** * Telemetry: what reaches the SDK *)

Module TelemetryFacts.
Import Telemetry.

Section WithSdk.

Context (throws : sdk_call -> bool).

Lemma tracking_without_instance (c : sdk_call) (st : state) :
  appInsights st = false -> tracking c st = st.
Proof.
  intros H. unfold tracking. rewrite H.
  destruct (isEnabled st); reflexivity.
Qed.

Lemma apply_op_without_instance (o : op) (st : state) :
  appInsights st = false ->
  appInsights (apply_op throws st o) = false
  /\ calls (apply_op throws st o) = calls st.
Proof.
  intros H.
  destruct o; cbn [apply_op]; unfold trackEvent, trackError, trackMetric;
    try (rewrite tracking_without_instance by exact H; split; [exact H | reflexivity]).
  unfold setTelemetryEnabled. rewrite H.
  destruct enabled; cbn; split; (exact H || reflexivity).
Qed.

Lemma run_without_instance (ops : list op) (st : state) :
  appInsights st = false ->
  appInsights (run throws ops st) = false
  /\ calls (run throws ops st) = calls st.
Proof.
  revert st. induction ops as [|o ops IH]; intros st H; [split; [exact H | reflexivity]|].
  unfold run in *. cbn [foldl].
  destruct (apply_op_without_instance o st H) as [Hi Hc].
  destruct (IH _ Hi) as [Hi' Hc'].
  split; [exact Hi' | rewrite Hc'; exact Hc].
Qed.

Lemma apply_op_appInsights (o : op) (st : state) :
  appInsights (apply_op throws st o) = appInsights st.
Proof.
  destruct o; cbn [apply_op]; unfold trackEvent, trackError, trackMetric;
    try (unfold tracking; destruct (negb (isEnabled st) || negb (appInsights st));
         reflexivity).
  unfold setTelemetryEnabled.
  destruct (negb enabled && appInsights st); reflexivity.
Qed.

Lemma filter_snoc_out {A : Type} (p : A -> bool) (l : list A) (x : A) :
  p x = false -> List.filter p (l ++ [x]) = List.filter p l.
Proof.
  intros H. rewrite List.filter_app. cbn [List.filter]. rewrite H.
  apply app_nil_r.
Qed.

(** Started with telemetry disabled, the module never calls the
    SDK: whatever is tracked afterwards, and even after telemetry is
    switched on again, no call is made, because only [initTelemetry]
    creates the instance. *)
Theorem telemetry_disabled_at_start_sends_nothing
    (getMachineId : Bridge.outcome string) (ops : list op) :
  calls (run throws ops (initTelemetry throws false getMachineId start)) = [].
Proof.
  destruct (run_without_instance ops
              (initTelemetry throws false getMachineId start) eq_refl) as [_ H].
  rewrite H. reflexivity.
Qed.

(** When the initialisation fails (a call on the SDK throws), the
    instance is dropped and nothing tracked afterwards reaches the SDK:
    the calls stay those of the failed initialisation. *)
Theorem telemetry_failed_start_sends_nothing_more
    (getMachineId : Bridge.outcome string) (st : state) (ops : list op)
    (Hfailed : appInsights (initTelemetry throws true getMachineId st) = false) :
  calls (run throws ops (initTelemetry throws true getMachineId st))
  = calls (initTelemetry throws true getMachineId st)
  /\ isEnabled (initTelemetry throws true getMachineId st) = true.
Proof.
  destruct (run_without_instance ops _ Hfailed) as [_ H].
  split; [exact H|].
  unfold initTelemetry.
  destruct (attempt throws _ (calls st)). reflexivity.
Qed.

(** While telemetry is switched off, no tracking call reaches the
    SDK: from a state with [isEnabled] false, operations none of which
    switches it on again add no [trackEvent], [trackException] or
    [trackMetric] call, and leave it off. *)
Theorem no_tracking_while_switched_off (st : state) (ops : list op)
    (Hoff : isEnabled st = false)
    (Hstays : forallb (fun o => negb (switches_on o)) ops = true) :
  List.filter is_tracking (calls (run throws ops st))
  = List.filter is_tracking (calls st)
  /\ isTelemetryEnabled (run throws ops st) = false.
Proof.
  revert st Hoff. induction ops as [|o ops IH]; intros st Hoff;
    [split; [reflexivity | exact Hoff]|].
  cbn [forallb] in Hstays. apply andb_prop in Hstays as [Ho Hrest].
  unfold run in *. cbn [foldl].
  assert (Hstep : isEnabled (apply_op throws st o) = false
                  /\ List.filter is_tracking (calls (apply_op throws st o))
                     = List.filter is_tracking (calls st)).
  { destruct o; cbn [apply_op]; unfold trackEvent, trackError, trackMetric;
      try (unfold tracking; rewrite Hoff; cbn [negb orb]; split;
           [exact Hoff | reflexivity]).
    destruct enabled; [discriminate Ho|].
    unfold setTelemetryEnabled. cbn [negb andb].
    destruct (appInsights st); cbn [fst isEnabled calls];
      split; try reflexivity.
    apply filter_snoc_out. reflexivity. }
  destruct Hstep as [Hoff' Hsame].
  destruct (IH Hrest _ Hoff') as [Hf He].
  split; [rewrite Hf; exact Hsame | exact He].
Qed.

End WithSdk.

Lemma telemetry_failed_start_witness :
  calls (run Examples.sdk_fails_to_load Examples.two_events
           (initTelemetry Examples.sdk_fails_to_load true (Bridge.Returns "m-1") start))
  = calls (initTelemetry Examples.sdk_fails_to_load true (Bridge.Returns "m-1") start)
  /\ isEnabled (initTelemetry Examples.sdk_fails_to_load true (Bridge.Returns "m-1") start)
     = true.
Proof.
  apply (telemetry_failed_start_sends_nothing_more Examples.sdk_fails_to_load
           (Bridge.Returns "m-1") start Examples.two_events).
  reflexivity.
Defined.

Lemma no_tracking_while_switched_off_witness :
  List.filter is_tracking
    (calls (run Examples.sdk_works (SetEnabled false :: Examples.two_events)
              (fst (setTelemetryEnabled Examples.sdk_works false
                      (initTelemetry Examples.sdk_works true (Bridge.Returns "m-1") start)))))
  = List.filter is_tracking
      (calls (fst (setTelemetryEnabled Examples.sdk_works false
                     (initTelemetry Examples.sdk_works true (Bridge.Returns "m-1") start))))
  /\ isTelemetryEnabled
       (run Examples.sdk_works (SetEnabled false :: Examples.two_events)
          (fst (setTelemetryEnabled Examples.sdk_works false
                  (initTelemetry Examples.sdk_works true (Bridge.Returns "m-1") start))))
     = false.
Proof.
  apply (no_tracking_while_switched_off Examples.sdk_works); reflexivity.
Defined.

End TelemetryFacts.

(** * The list of sessions *)

Module SessionListFacts.
Import Types SessionList.

Lemma insert_recent_perm (s : SavedSession) (l : list SavedSession) :
  insert_recent s l ≡ₚ s :: l.
Proof.
  induction l as [|t l IH]; cbn [insert_recent]; [reflexivity|].
  destruct (lastUpdated t <=? lastUpdated s); [reflexivity|].
  rewrite IH. apply Permutation_swap.
Qed.

Lemma sort_recent_first_perm (l : list SavedSession) :
  sort_recent_first l ≡ₚ l.
Proof.
  induction l as [|s l IH]; [reflexivity|].
  unfold sort_recent_first in *. cbn [foldr].
  rewrite insert_recent_perm. rewrite IH. reflexivity.
Qed.

Lemma insert_recent_sorted (s : SavedSession) (l : list SavedSession) :
  StronglySorted not_older l -> StronglySorted not_older (insert_recent s l).
Proof.
  induction l as [|t l IH]; intros Hs; cbn [insert_recent].
  - constructor; constructor.
  - inversion Hs as [|? ? Hl Ht]; subst.
    destruct (Z.leb_spec (lastUpdated t) (lastUpdated s)) as [Hle | Hgt].
    + constructor; [exact Hs|].
      constructor; [exact Hle|].
      eapply Forall_impl; [exact Ht|].
      intros u Hu. unfold not_older in *. lia.
    + constructor; [apply IH; exact Hl|].
      rewrite insert_recent_perm.
      constructor; [unfold not_older; lia | exact Ht].
Qed.

Lemma sort_recent_first_sorted (l : list SavedSession) :
  StronglySorted not_older (sort_recent_first l).
Proof.
  induction l as [|s l IH]; [constructor|].
  unfold sort_recent_first in *. cbn [foldr].
  apply insert_recent_sorted. exact IH.
Qed.

Lemma insert_recent_same_time (t : Z) (s : SavedSession) (l : list SavedSession) :
  List.filter (fun u => lastUpdated u =? t) (insert_recent s l)
  = List.filter (fun u => lastUpdated u =? t) (s :: l).
Proof.
  induction l as [|u l IH]; cbn [insert_recent]; [reflexivity|].
  destruct (Z.leb_spec (lastUpdated u) (lastUpdated s)) as [Hle | Hgt];
    [reflexivity|].
  cbn [List.filter] in *.
  destruct (Z.eqb_spec (lastUpdated u) t) as [Hu | Hu];
    destruct (Z.eqb_spec (lastUpdated s) t) as [Hs | Hs];
    try lia; rewrite IH; reflexivity.
Qed.

Lemma sort_recent_first_same_time (t : Z) (l : list SavedSession) :
  List.filter (fun u => lastUpdated u =? t) (sort_recent_first l)
  = List.filter (fun u => lastUpdated u =? t) l.
Proof.
  induction l as [|s l IH]; [reflexivity|].
  unfold sort_recent_first in *. cbn [foldr].
  rewrite insert_recent_same_time. cbn [List.filter]. rewrite IH. reflexivity.
Qed.

(** The session list shows exactly the saved sessions whose agent
    supports loading, each as often as it is saved, the most recently
    updated first; sessions updated at the same time keep the order they
    have in the store. *)
Theorem session_list_recent_first (st : Session.store) :
  StronglySorted not_older (sessions st)
  /\ sessions st ≡ₚ resumableSessions st
  /\ (forall s, s ∈ sessions st <->
                s ∈ Session.savedSessions st /\ supportsLoadSession s = Some true)
  /\ (forall t, List.filter (fun u => lastUpdated u =? t) (sessions st)
                = List.filter (fun u => lastUpdated u =? t) (resumableSessions st)).
Proof.
  unfold sessions. split; [|split; [|split]].
  - apply sort_recent_first_sorted.
  - apply sort_recent_first_perm.
  - intros s. rewrite sort_recent_first_perm. unfold resumableSessions.
    rewrite list_elem_of_In, List.filter_In, <- list_elem_of_In.
    rewrite bool_decide_eq_true. reflexivity.
  - intros t. apply sort_recent_first_same_time.
Qed.

End SessionListFacts.

(** * The command palette *)

Module PaletteFacts.
Import Acp Palette.

Lemma includes_append_space (s : string) :
  includes (String.append s " ") " " = true.
Proof.
  induction s as [|c s IH]; [reflexivity|].
  change (String.append (String c s) " ") with (String c (String.append s " ")).
  cbn [includes]. rewrite IH. apply orb_true_r.
Qed.

Lemma prefix_empty (s : string) : String.prefix "" s = true.
Proof. destruct s; reflexivity. Qed.

Lemma prefix_lower (p s : string) :
  String.prefix p s = true -> String.prefix (toLowerCase p) (toLowerCase s) = true.
Proof.
  revert s. induction p as [|c p IH]; intros s H; [destruct s; reflexivity|].
  destruct s as [|d s]; [discriminate H|].
  cbn [String.prefix toLowerCase] in *.
  destruct (ascii_dec c d) as [->|]; [|discriminate H].
  destruct (ascii_dec (lower_char d) (lower_char d)); [|congruence].
  apply IH. exact H.
Qed.



(** Choosing a command in the palette closes it: the text put in the
    input, the command's name after a slash and before a space, never shows
    the palette. *)
Theorem selecting_a_command_closes_the_palette
    (commands : list AvailableCommand) (command : AvailableCommand) :
  showCommandPalette commands (handleCommandSelect command) = false.
Proof.
  unfold showCommandPalette, handleCommandSelect.
  destruct (length commands =? 0)%nat; [reflexivity|].
  destruct (negb (startsWith _ "/")); [reflexivity|].
  change (String.append "/" (String.append (cmd_name command) " "))
    with (String "/" (String.append (cmd_name command) " ")).
  cbn [includes]. rewrite includes_append_space.
  rewrite orb_true_r. reflexivity.
Qed.

Lemma rem_next (i len : Z) :
  0 <= i < len -> Z.rem (i + 1) len = if i + 1 <? len then i + 1 else 0.
Proof.
  intros H. destruct (Z.ltb_spec (i + 1) len) as [Hlt | Hge].
  - apply Z.rem_small. lia.
  - replace (i + 1) with len by lia. apply Z.rem_same. lia.
Qed.

Lemma rem_previous (i len : Z) :
  0 <= i < len -> Z.rem (i - 1 + len) len = if i =? 0 then len - 1 else i - 1.
Proof.
  intros H. destruct (Z.eqb_spec i 0) as [-> | Hne].
  - rewrite Z.rem_small by lia. lia.
  - rewrite Z.rem_mod_nonneg by lia.
    replace (i - 1 + len) with (i - 1 + 1 * len) by lia.
    rewrite Z.mod_add by lia. apply Z.mod_small. lia.
Qed.

(** With commands shown, the arrow keys keep the selection on one of
    them, also from an index past the end of the list; the other keys
    leave it where it is. *)
Theorem palette_selection_stays_on_a_command
    (shown : list AvailableCommand) (event : key) (selectedIndex : Z)
    (Hshown : shown <> [])
    (Hindex : 0 <= selectedIndex) :
  match event with
  | ArrowDown | ArrowUp =>
      0 <= fst (handleKeyDown true shown event selectedIndex) < Z.of_nat (length shown)
  | _ => fst (handleKeyDown true shown event selectedIndex) = selectedIndex
  end.
Proof.
  unfold handleKeyDown.
  destruct shown as [|c shown]; [congruence|].
  cbn [negb orb length Nat.eqb].
  destruct event; cbn [fst]; try reflexivity;
    apply Z.rem_bound_pos; cbn [length]; lia.
Qed.

Lemma palette_selection_stays_on_a_command_witness :
  0 <= fst (handleKeyDown true Examples.three_commands ArrowDown 7)
    < Z.of_nat (length Examples.three_commands).
Proof.
  apply (palette_selection_stays_on_a_command Examples.three_commands ArrowDown 7).
  - discriminate.
  - lia.
Defined.

(** From a selected command, the two arrow keys undo each other and
    wrap around at the ends of the list, and Enter and Tab choose the
    selected command. *)
Theorem palette_arrows_undo_each_other
    (shown : list AvailableCommand) (selectedIndex : Z)
    (Hindex : 0 <= selectedIndex < Z.of_nat (length shown)) :
  let down := fst (handleKeyDown true shown ArrowDown selectedIndex) in
  let up := fst (handleKeyDown true shown ArrowUp selectedIndex) in
  fst (handleKeyDown true shown ArrowUp down) = selectedIndex
  /\ fst (handleKeyDown true shown ArrowDown up) = selectedIndex
  /\ (selectedIndex = Z.of_nat (length shown) - 1 -> down = 0)
  /\ (selectedIndex = 0 -> up = Z.of_nat (length shown) - 1)
  /\ exists command,
       shown !! Z.to_nat selectedIndex = Some command
       /\ snd (handleKeyDown true shown Enter selectedIndex) = Some (select command)
       /\ snd (handleKeyDown true shown Tab selectedIndex) = Some (select command).
Proof.
  unfold handleKeyDown.
  destruct shown as [|c shown]; [cbn [length] in Hindex; lia|].
  set (l := c :: shown) in *.
  assert (Hlen : (length l =? 0)%nat = false) by reflexivity.
  rewrite Hlen. cbn [negb orb fst snd].
  set (len := Z.of_nat (length l)) in *.
  rewrite (rem_next selectedIndex len Hindex).
  rewrite (rem_previous selectedIndex len Hindex).
  repeat split.
  - destruct (Z.ltb_spec (selectedIndex + 1) len).
    + rewrite rem_previous by lia.
      destruct (Z.eqb_spec (selectedIndex + 1) 0); lia.
    + rewrite rem_previous by lia. cbn. lia.
  - destruct (Z.eqb_spec selectedIndex 0).
    + rewrite rem_next by lia.
      destruct (Z.ltb_spec (len - 1 + 1) len); lia.
    + rewrite rem_next by lia.
      destruct (Z.ltb_spec (selectedIndex - 1 + 1) len); lia.
  - intros ->. destruct (Z.ltb_spec (len - 1 + 1) len); lia.
  - intros ->. reflexivity.
  - destruct (lookup_lt_is_Some_2 l (Z.to_nat selectedIndex)) as [command Hc];
      [subst len; lia|].
    exists command. unfold at_index.
    destruct (Z.ltb_spec selectedIndex 0); [lia|].
    rewrite Hc. repeat split.
Qed.

Lemma palette_arrows_undo_each_other_witness :
  let down := fst (handleKeyDown true Examples.three_commands ArrowDown 2) in
  let up := fst (handleKeyDown true Examples.three_commands ArrowUp 2) in
  fst (handleKeyDown true Examples.three_commands ArrowUp down) = 2
  /\ fst (handleKeyDown true Examples.three_commands ArrowDown up) = 2
  /\ (2 = Z.of_nat (length Examples.three_commands) - 1 -> down = 0)
  /\ (2 = 0 -> up = Z.of_nat (length Examples.three_commands) - 1)
  /\ exists command,
       Examples.three_commands !! Z.to_nat 2 = Some command
       /\ snd (handleKeyDown true Examples.three_commands Enter 2) = Some (select command)
       /\ snd (handleKeyDown true Examples.three_commands Tab 2) = Some (select command).
Proof.
  apply (palette_arrows_undo_each_other Examples.three_commands 2).
  cbn. lia.
Defined.

End PaletteFacts.
(** * The authentication dialog dismissed *)

Module AuthDialogFacts.
Import Acp Types Session TaskLogic.

(** The user dismisses the dialog while it is open. *)
Lemma post_choice_dismissed (w : world) (rest : list item)
    (Q : result (option string) -> world -> Prop) :
  script w = happens selection_cancelled :: rest ->
  authMethodResolver (state w) = true ->
  Q (Done None)
    {| state := set_pendingAuthAgentName ""
                  (set_pendingAuthMethods [] (set_authMethodResolver false (state w)));
       script := rest; log := log w |} ->
  post await_choice w Q.
Proof.
  intros Hs Hr H. unfold post, await_choice. rewrite Hs.
  cbn [choose interrupted]. unfold cancelAuthSelection, answer_auth. rewrite Hr.
  exact H.
Qed.

(** When the first [session/new] is rejected with an error classified
    as authentication-required, a method was advertised and the user
    dismisses the dialog, the attempt disconnects the client and throws
    "Authentication cancelled by user" (or what the disconnection throws):
    [authenticate] and a second [session/new] are never sent, the dialog is
    closed, and no session is saved or made current. *)
Theorem dismissed_dialog_ends_the_attempt
    (agentName cwd : string) (e : env) (initResponse : InitializeResponse)
    (methods : list AuthMethod) (w : world) (agent errorMessage : string)
    (disconnected : settlement) (rest : list item) :
  acpClient (state w) = Some agent ->
  connectionAborted (state w) = false ->
  authMethods initResponse = Some methods ->
  methods <> [] ->
  isAuthRequired errorMessage = true ->
  script w =
    settles (rejected errorMessage)
    :: happens selection_cancelled
    :: settles disconnected
    :: rest ->
  let out := after_handshake agentName cwd e initResponse w in
  fst out = Threw match disconnected with
                  | fulfilled _ => "Authentication cancelled by user"
                  | rejected message => message
                  end
  /\ log (snd out) = log w ++ [newSession cwd; disconnect agent]
  /\ pendingAuthMethods (state (snd out)) = []
  /\ authMethodResolver (state (snd out)) = false
  /\ savedSessions (state (snd out)) = savedSessions (state w)
  /\ currentSession (state (snd out)) = currentSession (state w)
  /\ script (snd out) = rest.
Proof.
  intros Hclient Hflag Hmethods Hne Hauth Hscript out. subst out.
  destruct w as [st sc lg]. cbn [state script log] in *. subst sc.
  destruct methods as [| method methods]; [congruence |].
  change (post (after_handshake agentName cwd e initResponse)
            {| state := st;
               script := settles (rejected errorMessage)
                         :: happens selection_cancelled
                         :: settles disconnected :: rest;
               log := lg |}
            (fun r w' =>
               r = Threw match disconnected with
                         | fulfilled _ => "Authentication cancelled by user"
                         | rejected message => message
                         end
               /\ log w' = lg ++ [newSession cwd; disconnect agent]
               /\ pendingAuthMethods (state w') = []
               /\ authMethodResolver (state w') = false
               /\ savedSessions (state w') = savedSessions st
               /\ currentSession (state w') = currentSession st
               /\ script w' = rest)).
  unfold after_handshake.
  apply post_bind. unfold check_aborted. apply post_bind, post_get.
  cbn [state]. rewrite Hflag. apply post_ret.
  apply post_bind. apply post_bind, post_get.
  cbn [state]. rewrite Hflag. apply post_ret.
  apply post_bind. unfold create_or_authenticate. apply post_catch.
  unfold client_newSession at 1. apply post_bind. unfold the_client at 1.
  apply post_bind, post_get. cbn [state]. rewrite Hclient. apply post_ret.
  unfold call_session at 1. apply post_bind. unfold request at 1.
  apply post_bind, post_emit. cbn [state script log].
  eapply post_answer_settled; [reflexivity | discriminate |].
  cbn [state script log].
  rewrite Hauth, Hmethods. cbn [default from_option Datatypes.id length Nat.ltb Nat.leb andb].
  apply post_bind. unfold promptForAuthMethod. apply post_bind, post_modify.
  cbn [state script log].
  eapply post_choice_dismissed; [reflexivity | reflexivity |]. cbn [state script log].
  apply post_bind, post_get. cbn [state truthy].
  apply post_bind. unfold client_disconnect. apply post_bind.
  unfold the_client. apply post_bind, post_get. cbn [state].
  cbn [acpClient set_pendingAuthAgentName set_pendingAuthMethods
       set_authMethodResolver].
  rewrite Hclient. apply post_ret.
  apply post_bind. unfold call. apply post_bind, post_emit.
  cbn [state script log].
  eapply AuthenticationFacts.post_await_now; [reflexivity |]. cbn [state script log].
  destruct disconnected as [v | message].
  - apply post_ret. apply post_throw. cbn [state script log].
    rewrite <- app_assoc. repeat split; reflexivity.
  - cbn [state script log].
    rewrite <- app_assoc. repeat split; reflexivity.
Qed.

Lemma dismissed_dialog_ends_the_attempt_witness :
  fst (after_handshake "agent" "/work" Examples.env_1 Examples.init_1
         {| state := set_acpClient (Some "agent-1") initial;
            script := Examples.dialog_dismissed; log := [initialize] |})
  = Threw "Authentication cancelled by user"
  /\ log (snd (after_handshake "agent" "/work" Examples.env_1 Examples.init_1
                 {| state := set_acpClient (Some "agent-1") initial;
                    script := Examples.dialog_dismissed; log := [initialize] |}))
     = [initialize; newSession "/work"; disconnect "agent-1"].
Proof.
  destruct (dismissed_dialog_ends_the_attempt "agent" "/work" Examples.env_1
              Examples.init_1 [{| am_id := "oauth"; am_name := "OAuth" |}]
              {| state := set_acpClient (Some "agent-1") initial;
                 script := Examples.dialog_dismissed; log := [initialize] |}
              "agent-1" "Authentication required" (fulfilled v_unit) [])
    as (Hthrew & Hlog & _).
  - reflexivity.
  - reflexivity.
  - reflexivity.
  - discriminate.
  - vm_compute. reflexivity.
  - reflexivity.
  - split; [exact Hthrew | exact Hlog].
Defined.

End AuthDialogFacts.
